(* ===== verification/_CoqProject ===== *)
-Q . S2P
Prelude.v
Duration.v
Errors.v
Headers.v
TreeRoute.v
Follower.v
FollowerSpec.v
FollowerProgress.v
Scenario.v
CacheSpec.v
FollowerProps.v
EventTypes.v
Alerts.v
StallReorg.v
P2p.v
Slots.v
SlotsSpec.v
SlotsProps.v
Events.v
EventsProps.v
Storage.v
System.v
Channel.v
Monitors.v
MdFormat.v
MdFormatProps.v
ReorgText.v
Slack.v
SlackProps.v
Cli.v
Main.v
Program.v
FollowerLoop.v
ProgramSpec.v
Schedule.v
ProgramToy.v
LagToy.v
ProgramProps.v
ProgramLive.v
ProgramEnd.v
Startup.v
EndToEnd.v
