(* ===== verification/Prelude.v ===== *)
(** * The alerter of subspace-chain-alerts: a verification development

    The program (alerter/src) watches a Subspace chain and posts alerts to Slack.
    Its tasks run side by side and talk over channels:

    - the chain follower (subspace.rs) subscribes to all blocks of a node, keeps a
      cache of headers, works out for each canonical block the route from the
      previous best block, and broadcasts the enacted blocks, with the retracted
      ones when there was a reorg;
    - the chain monitor (stall_and_reorg.rs) and the event monitor (events.rs)
      receive these broadcasts;
    - the p2p network (p2p_network.rs) forwards the proof-of-time slots it hears of
      to the slot monitor (slots.rs);
    - the Slack alerter (slack.rs) formats (md_format.rs) and posts every alert the
      monitors send; the uptime pusher (uptime.rs) reports that the program lives;
    - main.rs reads the network's details and configuration, starts the tasks, and
      ends with the first of them that ends.

    ** How code is modelled

    This file holds the two monads.  [outcome] is a Rust [Result] with panics and
    with the exhaustion of a loop's fuel as further cases; [M S E] is code that
    works on a state [S] through [&mut] and may return early with an error, keeping
    what it wrote.  A task's [loop] is one turn, a function of what it received,
    driven over a list of received inputs ([drive]); [Ok tt] at the end of the list
    says that the loop is still running.  The futures of a task run one after the
    other; where the code buffers several requests and collects their answers in
    order, they are computed in that order.  Checked arithmetic panics (the release
    profile sets overflow-checks).  Other crates' code is a parameter: a type class
    of operations, and where the code relies on what they promise, a class of laws
    with an instance that shows the laws can hold.

    ** The files

    - [Prelude] (this file), [Duration] (std::time), [Errors] (error.rs).
    - [Headers]: the block data and [HeadersMetadataCache] of subspace.rs, with the
      invariant [cache_ok] and what trimming removes.
    - [TreeRoute]: sp_blockchain's [tree_route] as an interface ([TreeRouteApi],
      [TreeRouteLaws]) with an instance that walks up both branches.
    - [Follower]: the methods of [Subspace] that follow the chain; [FollowerSpec]:
      their contract ([update], [follows]) and the proof that they meet it with an
      honest node ([HonestNode]); [FollowerProgress]: that fetching missing headers
      ends and that the loop delivers; [Scenario]: a small chain with a fork and
      nodes that serve it; [CacheSpec]: the cache against a reference that keeps one
      map and trims it with a filter; [FollowerProps]: the properties.
    - [EventTypes] (event_types.rs), [Alerts] (the alert records and configurations
      of stall_and_reorg.rs, slots.rs, slack.rs and cli.rs).
    - [StallReorg]: [watch_chain_stall_and_reorg], one [watch_turn] per receive or
      time-out; [watch_state] gives its variables and alerts as a function of the
      history, and the loop refines it.
    - [P2p]: [Network] with [handle_event], [add_peer_role] and [run]; roles and
      forwarded slots as a function of the events.
    - [Slots]: [monitor_slots]; [SlotsSpec]: [slot_state], its specification as a
      function of the history; [SlotsProps]: the properties.
    - [Events]: [watch_events]; [EventsProps]: what is reported of a block, which
      transfers count, and that blocks are reported in order and all or nothing.
    - [System]: the follower together with the chain monitor and with the event
      monitor, by composing their contracts.
    - [Channel]: tokio's broadcast channel as an interface ([BroadcastApi],
      [BroadcastLaws], with [Ring] as an instance), the interface of a monitor
      ([Monitor], [MonitorLaws]) and a monitor's task, with what every task that
      receives from a channel has in common; [Monitors]: the three monitors as
      instances of that interface.
    - [MdFormat], [MdFormatProps]: the texts; [ReorgText]: a reader that takes a reorg's
      message apart again; [Slack], [SlackProps]: the secret and
      the posting loop; [Cli]: the options and the configuration; [Storage]: the
      storage reads of a block; [Main]: [network_details], the network's
      configuration, the uptime pusher and the end of the program.
    - [Program]: all tasks side by side, a state and a relation [step];
      [FollowerLoop]: the follower's task is [listen_for_all_blocks];
      [ProgramSpec]: the invariants of the reachable states; [Schedule]: an
      executable scheduler, sound for [step]; [ProgramToy]: a run; [LagToy]: a chain
      without an end and a monitor that lags behind on it;
      [ProgramProps], [ProgramLive], [ProgramEnd]: what is posted, that everything
      can be posted, and why the program ends.
    - [Startup]: [main] up to waiting for its tasks, with [new_from_url] and
      [build_swarm]; [EndToEnd]: from the command line to Slack.

    ** The program as a whole

    A state of [Program] has the variables of every task, the values sent on each
    channel so far (in the sender's state), each receiver as a position in them, the
    alert queue, and what [main] returned.  A step is one turn of one task, any task,
    so the runtime's scheduling is arbitrary; a monitor's sends are steps of their own
    (its turn ends when they are done), so the alerts of several monitors mix in the
    queue in every order; a time-out may come whenever nothing is there to receive,
    since time is not modelled.  What a monitor does between receiving and sending is
    one step: it talks to nobody but its own view of the node meanwhile.  A send on a
    broadcast channel or on the queue does not wait and, since the struct that owns a
    channel also holds a receiver of it, does not fail.

    ** What the theorems show

    The follower's broadcasts are a faithful account of the best chain, whatever
    order blocks arrive in and however deep the reorgs (refinement), each canonical
    block that connects is delivered (progress), and its cache stays consistent and
    is trimmed.  The monitors, which keep a few variables, send exactly the alerts
    their whole history calls for; composed with the follower, reorg alerts are
    exactly the deep reorgs and, while the chain only grows, each block's events are
    reported once.  In the running program nothing is lost, invented or reordered
    between a monitor and Slack, however the tasks interleave; the reorgs, events and
    timekeeper alerts posted are those of the chain and of the network; a reachable state
    in which the tasks concerned run, none lags, and the slots and the queued alerts can
    be handled, can catch up; with valid addresses and slots in range, a monitor ends only
    by lagging, or the event monitor at events it cannot read; and a start-up that
    succeeds hands every task exactly what the command line, the node, the configuration
    and the secret say, and subscribes every monitor before anything is sent.  What is
    posted are the requests made to Slack: a refused one is only logged.  The header cache
    answers as a single map would, and a reorg's message can be read back.  Error paths
    say which errors end a task.  Some theorems state behaviour that looks unintended: a missed slot that
    stops the slot monitor from counting, an average that does not slide, a recovery
    without a stall, errors of the subscription that do not reconnect.

    ** Fuel

    [recursive_tree_route] takes fuel, and [recursive_tree_route_complete] shows that
    one attempt more than there are missing headers is enough.  [remove_header_until]
    gives its loop one turn more than the index has keys, which is proved to be
    enough, so it is total.  [first_canonical] waits for a canonical block and
    [listen_for_all_blocks] for the next connection: they run as long as the node
    does, and their fuel counts received blocks and connections.  [step] has the same
    fuel for each turn of the follower, and only turns that do not exhaust it.

    ** Not modelled

    Logging; the insides of subxt, libp2p, tokio, clap, humantime and Slack's client;
    the durations of time-outs (a time-out is an event); SCALE decoding.  subxt's
    runtime updater may end at any time with any result.  The worlds the tasks call are
    separate, so no theorem relates, say, the follower's node at one moment to the event
    monitor's view of it at another. *)

From stdpp Require Export base tactics option list gmap strings pretty.
From Stdlib Require Export Lia.

Declare Scope alerter_scope.
Delimit Scope alerter_scope with alerter.
Open Scope alerter_scope.

Create HintDb alerter discriminated.

(** ** Results of fallible code

    [Ok] and [Err] are the two sides of a Rust [Result]; [Panic] is a failed
    [expect], [assert_eq!] or checked arithmetic operation, which unwinds the
    task; [Diverge] means the fuel given to a loop ran out before the loop
    ended.  Every theorem about a fuelled loop says which fuel is enough. *)
Inductive outcome (E A : Type) : Type :=
  | Ok (a : A)
  | Err (e : E)
  | Panic (why : string)
  | Diverge.
Arguments Ok {E A} a.
Arguments Err {E A} e.
Arguments Panic {E A} why.
Arguments Diverge {E A}.

(** The ways of not returning a value, as one type. *)
Inductive abort (E : Type) : Type :=
  | Failed (e : E)
  | Panicked (why : string)
  | Diverged.
Arguments Failed {E} e.
Arguments Panicked {E} why.
Arguments Diverged {E}.

Definition is_ok {E A} (o : outcome E A) : bool :=
  match o with Ok _ => true | _ => false end.

#[export] Instance outcome_ret {E} : MRet (outcome E) := @Ok E.
#[export] Instance outcome_bind {E} : MBind (outcome E) := λ A B f o,
  match o with
  | Ok a => f a
  | Err e => Err e
  | Panic w => Panic w
  | Diverge => Diverge
  end.

(** A foreign call's [Result<A, E>]: [inl] is its [Err], [inr] its [Ok]. *)
Definition result (E A : Type) : Type := E + A.

(** Rust's [From]: the conversions the [?] operator applies to errors. *)
Class From (A B : Type) := from : A → B.
#[export] Instance from_refl {A} : From A A | 100 := id.

Definition ok_or {E A} (e : E) (o : option A) : outcome E A :=
  match o with Some a => Ok a | None => Err e end.
Definition expect {E A} (msg : string) (o : option A) : outcome E A :=
  match o with Some a => Ok a | None => Panic msg end.
Definition question {E E' A} `{From E E'} (r : result E A) : outcome E' A :=
  match r with inl e => Err (from e) | inr a => Ok a end.

(** ** The state monad the stateful code is written in

    A statement keeps the state it has built when it fails: a Rust function
    that returns early through [?] keeps what it wrote through [&mut]. *)
Definition M (S E A : Type) : Type := S → outcome E A * S.

#[export] Instance M_ret {S E} : MRet (M S E) := λ A a s, (Ok a, s).
#[export] Instance M_bind {S E} : MBind (M S E) := λ A B f m s,
  match m s with
  | (Ok a, s') => f a s'
  | (Err e, s') => (Err e, s')
  | (Panic w, s') => (Panic w, s')
  | (Diverge, s') => (Diverge, s')
  end.

Section Operations.
Context {S E : Type}.

Definition lift {A} (o : outcome E A) : M S E A := λ s, (o, s).
Definition throw {A} (e : E) : M S E A := lift (Err e).
Definition panic {A} (why : string) : M S E A := lift (Panic why).
Definition diverge {A} : M S E A := lift Diverge.
Definition gets {A} (f : S → A) : M S E A := λ s, (Ok (f s), s).
Definition modify (f : S → S) : M S E () := λ s, (Ok tt, f s).

(** Run [m] and hand its failure to the caller as a value, as in
    [let res = f().await;].  A panic is not caught. *)
Definition catch {A} (m : M S E A) : M S E (outcome E A) := λ s,
  match m s with
  | (Panic w, s') => (Panic w, s')
  | (Diverge, s') => (Diverge, s')
  | (o, s') => (Ok o, s')
  end.

(** Run code that works on a part of the state. *)
Definition zoom {T A} (get : S → T) (set : T → S → S) (m : M T E A) : M S E A :=
  λ s, let '(o, t) := m (get s) in (o, set t s).

(** [loop { let i = receive(); step(i)?; }], run on a finite list of received
    inputs.  [Ok tt] says that the loop consumed them all and still runs. *)
Fixpoint drive {I} (step : I → M S E ()) (inputs : list I) : M S E () :=
  match inputs with
  | [] => mret tt
  | i :: rest => _ ← step i; drive step rest
  end.

(** Statements run in order for each element, results collected: the
    [try_collect] of a stream whose items are computed in order. *)
Fixpoint traverse {A B} (f : A → M S E B) (l : list A) : M S E (list B) :=
  match l with
  | [] => mret []
  | a :: l => b ← f a; bs ← traverse f l; mret (b :: bs)
  end.
End Operations.

(** ** Reasoning about statements

    [wp m Q X s]: run from [s], the statement [m] either returns a value that
    satisfies [Q] with the state it leaves, or stops without one and satisfies
    [X] with the state it leaves. *)
Definition wp {S E A} (m : M S E A) (Q : A → S → Prop) (X : abort E → S → Prop)
    (s : S) : Prop :=
  match m s with
  | (Ok a, s') => Q a s'
  | (Err e, s') => X (Failed e) s'
  | (Panic w, s') => X (Panicked w) s'
  | (Diverge, s') => X Diverged s'
  end.

Section WeakestPreconditions.
Context {S E : Type}.
Implicit Types s : S.

Lemma wp_ret {A} (a : A) (Q : A → S → Prop) (X : abort E → S → Prop) s :
  Q a s → wp (mret a) Q X s.
Proof. done. Qed.

Lemma wp_bind {A B} (m : M S E A) (k : A → M S E B) Q X s :
  wp m (λ a, wp (k a) Q X) X s → wp (m ≫= k) Q X s.
Proof. unfold wp, mbind, M_bind. by destruct (m s) as [[] s']. Qed.

Lemma wp_mono {A} (m : M S E A) (Q Q' : A → S → Prop) (X X' : abort E → S → Prop) s :
  wp m Q X s → (∀ a s', Q a s' → Q' a s') → (∀ b s', X b s' → X' b s') →
  wp m Q' X' s.
Proof. unfold wp. destruct (m s) as [[] s']; eauto. Qed.

Lemma wp_gets {A} (f : S → A) Q (X : abort E → S → Prop) s :
  Q (f s) s → wp (gets f) Q X s.
Proof. done. Qed.

Lemma wp_modify (f : S → S) Q (X : abort E → S → Prop) s :
  Q tt (f s) → wp (modify f) Q X s.
Proof. done. Qed.

Lemma wp_throw {A} (e : E) (Q : A → S → Prop) X s :
  X (Failed e) s → wp (throw e) Q X s.
Proof. done. Qed.

Lemma wp_lift {A} (o : outcome E A) (Q : A → S → Prop) X s :
  (∀ a, o = Ok a → Q a s) →
  (∀ e, o = Err e → X (Failed e) s) →
  (∀ w, o = Panic w → X (Panicked w) s) →
  (o = Diverge → X Diverged s) →
  wp (lift o) Q X s.
Proof. unfold wp, lift. destruct o; auto. Qed.

Lemma wp_ok_or {A} (e : E) (o : option A) (Q : A → S → Prop) X s :
  (∀ a, o = Some a → Q a s) → (o = None → X (Failed e) s) →
  wp (lift (ok_or e o)) Q X s.
Proof. unfold wp, lift, ok_or. destruct o; auto. Qed.

Lemma wp_question {A E'} `{From E' E} (r : result E' A) (Q : A → S → Prop) X s :
  (∀ a, r = inr a → Q a s) → (∀ e, r = inl e → X (Failed (from e)) s) →
  wp (lift (question r)) Q X s.
Proof. unfold wp, lift, question. destruct r; auto. Qed.

Lemma wp_zoom {T A} (get : S → T) set (m : M T E A) (Q : A → S → Prop) X s :
  wp m (λ a t, Q a (set t s)) (λ b t, X b (set t s)) (get s) →
  wp (zoom get set m) Q X s.
Proof. unfold wp, zoom. by destruct (m (get s)) as [[] t]. Qed.

Lemma wp_catch {A} (m : M S E A) (Q : outcome E A → S → Prop) X s :
  wp m (λ a, Q (Ok a))
    (λ b s', match b with Failed e => Q (Err e) s' | _ => X b s' end) s →
  wp (catch m) Q X s.
Proof. unfold wp, catch. by destruct (m s) as [[] s']. Qed.

(** A property every step keeps, however it ends, is kept by the loop. *)
Lemma wp_drive {I} (step : I → M S E ()) (Inv : S → Prop) (X : abort E → S → Prop) :
  (∀ i s, Inv s → wp (step i) (λ _, Inv) X s) →
  ∀ inputs s, Inv s → wp (drive step inputs) (λ _, Inv) X s.
Proof.
  intros Hstep inputs. induction inputs as [|i rest IH]; intros s Hs; [done|].
  apply wp_bind. eapply wp_mono; eauto.
Qed.

(** The same for inputs that each satisfy what the sender promises. *)
Lemma wp_drive_inputs {I} (step : I → M S E ()) (P : I → Prop) (Inv : S → Prop)
    (X : abort E → S → Prop) :
  (∀ i s, P i → Inv s → wp (step i) (λ _, Inv) X s) →
  ∀ inputs s, Forall P inputs → Inv s → wp (drive step inputs) (λ _, Inv) X s.
Proof.
  intros Hstep inputs. induction inputs as [|i rest IH]; intros s HP Hs; [done|].
  inversion_clear HP. apply wp_bind. eapply wp_mono; eauto.
Qed.

Lemma wp_traverse {A B} (f : A → M S E B) (R : list A → list B → S → Prop)
    (X : abort E → S → Prop) l s :
  R [] [] s →
  (∀ done_ a bs s, done_ ++ [a] `prefix_of` l → R done_ bs s →
     wp (f a) (λ b s', R (done_ ++ [a]) (bs ++ [b]) s') X s) →
  wp (traverse f l) (λ bs s', R l bs s') X s.
Proof.
  intros H0 Hstep.
  enough (∀ rest done_ bs s, l = done_ ++ rest → R done_ bs s →
    wp (traverse f rest) (λ bs' s', R l (bs ++ bs') s') X s) as Hall
    by (by apply (Hall l [] [])).
  clear s H0. induction rest as [|a rest IH]; intros done_ bs s -> HR; cbn.
  - by rewrite !app_nil_r in *.
  - apply wp_bind. eapply wp_mono; [apply Hstep; [|done]| |done].
    { exists rest. by rewrite <-app_assoc. }
    cbn. intros b s' HR'. apply wp_bind.
    eapply wp_mono; [eapply (IH (done_ ++ [a])); [by rewrite <-app_assoc|done]| |done].
    cbn. intros bs' s'' HR''. by rewrite <-app_assoc in HR''.
Qed.

Lemma bind_ok {A B} (m : M S E A) (k : A → M S E B) s a s' :
  m s = (Ok a, s') → (m ≫= k) s = k a s'.
Proof. unfold mbind, M_bind. by intros ->. Qed.

Lemma wp_run {A} (m : M S E A) Q (X : abort E → S → Prop) s a s' :
  wp m Q X s → m s = (Ok a, s') → Q a s'.
Proof. unfold wp. by intros Hwp Hrun; rewrite Hrun in Hwp. Qed.

Lemma drive_app {I} (step : I → M S E ()) (l1 l2 : list I) s :
  drive step (l1 ++ l2) s = (drive step l1 ≫= λ _, drive step l2) s.
Proof.
  revert s. induction l1 as [|i l1 IH]; intros s; [done|].
  cbn. unfold mbind, M_bind. by destruct (step i s) as [[] s'].
Qed.

Lemma drive_cons {I} (step : I → M S E ()) i l s s' :
  step i s = (Ok tt, s') → drive step (i :: l) s = drive step l s'.
Proof. cbn. unfold mbind, M_bind. by intros ->. Qed.

Lemma drive_snoc_ok {I} (step : I → M S E ()) l i s s' :
  drive step l s = (Ok tt, s') → drive step (l ++ [i]) s = step i s'.
Proof.
  intros H. rewrite drive_app. unfold mbind, M_bind. rewrite H. cbn.
  unfold mbind, M_bind. by destruct (step i s') as [[[]| | |] ?].
Qed.
End WeakestPreconditions.

(** Discharge the monadic plumbing of a [wp] goal, one statement at a time. *)
Ltac wp_step :=
  lazymatch goal with
  | |- wp (mbind _ _) _ _ _ => apply wp_bind
  | |- wp (mret _) _ _ _ => apply wp_ret
  | |- wp (gets _) _ _ _ => apply wp_gets
  | |- wp (modify _) _ _ _ => apply wp_modify
  | |- wp (throw _) _ _ _ => apply wp_throw
  | |- wp (zoom _ _ _) _ _ _ => apply wp_zoom
  | |- wp (catch _) _ _ _ => apply wp_catch
  | |- wp (lift (ok_or _ _)) _ _ _ => apply wp_ok_or
  | |- wp (lift (question _)) _ _ _ => apply wp_question
  end; cbn beta.
Ltac wp_steps := repeat wp_step.

(** Statements that run: the equations [m s = (Ok a, s')] of the code's calls, with
    which [m_step] executes the first statement of a goal.  A file adds the equations
    of its own calls to [alerter_run]. *)
Create HintDb alerter_run discriminated.

Lemma gets_run {S E A} (f : S → A) (s : S) : gets (E:=E) f s = (Ok (f s), s).
Proof. done. Qed.
Lemma modify_run {S E} (f : S → S) (s : S) : modify (E:=E) f s = (Ok tt, f s).
Proof. done. Qed.
Lemma ret_run {S E A} (a : A) (s : S) : (mret a : M S E A) s = (Ok a, s).
Proof. done. Qed.
Lemma lift_run {S E A} (o : outcome E A) a (s : S) : o = Ok a → lift o s = (Ok a, s).
Proof. by intros ->. Qed.
Lemma question_run {S E E' A} `{From E' E} (r : result E' A) a (s : S) :
  r = inr a → lift (question r) s = (Ok a, s).
Proof. by intros ->. Qed.

#[export] Hint Resolve gets_run modify_run ret_run : alerter_run.
#[export] Hint Resolve lift_run question_run | 2 : alerter_run.

Ltac m_step := erewrite bind_ok by (eauto 3 with alerter_run); cbn beta.

(** Two results of one call are equal. *)
Ltac simplify_ok :=
  repeat match goal with
  | H1 : ?x = Ok _, H2 : ?x = ?y |- _ =>
      lazymatch y with Ok _ => idtac | Err _ => idtac end;
      rewrite H1 in H2; simplify_eq
  end; simplify_eq.

(** ** Lists *)
Section Lists.
Context {A : Type}.

Lemma last_cons_ne (x : A) l : l ≠ [] → last (x :: l) = last l.
Proof. by destruct l. Qed.

Lemma elem_of_rev (x : A) l : x ∈ rev l ↔ x ∈ l.
Proof. rewrite !list_elem_of_In. symmetry. apply in_rev. Qed.

Lemma elem_of_fmap_rev {B} (f : A → B) l y : y ∈ f <$> rev l ↔ y ∈ f <$> l.
Proof. rewrite !list_elem_of_fmap. by setoid_rewrite elem_of_rev. Qed.

Lemma last_Some_ne (l : list A) : l ≠ [] → ∃ x, last l = Some x.
Proof. intros H. apply not_eq_None_Some. by rewrite last_None. Qed.

Lemma rev_replicate k (x : A) : rev (replicate k x) = replicate k x.
Proof.
  induction k as [|k IH]; [done|]. cbn. rewrite IH. symmetry. apply replicate_cons_app.
Qed.

Lemma Forall_app_1 (P : A → Prop) l1 l2 : Forall P (l1 ++ l2) → Forall P l1.
Proof. by intros [? _]%Forall_app. Qed.
End Lists.
