(* ===== verification/Duration.v ===== *)
(** * std::time::Duration and std::time::Instant

    A [Duration] is a [u64] of seconds and a [u32] of nanoseconds below 10^9.
    It is modelled by the whole number of nanoseconds it holds; the largest is
    [MAX].  The operations below are the ones the monitors use, with the
    overflow behaviour the standard library documents. *)

From S2P Require Import Prelude.

Local Open Scope N_scope.

Definition u32_max : N := 2 ^ 32 - 1.
Definition u64_max : N := 2 ^ 64 - 1.
Definition nanos_per_sec : N := 10 ^ 9.

Definition Duration : Type := N.
Definition Instant : Type := N.

Module Duration.
Definition MAX : Duration := u64_max * nanos_per_sec + (nanos_per_sec - 1).
Definition from_secs (s : N) : Duration := s * nanos_per_sec.
Definition secs (d : Duration) : N := d `div` nanos_per_sec.
Definition subsec_nanos (d : Duration) : N := d `mod` nanos_per_sec.
Definition as_millis (d : Duration) : N := d `div` 1000000.

(** [Duration + Duration]: panics past [MAX]. *)
Definition add {E} (a b : Duration) : outcome E Duration :=
  if (a + b <=? MAX) then Ok (a + b) else Panic "overflow when adding durations".
Definition saturating_add (a b : Duration) : Duration := N.min (a + b) MAX.
Definition gt (a b : Duration) : bool := (b <? a)%N.

(** [Duration / u32], on the two fields as the standard library computes it;
    a zero divisor panics. *)
Definition div {E} (d : Duration) (k : N) : outcome E Duration :=
  if (k =? 0) then Panic "divide by zero error when dividing duration by scalar"
  else
    let s := secs d `div` k in
    let extra_secs := secs d `mod` k in
    let n := subsec_nanos d `div` k in
    let extra_nanos := subsec_nanos d `mod` k in
    let extra := (extra_secs * nanos_per_sec + extra_nanos) `div` k in
    Ok (s * nanos_per_sec + (n + extra)).
End Duration.

(** [Instant::duration_since] saturates at zero when the instants are reversed. *)
Definition duration_since (now earlier : Instant) : Duration := now - earlier.

Lemma duration_div_floor {E} (d : Duration) (k : N) :
  k ≠ 0%N → Duration.div (E:=E) d k = Ok (d `div` k).
Proof.
  intros Hk. unfold Duration.div. destruct (N.eqb_spec k 0) as [|_]; [done|]. f_equal.
  set (s := Duration.secs d). set (n := Duration.subsec_nanos d).
  assert (d = s * nanos_per_sec + n)%N as Hd.
  { unfold s, n, Duration.secs, Duration.subsec_nanos.
    pose proof (N.div_mod' d nanos_per_sec). lia. }
  pose proof (N.div_mod' s k) as Hs. pose proof (N.div_mod' n k) as Hn.
  rewrite Hd at 1.
  replace (s * nanos_per_sec + n)%N with
    ((s `mod` k * nanos_per_sec + n `mod` k) + (s `div` k * nanos_per_sec + n `div` k) * k)%N
    by nia.
  rewrite N.div_add by done. lia.
Qed.

(** [n] times [d], with the saturation of [n] calls of [saturating_add]. *)
Definition duration_times (n : nat) (d : Duration) : Duration :=
  N.min (N.of_nat n * d) Duration.MAX.

Lemma duration_times_1 (d : Duration) :
  (d <= Duration.MAX)%N → duration_times 1 d = d.
Proof. unfold duration_times. lia. Qed.

Lemma duration_times_S (n : nat) (d : Duration) :
  Duration.saturating_add (duration_times n d) d = duration_times (S n) d.
Proof. unfold duration_times, Duration.saturating_add. lia. Qed.
