(* ===== verification/Errors.v ===== *)
(** * The overarching error type (alerter/src/error.rs)

    The payloads are error types of other crates: they are parameters of the
    model, and nothing here looks inside them. *)

From S2P Require Import Prelude.

(** A block hash is the 256-bit value of its 32 bytes. *)
Definition BlockHash : Type := N.

(** tokio's [broadcast::error::RecvError], whose two cases are documented. *)
Inductive RecvError : Type :=
  | Closed
  | Lagged (skipped : N).

Class ErrorPayloads : Type := {
  subxt_Error : Type;
  JoinError : Type;
  reqwest_Error : Type;
  subxt_rpcs_Error : Type;
  codec_Error : Type;
  io_Error : Type;
  toml_Error : Type;
  SlackClientError : Type;
}.

Inductive Error `{!ErrorPayloads} : Type :=
  | Subxt (err : subxt_Error)
  | Join (err : JoinError)
  | Reqwest (err : reqwest_Error)
  | MissingBlock
  | Rpc (err : subxt_rpcs_Error)
  | MissingBlockHashFromCache (hash : BlockHash)
  | MissingBlockBody (hash : BlockHash)
  | Storage (what : string)
  | Scale (err : codec_Error)
  | BroadRecvErr (err : RecvError)
  | Io (err : io_Error)
  | Toml (err : toml_Error)
  | Config (what : string)
  | Slack (err : SlackClientError)
  | App (what : string).

(** The [impl From<..> for Error] blocks: what [?] does to a foreign error. *)
Section Conversions.
Context `{!ErrorPayloads}.

#[global] Instance From_subxt : From subxt_Error Error := Subxt.
#[global] Instance From_join : From JoinError Error := Join.
#[global] Instance From_reqwest : From reqwest_Error Error := Reqwest.
#[global] Instance From_rpc : From subxt_rpcs_Error Error := Rpc.
#[global] Instance From_codec : From codec_Error Error := Scale.
#[global] Instance From_recv : From RecvError Error := BroadRecvErr.
#[global] Instance From_io : From io_Error Error := Io.
#[global] Instance From_toml : From toml_Error Error := Toml.
#[global] Instance From_slack : From SlackClientError Error := Slack.
End Conversions.
