(* ===== verification/Headers.v ===== *)
(** * Blocks and the header cache (alerter/src/subspace.rs)

    The data of the chain follower and [HeadersMetadataCache]: the headers seen
    so far by hash, and the hashes by block number, with the loop that drops old
    headers. *)

From S2P Require Import Prelude Errors.

Local Open Scope N_scope.

(** ** Data *)

(** [u32] block numbers, [u64] slots and timestamps, [u128] balances, and the
    32 bytes of an account id as their value. *)
Definition BlockNumber : Type := N.
Definition Slot : Type := N.
Definition Timestamp : Type := N.
Definition Balance : Type := N.
Definition AccountId : Type := N.

Definition saturating_sub (a b : N) : N := a - b.

(** sp_blockchain's [HashAndNumber]. *)
Record HashAndNumber : Type := { hn_number : BlockNumber; hn_hash : BlockHash }.

#[export] Instance HashAndNumber_eq : EqDecision HashAndNumber.
Proof. solve_decision. Defined.

(** A header, with the digest type of the crate it comes from: subxt's header
    as the node sends it, and sp_runtime's as the cache keeps it. *)
Record HeaderOf (D : Type) : Type := {
  parent_hash : BlockHash;
  number : BlockNumber;
  state_root : BlockHash;
  extrinsics_root : BlockHash;
  digest : D;
}.
Arguments parent_hash {D} _.
Arguments number {D} _.
Arguments state_root {D} _.
Arguments extrinsics_root {D} _.
Arguments digest {D} _.

(** The SCALE codec of the digest and the BlakeTwo256 hash of a header belong to
    the Substrate crates. *)
Class Substrate : Type := {
  SubxtDigest : Type;
  Digest : Type;
  digest_encode : SubxtDigest → list Byte.byte;
  digest_decode : list Byte.byte → option Digest;
  header_hash : HeaderOf Digest → BlockHash;
}.

Abbreviation SubstrateHeader := (HeaderOf SubxtDigest).
Abbreviation Header := (HeaderOf Digest).

(** The public fields of sp_blockchain's [CachedHeaderMetadata]. *)
Record CachedHeaderMetadata : Type := {
  chm_hash : BlockHash;
  chm_number : BlockNumber;
  chm_parent : BlockHash;
  chm_state_root : BlockHash;
}.

Record BlockExt : Type := {
  be_number : BlockNumber;
  be_hash : BlockHash;
  be_parent_hash : BlockHash;
  be_state_root : BlockHash;
  be_extrinsics_root : BlockHash;
}.

Record ReorgData : Type := {
  rd_enacted : list HashAndNumber;
  rd_retracted : list HashAndNumber;
  rd_common_block : HashAndNumber;
}.

Record BlocksExt : Type := {
  blocks : list BlockExt;
  maybe_reorg_data : option ReorgData;
}.

(** Block [b] as the pair the alerts carry. *)
Definition hash_and_number (b : BlockExt) : HashAndNumber :=
  {| hn_number := be_number b; hn_hash := be_hash b |}.

Definition CACHE_HEADER_DEPTH : N := 100.

(** ** The cache *)
Record HeadersMetadataCache `{Substrate} : Type := {
  block_header_data : gmap BlockHash Header;
  block_number_hashes : gmap BlockNumber (gset BlockHash);
}.

Definition empty_cache `{Substrate} : HeadersMetadataCache :=
  {| block_header_data := ∅; block_number_hashes := ∅ |}.

Section Cache.
Context `{!ErrorPayloads} `{!Substrate}.

(** The header sp_runtime's types make of a subxt header: the digest is encoded
    and decoded again. *)
Definition convert_header (header : SubstrateHeader) : option Header :=
  decoded_digest ← digest_decode (digest_encode (digest header));
  mret {| parent_hash := parent_hash header; number := number header;
          state_root := state_root header; extrinsics_root := extrinsics_root header;
          digest := decoded_digest |}.

(** [self.block_header_data.insert(hash, header)] and
    [self.block_number_hashes.entry(number).or_default().insert(hash)]. *)
Definition insert_header (header : Header) (c : HeadersMetadataCache)
    : HeadersMetadataCache :=
  let hash := header_hash header in
  let number := number header in
  {| block_header_data := <[hash := header]> (block_header_data c);
     block_number_hashes :=
       <[number := {[hash]} ∪ default ∅ (block_number_hashes c !! number)]>
         (block_number_hashes c) |}.

Definition add_header (header : SubstrateHeader) : M HeadersMetadataCache Error BlockHash :=
  header ← lift (expect "Digest is always valid" (convert_header header));
  _ ← modify (insert_header header);
  mret (header_hash header).

(** One turn of the [while let] loop: the hashes of one number are taken out of
    the index and their headers out of the data. *)
Definition remove_number (to_remove : BlockNumber) (hashes : gset BlockHash)
    (c : HeadersMetadataCache) : HeadersMetadataCache :=
  {| block_header_data :=
       foldl (λ data hash, delete hash data) (block_header_data c) (elements hashes);
     block_number_hashes := delete to_remove (block_number_hashes c) |}.

Fixpoint remove_from (fuel : nat) (to_remove : BlockNumber) (c : HeadersMetadataCache)
    : option HeadersMetadataCache :=
  match fuel with
  | O => None
  | S fuel =>
      match block_number_hashes c !! to_remove with
      | None => Some c
      | Some hashes =>
          remove_from fuel (saturating_sub to_remove 1) (remove_number to_remove hashes c)
      end
  end.

(** Each turn takes one key out of the index, so one more turn than it has keys
    is always enough ([remove_from_total]). *)
Definition remove_header_until (number : BlockNumber) (c : HeadersMetadataCache)
    : HeadersMetadataCache :=
  default c (remove_from (S (size (block_number_hashes c))) number c).

Definition get_header (c : HeadersMetadataCache) (hash : BlockHash) : outcome Error Header :=
  ok_or (MissingBlockHashFromCache hash) (block_header_data c !! hash).

(** [CachedHeaderMetadata::from(&header)]. *)
Definition cached_of_header (header : Header) : CachedHeaderMetadata :=
  {| chm_hash := header_hash header; chm_number := number header;
     chm_parent := parent_hash header; chm_state_root := state_root header |}.

(** [impl HeaderMetadata for HeadersMetadataCache]. *)
Definition header_metadata (c : HeadersMetadataCache) (hash : BlockHash)
    : outcome Error CachedHeaderMetadata :=
  ok_or (MissingBlockHashFromCache hash)
    (cached_of_header <$> block_header_data c !! hash).
Definition insert_header_metadata (c : HeadersMetadataCache) (_ : BlockHash)
    (_ : CachedHeaderMetadata) : HeadersMetadataCache := c.
Definition remove_header_metadata (c : HeadersMetadataCache) (_ : BlockHash)
    : HeadersMetadataCache := c.
End Cache.

(** ** The block tree

    What consensus guarantees of the headers of one chain: a hash names one
    header, and a block is numbered one above its parent.  [in_tree] is the set
    of headers the node can send. *)
Class BlockTree `{!Substrate} (in_tree : Header → Prop) : Prop := {
  tree_hash_inj (a b : Header) :
    in_tree a → in_tree b → header_hash a = header_hash b → a = b;
  tree_number (a b : Header) :
    in_tree a → in_tree b → parent_hash a = header_hash b → number a = number b + 1;
}.

(** ** Invariant of the cache *)
Section Invariant.
Context `{!ErrorPayloads} `{!Substrate} (in_tree : Header → Prop).
Implicit Types (c : HeadersMetadataCache) (h : BlockHash) (hd : Header).

Definition hashes_at c (n : BlockNumber) : gset BlockHash :=
  default ∅ (block_number_hashes c !! n).

(** The two maps agree: the data is keyed by header hash and holds headers of
    the chain, the index lists under a number exactly the cached headers with
    that number, and it keeps no empty entry. *)
Record cache_ok c : Prop := {
  ok_hash h hd : block_header_data c !! h = Some hd → header_hash hd = h;
  ok_tree h hd : block_header_data c !! h = Some hd → in_tree hd;
  ok_index n h :
    h ∈ hashes_at c n ↔ ∃ hd, block_header_data c !! h = Some hd ∧ number hd = n;
  ok_nonempty n : block_number_hashes c !! n ≠ Some ∅;
}.

(** The numbers from [lo] to [hi] are gone from [c'] and the rest of [c] is kept. *)
Definition removed_range (lo hi : BlockNumber) c c' : Prop :=
  (∀ n, block_number_hashes c' !! n =
     if decide (lo ≤ n ∧ n ≤ hi) then None else block_number_hashes c !! n) ∧
  (∀ h, block_header_data c' !! h =
     match block_header_data c !! h with
     | Some hd => if decide (lo ≤ number hd ∧ number hd ≤ hi) then None else Some hd
     | None => None
     end).

Lemma cache_ok_empty : cache_ok empty_cache.
Proof.
  split; unfold hashes_at; cbn; intros *; rewrite ?lookup_empty; try done.
  split; [set_solver|]. intros (hd & Hhd & _). done.
Qed.

Lemma foldl_delete_lookup (data : gmap BlockHash Header) (l : list BlockHash) h :
  foldl (λ data hash, delete hash data) data l !! h =
    if decide (h ∈ l) then None else data !! h.
Proof.
  revert data. induction l as [|x l IH]; intros data; cbn; [done|].
  rewrite IH, lookup_delete. repeat case_decide; set_solver.
Qed.

Lemma insert_header_ok `{!BlockTree in_tree} c hd :
  cache_ok c → in_tree hd → cache_ok (insert_header hd c).
Proof.
  intros [Hh Ht Hi Hn] Hin. split.
  - cbn. intros h hd' [[<- <-]|[_ ?]]%lookup_insert_Some; eauto.
  - cbn. intros h hd' [[<- <-]|[_ ?]]%lookup_insert_Some; eauto.
  - intros n h. unfold hashes_at in *; cbn. specialize (Hi n h).
    rewrite !lookup_insert. repeat case_decide; subst; cbn.
    + split; [|set_solver]. intros _. by exists hd.
    + rewrite elem_of_union, elem_of_singleton, Hi. naive_solver.
    + rewrite Hi. split; [|naive_solver].
      intros (hd' & Hhd' & <-). exfalso.
      pose proof (Hh _ _ Hhd') as Heq. apply Ht in Hhd'.
      by apply tree_hash_inj in Heq as ->.
    + done.
  - intros n. cbn. rewrite lookup_insert. case_decide; [|apply Hn].
    intros [=Hempty]. set_solver.
Qed.

Lemma remove_number_range c n hashes :
  cache_ok c → block_number_hashes c !! n = Some hashes →
  removed_range n n c (remove_number n hashes c).
Proof.
  intros Hc Hhashes. split; cbn.
  - intros k. rewrite lookup_delete. repeat case_decide; (done || lia).
  - intros h. rewrite foldl_delete_lookup.
    pose proof (ok_index _ Hc n h) as Hi. unfold hashes_at in Hi.
    rewrite Hhashes in Hi. cbn in Hi. rewrite <-elem_of_elements in Hi.
    destruct (block_header_data c !! h) as [hd|] eqn:Hhd; cbn.
    + destruct (decide (number hd = n)) as [Heq|Hne].
      * rewrite !decide_True by (lia || (apply Hi; by exists hd)). done.
      * rewrite !decide_False; [done|lia|]. intros (hd' & [= ->] & ?)%Hi. done.
    + by case_decide.
Qed.

Lemma removed_range_ok lo hi c c' :
  cache_ok c → removed_range lo hi c c' → cache_ok c'.
Proof.
  intros [Hh Ht Hi Hn] [Hidx Hdata].
  assert (∀ h hd, block_header_data c' !! h = Some hd ↔
    block_header_data c !! h = Some hd ∧ ¬ (lo ≤ number hd ∧ number hd ≤ hi)) as Hd.
  { intros h hd. rewrite Hdata.
    destruct (block_header_data c !! h) as [hd'|]; cbn; [|naive_solver].
    case_decide; naive_solver. }
  split.
  - intros h hd [? _]%Hd; eauto.
  - intros h hd [? _]%Hd; eauto.
  - intros n h. unfold hashes_at in *. rewrite Hidx. specialize (Hi n h).
    setoid_rewrite Hd. case_decide; cbn; [|rewrite Hi].
    + split; [set_solver|]. intros (hd & (_ & ?) & <-). done.
    + split; intros (hd & Hhd & <-); exists hd; [done|]. by destruct Hhd.
  - intros n. rewrite Hidx. case_decide; [done|apply Hn].
Qed.

(** [lo..=hi] is the run of consecutively indexed numbers that ends at [hi]. *)
Definition maximal_run c (lo hi : BlockNumber) : Prop :=
  lo ≤ hi + 1 ∧
  (∀ k, lo ≤ k → k ≤ hi → is_Some (block_number_hashes c !! k)) ∧
  (lo = 0 ∨ block_number_hashes c !! (lo - 1) = None).

Lemma remove_from_spec fuel n c c' :
  cache_ok c → remove_from fuel n c = Some c' →
  ∃ lo, maximal_run c lo n ∧ removed_range lo n c c'.
Proof.
  revert n c. induction fuel as [|fuel IH]; intros n c Hc; cbn; [done|].
  destruct (block_number_hashes c !! n) as [hashes|] eqn:Hn.
  2: { intros [= <-]. exists (n + 1). split; [split_and!; [lia|lia|right]|split].
       - by replace (n + 1 - 1) with n by lia.
       - intros k. case_decide; [lia|done].
       - intros h. destruct (_ !! h) as [hd|]; cbn; [|done]. case_decide; [lia|done]. }
  intros Hrec. set (c1 := remove_number n hashes c) in *.
  pose proof (remove_number_range c n hashes Hc Hn) as Hr1. fold c1 in Hr1.
  pose proof (removed_range_ok _ _ _ _ Hc Hr1) as Hc1.
  destruct (IH _ _ Hc1 Hrec) as (lo & (Hlo & Hrun & Hend) & Hidx & Hdata).
  destruct Hr1 as [Hidx1 Hdata1]. unfold saturating_sub in *.
  assert (∃ lo', lo' ≤ n ∧ (lo' = lo ∧ n ≠ 0 ∨ lo' = 0 ∧ n = 0 ∧ lo = 1)) as (lo' & Hlo' & Hcase).
  { destruct (decide (n = 0)) as [->|?]; [exists 0|exists lo; lia].
    destruct (decide (lo = 0)) as [->|?]; [|lia].
    destruct (Hrun 0) as [x Hx]; [lia..|]. rewrite Hidx1 in Hx. by case_decide; [|lia]. }
  exists lo'. split; [split_and!; [lia| |]|split].
  - intros k Hk Hkn. destruct (decide (k = n)) as [->|?]; [by eexists|].
    destruct (Hrun k) as [x Hx]; [lia..|]. rewrite Hidx1 in Hx. case_decide; [lia|by eexists].
  - destruct Hcase as [[-> ?]|[-> _]]; [|by left]. destruct Hend as [?|Hend]; [by left|right].
    rewrite Hidx1 in Hend. case_decide; [lia|done].
  - intros k. rewrite Hidx, Hidx1. repeat case_decide; (done || lia).
  - intros h. rewrite Hdata, Hdata1. destruct (_ !! h) as [hd|]; cbn; [|done].
    repeat (case_decide; cbn); (done || lia).
Qed.

Lemma remove_from_total fuel n c :
  (size (block_number_hashes c) < fuel)%nat → is_Some (remove_from fuel n c).
Proof.
  revert n c. induction fuel as [|fuel IH]; intros n c Hlt; cbn; [lia|].
  destruct (block_number_hashes c !! n) as [hashes|] eqn:Hn; [|by eexists].
  apply IH. cbn. rewrite map_size_delete_Some by (by eexists).
  assert (size (block_number_hashes c) ≠ 0)%nat; [|lia].
  intros Hz%map_size_empty_inv. rewrite Hz in Hn. by rewrite lookup_empty in Hn.
Qed.

Lemma remove_header_until_run n c :
  cache_ok c →
  ∃ lo, maximal_run c lo n ∧ removed_range lo n c (remove_header_until n c).
Proof.
  intros Hc. destruct (remove_from_total (S (size (block_number_hashes c))) n c) as [c' Hc'];
    [lia|]. unfold remove_header_until. rewrite Hc'. cbn. by eapply remove_from_spec.
Qed.

Lemma remove_header_until_ok n c : cache_ok c → cache_ok (remove_header_until n c).
Proof.
  intros Hc. destruct (remove_header_until_run n c Hc) as (lo & _ & Hr).
  by eapply removed_range_ok.
Qed.

Lemma remove_header_until_keeps n c h hd :
  cache_ok c → block_header_data c !! h = Some hd → n < number hd →
  block_header_data (remove_header_until n c) !! h = Some hd.
Proof.
  intros Hc Hhd Hn. destruct (remove_header_until_run n c Hc) as (lo & _ & _ & Hdata).
  rewrite Hdata, Hhd. cbn. case_decide; [lia|done].
Qed.

Lemma remove_header_until_clears n c :
  cache_ok c → block_number_hashes (remove_header_until n c) !! n = None.
Proof.
  intros Hc. destruct (remove_header_until_run n c Hc) as (lo & (Hlo & _ & Hend) & Hidx & _).
  rewrite Hidx. case_decide as Hdec; [done|]. assert (lo = n + 1) as -> by lia.
  destruct Hend as [?|Hend]; [lia|]. by replace (n + 1 - 1) with n in Hend by lia.
Qed.
End Invariant.

(** A header whose digest decodes is added and its hash returned. *)
Lemma add_header_run `{!ErrorPayloads} `{!Substrate} sh hd c :
  convert_header sh = Some hd → add_header sh c = (Ok (header_hash hd), insert_header hd c).
Proof. intros Hconv. unfold add_header, mbind, M_bind, lift. by rewrite Hconv. Qed.

#[export] Hint Resolve cache_ok_empty insert_header_ok remove_header_until_ok : alerter.
