(* ===== verification/TreeRoute.v ===== *)
(** * The tree route between two blocks

    [sp_blockchain::tree_route] belongs to the Substrate crates; what the chain
    follower relies on is the interface below.  [tree_route md from to] reads
    headers through [md] and returns the blocks to retract, from [from] back
    towards the common ancestor, that ancestor, and the blocks to enact, from
    the ancestor's child up to [to].

    [Walk] gives an implementation of the interface, which shows that its laws
    can be met and lets the witnesses compute. *)

From S2P Require Import Prelude Errors Headers.

Local Open Scope N_scope.

Record TreeRoute : Type := {
  retracted : list HashAndNumber;
  common_block : HashAndNumber;
  enacted : list HashAndNumber;
}.

Definition hn_of (m : CachedHeaderMetadata) : HashAndNumber :=
  {| hn_number := chm_number m; hn_hash := chm_hash m |}.

(** The blocks of a route, oldest branch first: every header it was read from. *)
Definition route_hashes (r : TreeRoute) : list BlockHash :=
  hn_hash <$> retracted r ++ common_block r :: enacted r.

Class TreeRouteApi `{!ErrorPayloads} : Type :=
  tree_route : (BlockHash → outcome Error CachedHeaderMetadata) →
    BlockHash → BlockHash → outcome Error TreeRoute.

Section Ancestry.
Context `{!ErrorPayloads}.
Implicit Types md : BlockHash → outcome Error CachedHeaderMetadata.

(** What the reader of headers guarantees: the metadata is that of the hash
    asked for, a block is numbered one above its parent, and a header that is
    not there is reported by an error. *)
Record lookup_ok md : Prop := {
  lk_hash h m : md h = Ok m → chm_hash m = h;
  lk_number h m p : md h = Ok m → md (chm_parent m) = Ok p →
    chm_number m = chm_number p + 1;
  lk_total h : (∃ m, md h = Ok m) ∨ (∃ e, md h = Err e);
}.

(** [segment md h l h']: following parents from [h] passes through the blocks
    [l] and arrives at [h']. *)
Inductive segment md : BlockHash → list HashAndNumber → BlockHash → Prop :=
  | segment_nil h : segment md h [] h
  | segment_cons h m l h' :
      md h = Ok m → segment md (chm_parent m) l h' → segment md h (hn_of m :: l) h'.

Definition ancestry md (h : BlockHash) (l : list HashAndNumber) (c : HashAndNumber) : Prop :=
  segment md h l (hn_hash c) ∧ ∃ m, md (hn_hash c) = Ok m ∧ hn_of m = c.

Definition reads_more md md' : Prop := ∀ h m, md h = Ok m → md' h = Ok m.

Lemma segment_app md h l h' l' h'' :
  segment md h l h' → segment md h' l' h'' → segment md h (l ++ l') h''.
Proof. induction 1; cbn; eauto using segment. Qed.

Lemma segment_snoc md h l m :
  segment md h l (chm_hash m) → md (chm_hash m) = Ok m →
  segment md h (l ++ [hn_of m]) (chm_parent m).
Proof. eauto using segment_app, segment. Qed.

Lemma segment_number md h l h' m m' :
  lookup_ok md → segment md h l h' → md h = Ok m → md h' = Ok m' →
  chm_number m = chm_number m' + N.of_nat (length l) ∧
  Forall (λ x, chm_number m' < hn_number x) l.
Proof.
  intros Hmd Hseg. revert m. induction Hseg as [h|h m0 l h' Hm0 Hseg IH]; intros m Hm Hm'.
  - simplify_ok. split; [cbn; lia|done].
  - assert (m = m0) as -> by congruence. clear Hm. rewrite length_cons, Nat2N.inj_succ.
    destruct (lk_total _ Hmd (chm_parent m0)) as [[p Hp]|[e He]].
    + destruct (IH p Hp Hm') as [IHn IHl].
      pose proof (lk_number _ Hmd _ _ _ Hm0 Hp). split; [lia|].
      constructor; [cbn; lia|done].
    + destruct Hseg; simplify_ok.
Qed.
End Ancestry.

(** What the documentation of [TreeRoute] promises: the two branches lead from the
    two blocks to one ancestor and share no block, and only the headers of the
    route are read, so that with some of them missing the answer is the same or
    the error of a missing one. It does not panic. *)
Class TreeRouteLaws `{!ErrorPayloads} (api : TreeRouteApi) : Prop := {
  route_branches md from to r :
    lookup_ok md → tree_route md from to = Ok r →
    ancestry md from (retracted r) (common_block r) ∧
    ancestry md to (rev (enacted r)) (common_block r);
  route_disjoint md from to r :
    lookup_ok md → tree_route md from to = Ok r →
    ∀ x, x ∈ retracted r → x ∉ enacted r;
  route_no_panic md from to w : lookup_ok md → tree_route md from to ≠ Panic w;
  route_local md md' from to r :
    lookup_ok md → lookup_ok md' → reads_more md md' → tree_route md' from to = Ok r →
    tree_route md from to = Ok r ∨
    ∃ h e, h ∈ route_hashes r ∧ md h = Err e ∧ tree_route md from to = Err e;
}.

(** ** An implementation: walk both branches back until they meet *)
Module Walk.
Section Walk.
Context `{!ErrorPayloads}.
Implicit Types md : BlockHash → outcome Error CachedHeaderMetadata.
Implicit Types m f t p c : CachedHeaderMetadata.

Fixpoint climb (fuel : nat) md (limit : BlockNumber) m (branch : list HashAndNumber)
    : outcome Error (CachedHeaderMetadata * list HashAndNumber) :=
  if limit <? chm_number m then
    match fuel with
    | O => Diverge
    | S fuel => p ← md (chm_parent m); climb fuel md limit p (branch ++ [hn_of m])
    end
  else Ok (m, branch).

Fixpoint meet (fuel : nat) md f t (fb tb : list HashAndNumber)
    : outcome Error (CachedHeaderMetadata * list HashAndNumber * list HashAndNumber) :=
  if decide (chm_hash t = chm_hash f) then Ok (t, fb, tb)
  else
    match fuel with
    | O => Diverge
    | S fuel =>
        t' ← md (chm_parent t);
        f' ← md (chm_parent f);
        meet fuel md f' t' (fb ++ [hn_of f]) (tb ++ [hn_of t])
    end.

Definition route : TreeRouteApi := λ md from to,
  f ← md from;
  t ← md to;
  '(t', tb) ← climb (N.to_nat (chm_number t)) md (chm_number f) t [];
  '(f', fb) ← climb (N.to_nat (chm_number f)) md (chm_number t') f [];
  '(c, fb', tb') ← meet (N.to_nat (chm_number f')) md f' t' fb tb;
  Ok {| retracted := fb'; common_block := hn_of c; enacted := rev tb' |}.

Lemma segment_head md h l h' :
  lookup_ok md → segment md h l h' → h = h' ∨ h ∈ hn_hash <$> l.
Proof.
  intros Hmd [|? m ? ? Hm _]; [by left|right]. cbn.
  rewrite (lk_hash _ Hmd _ _ Hm). by left.
Qed.

Lemma climb_ok fuel md limit m br m' br' :
  lookup_ok md → md (chm_hash m) = Ok m → climb fuel md limit m br = Ok (m', br') →
  ∃ l, br' = br ++ l ∧ segment md (chm_hash m) l (chm_hash m') ∧
    md (chm_hash m') = Ok m' ∧ chm_number m' <= limit ∧
    Forall (λ x, limit < hn_number x) l ∧
    chm_number m' = N.min (chm_number m) limit.
Proof.
  intros Hmd. revert m br. induction fuel as [|fuel IH]; intros m br Hm; cbn;
    destruct (N.ltb_spec limit (chm_number m)) as [Hlt|Hge]; try done.
  2: destruct (md (chm_parent m)) as [p| | |] eqn:Hp; try done; cbn.
  1,3: intros [= <- <-]; exists []; rewrite app_nil_r; split_and!; eauto using segment; lia.
  pose proof (lk_number _ Hmd _ _ _ Hm Hp) as Hnum.
  pose proof (lk_hash _ Hmd _ _ Hp) as Hhash.
  intros (l & -> & Hseg & Hm' & Hle & Hall & Hmin)%IH; [|congruence].
  exists (hn_of m :: l). rewrite <-app_assoc. rewrite Hhash in Hseg.
  split_and!; eauto using segment; lia.
Qed.

Lemma climb_local fuel md md' limit m br m' br' :
  lookup_ok md → lookup_ok md' → reads_more md md' → md' (chm_hash m) = Ok m →
  climb fuel md' limit m br = Ok (m', br') →
  climb fuel md limit m br = Ok (m', br') ∨
  ∃ h e, (h = chm_hash m' ∨ h ∈ hn_hash <$> br') ∧ md h = Err e ∧
    climb fuel md limit m br = Err e.
Proof.
  intros Hmd Hmd' Hmore. revert m br. induction fuel as [|fuel IH]; intros m br Hm; cbn;
    destruct (N.ltb_spec limit (chm_number m)) as [Hlt|Hge]; try done; try by left.
  destruct (md' (chm_parent m)) as [p| | |] eqn:Hp; try done; cbn.
  pose proof (lk_hash _ Hmd' _ _ Hp) as Hhash.
  intros Hc. destruct (lk_total _ Hmd (chm_parent m)) as [[p' Hp']|[e He]].
  - pose proof (Hmore _ _ Hp'). simplify_ok. rewrite Hp'. cbn. apply IH; [congruence|done].
  - right. exists (chm_parent m), e. rewrite He. split_and!; [|done..].
    apply climb_ok in Hc as (l & -> & Hseg & _); [|done|congruence].
    rewrite Hhash in Hseg. rewrite !fmap_app.
    destruct (segment_head _ _ _ _ Hmd' Hseg); set_solver.
Qed.

Lemma meet_ok fuel md f t fb tb c fb' tb' :
  lookup_ok md → md (chm_hash f) = Ok f → md (chm_hash t) = Ok t →
  chm_number f = chm_number t → meet fuel md f t fb tb = Ok (c, fb', tb') →
  ∃ lf lt, fb' = fb ++ lf ∧ tb' = tb ++ lt ∧
    segment md (chm_hash f) lf (chm_hash c) ∧ segment md (chm_hash t) lt (chm_hash c) ∧
    md (chm_hash c) = Ok c ∧ (∀ x, x ∈ lf → x ∉ lt) ∧
    Forall (λ x, hn_number x <= chm_number f) (lf ++ lt).
Proof.
  intros Hmd. revert f t fb tb. induction fuel as [|fuel IH]; intros f t fb tb Hf Ht Hnum; cbn;
    destruct (decide (chm_hash t = chm_hash f)) as [Heq|Hne]; try done.
  3: destruct (md (chm_parent t)) as [t1| | |] eqn:Ht1; try done; cbn;
    destruct (md (chm_parent f)) as [f1| | |] eqn:Hf1; try done; cbn.
  1,2: intros [= <- <- <-]; exists [], []; rewrite !app_nil_r, Heq;
    split_and!; eauto using segment; try set_solver; congruence.
  pose proof (lk_number _ Hmd _ _ _ Hf Hf1). pose proof (lk_number _ Hmd _ _ _ Ht Ht1).
  pose proof (lk_hash _ Hmd _ _ Hf1) as Hhf. pose proof (lk_hash _ Hmd _ _ Ht1) as Hht.
  intros (lf & lt & -> & -> & Hsf & Hst & Hc & Hdisj & Hle)%IH; [|congruence..|lia].
  exists (hn_of f :: lf), (hn_of t :: lt). rewrite <-!app_assoc.
  rewrite Hhf in Hsf. rewrite Hht in Hst. apply Forall_app in Hle as [Hlf Hlt].
  rewrite Forall_forall in Hlf, Hlt.
  split_and!; eauto using segment.
  - intros x [->|Hx]%elem_of_cons [Heq|Hy]%elem_of_cons; subst; [naive_solver|..|naive_solver].
    + apply Hlt in Hy. cbn in Hy. lia.
    + apply Hlf in Hx. cbn in Hx. lia.
  - apply Forall_app. rewrite !Forall_cons, !Forall_forall. cbn.
    split_and!; try lia; intros x Hx; [apply Hlf in Hx|apply Hlt in Hx]; lia.
Qed.

Lemma meet_local fuel md md' f t fb tb c fb' tb' :
  lookup_ok md → lookup_ok md' → reads_more md md' →
  md' (chm_hash f) = Ok f → md' (chm_hash t) = Ok t → chm_number f = chm_number t →
  meet fuel md' f t fb tb = Ok (c, fb', tb') →
  meet fuel md f t fb tb = Ok (c, fb', tb') ∨
  ∃ h e, (h = chm_hash c ∨ h ∈ hn_hash <$> fb' ∨ h ∈ hn_hash <$> tb') ∧ md h = Err e ∧
    meet fuel md f t fb tb = Err e.
Proof.
  intros Hmd Hmd' Hmore. revert f t fb tb.
  induction fuel as [|fuel IH]; intros f t fb tb Hf Ht Hnum; cbn;
    destruct (decide (chm_hash t = chm_hash f)) as [Heq|Hne]; try done; try by left.
  destruct (md' (chm_parent t)) as [t1| | |] eqn:Ht1; try done; cbn.
  destruct (md' (chm_parent f)) as [f1| | |] eqn:Hf1; try done; cbn.
  pose proof (lk_number _ Hmd' _ _ _ Hf Hf1). pose proof (lk_number _ Hmd' _ _ _ Ht Ht1).
  pose proof (lk_hash _ Hmd' _ _ Hf1) as Hhf. pose proof (lk_hash _ Hmd' _ _ Ht1) as Hht.
  intros Hc.
  assert (∀ h, h = chm_parent t ∨ h = chm_parent f →
    h = chm_hash c ∨ h ∈ hn_hash <$> fb' ∨ h ∈ hn_hash <$> tb') as Hin.
  { apply meet_ok in Hc as (lf & lt & -> & -> & Hsf & Hst & _); [|done|congruence..|lia].
    rewrite Hhf in Hsf. rewrite Hht in Hst. intros h [->| ->]; rewrite !fmap_app;
      [destruct (segment_head _ _ _ _ Hmd' Hst)|destruct (segment_head _ _ _ _ Hmd' Hsf)];
      set_solver. }
  destruct (lk_total _ Hmd (chm_parent t)) as [[t1' Ht1']|[e He]].
  2: { right. exists (chm_parent t), e. rewrite He. eauto. }
  destruct (lk_total _ Hmd (chm_parent f)) as [[f1' Hf1']|[e He]].
  2: { right. exists (chm_parent f), e. rewrite Ht1', He. eauto. }
  pose proof (Hmore _ _ Ht1'). pose proof (Hmore _ _ Hf1'). simplify_ok.
  rewrite Ht1', Hf1'. cbn. apply IH; congruence || lia || done.
Qed.
(** What [route] does, in one statement. *)
Lemma route_inv md from to r :
  lookup_ok md → route md from to = Ok r →
  ∃ f t t' tb f' fb c fb' tb',
    md from = Ok f ∧ md to = Ok t ∧
    climb (N.to_nat (chm_number t)) md (chm_number f) t [] = Ok (t', tb) ∧
    climb (N.to_nat (chm_number f)) md (chm_number t') f [] = Ok (f', fb) ∧
    meet (N.to_nat (chm_number f')) md f' t' fb tb = Ok (c, fb', tb') ∧
    md (chm_hash f) = Ok f ∧ md (chm_hash t) = Ok t ∧
    md (chm_hash f') = Ok f' ∧ md (chm_hash t') = Ok t' ∧ chm_number f' = chm_number t' ∧
    r = {| retracted := fb'; common_block := hn_of c; enacted := rev tb' |}.
Proof.
  intros Hmd. unfold route, mbind, outcome_bind.
  destruct (md from) as [f| | |] eqn:Hf; try done.
  destruct (md to) as [t| | |] eqn:Ht; try done.
  destruct (climb _ _ _ t []) as [[t' tb]| | |] eqn:Hct; try done.
  destruct (climb _ _ _ f []) as [[f' fb]| | |] eqn:Hcf; try done.
  destruct (meet _ _ _ _ _ _) as [[[c fb'] tb']| | |] eqn:Hm; try done.
  intros [= <-]. exists f, t, t', tb, f', fb, c, fb', tb'.
  pose proof (lk_hash _ Hmd _ _ Hf). pose proof (lk_hash _ Hmd _ _ Ht). subst.
  destruct (climb_ok _ _ _ _ _ _ _ Hmd Ht Hct) as (? & _ & _ & ? & ? & _ & ?).
  destruct (climb_ok _ _ _ _ _ _ _ Hmd Hf Hcf) as (? & _ & _ & ? & ? & _ & ?).
  split_and!; done || lia.
Qed.

Lemma route_spec md from to r :
  lookup_ok md → route md from to = Ok r →
  ancestry md from (retracted r) (common_block r) ∧
  ancestry md to (rev (enacted r)) (common_block r) ∧
  (∀ x, x ∈ retracted r → x ∉ enacted r).
Proof.
  intros Hmd Hr. destruct (route_inv _ _ _ _ Hmd Hr)
    as (f & t & t' & tb & f' & fb & c & fb' & tb' & Hf & Ht & Hct & Hcf & Hm &
        Hff & Htt & Hff' & Htt' & Hnum & ->).
  apply climb_ok in Hct as (lt1 & -> & Hst1 & _ & Hle & Hgt & Hmin); [|done..].
  apply climb_ok in Hcf as (lf1 & -> & Hsf1 & _ & _ & Hgf & Hminf); [|done..].
  apply meet_ok in Hm as (lf2 & lt2 & -> & -> & Hsf2 & Hst2 & Hc & Hdisj & Hall); [|done..].
  rewrite (lk_hash _ Hmd _ _ Hf) in Hsf1. rewrite (lk_hash _ Hmd _ _ Ht) in Hst1.
  cbn. rewrite rev_involutive.
  split; [|split]; [split; cbn; eauto using segment_app..|].
  apply Forall_app in Hall as [Hlf Hlt].
  rewrite Forall_forall in Hgt, Hgf, Hlf, Hlt.
  destruct (decide (chm_number t <= chm_number f)) as [Hcase|Hcase].
  - (* nothing climbed on the [to] branch *)
    assert (lt1 = []) as -> by
      (destruct (segment_number _ _ _ _ _ _ Hmd Hst1 Ht Htt') as [Hn _];
       destruct lt1; [done|rewrite length_cons in Hn; lia]).
    intros x Hx Hy. rewrite elem_of_rev in Hy. cbn in Hy.
    apply elem_of_app in Hx as [Hx|Hx]; [|by apply (Hdisj x)].
    apply Hgf in Hx. apply Hlt in Hy. lia.
  - assert (lf1 = []) as -> by
      (destruct (segment_number _ _ _ _ _ _ Hmd Hsf1 Hf Hff') as [Hn _];
       destruct lf1; [done|rewrite length_cons in Hn; lia]).
    intros x Hx Hy. rewrite elem_of_rev in Hy. cbn in Hx.
    apply elem_of_app in Hy as [Hy|Hy]; [|by apply (Hdisj x)].
    apply Hgt in Hy. apply Hlf in Hx. lia.
Qed.

Lemma route_local_walk md md' from to r :
  lookup_ok md → lookup_ok md' → reads_more md md' → route md' from to = Ok r →
  route md from to = Ok r ∨
  ∃ h e, h ∈ route_hashes r ∧ md h = Err e ∧ route md from to = Err e.
Proof.
  intros Hmd Hmd' Hmore Hr. destruct (route_inv _ _ _ _ Hmd' Hr)
    as (f & t & t' & tb & f' & fb & c & fb' & tb' & Hf & Ht & Hct & Hcf & Hm &
        Hff & Htt & Hff' & Htt' & Hnum & ->).
  pose proof (climb_ok _ _ _ _ _ _ _ Hmd' Htt Hct) as (lt1 & Elt1 & Hst1 & _).
  pose proof (climb_ok _ _ _ _ _ _ _ Hmd' Hff Hcf) as (lf1 & Elf1 & Hsf1 & _).
  pose proof (meet_ok _ _ _ _ _ _ _ _ _ Hmd' Hff' Htt' Hnum Hm)
    as (lf2 & lt2 & Elf2 & Elt2 & Hsf2 & Hst2 & _).
  rewrite (lk_hash _ Hmd' _ _ Hf) in Hsf1. rewrite (lk_hash _ Hmd' _ _ Ht) in Hst1.
  set (rh := route_hashes _).
  assert (∀ h, h = chm_hash c ∨ h ∈ hn_hash <$> fb' ∨ h ∈ hn_hash <$> tb' → h ∈ rh) as Hin.
  { intros h Hh. unfold rh, route_hashes. cbn.
    rewrite fmap_app, fmap_cons, elem_of_app, elem_of_cons, elem_of_fmap_rev. naive_solver. }
  assert (∀ l l' h0 h1, segment md' h0 l h1 → segment md' h1 l' (chm_hash c) →
    h1 = chm_hash c ∨ h1 ∈ hn_hash <$> (l ++ l')) as Hmid.
  { intros l l' h0 h1 _ Hs. rewrite fmap_app, elem_of_app.
    destruct (segment_head _ _ _ _ Hmd' Hs); auto. }
  assert (∀ h, h = from ∨ h = to → h ∈ rh) as Hends.
  { intros h Hh. apply Hin. subst fb' tb' fb tb. cbn. destruct Hh as [->| ->].
    - destruct (segment_head _ _ _ _ Hmd' (segment_app _ _ _ _ _ _ Hsf1 Hsf2)); auto.
    - destruct (segment_head _ _ _ _ Hmd' (segment_app _ _ _ _ _ _ Hst1 Hst2)); auto. }
  unfold route, mbind, outcome_bind.
  destruct (lk_total _ Hmd from) as [[f0 Hf0]|[e He]].
  2: { right. exists from, e. rewrite He. eauto. }
  destruct (lk_total _ Hmd to) as [[t0 Ht0]|[e He]].
  2: { right. exists to, e. rewrite Hf0, He. eauto. }
  pose proof (Hmore _ _ Hf0). pose proof (Hmore _ _ Ht0). simplify_ok. rewrite Hf0, Ht0.
  destruct (climb_local _ _ _ _ _ _ _ _ Hmd Hmd' Hmore Htt Hct) as [->|(h & e & Hh & He & ->)].
  2: { right. exists h, e. split_and!; [|done..]. apply Hin. subst.
       destruct Hh as [->|Hh]; [|right; right; set_solver].
       destruct (Hmid _ _ _ _ Hst1 Hst2); auto. }
  destruct (climb_local _ _ _ _ _ _ _ _ Hmd Hmd' Hmore Hff Hcf) as [->|(h & e & Hh & He & ->)].
  2: { right. exists h, e. split_and!; [|done..]. apply Hin. subst.
       destruct Hh as [->|Hh]; [|right; left; set_solver].
       destruct (Hmid _ _ _ _ Hsf1 Hsf2); auto. }
  destruct (meet_local _ _ _ _ _ _ _ _ _ _ Hmd Hmd' Hmore Hff' Htt' Hnum Hm)
    as [->|(h & e & Hh & He & ->)]; [by left|right].
  exists h, e. eauto.
Qed.

Lemma climb_no_panic fuel md limit m br w :
  lookup_ok md → climb fuel md limit m br ≠ Panic w.
Proof.
  intros Hmd. revert m br. induction fuel as [|fuel IH]; intros m br; cbn;
    destruct (limit <? chm_number m); try done.
  destruct (lk_total _ Hmd (chm_parent m)) as [[p ->]|[e ->]]; cbn; [apply IH|done].
Qed.

Lemma meet_no_panic fuel md f t fb tb w :
  lookup_ok md → meet fuel md f t fb tb ≠ Panic w.
Proof.
  intros Hmd. revert f t fb tb. induction fuel as [|fuel IH]; intros f t fb tb; cbn;
    destruct (decide (chm_hash t = chm_hash f)); try done.
  destruct (lk_total _ Hmd (chm_parent t)) as [[p ->]|[e ->]]; cbn; [|done].
  destruct (lk_total _ Hmd (chm_parent f)) as [[p' ->]|[e ->]]; cbn; [apply IH|done].
Qed.

Lemma route_walk_no_panic md from to w : lookup_ok md → route md from to ≠ Panic w.
Proof.
  intros Hmd. unfold route, mbind, outcome_bind.
  destruct (lk_total _ Hmd from) as [[f ->]|[e ->]]; [|done].
  destruct (lk_total _ Hmd to) as [[t ->]|[e ->]]; [|done].
  destruct (climb _ _ _ t []) as [[t' tb]| |w'|] eqn:Hct; try done.
  2: { by apply climb_no_panic in Hct. }
  destruct (climb _ _ _ f []) as [[f' fb]| |w'|] eqn:Hcf; try done.
  2: { by apply climb_no_panic in Hcf. }
  destruct (meet _ _ _ _ _ _) as [[[c fb'] tb']| |w'|] eqn:Hm; try done.
  by apply meet_no_panic in Hm.
Qed.

#[global] Instance route_laws : TreeRouteLaws route.
Proof.
  split.
  - intros md from to r Hmd Hr. by destruct (route_spec _ _ _ _ Hmd Hr) as (? & ? & _).
  - intros md from to r Hmd Hr. by destruct (route_spec _ _ _ _ Hmd Hr) as (_ & _ & ?).
  - exact route_walk_no_panic.
  - exact route_local_walk.
Qed.
End Walk.
End Walk.
