(* ===== verification/Follower.v ===== *)
(** * The chain follower (alerter/src/subspace.rs)

    [Subspace::listen_for_all_blocks] and the functions it calls, written in the
    state monad over what they share: the outside world, the header cache, the
    current best block and the blocks broadcast so far. *)

From S2P Require Import Prelude Errors Headers TreeRoute.

Local Open Scope N_scope.

(** A block of subxt's subscription; its [number()] is its header's. *)
Record SubxtBlock `{!Substrate} : Type := {
  sb_hash : BlockHash;
  sb_header : SubstrateHeader;
}.

(** The calls to the node, as functions of the outside world: the RPC methods,
    and the block subscription, whose end is [None]. *)
Class NodeApi `{!ErrorPayloads} `{!Substrate} (W : Type) : Type := {
  chain_get_block_hash : option BlockNumber → W → result subxt_rpcs_Error (option BlockHash) * W;
  chain_get_header : option BlockHash → W → result subxt_rpcs_Error (option SubstrateHeader) * W;
  subscribe_all : W → result subxt_Error () * W;
  sub_next : W → option (result subxt_Error SubxtBlock) * W;
}.

Record Listener `{!Substrate} (W : Type) : Type := {
  world : W;
  header_cache : HeadersMetadataCache;
  current_best_block : HashAndNumber;
  sink : list BlocksExt;
}.
Arguments world {_ W} _.
Arguments header_cache {_ W} _.
Arguments current_best_block {_ W} _.
Arguments sink {_ W} _.

Section Follower.
Context `{!ErrorPayloads} `{!Substrate} {api : TreeRouteApi} {W : Type} {node : NodeApi W}.
Abbreviation L := (Listener W).

Definition set_world (w : W) (s : L) : L :=
  {| world := w; header_cache := header_cache s;
     current_best_block := current_best_block s; sink := sink s |}.
Definition set_cache (c : HeadersMetadataCache) (s : L) : L :=
  {| world := world s; header_cache := c;
     current_best_block := current_best_block s; sink := sink s |}.
Definition set_best (b : HashAndNumber) (s : L) : L :=
  {| world := world s; header_cache := header_cache s;
     current_best_block := b; sink := sink s |}.
Definition push_sink (u : BlocksExt) (s : L) : L :=
  {| world := world s; header_cache := header_cache s;
     current_best_block := current_best_block s; sink := sink s ++ [u] |}.

(** A call to the outside world. *)
Definition call {A} (f : W → A * W) : M L Error A := λ s,
  let '(a, w) := f (world s) in (Ok a, set_world w s).

Definition with_cache {A} (m : M HeadersMetadataCache Error A) : M L Error A :=
  zoom header_cache set_cache m.

(** [sub.next().await.ok_or(Error::MissingBlock)??]. *)
Definition next_block : M L Error SubxtBlock :=
  o ← call sub_next;
  r ← lift (ok_or MissingBlock o);
  lift (question r).

Definition is_canonical_block (block_number : BlockNumber) (block_hash : BlockHash)
    : M L Error bool :=
  r ← call (chain_get_block_hash (Some block_number));
  o ← lift (question r);
  hash ← lift (ok_or MissingBlock o);
  mret (bool_decide (block_hash = hash)).

Definition rpc_header (hash : BlockHash) : M L Error SubstrateHeader :=
  r ← call (chain_get_header (Some hash));
  o ← lift (question r);
  lift (ok_or MissingBlock o).

Definition block_ext_of (hash : BlockHash) (header : Header) : BlockExt :=
  {| be_number := number header; be_hash := hash; be_parent_hash := parent_hash header;
     be_state_root := state_root header; be_extrinsics_root := extrinsics_root header |}.

Definition get_block_ext (hash : BlockHash) : M L Error BlockExt :=
  cache ← gets header_cache;
  header ← lift (get_header cache hash);
  mret (block_ext_of hash header).

(** Fetch the header [tree_route] misses and try again.  The recursion of the
    code has no bound of its own; [recursive_tree_route_complete] gives one. *)
Fixpoint recursive_tree_route (fuel : nat) (from to : BlockHash) : M L Error TreeRoute :=
  match fuel with
  | O => diverge
  | S fuel =>
      cache ← gets header_cache;
      match tree_route (header_metadata cache) from to with
      | Ok route => mret route
      | Err (MissingBlockHashFromCache hash) =>
          header ← rpc_header hash;
          _ ← with_cache (add_header header);
          recursive_tree_route fuel from to
      | Err err => throw err
      | Panic w => panic w
      | Diverge => diverge
      end
  end.

Definition is_empty {A} (l : list A) : bool := match l with [] => true | _ => false end.

(** The reorg data sent with a best block: the retracted blocks are given from
    the oldest on, and the new best block has been popped from the enacted ones. *)
Definition reorg_data (route : TreeRoute) : option ReorgData :=
  if is_empty (retracted route) then None
  else Some {| rd_enacted := removelast (enacted route);
               rd_retracted := rev (retracted route);
               rd_common_block := common_block route |}.

(** One turn of the loop of [listen_for_blocks]. *)
Definition listen_turn (fuel : nat) : M L Error () :=
  block ← next_block;
  let block_hash := sb_hash block in
  let block_number := number (sb_header block) in
  hash ← with_cache (add_header (sb_header block));
  _ ← (if decide (hash = block_hash) then mret tt
       else panic "assertion `left == right` failed");
  canonical ← is_canonical_block block_number block_hash;
  if negb canonical then mret tt
  else
    best ← gets current_best_block;
    route ← recursive_tree_route fuel (hn_hash best) block_hash;
    if is_empty (enacted route) && is_empty (retracted route) then mret tt
    else if is_empty (enacted route) then mret tt
    else
      block_exts ← traverse (λ hn, get_block_ext (hn_hash hn)) (enacted route);
      latest ← lift (expect "Latest enacted should exist as checked above; qed"
                       (last (enacted route)));
      _ ← modify (set_best latest);
      _ ← modify (push_sink {| blocks := block_exts; maybe_reorg_data := reorg_data route |});
      let number_to_clean := saturating_sub block_number CACHE_HEADER_DEPTH in
      with_cache (modify (remove_header_until number_to_clean)).

(** [turns] turns of the loop; [Ok tt] means it is still listening after them. *)
Definition listen_for_blocks (turns fuel : nat) : M L Error () :=
  drive (λ _, listen_turn fuel) (replicate turns ()).

(** [while latest_block_hash.is_none() { .. }]. *)
Fixpoint first_canonical (fuel : nat) : M L Error BlockHash :=
  match fuel with
  | O => diverge
  | S fuel =>
      block ← next_block;
      canonical ← is_canonical_block (number (sb_header block)) (sb_hash block);
      if canonical : bool then mret (sb_hash block) else first_canonical fuel
  end.

Definition fetch_header (n : BlockNumber) : M L Error SubstrateHeader :=
  r ← call (chain_get_block_hash (Some n));
  o ← lift (question r);
  block_hash ← lift (ok_or MissingBlock o);
  rpc_header block_hash.

(** [start..=last]. *)
Definition range_inclusive (start last : N) : list N :=
  (λ i, start + N.of_nat i) <$> seq 0 (N.to_nat (last + 1 - start)).

(** The headers are fetched by up to 30 requests at a time and collected in
    order ([buffered(30)], [try_collect]); they are written to the cache only
    when all of them arrived. *)
Definition load_header_metadata_cache (fuel : nat) : M L Error HashAndNumber :=
  latest_hash ← first_canonical fuel;
  latest_head ← rpc_header latest_hash;
  let cache_start_number := saturating_sub (number latest_head) CACHE_HEADER_DEPTH in
  headers ← traverse fetch_header
    (range_inclusive cache_start_number (number latest_head));
  _ ← drive (λ header, _ ← with_cache (add_header header); mret tt) headers;
  mret {| hn_number := number latest_head; hn_hash := latest_hash |}.

(** A connection: subscribe, and load the cache. *)
Definition connect (fuel : nat) : M L Error () :=
  r ← call subscribe_all;
  _ ← lift (question r);
  best ← load_header_metadata_cache fuel;
  modify (set_best best).

(** One element of [connections] per subscription: the turns its loop runs. *)
Fixpoint listen_for_all_blocks (fuel : nat) (connections : list nat) : M L Error () :=
  match connections with
  | [] => diverge
  | turns :: connections =>
      _ ← connect fuel;
      res ← catch (listen_for_blocks turns fuel);
      match res with
      | Err (Rpc _) => listen_for_all_blocks fuel connections
      | res => lift res
      end
  end.

(** ** The calls that succeed *)
Lemma call_run {A} (f : W → A * W) a w s :
  f (world s) = (a, w) → call f s = (Ok a, set_world w s).
Proof. unfold call. by intros ->. Qed.

Lemma next_block_run b w s :
  sub_next (world s) = (Some (inr b), w) → next_block s = (Ok b, set_world w s).
Proof. intros Hnext. unfold next_block, mbind, M_bind, call. by rewrite Hnext. Qed.

Lemma rpc_header_run h sh w s :
  chain_get_header (Some h) (world s) = (inr (Some sh), w) →
  rpc_header h s = (Ok sh, set_world w s).
Proof. intros Hget. unfold rpc_header, mbind, M_bind, call. by rewrite Hget. Qed.

Lemma is_canonical_run n h h' w s :
  chain_get_block_hash (Some n) (world s) = (inr (Some h'), w) →
  is_canonical_block n h s = (Ok (bool_decide (h = h')), set_world w s).
Proof. intros Hget. unfold is_canonical_block, mbind, M_bind, call. by rewrite Hget. Qed.

Lemma with_cache_add_run sh hd s :
  convert_header sh = Some hd →
  with_cache (add_header sh) s =
    (Ok (header_hash hd), set_cache (insert_header hd (header_cache s)) s).
Proof. intros Hconv. unfold with_cache, zoom. by rewrite (add_header_run _ hd). Qed.

Lemma connect_run fuel s w best s1 :
  subscribe_all (world s) = (inr tt, w) →
  load_header_metadata_cache fuel (set_world w s) = (Ok best, s1) →
  connect fuel s = (Ok tt, set_best best s1).
Proof.
  intros Hsub Hload. unfold connect, mbind, M_bind, call, lift. rewrite Hsub. cbn.
  by rewrite Hload.
Qed.
End Follower.

#[export] Hint Resolve connect_run call_run next_block_run rpc_header_run with_cache_add_run : alerter_run.
