(* ===== verification/FollowerSpec.v ===== *)
(** * What the chain follower broadcasts

    The contract between the follower and the monitors that receive its
    broadcasts ([update], [follows]), and the proof that [listen_for_blocks]
    meets it when the node is honest. *)

From S2P Require Import Prelude Errors Headers TreeRoute Follower.

Local Open Scope N_scope.

(** An honest node: the blocks and headers it sends belong to the chain's block
    tree, decode, and hash to what they are said to, and the hash it gives for a
    number is that of a block with the number. *)
Class HonestNode `{!ErrorPayloads} `{!Substrate} (in_tree : Header → Prop)
    {W} (node : NodeApi W) : Prop := {
  honest_block w b w' :
    sub_next w = (Some (inr b), w') →
    ∃ hd, convert_header (sb_header b) = Some hd ∧ in_tree hd ∧ header_hash hd = sb_hash b;
  honest_header w h sh w' :
    chain_get_header (Some h) w = (inr (Some sh), w') →
    ∃ hd, convert_header sh = Some hd ∧ in_tree hd ∧ header_hash hd = h;
  honest_number w n h w' hd :
    chain_get_block_hash (Some n) w = (inr (Some h), w') →
    in_tree hd → header_hash hd = h → number hd = n;
}.

Definition hn_of_header `{!Substrate} (hd : Header) : HashAndNumber :=
  hn_of (cached_of_header hd).

(** ** The contract *)
Section Contract.
Context `{!Substrate} (in_tree : Header → Prop).

(** [hds] are blocks of the tree, each the parent of the next, the first a
    child of [p]. *)
Fixpoint chain (p : BlockHash) (hds : list Header) : Prop :=
  match hds with
  | [] => True
  | hd :: rest => in_tree hd ∧ parent_hash hd = p ∧ chain (header_hash hd) rest
  end.

Definition chain_tip (p : BlockHash) (hds : list Header) : BlockHash :=
  from_option header_hash p (last hds).

(** [update tip u tip']: the broadcast [u] takes a receiver whose best block is
    [tip] to [tip'].  It leaves the chain from the common block up to [tip] (the
    retracted blocks) for the one up to [tip'] (the broadcast blocks), and says so
    exactly when it retracts something. *)
Definition update (tip : HashAndNumber) (u : BlocksExt) (tip' : HashAndNumber) : Prop :=
  ∃ common ret ena,
    chain (hn_hash common) ret ∧ chain_tip (hn_hash common) ret = hn_hash tip ∧
    chain (hn_hash common) ena ∧ last (hn_of_header <$> ena) = Some tip' ∧
    blocks u = (λ hd, block_ext_of (header_hash hd) hd) <$> ena ∧
    (∀ hd, hd ∈ ret → hd ∉ ena) ∧
    maybe_reorg_data u =
      if is_empty ret then None
      else Some {| rd_enacted := removelast (hn_of_header <$> ena);
                   rd_retracted := hn_of_header <$> ret;
                   rd_common_block := common |}.

(** A receiver that starts at [tip] and gets the broadcasts in order. *)
Inductive follows (tip : HashAndNumber) : list BlocksExt → HashAndNumber → Prop :=
  | follows_nil : follows tip [] tip
  | follows_snoc us u tip' tip'' :
      follows tip us tip' → update tip' u tip'' → follows tip (us ++ [u]) tip''.

Lemma chain_snoc p hds hd :
  chain p (hds ++ [hd]) ↔ chain p hds ∧ in_tree hd ∧ parent_hash hd = chain_tip p hds.
Proof.
  revert p. induction hds as [|x hds IH]; intros p; cbn; [naive_solver|].
  rewrite IH. unfold chain_tip. destruct hds as [|y hds]; cbn; [tauto|].
  destruct (last_Some_ne (y :: hds)) as [z ->]; [done|]. cbn. tauto.
Qed.

Lemma chain_tip_snoc p hds hd : chain_tip p (hds ++ [hd]) = header_hash hd.
Proof. unfold chain_tip. by rewrite last_snoc. Qed.

Lemma follows_app tip us tip' us' tip'' :
  follows tip us tip' → follows tip' us' tip'' → follows tip (us ++ us') tip''.
Proof.
  intros Hfst. induction 1; [by rewrite app_nil_r|]. rewrite app_assoc. by econstructor.
Qed.

Lemma update_blocks_ne tip u tip' : update tip u tip' → blocks u ≠ [].
Proof. intros (common & ret & ena & _ & _ & _ & Hlast & -> & _). by destruct ena. Qed.
End Contract.

(** ** The cache as a reader of headers *)
Section CacheLookup.
Context `{!ErrorPayloads} `{!Substrate} (in_tree : Header → Prop) `{!BlockTree in_tree}.
Implicit Types c : HeadersMetadataCache.

Definition cached c (hd : Header) : Prop := block_header_data c !! header_hash hd = Some hd.

Lemma header_metadata_Ok c h m :
  header_metadata c h = Ok m ↔
  ∃ hd, block_header_data c !! h = Some hd ∧ m = cached_of_header hd.
Proof.
  unfold header_metadata, ok_or. destruct (block_header_data c !! h); cbn; naive_solver.
Qed.

Lemma header_metadata_Err c h e :
  header_metadata c h = Err e ↔
  block_header_data c !! h = None ∧ e = MissingBlockHashFromCache h.
Proof.
  unfold header_metadata, ok_or. destruct (block_header_data c !! h); cbn; naive_solver.
Qed.

(** Every header is stored under its hash and belongs to the tree: what reading
    needs of a cache. *)
Definition headers_ok c : Prop := ∀ h hd,
  block_header_data c !! h = Some hd → header_hash hd = h ∧ in_tree hd.

Lemma cache_ok_headers c : cache_ok in_tree c → headers_ok c.
Proof. intros Hc h hd Hhd. split; [by eapply ok_hash|by eapply ok_tree]. Qed.

Lemma headers_lookup_ok c : headers_ok c → lookup_ok (header_metadata c).
Proof.
  intros Hc. split.
  - intros h m (hd & Hhd & ->)%header_metadata_Ok. by apply Hc in Hhd as [? _].
  - intros h m p (hd & [_ Hin]%Hc & ->)%header_metadata_Ok
      (hd' & [Hh' Hin']%Hc & ->)%header_metadata_Ok. cbn in *. by apply tree_number.
  - intros h. destruct (block_header_data c !! h) as [hd|] eqn:Hh.
    + left. eexists. apply header_metadata_Ok. eauto.
    + right. eexists. apply header_metadata_Err. eauto.
Qed.

Lemma header_metadata_lookup_ok c : cache_ok in_tree c → lookup_ok (header_metadata c).
Proof. intros Hc. by apply headers_lookup_ok, cache_ok_headers. Qed.

(** A walk in the cache, from the far end on, is a chain of cached headers. *)
Lemma segment_chain c h l h' :
  cache_ok in_tree c → segment (header_metadata c) h l h' →
  ∃ hds, rev l = hn_of_header <$> hds ∧ Forall (cached c) hds ∧
    chain in_tree h' hds ∧ chain_tip h' hds = h.
Proof.
  intros Hc. induction 1 as [h|h m l h' Hm _ (hds & Hrev & Hcached & Hchain & Htip)].
  - by exists [].
  - apply header_metadata_Ok in Hm as (hd & Hhd & ->).
    pose proof (ok_hash _ _ Hc _ _ Hhd) as <-.
    exists (hds ++ [hd]). cbn. rewrite Hrev, fmap_app, chain_snoc, chain_tip_snoc, Forall_app.
    split_and!; try done; [by constructor|by eapply ok_tree].
Qed.
End CacheLookup.

(** ** One turn of the loop *)
Section Turn.
Context `{!ErrorPayloads} `{!Substrate} (in_tree : Header → Prop) `{!BlockTree in_tree}.
Context {api : TreeRouteApi} `{!TreeRouteLaws api}.
Context {W : Type} {node : NodeApi W} `{!HonestNode in_tree node}.
Abbreviation L := (Listener W).
Implicit Types s : L.

(** Nothing has been broadcast since [s0], and the cache is in order. *)
Definition quiet s0 s : Prop :=
  sink s = sink s0 ∧ current_best_block s = current_best_block s0 ∧
  cache_ok in_tree (header_cache s).

(** An early return: no broadcast, and no panic. *)
Definition gives_up s0 (b : abort Error) s : Prop :=
  quiet s0 s ∧ ∀ w, b ≠ Panicked w.

Lemma quiet_gives_up s0 s e : quiet s0 s → gives_up s0 (Failed e) s.
Proof. by split. Qed.

Lemma quiet_refl s : cache_ok in_tree (header_cache s) → quiet s s.
Proof. done. Qed.

Hint Resolve quiet_gives_up : core.

Lemma wp_call {A} (f : W → A * W) Q (X : abort Error → L → Prop) s :
  (∀ a w, f (world s) = (a, w) → Q a (set_world w s)) → wp (call f) Q X s.
Proof. unfold wp, call. destruct (f (world s)) as [a w] eqn:E. eauto. Qed.

Lemma wp_add_header sh hd Q (X : abort Error → L → Prop) s :
  convert_header sh = Some hd →
  Q (header_hash hd) (set_cache (insert_header hd (header_cache s)) s) →
  wp (with_cache (add_header sh)) Q X s.
Proof.
  intros Hconv HQ. unfold wp. by rewrite (with_cache_add_run _ hd).
Qed.

Lemma quiet_insert s0 s hd :
  quiet s0 s → in_tree hd → quiet s0 (set_cache (insert_header hd (header_cache s)) s).
Proof. intros (? & ? & ?) ?. split_and!; [done..|]. by apply insert_header_ok. Qed.

Lemma wp_rpc_header h s0 s :
  quiet s0 s →
  wp (rpc_header h)
    (λ sh s', quiet s0 s' ∧ ∃ hd, convert_header sh = Some hd ∧ in_tree hd ∧ header_hash hd = h)
    (gives_up s0) s.
Proof.
  intros Hq. unfold rpc_header. wp_step. apply wp_call. intros r w Hcall.
  wp_step. wp_step; [|auto]. intros o ->. wp_step; [|auto]. intros sh ->.
  split; [done|]. by eapply honest_header.
Qed.

Lemma wp_is_canonical_block n h s0 s :
  quiet s0 s → wp (is_canonical_block n h) (λ _ s', quiet s0 s') (gives_up s0) s.
Proof.
  intros Hq. unfold is_canonical_block. wp_step. apply wp_call. intros r w Hcall.
  wp_step. wp_step; [|auto]. intros o ->. wp_step. wp_step; [|auto]. intros hash ->. done.
Qed.

Lemma wp_next_block s0 s :
  quiet s0 s →
  wp next_block
    (λ b s', quiet s0 s' ∧ ∃ hd, convert_header (sb_header b) = Some hd ∧ in_tree hd ∧
       header_hash hd = sb_hash b)
    (gives_up s0) s.
Proof.
  intros Hq. unfold next_block. wp_step. apply wp_call. intros o w Hcall.
  wp_step. wp_step; [|auto]. intros r ->. wp_step; [|auto]. intros b ->.
  split; [done|]. by eapply honest_block.
Qed.

Lemma wp_recursive_tree_route fuel from to s0 s :
  quiet s0 s →
  wp (recursive_tree_route fuel from to)
    (λ r s', quiet s0 s' ∧ tree_route (header_metadata (header_cache s')) from to = Ok r)
    (gives_up s0) s.
Proof.
  revert s. induction fuel as [|fuel IH]; intros s Hq; [by split|].
  cbn. wp_step. wp_step.
  pose proof (header_metadata_lookup_ok _ _ (proj2 (proj2 Hq))) as Hlk.
  destruct (tree_route _ from to) as [r|err|w|] eqn:Hr; [done| |by apply route_no_panic in Hr|by split].
  destruct err; try by (split; [|done]).
  wp_step. eapply wp_mono; [by apply wp_rpc_header|clear s Hq Hlk Hr|done].
  intros sh s (Hq & hd & Hconv & Hin & _). wp_step.
  eapply wp_add_header; [done|]. by apply IH, quiet_insert.
Qed.

(** Cached headers are read back as block details. *)
Lemma get_block_exts s hds :
  Forall (cached (header_cache s)) hds →
  traverse (λ hn, get_block_ext (hn_hash hn)) (hn_of_header <$> hds) s =
    (Ok ((λ hd, block_ext_of (header_hash hd) hd) <$> hds), s).
Proof.
  induction 1 as [|hd hds Hhd _ IH]; [done|].
  rewrite fmap_cons. cbn [traverse]. unfold mbind, M_bind.
  assert (get_block_ext (hn_hash (hn_of_header hd)) s = (Ok (block_ext_of (header_hash hd) hd), s)) as ->.
  { unfold get_block_ext, mbind, M_bind, gets, lift, get_header, ok_or. by rewrite Hhd. }
  by rewrite IH.
Qed.

Lemma is_empty_false {A} (l : list A) : l ≠ [] → is_empty l = false.
Proof. by destruct l. Qed.

(** The broadcast made from a route is an update of the previous best block. *)
Lemma route_update c best to r :
  cache_ok in_tree c → tree_route (header_metadata c) (hn_hash best) to = Ok r →
  enacted r ≠ [] →
  ∃ ena latest,
    enacted r = hn_of_header <$> ena ∧ Forall (cached c) ena ∧
    last (enacted r) = Some latest ∧ hn_hash latest = to ∧
    update in_tree best {| blocks := (λ hd, block_ext_of (header_hash hd) hd) <$> ena;
                           maybe_reorg_data := reorg_data r |} latest.
Proof.
  intros Hc Hr Hne. pose proof (header_metadata_lookup_ok _ _ Hc) as Hlk.
  destruct (route_branches _ _ _ _ Hlk Hr) as [[Hret _] [Hen _]].
  pose proof (route_disjoint _ _ _ _ Hlk Hr) as Hdisj.
  destruct (segment_chain _ _ _ _ _ Hc Hret) as (ret & Eret & _ & Hcret & Htret).
  destruct (segment_chain _ _ _ _ _ Hc Hen) as (ena & Eena & Hcached & Hcena & Htena).
  rewrite rev_involutive in Eena. rewrite Eena in Hne |- *.
  destruct (last_Some_ne _ Hne) as [latest Hlast]. exists ena, latest.
  split_and!; [done|done|done| |].
  { rewrite fmap_last in Hlast. unfold chain_tip in Htena.
    destruct (last ena) as [hd|]; [|done]. by simplify_eq/=. }
  exists (common_block r), ret, ena. split_and!; try done.
  - intros hd Hin Hin'. apply (Hdisj (hn_of_header hd)).
    + apply elem_of_rev. rewrite Eret. by apply list_elem_of_fmap_2.
    + rewrite Eena. by apply list_elem_of_fmap_2.
  - cbn. unfold reorg_data. rewrite Eret, Eena.
    assert (is_empty (retracted r) = is_empty ret) as ->; [|done].
    destruct (retracted r) as [|x l], ret as [|y l']; try done; cbn in Eret.
    by destruct (rev l).
Qed.

(** The cache after a broadcast: the height [CACHE_HEADER_DEPTH] below the new
    best block has been dropped, the best block's own header has not. *)
Definition trimmed (best : HashAndNumber) (c : HeadersMetadataCache) : Prop :=
  block_number_hashes c !! saturating_sub (hn_number best) CACHE_HEADER_DEPTH = None ∧
  (0 < hn_number best → is_Some (block_header_data c !! hn_hash best)).

(** What a turn of the loop may leave behind, whichever way it ends. *)
Definition turn_post s s' : Prop :=
  cache_ok in_tree (header_cache s') ∧
  (sink s' = sink s ∧ current_best_block s' = current_best_block s ∨
   ∃ u, sink s' = sink s ++ [u] ∧
     update in_tree (current_best_block s) u (current_best_block s') ∧
     trimmed (current_best_block s') (header_cache s')).

Lemma quiet_turn_post s0 s : quiet s0 s → turn_post s0 s.
Proof. intros (? & ? & ?). split; auto. Qed.

Lemma convert_header_number sh hd : convert_header sh = Some hd → number hd = number sh.
Proof. unfold convert_header. destruct (digest_decode _); [|done]. by intros [= <-]. Qed.

Lemma trim_latest c ena latest sh hd :
  cache_ok in_tree c → Forall (cached c) ena → last (hn_of_header <$> ena) = Some latest →
  convert_header sh = Some hd → in_tree hd → header_hash hd = hn_hash latest →
  trimmed latest
    (remove_header_until (saturating_sub (number sh) CACHE_HEADER_DEPTH) c).
Proof.
  intros Hc Hcached Hlast Hconv Hin Hhash. rewrite fmap_last in Hlast.
  destruct (last ena) as [hd'|] eqn:Hl; simplify_eq/=.
  assert (cached c hd') as Hhd'.
  { rewrite Forall_forall in Hcached. apply Hcached. rewrite last_lookup in Hl.
    by eapply list_elem_of_lookup_2. }
  assert (hd' = hd) as ->.
  { apply tree_hash_inj; [by eapply ok_tree|done|done]. }
  rewrite <-(convert_header_number _ _ Hconv). split; cbn.
  - by eapply remove_header_until_clears.
  - intros Hpos. eexists. eapply remove_header_until_keeps; [done..|].
    unfold saturating_sub, CACHE_HEADER_DEPTH. lia.
Qed.

Lemma wp_listen_turn fuel s :
  cache_ok in_tree (header_cache s) →
  wp (listen_turn fuel) (λ _, turn_post s)
    (λ b s', turn_post s s' ∧ ∀ w, b ≠ Panicked w) s.
Proof.
  intros Hc. unfold listen_turn.
  assert (∀ b s', gives_up s b s' → turn_post s s' ∧ ∀ w, b ≠ Panicked w) as Hgive.
  { intros b s' [Hq Hb]. split; [by apply quiet_turn_post|done]. }
  wp_step. eapply wp_mono; [by apply (wp_next_block s)| |done].
  intros blk s1 (Hq1 & hd & Hconv & Hin & Hhash). wp_step.
  eapply wp_add_header; [done|]. wp_step. rewrite decide_True by done. wp_step. wp_step.
  eapply wp_mono; [by apply wp_is_canonical_block, quiet_insert| |done].
  intros [] s2 Hq2; cbn; [|by apply quiet_turn_post]. wp_steps.
  eapply wp_mono; [by apply (wp_recursive_tree_route _ _ _ s)| |done].
  intros r s3 [Hq3 Hr]. pose proof Hq3 as (Hsink & Hbest & Hc3).
  destruct (decide (enacted r = [])) as [Een|Hne].
  { rewrite Een. cbn. destruct (is_empty _); by apply quiet_turn_post. }
  rewrite is_empty_false by done. cbn.
  destruct (route_update _ _ _ _ Hc3 Hr Hne)
    as (ena & latest & Eena & Hcached & Hlast & Hto & Hupd).
  wp_step. unfold wp at 1. rewrite Eena, get_block_exts, <-Eena by done. unfold wp, mbind, M_bind, lift. rewrite Hlast. cbn.
  split; [by apply remove_header_until_ok|right]. eexists. cbn.
  rewrite Hsink. split_and!; [done|by destruct Hq2 as (_ & <- & _)|].
  rewrite Eena in Hlast. eapply trim_latest; eauto. by rewrite Hto.
Qed.

(** Any number of turns: what was broadcast takes a receiver from the best
    block at the start to the one at the end. *)
Definition run_post s s' : Prop :=
  cache_ok in_tree (header_cache s') ∧
  ∃ us, sink s' = sink s ++ us ∧
    follows in_tree (current_best_block s) us (current_best_block s').

Lemma run_post_turn s s1 s2 : run_post s s1 → turn_post s1 s2 → run_post s s2.
Proof.
  intros [_ (us & Hsink & Hf)] [Hc2 [[Hsink2 Hbest]|(u & Hsink2 & Hu & _)]]; split; auto.
  - exists us. by rewrite Hsink2, Hbest.
  - exists (us ++ [u]). rewrite Hsink2, Hsink, app_assoc. split; [done|]. by econstructor.
Qed.

Lemma wp_listen_for_blocks turns fuel s :
  cache_ok in_tree (header_cache s) →
  wp (listen_for_blocks turns fuel) (λ _, run_post s)
    (λ b s', run_post s s' ∧ ∀ w, b ≠ Panicked w) s.
Proof.
  intros Hc. unfold listen_for_blocks. apply wp_drive.
  - intros _ s1 Hrun. eapply wp_mono; [apply wp_listen_turn, Hrun|..].
    + intros [] s2. by apply run_post_turn.
    + intros b s2 [Ht Hb]. split; [by eapply run_post_turn|done].
  - split; [done|]. exists []. rewrite app_nil_r. split; [done|constructor].
Qed.
End Turn.

(** ** Updates along the block tree *)
Section Updates.
Context `{!Substrate} (in_tree : Header → Prop) `{!BlockTree in_tree}.

(** Blocks are numbered upwards along a chain. *)
Lemma chain_number p hds hd hd' :
  chain in_tree p hds → in_tree hd → header_hash hd = p →
  last hds = Some hd' → number hd' = number hd + N.of_nat (length hds).
Proof.
  revert p hd. induction hds as [|x hds IH]; intros p hd; [done|].
  intros (Hx & Hpx & Hrest) Hhd Hp Hlast. rewrite length_cons, Nat2N.inj_succ.
  pose proof (tree_number x hd Hx Hhd) as Hnum. rewrite Hpx, Hp in Hnum.
  specialize (Hnum eq_refl). destruct hds as [|y hds].
  - simplify_eq/=. lia.
  - rewrite last_cons_ne in Hlast by done. rewrite (IH _ x Hrest Hx eq_refl Hlast). lia.
Qed.

Lemma chain_app p l1 l2 :
  chain in_tree p (l1 ++ l2) ↔ chain in_tree p l1 ∧ chain in_tree (chain_tip p l1) l2.
Proof.
  revert p. induction l1 as [|x l1 IH]; intros p; cbn; [tauto|].
  rewrite IH. unfold chain_tip. destruct l1 as [|y l1]; cbn; [tauto|].
  destruct (last_Some_ne (y :: l1)) as [z ->]; [done|]. cbn. tauto.
Qed.

(** Two chains that end in one block: the shorter is a suffix of the longer. *)
Lemma chain_suffix p q l1 l2 :
  chain in_tree p l1 → chain in_tree q l2 → chain_tip p l1 = chain_tip q l2 →
  (length l1 ≤ length l2)%nat → ∃ l, l2 = l ++ l1 ∧ chain_tip q l = p.
Proof.
  revert p q l2. induction l1 as [|x l1 IH] using rev_ind; intros p q l2 H1 H2 Htip Hlen.
  - exists l2. by rewrite app_nil_r.
  - destruct l2 as [|y l2 _] using rev_ind; [rewrite length_app in Hlen; cbn in Hlen; lia|].
    rewrite !chain_tip_snoc in Htip. rewrite chain_snoc in H1, H2.
    destruct H1 as (H1 & Hx & Hpx), H2 as (H2 & Hy & Hpy).
    assert (x = y) as <- by (by apply tree_hash_inj).
    destruct (IH p q l2) as (l & -> & Hl); [done..|congruence| |].
    { rewrite !length_app in Hlen. cbn in Hlen. lia. }
    exists l. by rewrite <-app_assoc.
Qed.

Lemma chain_last_in p hds hd : last hds = Some hd → chain in_tree p hds → in_tree hd.
Proof.
  intros Hl. destruct hds as [|y hds _] using rev_ind; [done|].
  rewrite last_snoc in Hl. simplify_eq. rewrite chain_snoc. tauto.
Qed.

Lemma chain_tip_app p l1 l2 : chain_tip p (l1 ++ l2) = chain_tip (chain_tip p l1) l2.
Proof.
  destruct l2 as [|x l2 _] using rev_ind; [by rewrite app_nil_r|].
  by rewrite app_assoc, !chain_tip_snoc.
Qed.

Lemma chain_acyclic p l : chain in_tree p l → chain_tip p l = p → l = [].
Proof.
  intros Hl Htip. destruct (last l) as [hd|] eqn:Hlast; [|by apply last_None].
  unfold chain_tip in Htip. rewrite Hlast in Htip. cbn in Htip.
  pose proof (chain_number _ _ hd hd Hl (chain_last_in _ _ _ Hlast Hl) Htip Hlast).
  apply nil_length_inv. lia.
Qed.

Lemma update_tip tip u tip' :
  update in_tree tip u tip' →
  ∃ common ret ena,
    chain in_tree common ret ∧ chain_tip common ret = hn_hash tip ∧
    chain in_tree common ena ∧ chain_tip common ena = hn_hash tip' ∧
    (∀ hd, hd ∈ ret → hd ∉ ena) ∧
    (maybe_reorg_data u = None ↔ ret = []) ∧
    blocks u = (λ hd, block_ext_of (header_hash hd) hd) <$> ena.
Proof.
  intros (common & ret & ena & Hret & Htret & Hena & Hlast & Hblocks & Hdisj & Hdata).
  exists (hn_hash common), ret, ena. split_and!; try done.
  - rewrite fmap_last in Hlast. unfold chain_tip. destruct (last ena); by simplify_eq/=.
  - rewrite Hdata. by destruct ret.
Qed.

(** If the new best block descends from the old one, the broadcast is exactly the
    blocks between them and reports no reorg. *)
Lemma update_extension tip u tip' ext :
  update in_tree tip u tip' → chain in_tree (hn_hash tip) ext →
  chain_tip (hn_hash tip) ext = hn_hash tip' →
  maybe_reorg_data u = None ∧
  blocks u = (λ hd, block_ext_of (header_hash hd) hd) <$> ext.
Proof.
  intros (common & ret & ena & Hret & Htret & Hena & Htena & Hdisj & -> & ->)%update_tip
    Hext Htext.
  rewrite <-Htext in Htena. destruct (le_lt_dec (length ext) (length ena)) as [Hle|Hlt].
  - destruct (chain_suffix _ _ _ _ Hext Hena (eq_sym Htena) Hle) as (l & -> & Hl).
    apply chain_app in Hena as [Hcl _].
    destruct ret as [|hb ret _] using rev_ind.
    { change (common = hn_hash tip) in Htret. rewrite Htret in Hcl, Hl.
      by rewrite (chain_acyclic _ _ Hcl Hl). }
    exfalso. destruct l as [|hl l _] using rev_ind.
    + change (common = hn_hash tip) in Hl. rewrite <-Hl in Htret.
      apply chain_acyclic in Htret; [by destruct ret|done].
    + rewrite chain_tip_snoc in Hl, Htret.
      apply chain_snoc in Hcl as (_ & Hinl & _), Hret as (_ & Hinb & _).
      assert (hl = hb) as -> by (apply tree_hash_inj; congruence || done).
      apply (Hdisj hb); set_solver.
  - destruct (chain_suffix _ _ _ _ Hena Hext Htena) as (l & -> & Hl); [lia|].
    apply chain_app in Hext as [Hcl _].
    assert (l ++ ret = []) as [-> ->]%app_nil; [|done].
    apply (chain_acyclic (hn_hash tip)).
    + apply chain_app. by rewrite Hl.
    + by rewrite chain_tip_app, Hl.
Qed.

(** A reorg is reported exactly when the old best block is not an ancestor of the
    new one. *)
Lemma update_reorg_iff tip u tip' :
  update in_tree tip u tip' →
  maybe_reorg_data u = None ↔
  ∃ ext, chain in_tree (hn_hash tip) ext ∧ chain_tip (hn_hash tip) ext = hn_hash tip'.
Proof.
  intros Hu. split; [|intros (ext & ? & ?); by eapply update_extension].
  apply update_tip in Hu as (common & ret & ena & _ & Htret & Hena & Htena & _ & -> & _).
  intros ->. change (common = hn_hash tip) in Htret. subst. eauto.
Qed.
End Updates.
