(* ===== verification/FollowerProgress.v ===== *)
(** * The chain follower makes progress

    [recursive_tree_route] ends, with the tree route of the node's own headers,
    when the node serves the headers of that route; a turn of the loop then
    delivers the block it received. *)

From S2P Require Import Prelude Errors Headers TreeRoute Follower FollowerSpec.

Local Open Scope N_scope.

Section Progress.
Context `{!ErrorPayloads} `{!Substrate} (in_tree : Header → Prop) `{!BlockTree in_tree}.
Context {api : TreeRouteApi} `{!TreeRouteLaws api}.
Context {W : Type} {node : NodeApi W} `{!HonestNode in_tree node}.
Abbreviation L := (Listener W).
Implicit Types (s : L) (c full : HeadersMetadataCache).

(** The node answers, whatever it did before, for each of these headers. *)
Definition serves (hashes : list BlockHash) : Prop := ∀ w h, h ∈ hashes →
  ∃ sh w', chain_get_header (Some h) w = (inr (Some sh), w').

(** The headers of the route that the cache does not hold. *)
Definition missing (r : TreeRoute) c : gset BlockHash :=
  list_to_set (route_hashes r) ∖ dom (block_header_data c).

Lemma route_hashes_found full from to r h :
  headers_ok in_tree full → tree_route (header_metadata full) from to = Ok r →
  h ∈ route_hashes r → ∃ hd, block_header_data full !! h = Some hd.
Proof.
  intros Hf Hr Hin. pose proof (headers_lookup_ok _ _ Hf) as Hlk.
  destruct (route_branches _ _ _ _ Hlk Hr) as [[Hret (mc & Hmc & Hc)] [Hen _]].
  assert (∀ a l b x, segment (header_metadata full) a l b → x ∈ l →
    ∃ hd, block_header_data full !! hn_hash x = Some hd) as Hseg.
  { induction 1 as [|a m l b (hd & Hhd & ->)%header_metadata_Ok _ IH]; [set_solver|].
    intros [->|?]%elem_of_cons; [|by apply IH].
    exists hd. cbn. by rewrite (proj1 (Hf _ _ Hhd)). }
  apply list_elem_of_fmap in Hin as (x & -> & [Hx|[->|Hx]%elem_of_cons]%elem_of_app).
  - by apply (Hseg _ _ _ _ Hret).
  - apply header_metadata_Ok in Hmc as (hd & Hhd & _). eauto.
  - apply (Hseg _ _ _ _ Hen). by apply elem_of_rev.
Qed.

Lemma missing_insert r c hd h :
  header_hash hd = h → h ∈ route_hashes r → block_header_data c !! h = None →
  (size (missing r (insert_header hd c)) < size (missing r c))%nat.
Proof.
  intros Hh Hin Hnone. apply subset_size. unfold missing. cbn.
  rewrite dom_insert_L, Hh. apply not_elem_of_dom in Hnone.
  split; [set_solver|]. intros Hsub. specialize (Hsub h).
  rewrite !elem_of_difference, elem_of_list_to_set in Hsub. set_solver.
Qed.

(** Any number of missing headers plus one attempts is enough. *)
Lemma recursive_tree_route_finishes full from to r fuel s :
  headers_ok in_tree full → tree_route (header_metadata full) from to = Ok r →
  serves (route_hashes r) → cache_ok in_tree (header_cache s) →
  block_header_data (header_cache s) ⊆ block_header_data full →
  (size (missing r (header_cache s)) < fuel)%nat →
  ∃ s', recursive_tree_route fuel from to s = (Ok r, s') ∧ quiet in_tree s s' ∧
    block_header_data (header_cache s) ⊆ block_header_data (header_cache s') ∧
    block_header_data (header_cache s') ⊆ block_header_data full.
Proof.
  intros Hfull Hr Hserves. revert s. induction fuel as [|fuel IH]; intros s Hc Hsub Hlt; [lia|].
  assert (reads_more (header_metadata (header_cache s)) (header_metadata full)) as Hmore.
  { intros h m (hd & Hhd & ->)%header_metadata_Ok. apply header_metadata_Ok.
    exists hd. split; [|done]. by eapply lookup_weaken. }
  destruct (route_local _ _ from to r (header_metadata_lookup_ok _ _ Hc)
    (headers_lookup_ok _ _ Hfull) Hmore Hr) as [Hok|(h & e & Hin & He & Herr)].
  { exists s. split_and!; try done. cbn [recursive_tree_route]. m_step. by rewrite Hok. }
  apply header_metadata_Err in He as [Hnone ->].
  destruct (Hserves (world s) h Hin) as (sh & w' & Hget).
  destruct (honest_header _ _ _ _ Hget) as (hd & Hconv & Htree & Hhash).
  destruct (route_hashes_found _ _ _ _ _ Hfull Hr Hin) as [hd' Hhd'].
  assert (hd' = hd) as -> by (apply tree_hash_inj; destruct (Hfull _ _ Hhd'); congruence || done).
  set (s1 := set_cache (insert_header hd (header_cache s)) (set_world w' s)).
  assert (recursive_tree_route (S fuel) from to s = recursive_tree_route fuel from to s1) as ->.
  { cbn [recursive_tree_route]. m_step. rewrite Herr. m_step.
    by erewrite bind_ok by (by apply with_cache_add_run). }
  destruct (IH s1) as (s' & Hrun & Hq & Hsub1 & Hsub2).
  - by apply insert_header_ok.
  - cbn. rewrite Hhash. by apply insert_subseteq_l.
  - pose proof (missing_insert r (header_cache s) hd h Hhash Hin Hnone). unfold s1. cbn. lia.
  - exists s'. split_and!; [done|exact Hq| |done].
    etrans; [|exact Hsub1]. cbn. apply insert_subseteq. by rewrite Hhash.
Qed.

Lemma missing_length r c : (size (missing r c) ≤ length (route_hashes r))%nat.
Proof.
  unfold missing. generalize (route_hashes r). intros l.
  trans (size (list_to_set l : gset BlockHash)); [apply subseteq_size; set_solver|].
  induction l as [|x l IH]; cbn; [done|].
  trans (size ({[x]} : gset BlockHash) + size (list_to_set l : gset BlockHash))%nat;
    [|rewrite size_singleton; lia].
  rewrite size_union_alt. apply Nat.add_le_mono_l, subseteq_size. set_solver.
Qed.

(** A received block that is canonical, and that the node's headers connect to the
    current best block by a route that enacts something, is broadcast and becomes
    the best block. *)
Lemma listen_turn_progress full b r w1 w2 fuel s :
  cache_ok in_tree (header_cache s) → headers_ok in_tree full →
  block_header_data (header_cache s) ⊆ block_header_data full →
  is_Some (block_header_data full !! sb_hash b) →
  sub_next (world s) = (Some (inr b), w1) →
  chain_get_block_hash (Some (number (sb_header b))) w1 = (inr (Some (sb_hash b)), w2) →
  tree_route (header_metadata full) (hn_hash (current_best_block s)) (sb_hash b) = Ok r →
  enacted r ≠ [] → serves (route_hashes r) → (length (route_hashes r) < fuel)%nat →
  ∃ s' u, listen_turn fuel s = (Ok tt, s') ∧ sink s' = sink s ++ [u] ∧
    hn_hash (current_best_block s') = sb_hash b ∧
    update in_tree (current_best_block s) u (current_best_block s').
Proof.
  intros Hc Hfull Hsub [hdf Hhdf] Hnext Hcanon Hr Hne Hserves Hfuel.
  destruct (honest_block _ _ _ Hnext) as (hd & Hconv & Hin & Hhash).
  destruct (Hfull _ _ Hhdf) as [Hhf Hinf].
  assert (hdf = hd) as -> by (apply tree_hash_inj; congruence || done).
  set (s1 := set_world w2 (set_cache (insert_header hd (header_cache s)) (set_world w1 s))).
  destruct (recursive_tree_route_finishes full (hn_hash (current_best_block s)) (sb_hash b)
    r fuel s1) as (s2 & Hrun & (Hsink & Hbest & Hc2) & _); try done.
  { by apply insert_header_ok. }
  { cbn. rewrite Hhash. by apply insert_subseteq_l. }
  { pose proof (missing_length r (header_cache s1)). lia. }
  assert (quiet in_tree s1 s1) as Hq1 by (by apply quiet_refl, insert_header_ok).
  destruct (wp_run _ _ _ _ _ _ (wp_recursive_tree_route in_tree fuel _ _ s1 s1 Hq1) Hrun)
    as [_ Hr2].
  destruct (route_update _ _ _ _ _ Hc2 Hr2 Hne)
    as (ena & latest & Eena & Hcached & Hlast & Hto & Hupd).
  unfold listen_turn.
  m_step. m_step. rewrite Hhash. erewrite bind_ok by (by rewrite decide_True).
  erewrite bind_ok by (by apply is_canonical_run). rewrite bool_decide_true by done.
  fold s1.
  cbn [negb]. m_step.
  erewrite bind_ok by exact Hrun. rewrite is_empty_false by done. cbn [andb].
  erewrite bind_ok by (rewrite Eena; by apply get_block_exts).
  erewrite bind_ok by (rewrite Hlast; done).
  eexists _, _. split; [done|]. cbn. rewrite Hsink. split_and!; done.
Qed.

(** ** Filling the cache *)

Lemma wp_add_headers headers s0 s :
  quiet in_tree s0 s →
  Forall (λ sh, ∃ hd, convert_header sh = Some hd ∧ in_tree hd) headers →
  wp (drive (λ header, _ ← with_cache (add_header header); mret tt) headers)
    (λ _ s', quiet in_tree s0 s' ∧
       block_header_data (header_cache s) ⊆ block_header_data (header_cache s') ∧
       Forall (λ sh, ∃ hd, convert_header sh = Some hd ∧ cached (header_cache s') hd) headers)
    (gives_up in_tree s0) s.
Proof.
  intros Hq Hall. revert s Hq. induction Hall as [|sh headers (hd & Hconv & Hin) _ IH];
    intros s Hq; [by split_and!|].
  cbn [drive]. wp_step. wp_step. eapply wp_add_header; [done|]. wp_step.
  set (s1 := set_cache _ _).
  assert (block_header_data (header_cache s) ⊆ block_header_data (header_cache s1)) as Hsub1.
  { apply map_subseteq_spec. intros h hd' Hh. cbn. rewrite lookup_insert.
    case_decide as Heq; [|done]. f_equal. destruct Hq as (_ & _ & Hc).
    apply tree_hash_inj; [done|by eapply ok_tree|]. rewrite Heq. symmetry. by eapply ok_hash. }
  eapply wp_mono; [apply (IH s1), quiet_insert; done| |done].
  intros _ s2 (Hq2 & Hsub & Hcached). split_and!; [done|by etrans|].
  constructor; [|done]. exists hd. split; [done|]. unfold cached.
  eapply lookup_weaken; [|exact Hsub]. cbn. apply lookup_insert_eq.
Qed.

Lemma wp_fetch_header n s0 s :
  quiet in_tree s0 s →
  wp (fetch_header n)
    (λ sh s', quiet in_tree s0 s' ∧ header_cache s' = header_cache s ∧
       ∃ hd, convert_header sh = Some hd ∧ in_tree hd ∧ number hd = n)
    (gives_up in_tree s0) s.
Proof.
  intros Hq. unfold fetch_header, rpc_header.
  wp_step. apply wp_call. intros r w Hcall.
  wp_step. wp_step; [|by split]. intros o ->. wp_step. wp_step; [|by split]. intros h ->.
  wp_step. apply wp_call. intros r' w' Hcall'.
  wp_step. wp_step; [|by split]. intros o' ->. wp_step; [|by split]. intros sh ->.
  split; [done|]. split; [done|]. destruct (honest_header _ _ _ _ Hcall') as (hd & ? & ? & Hh).
  exists hd. split_and!; [done..|]. by eapply honest_number.
Qed.

Lemma wp_first_canonical fuel s0 s :
  quiet in_tree s0 s → wp (first_canonical fuel) (λ _ s', quiet in_tree s0 s' ∧
    header_cache s' = header_cache s) (gives_up in_tree s0) s.
Proof.
  revert s. induction fuel as [|fuel IH]; intros s Hq; [by split|].
  cbn. unfold next_block, is_canonical_block.
  wp_step. wp_step. apply wp_call. intros o w Hcall.
  wp_step. wp_step; [|by split]. intros r ->. wp_step; [|by split]. intros b ->.
  wp_step. wp_step. apply wp_call. intros r' w' Hcall'.
  wp_step. wp_step; [|by split]. intros o' ->. wp_step. wp_step; [|by split]. intros h ->. wp_step.
  case_bool_decide; [by wp_step|]. eapply wp_mono; [by apply IH|done..].
Qed.

Lemma elem_of_range_inclusive a b n : n ∈ range_inclusive a b ↔ a <= n ∧ n <= b.
Proof.
  unfold range_inclusive. rewrite list_elem_of_fmap. setoid_rewrite elem_of_seq. split.
  - intros (i & -> & Hi). lia.
  - intros Hn. exists (N.to_nat (n - a)). lia.
Qed.

(** After loading, every height of the window below the best block is cached. *)
Definition window_loaded (best : HashAndNumber) c : Prop := ∀ n,
  saturating_sub (hn_number best) CACHE_HEADER_DEPTH <= n → n <= hn_number best →
  hashes_at c n ≠ ∅.

Lemma wp_load fuel s :
  cache_ok in_tree (header_cache s) →
  wp (load_header_metadata_cache fuel)
    (λ best s', quiet in_tree s s' ∧ window_loaded best (header_cache s') ∧
       block_header_data (header_cache s) ⊆ block_header_data (header_cache s'))
    (gives_up in_tree s) s.
Proof.
  intros Hc. pose proof (quiet_refl in_tree s Hc) as Hq. unfold load_header_metadata_cache.
  wp_step. eapply wp_mono; [by apply wp_first_canonical| |done].
  intros h s1 [Hq1 Hcache1]. wp_step. unfold rpc_header.
  wp_step. apply wp_call. intros r w Hcall.
  wp_step. wp_step; [|by split]. intros o ->. wp_step; [|by split]. intros head ->.
  cbn beta zeta. wp_step. set (ns := range_inclusive _ _).
  eapply wp_mono; [apply (wp_traverse fetch_header (λ done_ bs s', quiet in_tree s s' ∧
    header_cache s' = header_cache s ∧ Forall2 (λ n sh, ∃ hd, convert_header sh = Some hd ∧
      in_tree hd ∧ number hd = n) done_ bs))| |done].
  { by split_and!. }
  { intros done_ n bs s2 _ (Hq2 & Hcache2 & Hall).
    eapply wp_mono; [by apply wp_fetch_header| |done].
    intros sh s3 (Hq3 & Hcache3 & Hsh). split_and!; [done|congruence|].
    by apply Forall2_app; [|repeat constructor]. }
  intros headers s2 (Hq2 & Hcache2 & Hall). wp_step.
  eapply wp_mono; [apply (wp_add_headers headers s s2); [done|]| |done].
  { apply Forall_forall. intros sh Hsh. apply list_elem_of_lookup in Hsh as [i Hi].
    destruct (Forall2_lookup_r _ _ _ _ _ Hall Hi) as (n & _ & hd & ? & ? & _). eauto. }
  intros _ s3 (Hq3 & Hsub & Hcached). rewrite Hcache2 in Hsub. wp_step.
  split_and!; [done| |done]. intros n Hlo Hhi. cbn in Hlo, Hhi.
  assert (n ∈ ns) as Hn by (by apply elem_of_range_inclusive).
  apply list_elem_of_lookup in Hn as [i Hi].
  destruct (Forall2_lookup_l _ _ _ _ _ Hall Hi) as (sh & Hsh & hd & Hconv & _ & Hnum).
  destruct (Forall_lookup_1 _ _ _ _ Hcached Hsh) as (hd' & Hconv' & Hhd'). simplify_eq.
  intros Hempty. assert (header_hash hd ∈ hashes_at (header_cache s3) (number hd)); [|set_solver].
  apply (ok_index _ _ (proj2 (proj2 Hq3))). by exists hd.
Qed.
End Progress.
