(* ===== verification/Scenario.v ===== *)
(** * A small chain and an honest node

    Concrete instances of every parameter of the chain follower: a block tree
    with one fork, and a node that announces its blocks.  The witnesses of the
    follower's theorems evaluate the program on it.

<<
      G(0) - A1(1) - A2(2)
                   \ B2(2) - B3(3)
>>
    The node announces A1, A2, B2 and B3; the A branch is canonical until B3. *)

From S2P Require Import Prelude Errors Headers TreeRoute Follower FollowerSpec FollowerProgress.

Local Open Scope N_scope.

#[export] Instance toy_payloads : ErrorPayloads := {|
  subxt_Error := string; JoinError := string; reqwest_Error := string;
  subxt_rpcs_Error := string; codec_Error := string; io_Error := string;
  toml_Error := string; SlackClientError := string |}.

(** Digests carry nothing; the hash of a header is read off its number and its
    branch, which the state root stands for. *)
#[export] Instance toy_substrate : Substrate := {|
  SubxtDigest := (); Digest := ();
  digest_encode _ := []; digest_decode _ := Some tt;
  header_hash hd := 16 * number hd + state_root hd + 1 |}.

Definition toy_header (n branch parent : N) : HeaderOf () :=
  {| parent_hash := parent; number := n; state_root := branch; extrinsics_root := 0;
     digest := tt |}.

Definition G : HeaderOf () := toy_header 0 0 0.
Definition A1 : HeaderOf () := toy_header 1 0 1.
Definition A2 : HeaderOf () := toy_header 2 0 17.
Definition B2 : HeaderOf () := toy_header 2 1 17.
Definition B3 : HeaderOf () := toy_header 3 1 34.

Definition toy_chain : list Header := [G; A1; A2; B2; B3].
Definition toy_tree (hd : Header) : Prop := hd ∈ toy_chain.

Definition toy_hn (hd : HeaderOf ()) : HashAndNumber := hn_of_header (hd : Header).

Definition toy_find (h : BlockHash) : option Header :=
  snd <$> list_find (λ hd, header_hash hd = h) toy_chain.

Definition toy_block (hd : Header) : SubxtBlock :=
  {| sb_hash := header_hash hd; sb_header := hd |}.

(** The canonical hash of a height after [w] announcements. *)
Definition toy_canonical (w : nat) (n : BlockNumber) : option BlockHash :=
  let best := if (w <? 4)%nat then [G; A1; A2] else [G; A1; B2; B3] in
  header_hash <$> (best !! N.to_nat n).

#[export] Instance toy_node : NodeApi nat := {|
  chain_get_block_hash n w := (inr (n ≫= toy_canonical w), w);
  chain_get_header h w := (inr (h ≫= toy_find), w);
  subscribe_all w := (inr tt, w);
  sub_next w := ((λ hd, inr (toy_block hd)) <$> [A1; A2; B2; B3] !! w, S w) |}.

#[export] Instance toy_route : TreeRouteApi := Walk.route.

Ltac toy_cases :=
  repeat match goal with
  | H : toy_tree _ |- _ => unfold toy_tree, toy_chain in H
  | H : _ ∈ _ :: _ |- _ => apply elem_of_cons in H as [->|H]
  | H : _ ∈ [] |- _ => by apply not_elem_of_nil in H
  end.

#[export] Instance toy_block_tree : BlockTree toy_tree.
Proof.
  split; intros a b Ha Hb; toy_cases; vm_compute; congruence.
Qed.

Lemma toy_find_spec h hd : toy_find h = Some hd → toy_tree hd ∧ header_hash hd = h.
Proof.
  unfold toy_find. intros Hf. destruct (list_find _ _) as [[i x]|] eqn:Hx; [|done].
  apply list_find_Some in Hx as (Hi & Hh & _). simplify_eq/=.
  split; [|done]. by eapply list_elem_of_lookup_2.
Qed.

Lemma toy_convert (hd : Header) : convert_header hd = Some hd.
Proof. by destruct hd as [???? []]. Qed.

#[export] Instance toy_honest : HonestNode toy_tree toy_node.
Proof.
  split.
  - intros w b w' [= Hb _]. destruct ([A1; A2; B2; B3] !! w) as [hd|] eqn:Hhd; [|done].
    simplify_eq/=. exists hd. split_and!; [apply toy_convert| |done].
    apply list_elem_of_lookup_2 in Hhd. unfold toy_tree, toy_chain. set_solver.
  - intros w h sh w' [= Hsh _]. cbn in Hsh. apply toy_find_spec in Hsh as [? ?].
    exists sh. split_and!; [apply toy_convert|done..].
  - intros w n h w' hd [= Hh _] Hin Hhash. cbn in Hh.
    unfold toy_canonical in Hh. apply fmap_Some in Hh as (hd' & Hlook & ->).
    destruct (w <? 4)%nat; destruct (N.to_nat n) as [|[|[|[|i]]]] eqn:Hn; simplify_eq/=;
      toy_cases; vm_compute in Hhash; try discriminate; cbn; lia.
Qed.

(** The follower just connected at A1, before anything is cached. *)
Definition toy_start : Listener nat :=
  {| world := 1%nat; header_cache := empty_cache;
     current_best_block := toy_hn A1; sink := [] |}.

Definition toy_run : outcome Error () * Listener nat := listen_for_blocks 3 10 toy_start.

(** Every header of the chain, as the node holds them. *)
Definition toy_full : HeadersMetadataCache :=
  foldl (λ c hd, insert_header hd c) empty_cache toy_chain.

Lemma toy_full_cache_ok : cache_ok toy_tree toy_full.
Proof.
  unfold toy_full, toy_chain. cbn [foldl].
  repeat (apply (insert_header_ok toy_tree); [|unfold toy_tree, toy_chain; set_solver]).
  apply cache_ok_empty.
Qed.

Lemma toy_full_ok : headers_ok toy_tree toy_full.
Proof. apply cache_ok_headers, toy_full_cache_ok. Qed.

Lemma toy_serves hs : (∀ h, h ∈ hs → is_Some (toy_find h)) → serves (W:=nat) hs.
Proof. intros Hh w h [hd Hhd]%Hh. exists hd, w.
  change ((inr (toy_find h), w) = (inr (Some hd) : result string (option (HeaderOf ())), w)).
  by rewrite Hhd. Qed.

Example toy_run_ok :
  fst toy_run = Ok tt ∧ current_best_block (snd toy_run) = toy_hn B3 ∧
  maybe_reorg_data <$> sink (snd toy_run) =
    [None; Some {| rd_enacted := [toy_hn B2]; rd_retracted := [toy_hn A2];
                   rd_common_block := toy_hn A1 |}].
Proof. vm_compute. done. Qed.

(** The same chain behind a subscription that fails after two announcements. *)
Definition flaky_node : NodeApi nat := {|
  chain_get_block_hash := @chain_get_block_hash _ _ _ toy_node;
  chain_get_header := @chain_get_header _ _ _ toy_node;
  subscribe_all := @subscribe_all _ _ _ toy_node;
  sub_next w := if (w <? 2)%nat then @sub_next _ _ _ toy_node w
    else (Some (inl "connection lost"), S w) |}.

(** And behind an RPC server that fails for the second announcement. *)
Definition rpc_failing_node : NodeApi nat := {|
  chain_get_block_hash n w :=
    if (w =? 2)%nat then (inl "rpc down", S w) else @chain_get_block_hash _ _ _ toy_node n w;
  chain_get_header := @chain_get_header _ _ _ toy_node;
  subscribe_all := @subscribe_all _ _ _ toy_node;
  sub_next := @sub_next _ _ _ toy_node |}.

Definition toy_offline : Listener nat :=
  {| world := 0%nat; header_cache := empty_cache;
     current_best_block := toy_hn G; sink := [] |}.

(** [m] returns [Ok a] from [s]: the value and the state, as two evaluations. *)
Lemma run_split {S E A} (m : M S E A) s o : fst (m s) = o → m s = (o, snd (m s)).
Proof. intros <-. apply surjective_pairing. Qed.
