(* ===== verification/CacheSpec.v ===== *)
(** * The header cache against a single map

    [HeadersMetadataCache] keeps two maps, the headers by hash and an index of hashes by
    number, and trims them with a loop over the index.  The reference below keeps one
    map from hashes to headers and trims it with a filter.  Every sequence of calls gets
    the same answers from both, and the index is the one the headers determine. *)

From S2P Require Import Prelude Errors Headers TreeRoute Follower FollowerSpec FollowerProgress.
From S2P Require Import Scenario.

Local Open Scope N_scope.

(** ** Sequences of calls *)
Section Calls.
Context {S E C A : Type} (f : C → M S E A).

(** The answers to a sequence of calls; a call that fails leaves its state to the next. *)
Fixpoint answers (calls : list C) (s : S) : list (outcome E A) * S :=
  match calls with
  | [] => ([], s)
  | c :: calls =>
      let '(o, s1) := f c s in
      let '(os, s2) := answers calls s1 in (o :: os, s2)
  end.
End Calls.

(** Two implementations related by an invariant that every call keeps, with the same
    answer, answer alike. *)
Lemma answers_simulation {S S' E C A} (f : C → M S E A) (g : C → M S' E A)
    (R : S → S' → Prop) (ok : C → Prop) calls s s' :
  (∀ c s s', ok c → R s s' → fst (f c s) = fst (g c s') ∧ R (snd (f c s)) (snd (g c s'))) →
  Forall ok calls → R s s' →
  fst (answers f calls s) = fst (answers g calls s') ∧
  R (snd (answers f calls s)) (snd (answers g calls s')).
Proof.
  intros Hstep Hok. revert s s'. induction Hok as [|c calls Hc _ IH]; intros s s' HR; [done|].
  cbn. destruct (Hstep c s s' Hc HR) as [Ho HR1].
  destruct (f c s) as [o s1], (g c s') as [o' s1']; cbn in *. subst o'.
  destruct (IH s1 s1' HR1) as [Hos HR2].
  destruct (answers f calls s1), (answers g calls s1'); cbn in *. by subst.
Qed.

Section Cache.
Context `{!ErrorPayloads} `{!Substrate}.
Implicit Types (m : gmap BlockHash Header) (h : BlockHash) (hd : Header).

Inductive call : Type :=
  | AddHeader (header : SubstrateHeader)
  | RemoveHeaderUntil (number : BlockNumber)
  | GetHeader (hash : BlockHash)
  | HeaderMetadata (hash : BlockHash).

Inductive answer : Type :=
  | Hash (hash : BlockHash)
  | Done
  | Found (header : Header)
  | Metadata (metadata : CachedHeaderMetadata).

(** The calls on the cache of the program. *)
Definition cache_call (c : call) : M HeadersMetadataCache Error answer :=
  match c with
  | AddHeader header => hash ← add_header header; mret (Hash hash)
  | RemoveHeaderUntil number => _ ← modify (remove_header_until number); mret Done
  | GetHeader hash =>
      cache ← gets id; header ← lift (get_header cache hash); mret (Found header)
  | HeaderMetadata hash =>
      cache ← gets id; metadata ← lift (header_metadata cache hash); mret (Metadata metadata)
  end.

(** ** The reference *)

(** Some header of the map has the height. *)
Definition has_height m (k : BlockNumber) : Prop := map_Exists (λ _ hd, number hd = k) m.

(** Every height from the header's own up to [n] has a header. *)
Definition joined_to m (n : BlockNumber) hd : Prop :=
  number hd <= n ∧ Forall (has_height m) (range_inclusive (number hd) n).

#[global] Instance joined_to_dec m n hd : Decision (joined_to m n hd).
Proof. unfold joined_to, has_height. apply _. Defined.

Definition trim (n : BlockNumber) m : gmap BlockHash Header :=
  filter (λ x, ¬ joined_to m n (snd x)) m.

Definition reference_call (c : call) : M (gmap BlockHash Header) Error answer :=
  match c with
  | AddHeader header =>
      header ← lift (expect "Digest is always valid" (convert_header header));
      _ ← modify (<[header_hash header := header]>);
      mret (Hash (header_hash header))
  | RemoveHeaderUntil number => _ ← modify (trim number); mret Done
  | GetHeader hash =>
      headers ← gets id;
      header ← lift (ok_or (MissingBlockHashFromCache hash) (headers !! hash));
      mret (Found header)
  | HeaderMetadata hash =>
      headers ← gets id;
      header ← lift (ok_or (MissingBlockHashFromCache hash) (headers !! hash));
      mret (Metadata (cached_of_header header))
  end.

(** The hashes of the headers at a height. *)
Definition hashes_with m (n : BlockNumber) : gset BlockHash :=
  dom (filter (λ x, number (snd x) = n) m).

(** ** The simulation *)
Context (in_tree : Header → Prop) `{!BlockTree in_tree}.

(** The headers that are added belong to the chain. *)
Definition call_ok (c : call) : Prop :=
  match c with
  | AddHeader header => ∀ hd, convert_header header = Some hd → in_tree hd
  | _ => True
  end.

Definition same_headers (c : HeadersMetadataCache) m : Prop :=
  cache_ok in_tree c ∧ block_header_data c = m.

Lemma indexed_height c k :
  cache_ok in_tree c →
  is_Some (block_number_hashes c !! k) ↔ has_height (block_header_data c) k.
Proof.
  intros Hc. unfold has_height, map_Exists. split.
  - intros [hs Hhs]. destruct (decide (hs = ∅)) as [->|Hne]; [by destruct (ok_nonempty _ _ Hc k)|].
    apply set_choose_L in Hne as [h Hh]. exists h. apply (ok_index _ _ Hc k h).
    unfold hashes_at. by rewrite Hhs.
  - intros (h & hd & Hhd). assert (h ∈ hashes_at c k) as Hin.
    { apply (ok_index _ _ Hc k h). by exists hd. }
    unfold hashes_at in Hin. destruct (block_number_hashes c !! k); [by eexists|set_solver].
Qed.

(** A header is in the run that the loop removes exactly when it is joined to [n]. *)
Lemma run_joined c lo n hd :
  cache_ok in_tree c → maximal_run c lo n →
  joined_to (block_header_data c) n hd ↔ lo <= number hd ∧ number hd <= n.
Proof.
  intros Hc (Hlo & Hrun & Hend). unfold joined_to. rewrite Forall_forall.
  setoid_rewrite elem_of_range_inclusive. split.
  - intros [Hn Hall]. split; [|done]. destruct (decide (lo <= number hd)) as [|Hlt]; [done|].
    destruct Hend as [->|Hend]; [lia|].
    destruct (proj2 (indexed_height c (lo - 1) Hc)) as [x Hx]; [apply Hall; lia|].
    by pose proof (eq_trans (eq_sym Hx) Hend).
  - intros [Hge Hn]. split; [done|]. intros k [? ?]. apply indexed_height; [done|].
    apply Hrun; lia.
Qed.

Lemma trim_removed c n :
  cache_ok in_tree c →
  block_header_data (remove_header_until n c) = trim n (block_header_data c).
Proof.
  intros Hc. destruct (remove_header_until_run in_tree n c Hc) as (lo & Hrun & _ & Hdata).
  apply map_eq. intros h. rewrite Hdata. unfold trim. symmetry.
  destruct (block_header_data c !! h) as [hd|] eqn:Hhd.
  - case_decide as Hin.
    + apply map_lookup_filter_None. right. intros x Hx. rewrite Hhd in Hx. injection Hx as <-.
      intros Hn. apply Hn. by apply (run_joined _ _ _ _ Hc Hrun).
    + apply map_lookup_filter_Some. split; [done|]. cbn.
      by rewrite (run_joined _ _ _ _ Hc Hrun).
  - apply map_lookup_filter_None. by left.
Qed.

Lemma cache_call_same c s m :
  call_ok c → same_headers s m →
  fst (cache_call c s) = fst (reference_call c m) ∧
  same_headers (snd (cache_call c s)) (snd (reference_call c m)).
Proof.
  intros Hok [Hc <-]. destruct c as [sh|n|h|h]; cbn in Hok.
  - unfold cache_call, reference_call, add_header, mbind, M_bind, lift.
    destruct (convert_header sh) as [hd|]; cbn; [|done].
    split; [done|]. split; [apply insert_header_ok; [done..|by apply Hok]|done].
  - cbn. split; [done|]. split; [by apply remove_header_until_ok|by apply trim_removed].
  - unfold cache_call, reference_call, get_header, mbind, M_bind, lift, gets. cbn.
    by destruct (block_header_data s !! h).
  - unfold cache_call, reference_call, header_metadata, mbind, M_bind, lift, gets. cbn.
    by destruct (block_header_data s !! h).
Qed.

Lemma index_determined c n :
  cache_ok in_tree c →
  block_number_hashes c !! n =
    (if decide (hashes_with (block_header_data c) n = ∅) then None
     else Some (hashes_with (block_header_data c) n)).
Proof.
  intros Hc. assert (hashes_at c n = hashes_with (block_header_data c) n) as <-.
  { apply set_eq. intros h. rewrite (ok_index _ _ Hc n h). unfold hashes_with.
    rewrite elem_of_dom. unfold is_Some. by setoid_rewrite map_lookup_filter_Some. }
  pose proof (ok_nonempty _ _ Hc n) as Hne. unfold hashes_at.
  destruct (block_number_hashes c !! n) as [hs|]; cbn; [|by rewrite decide_True].
  rewrite decide_False; [done|]. congruence.
Qed.

(** C9. The cache with its two maps and its trimming loop is the map of its headers:
    starting empty, and for headers of one block tree, every sequence of calls of
    [add_header], [remove_header_until], [get_header] and [header_metadata] is answered
    as a single map from hashes to headers answers it, in which trimming up to [n]
    drops, all at once, the headers that consecutive heights join to [n]; and after the
    calls the index holds under every height exactly the hashes of the headers of that
    height, without empty entries. *)
Theorem cache_is_a_header_map calls :
  Forall call_ok calls →
  let run := answers cache_call calls empty_cache in
  let reference := answers reference_call calls ∅ in
  fst run = fst reference ∧
  block_header_data (snd run) = snd reference ∧
  ∀ n, block_number_hashes (snd run) !! n =
    if decide (hashes_with (snd reference) n = ∅) then None
    else Some (hashes_with (snd reference) n).
Proof.
  intros Hok run reference.
  destruct (answers_simulation cache_call reference_call same_headers call_ok calls empty_cache ∅)
    as (Hans & Hc & Hdata); [exact cache_call_same|done|split; [apply cache_ok_empty|done]|].
  split; [done|]. split; [done|]. intros n. unfold reference. rewrite <-Hdata.
  by apply index_determined.
Qed.
End Cache.

(** ** Witness: a gap at height 1 keeps the genesis block when the heights up to 2 go. *)
Definition toy_calls : list call :=
  [AddHeader (G : HeaderOf (@SubxtDigest toy_substrate)); AddHeader A2; AddHeader B2;
   AddHeader B3; GetHeader 33; RemoveHeaderUntil 2; GetHeader 33; GetHeader 34;
   HeaderMetadata 1; HeaderMetadata 50].

Lemma cache_is_a_header_map_witness :
  fst (answers cache_call toy_calls empty_cache) =
    [Ok (Hash 1); Ok (Hash 33); Ok (Hash 34); Ok (Hash 50); Ok (Found A2); Ok Done;
     Err (MissingBlockHashFromCache 33); Err (MissingBlockHashFromCache 34);
     Ok (Metadata (cached_of_header (G : Header)));
     Ok (Metadata (cached_of_header (B3 : Header)))] ∧
  fst (answers cache_call toy_calls empty_cache) = fst (answers reference_call toy_calls ∅).
Proof.
  split; [vm_compute; reflexivity|].
  apply (cache_is_a_header_map toy_tree toy_calls).
  unfold toy_calls. rewrite !Forall_cons. cbn [call_ok].
  setoid_rewrite toy_convert. unfold toy_tree, toy_chain. split_and!; try done; set_solver.
Defined.
