(* ===== verification/FollowerProps.v ===== *)
(** * Properties of the chain follower

    The theorems about [listen_for_blocks] and the functions it calls, each with
    a witness that evaluates it on the chain of [Scenario]. *)

From S2P Require Import Prelude Errors Headers TreeRoute Follower FollowerSpec.
From S2P Require Import FollowerProgress Scenario.

Local Open Scope N_scope.

Section Properties.
Context `{!ErrorPayloads} `{!Substrate} (in_tree : Header → Prop) `{!BlockTree in_tree}.
Context {api : TreeRouteApi} `{!TreeRouteLaws api}.
Context {W : Type} {node : NodeApi W} `{!HonestNode in_tree node}.
Implicit Types s : Listener W.

(** C11. However many turns the listening loop makes and however it ends, it never
    panics, its cache stays well formed, and the blocks it broadcast take a
    receiver step by step from the best block at the start to the best block at
    the end: every broadcast is non-empty, linked by parent hashes, starts at the
    common ancestor of the old and the new best block and names the retracted and
    enacted branches exactly. *)
Theorem listen_for_blocks_refines turns fuel s o s' :
  cache_ok in_tree (header_cache s) →
  listen_for_blocks turns fuel s = (o, s') →
  (∀ w, o ≠ Panic w) ∧ cache_ok in_tree (header_cache s') ∧
  ∃ us, sink s' = sink s ++ us ∧
    follows in_tree (current_best_block s) us (current_best_block s').
Proof.
  intros Hc Hrun. pose proof (wp_listen_for_blocks in_tree turns fuel s Hc) as Hwp.
  unfold wp in Hwp. rewrite Hrun in Hwp.
  assert (run_post in_tree s s' ∧ ∀ w, o ≠ Panic w) as [[? ?] ?]; [|done].
  destruct o as [|e|why|]; [done|destruct Hwp as [Hr Hb]; split..]; try done.
  by destruct (Hb why).
Qed.

(** C12. A broadcast says that there was a reorg exactly when the old best block
    is not an ancestor of the new one, and when it is one, the broadcast is exactly
    the blocks between them in order: no block is skipped or sent twice. *)
Theorem reorg_reported_iff_branch_left fuel s o s' u :
  cache_ok in_tree (header_cache s) →
  listen_turn fuel s = (o, s') → sink s' = sink s ++ [u] →
  let old := hn_hash (current_best_block s) in
  let new := hn_hash (current_best_block s') in
  (maybe_reorg_data u = None ↔ ∃ ext, chain in_tree old ext ∧ chain_tip old ext = new) ∧
  (∀ ext, chain in_tree old ext → chain_tip old ext = new →
     blocks u = (λ hd, block_ext_of (header_hash hd) hd) <$> ext).
Proof.
  intros Hc Hrun Hsink old new.
  assert (update in_tree (current_best_block s) u (current_best_block s')) as Hu.
  { pose proof (wp_listen_turn in_tree fuel s Hc) as Hwp. unfold wp in Hwp. rewrite Hrun in Hwp.
    assert (turn_post in_tree s s') as [_ Hpost] by (destruct o; [apply Hwp..]).
    destruct Hpost as [[Hs _]|(u' & Hs & Hu & _)].
    - rewrite Hs in Hsink. apply (f_equal length) in Hsink. rewrite length_app in Hsink.
      cbn in Hsink. lia.
    - rewrite Hs in Hsink. by apply app_inv_head in Hsink as [= ->]. }
  split; [by apply update_reorg_iff|]. intros ext Hext Htip.
  by destruct (update_extension _ _ _ _ _ Hu Hext Htip).
Qed.

(** C13. Fetching missing headers ends: if the node's own headers have a tree
    route and the node serves the headers of that route, one attempt more than
    there are headers of the route missing from the cache is enough, and the answer
    is that very route, whatever the cache held. *)
Theorem recursive_tree_route_complete full from to r fuel s :
  headers_ok in_tree full → tree_route (header_metadata full) from to = Ok r →
  serves (route_hashes r) → cache_ok in_tree (header_cache s) →
  block_header_data (header_cache s) ⊆ block_header_data full →
  (size (missing r (header_cache s)) < fuel)%nat →
  ∃ s', recursive_tree_route fuel from to s = (Ok r, s') ∧
    cache_ok in_tree (header_cache s') ∧
    block_header_data (header_cache s) ⊆ block_header_data (header_cache s') ∧
    sink s' = sink s ∧ current_best_block s' = current_best_block s.
Proof.
  intros Hf Hr Hs Hc Hsub Hlt.
  destruct (recursive_tree_route_finishes in_tree full from to r fuel s)
    as (s' & Hrun & (? & ? & ?) & ? & _); [done..|].
  exists s'. by split_and!.
Qed.

(** C14. The loop delivers: a received block that the node calls canonical, and
    that the node's headers connect to the current best block by a route which
    enacts something, is broadcast in that turn and becomes the best block. *)
Theorem canonical_block_is_broadcast full b r w1 w2 fuel s :
  cache_ok in_tree (header_cache s) → headers_ok in_tree full →
  block_header_data (header_cache s) ⊆ block_header_data full →
  is_Some (block_header_data full !! sb_hash b) →
  sub_next (world s) = (Some (inr b), w1) →
  chain_get_block_hash (Some (number (sb_header b))) w1 = (inr (Some (sb_hash b)), w2) →
  tree_route (header_metadata full) (hn_hash (current_best_block s)) (sb_hash b) = Ok r →
  enacted r ≠ [] → serves (route_hashes r) → (length (route_hashes r) < fuel)%nat →
  ∃ s' u, listen_turn fuel s = (Ok tt, s') ∧ sink s' = sink s ++ [u] ∧
    hn_hash (current_best_block s') = sb_hash b ∧
    update in_tree (current_best_block s) u (current_best_block s').
Proof. by apply listen_turn_progress. Qed.

(** A received block the node does not call canonical only enters the cache:
    nothing is broadcast and the best block stays. *)
Theorem fork_block_is_only_cached b hd w1 w2 h fuel s :
  convert_header (sb_header b) = Some hd →
  header_hash hd = sb_hash b →
  sub_next (world s) = (Some (inr b), w1) →
  chain_get_block_hash (Some (number (sb_header b))) w1 = (inr (Some h), w2) →
  h ≠ sb_hash b →
  listen_turn fuel s =
    (Ok tt, set_world w2 (set_cache (insert_header hd (header_cache s)) s)).
Proof.
  intros Hconv Hhash Hnext Hcanon Hne. unfold listen_turn.
  m_step. m_step. rewrite Hhash. erewrite bind_ok by (by rewrite decide_True).
  erewrite bind_ok by (by apply is_canonical_run). by rewrite bool_decide_false.
Qed.

(** When a turn broadcasts, it also trims the cache: nothing is left at the
    height [CACHE_HEADER_DEPTH] below the new best block, while the header of the
    new best block itself, from which the next route starts, is kept. *)
Theorem broadcast_trims_cache fuel s o s' u :
  cache_ok in_tree (header_cache s) →
  listen_turn fuel s = (o, s') → sink s' = sink s ++ [u] →
  block_number_hashes (header_cache s') !!
    saturating_sub (hn_number (current_best_block s')) CACHE_HEADER_DEPTH = None ∧
  (0 < hn_number (current_best_block s') →
     is_Some (block_header_data (header_cache s') !! hn_hash (current_best_block s'))).
Proof.
  intros Hc Hrun Hsink. pose proof (wp_listen_turn in_tree fuel s Hc) as Hwp.
  unfold wp in Hwp. rewrite Hrun in Hwp.
  assert (turn_post in_tree s s') as [_ Hpost] by (destruct o; apply Hwp).
  destruct Hpost as [[Hs _]|(u' & _ & _ & Htrim)]; [|done].
  rewrite Hs in Hsink. apply (f_equal length) in Hsink. rewrite length_app in Hsink.
  cbn in Hsink. lia.
Qed.

(** C23. With an honest node, when the load of the cache succeeds, every height from
    [CACHE_HEADER_DEPTH] below the best block up to it holds a header, both ends
    included: 101 heights on a chain that is long enough, although the constant is
    described as the maximum number of headers.  No cached header was lost, the cache is
    well formed, and nothing was broadcast. *)
Theorem load_fills_window fuel s best s' :
  cache_ok in_tree (header_cache s) →
  load_header_metadata_cache fuel s = (Ok best, s') →
  window_loaded best (header_cache s') ∧
  block_header_data (header_cache s) ⊆ block_header_data (header_cache s') ∧
  cache_ok in_tree (header_cache s') ∧ sink s' = sink s.
Proof.
  intros Hc Hrun.
  by destruct (wp_run _ _ _ _ _ _ (wp_load in_tree fuel s Hc) Hrun) as ((? & _ & ?) & ? & ?).
Qed.
End Properties.

Section CacheProperties.
Context `{!ErrorPayloads} `{!Substrate} (in_tree : Header → Prop) `{!BlockTree in_tree}.
Implicit Types c : HeadersMetadataCache.

(** C22. [remove_header_until] ends within one turn more than the index has
    numbers, and removes exactly the run of consecutive cached heights that ends at
    the given one: the headers of these heights and nothing else leave both maps,
    which stay consistent.  Heights below a gap are kept. *)
Theorem remove_header_until_removes_run n c :
  cache_ok in_tree c →
  is_Some (remove_from (S (size (block_number_hashes c))) n c) ∧
  cache_ok in_tree (remove_header_until n c) ∧
  ∃ lo, maximal_run c lo n ∧ removed_range lo n c (remove_header_until n c).
Proof.
  intros Hc. split_and!; [apply remove_from_total; lia|by apply remove_header_until_ok|].
  by eapply remove_header_until_run.
Qed.

(** C30. Adding a header of the chain returns its hash, after which that header is
    found under its hash and listed under its number, every other hash is read as
    before, and the cache is well formed; a digest that does not decode panics. *)
Theorem add_header_spec sh c :
  cache_ok in_tree c →
  match convert_header sh with
  | Some hd => in_tree hd →
      ∃ c', add_header sh c = (Ok (header_hash hd), c') ∧ cache_ok in_tree c' ∧
        get_header c' (header_hash hd) = Ok hd ∧
        header_hash hd ∈ hashes_at c' (number sh) ∧
        ∀ h, h ≠ header_hash hd → get_header c' h = get_header c h
  | None => add_header sh c = (Panic "Digest is always valid", c)
  end.
Proof.
  intros Hc. destruct (convert_header sh) as [hd|] eqn:Hconv.
  2: { unfold add_header, mbind, M_bind, lift. by rewrite Hconv. }
  intros Hin. exists (insert_header hd c).
  split_and!; [|by apply insert_header_ok|..].
  - by apply add_header_run.
  - unfold get_header. cbn. by rewrite lookup_insert_eq.
  - unfold hashes_at. cbn. rewrite (convert_header_number _ _ Hconv), lookup_insert_eq.
    cbn. set_solver.
  - intros h Hne. unfold get_header. cbn. by rewrite lookup_insert_ne.
Qed.
End CacheProperties.

Section Reconnection.
Context `{!ErrorPayloads} `{!Substrate} {api : TreeRouteApi} {W : Type} {node : NodeApi W}.
Implicit Types s : Listener W.

(** C27. When a subscription's loop ends with an error, the follower connects again,
    with the cache it had, for the error of an RPC call ([Error::Rpc]) and for no
    other: every other error ends it, unchanged. *)
Theorem reconnects_on_rpc_error_only fuel turns rest s w best s1 e s2 :
  subscribe_all (world s) = (inr tt, w) →
  load_header_metadata_cache fuel (set_world w s) = (Ok best, s1) →
  listen_for_blocks turns fuel (set_best best s1) = (Err e, s2) →
  listen_for_all_blocks fuel (turns :: rest) s =
    match e with
    | Rpc _ => listen_for_all_blocks fuel rest s2
    | _ => (Err e, s2)
    end.
Proof.
  intros Hsub Hload Hlisten. cbn [listen_for_all_blocks].
  erewrite bind_ok by (by eapply connect_run).
  erewrite bind_ok by (unfold catch; by rewrite Hlisten). by destruct e.
Qed.

(** C28. An error of the block subscription itself reaches the loop as
    [Error::Subxt]: the follower ends with it after any number of good turns and
    does not connect again, although the node could be back. *)
Theorem subscription_error_is_fatal fuel turns turns' rest s w best s1 s2 err w' :
  subscribe_all (world s) = (inr tt, w) →
  load_header_metadata_cache fuel (set_world w s) = (Ok best, s1) →
  listen_for_blocks turns fuel (set_best best s1) = (Ok tt, s2) →
  sub_next (world s2) = (Some (inl err), w') →
  listen_for_all_blocks fuel ((turns + S turns')%nat :: rest) s =
    (Err (Subxt err), set_world w' s2).
Proof.
  intros Hsub Hload Hlisten Hnext. cbn [listen_for_all_blocks].
  erewrite bind_ok by (by eapply connect_run).
  erewrite (bind_ok _ _ _ (Err (Subxt err)) (set_world w' s2)); [done|].
  unfold catch, listen_for_blocks. rewrite replicate_add, drive_app.
  rewrite (bind_ok _ _ _ _ _ Hlisten). cbn.
  unfold mbind, M_bind, listen_turn, next_block, mbind, M_bind, call, lift.
  by rewrite Hnext.
Qed.
End Reconnection.

(** ** Witnesses *)

Lemma listen_for_blocks_refines_witness :
  fst toy_run = Ok tt ∧ ∃ us, sink (snd toy_run) = us ∧ length us = 2%nat ∧
    follows toy_tree (toy_hn A1) us (toy_hn B3).
Proof.
  split; [vm_compute; reflexivity|].
  destruct (listen_for_blocks_refines toy_tree 3 10 toy_start (fst toy_run) (snd toy_run)
    (cache_ok_empty _) (surjective_pairing _)) as (_ & _ & us & Hs & Hf).
  exists us. split; [exact Hs|]. split; [|exact Hf].
  change (length (sink toy_start ++ us) = 2%nat). rewrite <-Hs. vm_compute. reflexivity.
Defined.

(** The turn that receives A2, the child of the best block A1. *)
Definition toy_turn : outcome Error () * Listener nat := listen_turn 10 toy_start.

Lemma reorg_reported_iff_branch_left_witness :
  ∃ u, sink (snd toy_turn) = [u] ∧ maybe_reorg_data u = None ∧
    blocks u = [block_ext_of (header_hash A2) A2].
Proof.
  destruct (sink (snd toy_turn)) as [|u [|]] eqn:Hs; [vm_compute in Hs; discriminate| |
    vm_compute in Hs; discriminate].
  exists u. split; [reflexivity|].
  destruct (reorg_reported_iff_branch_left toy_tree 10 toy_start (fst toy_turn)
    (snd toy_turn) u (cache_ok_empty _) (surjective_pairing _) Hs) as [Hiff Hext].
  assert (chain toy_tree 17 [A2] ∧ chain_tip 17 [A2] = 33) as [Hch Htip].
  { split; [|vm_compute; reflexivity]. repeat split. unfold toy_tree, toy_chain. set_solver. }
  split; [apply Hiff; exists [A2]; split; [exact Hch|vm_compute; reflexivity]|].
  apply (Hext [A2]); [exact Hch|vm_compute; reflexivity].
Defined.

(** The route from A2 to B3, on the headers of the whole chain. *)
Definition toy_r : TreeRoute :=
  {| retracted := [toy_hn A2]; common_block := toy_hn A1;
     enacted := [toy_hn B2; toy_hn B3] |}.

Lemma recursive_tree_route_complete_witness :
  ∃ s', recursive_tree_route 5 33 50 toy_start = (Ok toy_r, s') ∧
    cache_ok toy_tree (header_cache s').
Proof.
  destruct (recursive_tree_route_complete toy_tree toy_full 33 50 toy_r 5 toy_start)
    as (s' & Hrun & Hc & _).
  - exact toy_full_ok.
  - vm_compute. reflexivity.
  - apply toy_serves. intros h Hh. vm_compute in Hh.
    repeat (apply elem_of_cons in Hh as [->|Hh]; [vm_compute; eexists; reflexivity|]).
    by apply not_elem_of_nil in Hh.
  - apply cache_ok_empty.
  - apply map_empty_subseteq.
  - apply Nat.ltb_lt. vm_compute. reflexivity.
  - exists s'. split; [exact Hrun|exact Hc].
Defined.

Lemma canonical_block_is_broadcast_witness :
  ∃ s' u, listen_turn 10 toy_start = (Ok tt, s') ∧ sink s' = [u] ∧
    hn_hash (current_best_block s') = 33.
Proof.
  destruct (canonical_block_is_broadcast toy_tree toy_full (toy_block A2)
    {| retracted := []; common_block := toy_hn A1; enacted := [toy_hn A2] |}
    2%nat 2%nat 10 toy_start) as (s' & u & Hrun & Hs & Hb & _).
  - apply cache_ok_empty.
  - exact toy_full_ok.
  - apply map_empty_subseteq.
  - vm_compute. eexists. reflexivity.
  - reflexivity.
  - reflexivity.
  - vm_compute. reflexivity.
  - discriminate.
  - apply toy_serves. intros h Hh. vm_compute in Hh.
    repeat (apply elem_of_cons in Hh as [->|Hh]; [vm_compute; eexists; reflexivity|]).
    by apply not_elem_of_nil in Hh.
  - apply Nat.ltb_lt. vm_compute. reflexivity.
  - exists s', u. split; [exact Hrun|]. split; [exact Hs|exact Hb].
Defined.

(** After A2, B2 is announced, which is not canonical yet. *)
Lemma fork_block_is_only_cached_witness :
  ∃ c, listen_turn 10 (snd toy_turn) = (Ok tt, set_world 3%nat (set_cache c (snd toy_turn))) ∧
    block_header_data c !! 34 = Some B2.
Proof.
  eexists. split.
  - apply (fork_block_is_only_cached (toy_block B2) B2 3%nat 3%nat 33 10 (snd toy_turn));
      [reflexivity..|discriminate].
  - vm_compute. reflexivity.
Defined.

Lemma broadcast_trims_cache_witness :
  block_number_hashes (header_cache (snd toy_turn)) !! 0 = None ∧
  is_Some (block_header_data (header_cache (snd toy_turn)) !! 33).
Proof.
  destruct (sink (snd toy_turn)) as [|u [|]] eqn:Hs; [vm_compute in Hs; discriminate| |
    vm_compute in Hs; discriminate].
  destruct (broadcast_trims_cache toy_tree 10 toy_start (fst toy_turn) (snd toy_turn) u
    (cache_ok_empty _) (surjective_pairing _) Hs) as [Hnone Hsome].
  split; [exact Hnone|]. apply Hsome. vm_compute. reflexivity.
Defined.

Lemma remove_header_until_removes_run_witness :
  is_Some (remove_from (S (size (block_number_hashes toy_full))) 1 toy_full) ∧
  block_header_data (remove_header_until 1 toy_full) !! 17 = None ∧
  block_header_data (remove_header_until 1 toy_full) !! 33 = Some A2.
Proof.
  destruct (remove_header_until_removes_run toy_tree 1 toy_full toy_full_cache_ok)
    as [Hsome _].
  split; [exact Hsome|]. split; vm_compute; reflexivity.
Defined.

Lemma add_header_spec_witness :
  ∃ c', add_header (A1 : HeaderOf (@SubxtDigest toy_substrate)) empty_cache = (Ok 17, c') ∧
    cache_ok toy_tree c' ∧ get_header c' 17 = Ok (A1 : HeaderOf (@Digest toy_substrate)).
Proof.
  destruct (add_header_spec toy_tree (A1 : HeaderOf (@SubxtDigest toy_substrate)) empty_cache (cache_ok_empty _))
    as (c' & Hadd & Hc & Hget & _); [unfold toy_tree, toy_chain; set_solver|].
  exists c'. split; [exact Hadd|]. split; [exact Hc|exact Hget].
Defined.

Definition toy_load : outcome Error HashAndNumber * Listener nat :=
  load_header_metadata_cache 10 toy_offline.

Lemma load_fills_window_witness :
  window_loaded (toy_hn A1) (header_cache (snd toy_load)) ∧
  cache_ok toy_tree (header_cache (snd toy_load)).
Proof.
  destruct (load_fills_window toy_tree 10 toy_offline (toy_hn A1) (snd toy_load))
    as (Hw & _ & Hc & _).
  - apply cache_ok_empty.
  - apply run_split. vm_compute. reflexivity.
  - split; [exact Hw|exact Hc].
Defined.

Lemma reconnects_on_rpc_error_only_witness :
  let s1 := snd (load_header_metadata_cache (node:=rpc_failing_node) 10 toy_offline) in
  let s2 := snd (listen_for_blocks (node:=rpc_failing_node) 5 10
                   (set_best (toy_hn A1) s1)) in
  listen_for_all_blocks (node:=rpc_failing_node) 10 [5; 3]%nat toy_offline =
    listen_for_all_blocks (node:=rpc_failing_node) 10 [3]%nat s2.
Proof.
  intros s1 s2.
  apply (reconnects_on_rpc_error_only (node:=rpc_failing_node) 10 5 [3%nat] toy_offline 0%nat
    (toy_hn A1) s1 (Rpc ("rpc down" : @subxt_rpcs_Error toy_payloads)) s2).
  - reflexivity.
  - apply run_split. vm_compute. reflexivity.
  - apply run_split. vm_compute. reflexivity.
Defined.

Lemma subscription_error_is_fatal_witness :
  fst (listen_for_all_blocks (node:=flaky_node) 10 [1 + 5; 7]%nat toy_offline) =
    Err (Subxt ("connection lost" : @subxt_Error toy_payloads)).
Proof.
  set (s1 := snd (load_header_metadata_cache (node:=flaky_node) 10 toy_offline)).
  set (s2 := snd (listen_for_blocks (node:=flaky_node) 1 10 (set_best (toy_hn A1) s1))).
  rewrite (subscription_error_is_fatal (node:=flaky_node) 10 1 4 [7%nat] toy_offline 0%nat
    (toy_hn A1) s1 s2 ("connection lost" : @subxt_Error toy_payloads) 3%nat).
  - reflexivity.
  - reflexivity.
  - apply run_split. vm_compute. reflexivity.
  - apply run_split. vm_compute. reflexivity.
  - vm_compute. reflexivity.
Defined.
