(* ===== verification/EventTypes.v ===== *)
(** * The monitored events (alerter/src/event_types.rs) *)

From S2P Require Import Prelude Errors Headers.

Definition RuntimeId : Type := N.
Definition OperatorId : Type := N.

Record DomainId : Type := { domain_number : N }.

(** [impl Display for DomainId]. *)
Definition display_domain_id (d : DomainId) : string :=
  "Domain(" +:+ pretty (domain_number d) +:+ ")".

Record DomainRuntimeUpgraded : Type := { runtime_id : RuntimeId }.
Record DomainInstantiated : Type := { di_domain_id : DomainId }.
Record FraudProofProcessed : Type := {
  fp_domain_id : DomainId;
  new_head_receipt_number : option BlockNumber;
}.

Inductive SlashedReason : Type :=
  | InvalidBundle (block : BlockNumber)
  | BadExecutionReceipt (receipt : BlockHash).

Record OperatorSlashed : Type := { os_operator_id : OperatorId; reason : SlashedReason }.

Record OperatorEpochExpectations : Type := {
  expected_bundles : N;
  min_required_bundles : N;
}.

Record OperatorOffline : Type := {
  oo_operator_id : OperatorId;
  oo_domain_id : DomainId;
  submitted_bundles : N;
  expectations : OperatorEpochExpectations;
}.

Record BalanceWithdraw : Type := { bw_who : AccountId; bw_amount : Balance }.
Record BalanceDeposit : Type := { bd_who : AccountId; bd_amount : Balance }.
Record BalanceTransfer : Type := {
  bt_from : AccountId;
  bt_to : AccountId;
  bt_amount : Balance;
}.

(** The result of the sudo call is sp_runtime's [DispatchResult]. *)
Record Sudo (DispatchResult : Type) : Type := { sudo_result : DispatchResult }.
Inductive CodeUpdated : Type := mk_CodeUpdated.

Inductive TransferDirection : Type := Sender | Receiver.
Inductive TransferType : Type := Transfer | Withdraw | Deposit.

Record TransferKnownAccountEvent : Type := {
  direction : TransferDirection;
  tk_transfer_type : TransferType;
  tk_name : string;
  tk_address : string;
  tk_amount : Balance;
}.

(** The overarching event type. *)
Inductive Event : Type :=
  | EvTransfer (e : TransferKnownAccountEvent)
  | EvDomainRuntimeUpgraded (e : DomainRuntimeUpgraded)
  | EvDomainInstantiated (e : DomainInstantiated)
  | EvFraudProofProcessed (e : FraudProofProcessed)
  | EvOperatorSlashed (e : OperatorSlashed)
  | EvOperatorOffline (e : OperatorOffline)
  | EvSudo
  | EvCodeUpdated (e : CodeUpdated).

#[export] Instance From_Transfer : From TransferKnownAccountEvent Event := EvTransfer.
#[export] Instance From_DomainRuntimeUpgraded : From DomainRuntimeUpgraded Event :=
  EvDomainRuntimeUpgraded.
#[export] Instance From_DomainInstantiated : From DomainInstantiated Event :=
  EvDomainInstantiated.
#[export] Instance From_FraudProofProcessed : From FraudProofProcessed Event :=
  EvFraudProofProcessed.
#[export] Instance From_OperatorSlashed : From OperatorSlashed Event := EvOperatorSlashed.
#[export] Instance From_OperatorOffline : From OperatorOffline Event := EvOperatorOffline.
#[export] Instance From_Sudo {D} : From (Sudo D) Event := λ _, EvSudo.
#[export] Instance From_CodeUpdated : From CodeUpdated Event := EvCodeUpdated.

(** ** The trait of the balance events *)
Class TransferEvent (T : Type) : Type := {
  transfer_type : T → TransferType;
  amount : T → Balance;
  transfer_from : T → option AccountId;
  transfer_to : T → option AccountId;
}.

#[export] Instance TransferEvent_Withdraw : TransferEvent BalanceWithdraw := {|
  transfer_type _ := Withdraw;
  amount e := bw_amount e;
  transfer_from e := Some (bw_who e);
  transfer_to _ := None |}.

#[export] Instance TransferEvent_Deposit : TransferEvent BalanceDeposit := {|
  transfer_type _ := Deposit;
  amount e := bd_amount e;
  transfer_from _ := None;
  transfer_to e := Some (bd_who e) |}.

#[export] Instance TransferEvent_Transfer : TransferEvent BalanceTransfer := {|
  transfer_type _ := Transfer;
  amount e := bt_amount e;
  transfer_from e := Some (bt_from e);
  transfer_to e := Some (bt_to e) |}.

(** ** subxt's [StaticEvent]: the pallet and the name an event is found by *)
Class StaticEvent (E : Type) : Type := { PALLET : string; EVENT : string }.

#[export] Instance Static_DomainRuntimeUpgraded : StaticEvent DomainRuntimeUpgraded :=
  {| PALLET := "Domains"; EVENT := "DomainRuntimeUpgraded" |}.
#[export] Instance Static_DomainInstantiated : StaticEvent DomainInstantiated :=
  {| PALLET := "Domains"; EVENT := "DomainInstantiated" |}.
#[export] Instance Static_FraudProofProcessed : StaticEvent FraudProofProcessed :=
  {| PALLET := "Domains"; EVENT := "FraudProofProcessed" |}.
#[export] Instance Static_OperatorSlashed : StaticEvent OperatorSlashed :=
  {| PALLET := "Domains"; EVENT := "OperatorSlashed" |}.
#[export] Instance Static_OperatorOffline : StaticEvent OperatorOffline :=
  {| PALLET := "Domains"; EVENT := "OperatorOffline" |}.
#[export] Instance Static_Withdraw : StaticEvent BalanceWithdraw :=
  {| PALLET := "Balances"; EVENT := "Withdraw" |}.
#[export] Instance Static_Deposit : StaticEvent BalanceDeposit :=
  {| PALLET := "Balances"; EVENT := "Deposit" |}.
#[export] Instance Static_Sudo {D} : StaticEvent (Sudo D) :=
  {| PALLET := "Sudo"; EVENT := "Sudid" |}.
#[export] Instance Static_CodeUpdated : StaticEvent CodeUpdated :=
  {| PALLET := "System"; EVENT := "CodeUpdated" |}.
#[export] Instance Static_Transfer : StaticEvent BalanceTransfer :=
  {| PALLET := "Balances"; EVENT := "Transfer" |}.
