(* ===== verification/Alerts.v ===== *)
(** * Alerts

    The alert records of the monitors (alerter/src/stall_and_reorg.rs,
    alerter/src/slots.rs), the [Alert] that carries them (alerter/src/slack.rs),
    the configuration of the monitors (alerter/src/cli.rs) and what a receive with
    a timeout answers. *)

From S2P Require Import Prelude Duration Headers EventTypes.

Record ChainStall : Type := { last_block : HashAndNumber; stall_duration : Duration }.
Record ChainRecovery : Type := { cr_best_block : HashAndNumber; cr_duration : Duration }.
Record ChainReorg : Type := {
  best_block : HashAndNumber;
  reorg_common_block : HashAndNumber;
  reorg_enacted : list HashAndNumber;
  reorg_retracted : list HashAndNumber;
}.

Record TimekeeperStall : Type := { ts_last_slot : Slot; ts_duration : Duration }.
Record TimekeeperRecovery : Type := { tr_slot : Slot; tr_duration : Duration }.
Record SlowSlot : Type := {
  ss_slot : Slot;
  previous_slot : Slot;
  slot_time : Duration;
  ss_threshold : Duration;
}.
Record AvgSlowSlot : Type := {
  as_slot : Slot;
  slot_count : N;
  avg_slot_time : Duration;
  as_threshold : Duration;
}.

Inductive Alert : Type :=
  | AlertEvent (e : Event)
  | AlertChainStall (a : ChainStall)
  | AlertChainRecovery (a : ChainRecovery)
  | AlertReorg (a : ChainReorg)
  | AlertTimekeeperStall (a : TimekeeperStall)
  | AlertTimekeeperRecovery (a : TimekeeperRecovery)
  | AlertSlowSlot (a : SlowSlot)
  | AlertAvgSlowSlots (a : AvgSlowSlot).

(** [StallAndReorgConfig] and [SlotsConfig], with the durations parsed. *)
Record StallAndReorgConfig : Type := {
  non_block_import_threshold : Duration;
  reorg_depth_threshold : N;
}.
Record SlotsConfig : Type := {
  per_slot_threshold : Duration;
  avg_slot_threshold : Duration;
}.

(** The answer of [tokio::time::timeout]: the future's value, or [Elapsed]. *)
Inductive timed (A : Type) : Type :=
  | Completed (a : A)
  | Elapsed.
Arguments Completed {A} a.
Arguments Elapsed {A}.
