(* ===== verification/StallReorg.v ===== *)
(** * The chain stall and reorg monitor (alerter/src/stall_and_reorg.rs)

    [watch_turn] is one turn of the loop of [watch_chain_stall_and_reorg].  Its
    specification reads the alerts off the history of what was received
    ([alerts_of]), and [watch_refines] shows that the loop, which only keeps two
    variables, reports exactly those. *)

From S2P Require Import Prelude Duration Errors Headers EventTypes Alerts.

Local Open Scope N_scope.

(** The two [let mut] variables, and the alerts handed to the alert sink: the
    result of [alert_sink.send] is only logged, so a turn goes on either way. *)
Record Watch : Type := {
  timeout_fired : option Duration;
  maybe_last_best_block : option HashAndNumber;
  sent : list Alert;
}.

Section Watch.
Context `{!ErrorPayloads} (config : StallAndReorgConfig).
Abbreviation W := (M Watch Error).

Definition watch_start : Watch :=
  {| timeout_fired := None; maybe_last_best_block := None; sent := [] |}.

Definition send (a : Alert) : W () :=
  modify (λ s, {| timeout_fired := timeout_fired s;
                  maybe_last_best_block := maybe_last_best_block s; sent := sent s ++ [a] |}).
Definition set_timeout (t : option Duration) : W () :=
  modify (λ s, {| timeout_fired := t;
                  maybe_last_best_block := maybe_last_best_block s; sent := sent s |}).
Definition set_last_best (b : HashAndNumber) : W () :=
  modify (λ s, {| timeout_fired := timeout_fired s;
                  maybe_last_best_block := Some b; sent := sent s |}).

(** [timeout_fired.take()]. *)
Definition take_timeout : W (option Duration) :=
  t ← gets timeout_fired;
  _ ← set_timeout None;
  mret t.

Definition at_least_one {A} (o : option A) : W A :=
  lift (expect "There is always at least one block imported; qed" o).

Definition on_blocks (blocks_ext : BlocksExt) : W () :=
  last_timeout ← take_timeout;
  latest_block ← at_least_one (last (blocks blocks_ext));
  _ ← set_last_best (hash_and_number latest_block);
  _ ← match last_timeout with
      | Some timeout =>
          last_best ← gets maybe_last_best_block;
          best ← at_least_one last_best;
          send (AlertChainRecovery {| cr_best_block := best; cr_duration := timeout |})
      | None => mret tt
      end;
  match maybe_reorg_data blocks_ext with
  | Some reorg_data =>
      if reorg_depth_threshold config <=? N.of_nat (length (rd_retracted reorg_data)) then
        last_best ← gets maybe_last_best_block;
        best ← at_least_one last_best;
        send (AlertReorg {| best_block := best;
                            reorg_common_block := rd_common_block reorg_data;
                            reorg_enacted := rd_enacted reorg_data;
                            reorg_retracted := rd_retracted reorg_data |})
      else mret tt
  | None => mret tt
  end.

Definition on_timeout : W () :=
  let stall_threshold := non_block_import_threshold config in
  fired ← gets timeout_fired;
  let non_import_duration :=
    from_option (λ timeout, Duration.saturating_add timeout stall_threshold)
      stall_threshold fired in
  last_best ← gets maybe_last_best_block;
  _ ← match last_best with
      | Some last_best_block =>
          send (AlertChainStall {| last_block := last_best_block;
                                   stall_duration := non_import_duration |})
      | None => mret tt
      end;
  set_timeout (Some non_import_duration).

(** One turn: [time::timeout(stall_threshold, stream.recv()).await]. *)
Definition watch_turn (received : timed (result RecvError BlocksExt)) : W () :=
  match received with
  | Completed r =>
      blocks_ext ← lift (question r);
      on_blocks blocks_ext
  | Elapsed => on_timeout
  end.

Definition watch (received : list (timed (result RecvError BlocksExt))) : W () :=
  drive watch_turn received.

(** ** What the alerts should be, read off the history *)

(** What the monitor saw, the latest first: a broadcast, or a whole threshold
    without one. *)
Inductive seen : Type :=
  | Blocks (u : BlocksExt)
  | Silence.

Definition as_received (x : seen) : timed (result RecvError BlocksExt) :=
  match x with Blocks u => Completed (inr u) | Silence => Elapsed end.

(** The silences since the last broadcast. *)
Fixpoint silences (past : list seen) : nat :=
  match past with Silence :: past => S (silences past) | _ => 0%nat end.

Fixpoint last_best (past : list seen) : option HashAndNumber :=
  match past with
  | Blocks u :: _ => hash_and_number <$> last (blocks u)
  | Silence :: past => last_best past
  | [] => None
  end.

Definition stall_time (n : nat) : Duration :=
  duration_times n (non_block_import_threshold config).

Definition recovery_alert (past : list seen) (best : HashAndNumber) : list Alert :=
  if (silences past =? 0)%nat then []
  else [AlertChainRecovery {| cr_best_block := best;
                              cr_duration := stall_time (silences past) |}].

Definition reorg_alert (u : BlocksExt) (best : HashAndNumber) : list Alert :=
  match maybe_reorg_data u with
  | Some d =>
      if reorg_depth_threshold config <=? N.of_nat (length (rd_retracted d)) then
        [AlertReorg {| best_block := best; reorg_common_block := rd_common_block d;
                       reorg_enacted := rd_enacted d; reorg_retracted := rd_retracted d |}]
      else []
  | None => []
  end.

Definition alerts_for (past : list seen) (x : seen) : list Alert :=
  match x with
  | Blocks u =>
      match hash_and_number <$> last (blocks u) with
      | Some best => recovery_alert past best ++ reorg_alert u best
      | None => []
      end
  | Silence =>
      match last_best past with
      | Some b => [AlertChainStall {| last_block := b;
                                      stall_duration := stall_time (S (silences past)) |}]
      | None => []
      end
  end.

Fixpoint alerts_of (past : list seen) : list Alert :=
  match past with
  | [] => []
  | x :: past => alerts_of past ++ alerts_for past x
  end.

(** The variables of the loop, as a function of the history. *)
Definition watch_state (past : list seen) : Watch :=
  {| timeout_fired :=
       if (silences past =? 0)%nat then None else Some (stall_time (silences past));
     maybe_last_best_block := last_best past;
     sent := alerts_of past |}.

(** What the chain follower promises of a broadcast. *)
Definition has_blocks (x : seen) : Prop :=
  match x with Blocks u => blocks u ≠ [] | Silence => True end.

Lemma watch_turn_state past x :
  non_block_import_threshold config <= Duration.MAX → has_blocks x →
  watch_turn (as_received x) (watch_state past) = (Ok tt, watch_state (x :: past)).
Proof.
  intros Hmax Hx. destruct x as [u|]; cbn.
  - destruct (last_Some_ne _ Hx) as [b Hb].
    unfold on_blocks, take_timeout, at_least_one, mbind, M_bind, gets, set_timeout,
      set_last_best, send, modify, lift, watch_state. cbn. rewrite Hb. cbn.
    unfold recovery_alert, reorg_alert.
    destruct (silences past =? 0)%nat; cbn;
      destruct (maybe_reorg_data u) as [d|]; cbn; try destruct (_ <=? _); cbn;
      rewrite ?app_nil_r, <-?app_assoc; done.
  - unfold on_timeout, mbind, M_bind, gets, set_timeout, send, modify, watch_state. cbn.
    unfold stall_time. destruct (silences past) as [|n]; cbn.
    + rewrite duration_times_1 by done. destruct (last_best past); cbn; by rewrite ?app_nil_r.
    + rewrite duration_times_S. destruct (last_best past); cbn; by rewrite ?app_nil_r.
Qed.

Lemma watch_state_run past :
  non_block_import_threshold config <= Duration.MAX → Forall has_blocks past →
  watch (as_received <$> rev past) watch_start = (Ok tt, watch_state past).
Proof.
  intros Hmax. induction 1 as [|x past Hx Hpast IH]; [done|].
  cbn. rewrite fmap_app. cbn. unfold watch in *.
  rewrite (drive_snoc_ok _ _ _ _ _ IH). by apply watch_turn_state.
Qed.

Lemma watch_run_history history :
  non_block_import_threshold config <= Duration.MAX → Forall has_blocks history →
  watch (as_received <$> history) watch_start = (Ok tt, watch_state (rev history)).
Proof.
  intros Hmax Hall. rewrite <-(rev_involutive history) at 1.
  apply watch_state_run; [done|]. apply Forall_forall. intros x Hx.
  rewrite Forall_forall in Hall. by apply Hall, elem_of_rev.
Qed.
End Watch.

(** ** Properties *)
Section Properties.
Context `{!ErrorPayloads} (config : StallAndReorgConfig).
Implicit Types (history : list seen) (u v : BlocksExt).

Lemma silences_replicate k past :
  silences (replicate k Silence ++ past) = (k + silences past)%nat.
Proof. induction k; cbn; auto. Qed.

Lemma last_best_replicate k past :
  last_best (replicate k Silence ++ past) = last_best past.
Proof. induction k; cbn; auto. Qed.

(** The alert of the [n]-th silence in a row after block [b]. *)
Definition nth_stall (b : HashAndNumber) (n : nat) : Alert :=
  AlertChainStall {| last_block := b; stall_duration := stall_time config n |}.

Lemma alerts_of_replicate k past b :
  silences past = 0%nat → last_best past = Some b →
  alerts_of config (replicate k Silence ++ past) =
    alerts_of config past ++ (nth_stall b <$> seq 1 k).
Proof.
  intros Hs Hb. induction k as [|k IH]; [by rewrite app_nil_r|].
  rewrite seq_S, fmap_app, app_assoc, <-IH. cbn [replicate app alerts_of alerts_for].
  rewrite last_best_replicate, silences_replicate, Hb, Hs, Nat.add_0_r. done.
Qed.

Lemma alerts_of_replicate_start k :
  alerts_of config (replicate k Silence) = [].
Proof.
  induction k as [|k IH]; [done|]. cbn. rewrite IH.
  pose proof (last_best_replicate k []) as Hl. rewrite app_nil_r in Hl. by rewrite Hl.
Qed.

(** C17. The monitor, which keeps one duration and one block, reports exactly what
    the history of broadcasts and silences calls for: after any history in which
    each broadcast has a block, it is still running, and the alerts it sent are,
    in order, for each silence after a first broadcast a stall with the last block
    and the time since, for each broadcast that ends a run of silences a recovery
    with their total time, and for each broadcast whose reorg is deep enough a
    reorg. *)
Theorem watch_refines history :
  non_block_import_threshold config <= Duration.MAX → Forall has_blocks history →
  watch config (as_received <$> history) watch_start =
    (Ok tt, watch_state config (rev history)).
Proof.
  apply watch_run_history.
Qed.

(** C26. An outage of [k] whole thresholds between two broadcasts sends one stall
    alert per threshold, the [n]-th with [n] times the threshold (no alert is
    suppressed while the stall lasts, and the durations saturate instead of
    overflowing), then one recovery with the duration of the last of them, and no
    recovery when [k] is zero. *)
Theorem outage_alerts u v k bu bv :
  non_block_import_threshold config <= Duration.MAX →
  hash_and_number <$> last (blocks u) = Some bu →
  hash_and_number <$> last (blocks v) = Some bv →
  maybe_reorg_data u = None → maybe_reorg_data v = None →
  ∃ s, watch config (as_received <$> Blocks u :: replicate k Silence ++ [Blocks v]) watch_start =
      (Ok tt, s) ∧
    timeout_fired s = None ∧ maybe_last_best_block s = Some bv ∧
    sent s = (nth_stall bu <$> seq 1 k) ++
      (if (k =? 0)%nat then []
       else [AlertChainRecovery {| cr_best_block := bv; cr_duration := stall_time config k |}]).
Proof.
  intros Hmax Hu Hv Hnu Hnv. eexists. split; [apply watch_refines; [done|]|].
  { constructor; [|apply Forall_app; split; [by apply Forall_replicate|constructor; [|done]]];
      intros Hnil; [rewrite Hnil in Hu|rewrite Hnil in Hv]; done. }
  cbn [fmap list_fmap]. cbn [rev]. rewrite rev_app_distr, rev_replicate.
  cbn [rev app watch_state timeout_fired maybe_last_best_block sent silences last_best].
  split_and!; [done|done|]. cbn [alerts_of alerts_for].
  rewrite (alerts_of_replicate k [Blocks u] bu) by done.
  cbn [alerts_of alerts_for silences]. rewrite Hu, Hv. unfold recovery_alert, reorg_alert.
  rewrite Hnu, Hnv, silences_replicate. cbn. by rewrite Nat.add_0_r, app_nil_r.
Qed.

(** C35. Silence before the first broadcast is counted but not reported, so the first
    broadcast after it sends a recovery that no stall alert preceded. *)
Theorem recovery_without_stall u k b :
  non_block_import_threshold config <= Duration.MAX →
  hash_and_number <$> last (blocks u) = Some b → maybe_reorg_data u = None →
  ∃ s, watch config (as_received <$> replicate (S k) Silence ++ [Blocks u]) watch_start =
      (Ok tt, s) ∧
    sent s = [AlertChainRecovery {| cr_best_block := b; cr_duration := stall_time config (S k) |}].
Proof.
  intros Hmax Hu Hnu. eexists. split; [apply watch_refines; [done|]|].
  { apply Forall_app. split; [by apply Forall_replicate|constructor; [|done]].
    intros Hnil. by rewrite Hnil in Hu. }
  rewrite rev_app_distr, rev_replicate. cbn [rev app watch_state sent alerts_of].
  rewrite alerts_of_replicate_start. cbn [alerts_for]. rewrite Hu.
  unfold recovery_alert, reorg_alert. rewrite Hnu.
  pose proof (silences_replicate (S k) []) as Hs. rewrite app_nil_r, Nat.add_0_r in Hs.
  by rewrite Hs.
Qed.

(** A receive error (a closed channel, or broadcasts missed because the monitor
    lagged) ends the monitor with that error and sends nothing; a broadcast without
    a block, which the follower never sends, panics. *)
Theorem watch_stops s :
  (∀ e, watch_turn config (Completed (inl e)) s = (Err (BroadRecvErr e), s)) ∧
  (∀ d, ∃ s', watch_turn config
      (Completed (inr {| blocks := []; maybe_reorg_data := d |})) s =
    (Panic "There is always at least one block imported; qed", s') ∧ sent s' = sent s).
Proof. split; [done|]. intros d. by eexists. Qed.
End Properties.

(** ** Witnesses *)
Module WatchToy.
#[local] Instance payloads : ErrorPayloads := {|
  subxt_Error := (); JoinError := (); reqwest_Error := (); subxt_rpcs_Error := ();
  codec_Error := (); io_Error := (); toml_Error := (); SlackClientError := () |}.

Definition config : StallAndReorgConfig :=
  {| non_block_import_threshold := Duration.from_secs 60; reorg_depth_threshold := 1 |}.
Definition block (n h : N) : BlockExt :=
  {| be_number := n; be_hash := h; be_parent_hash := h - 1; be_state_root := 0;
     be_extrinsics_root := 0 |}.
Definition hn (n h : N) : HashAndNumber := {| hn_number := n; hn_hash := h |}.
Definition u1 : BlocksExt := {| blocks := [block 7 70]; maybe_reorg_data := None |}.
Definition u2 : BlocksExt := {| blocks := [block 8 80]; maybe_reorg_data := None |}.
Definition u3 : BlocksExt :=
  {| blocks := [block 8 81; block 9 90];
     maybe_reorg_data := Some {| rd_enacted := [hn 8 81]; rd_retracted := [hn 8 80];
                                 rd_common_block := hn 7 70 |} |}.
End WatchToy.

Lemma watch_refines_witness :
  fst (watch (H:=WatchToy.payloads) WatchToy.config
    (as_received <$> [Blocks WatchToy.u1; Silence; Blocks WatchToy.u2; Blocks WatchToy.u3])
    watch_start) = Ok tt ∧
  length (alerts_of WatchToy.config
    [Blocks WatchToy.u3; Blocks WatchToy.u2; Silence; Blocks WatchToy.u1]) = 3%nat.
Proof.
  rewrite (watch_refines WatchToy.config
    [Blocks WatchToy.u1; Silence; Blocks WatchToy.u2; Blocks WatchToy.u3]).
  - split; vm_compute; reflexivity.
  - vm_compute. discriminate.
  - repeat constructor; discriminate.
Defined.

Lemma outage_alerts_witness :
  ∃ s, watch (H:=WatchToy.payloads) WatchToy.config
      (as_received <$> Blocks WatchToy.u1 :: replicate 2 Silence ++ [Blocks WatchToy.u2])
      watch_start = (Ok tt, s) ∧
    sent s = [nth_stall WatchToy.config (WatchToy.hn 7 70) 1;
              nth_stall WatchToy.config (WatchToy.hn 7 70) 2;
              AlertChainRecovery {| cr_best_block := WatchToy.hn 8 80;
                                    cr_duration := Duration.from_secs 120 |}].
Proof.
  destruct (outage_alerts (H:=WatchToy.payloads) WatchToy.config WatchToy.u1 WatchToy.u2 2
    (WatchToy.hn 7 70) (WatchToy.hn 8 80)) as (s & Hrun & _ & _ & Hsent).
  - vm_compute. discriminate.
  - reflexivity.
  - reflexivity.
  - reflexivity.
  - reflexivity.
  - exists s. split; [exact Hrun|]. rewrite Hsent. vm_compute. reflexivity.
Defined.

Lemma recovery_without_stall_witness :
  ∃ s, watch (H:=WatchToy.payloads) WatchToy.config
      (as_received <$> replicate 3 Silence ++ [Blocks WatchToy.u1]) watch_start = (Ok tt, s) ∧
    sent s = [AlertChainRecovery {| cr_best_block := WatchToy.hn 7 70;
                                    cr_duration := Duration.from_secs 180 |}].
Proof.
  destruct (recovery_without_stall (H:=WatchToy.payloads) WatchToy.config WatchToy.u1 2
    (WatchToy.hn 7 70)) as (s & Hrun & Hsent).
  - vm_compute. discriminate.
  - reflexivity.
  - reflexivity.
  - exists s. split; [exact Hrun|]. rewrite Hsent. vm_compute. reflexivity.
Defined.
