(* ===== verification/P2p.v ===== *)
(** * The p2p network (alerter/src/p2p_network.rs)

    [Network] keeps the peers by role and forwards the proof-of-time slots it is
    told about.  The swarm is libp2p's: the model records the calls made on it, in
    order, and takes the events it yields as inputs. *)

From stdpp Require Import sets.
From S2P Require Import Prelude Duration Errors Headers.

(** ** Data *)
Definition PotSeed : Type := list Byte.byte.
Definition PotOutput : Type := list Byte.byte.
Definition PotCheckpoints : Type := list PotOutput.

Record GossipProof : Type := {
  slot : Slot;
  seed : PotSeed;
  slot_iterations : positive;
  checkpoints : PotCheckpoints;
}.

Record PoTInfo : Type := { at_ : Instant; proof : GossipProof }.

(** substrate_p2p's roles and notification events. *)
Inductive ProtocolRole : Type := FullNode | LightNode | Authority.

#[export] Instance ProtocolRole_eq : EqDecision ProtocolRole.
Proof. solve_decision. Defined.

Inductive NotificationsEvent (PeerId Message : Type) : Type :=
  | ProtocolOpen (peer_id : PeerId) (role : ProtocolRole)
  | ProtocolClosed (peer_id : PeerId)
  | Notification (peer_id : PeerId) (message : Message).
Arguments ProtocolOpen {PeerId Message} _ _.
Arguments ProtocolClosed {PeerId Message} _.
Arguments Notification {PeerId Message} _ _.

(** libp2p's addresses, of which [extract_peer_id] looks at the components, and the
    type of the block-announce handshakes. *)
Class Libp2p : Type := {
  PeerId : Type;
  PeerId_eq :: EqDecision PeerId;
  PeerId_countable :: Countable PeerId;
  Multiaddr : Type;
  MultiAddrProtocol : Type;
  iter : Multiaddr → list MultiAddrProtocol;
  as_p2p : MultiAddrProtocol → option PeerId;
  BlockAnnouncesHandshake : Type;
}.

Section Network.
Context `{!ErrorPayloads} `{!Libp2p}.

Inductive KadEvent : Type :=
  | RoutablePeer (peer : PeerId) (address : Multiaddr)
  | OtherKadEvent.

Inductive BehaviorEvent : Type :=
  | Discovery (event : KadEvent)
  | PotNotifications (event : NotificationsEvent PeerId GossipProof)
  | BlockAnnounce (event : NotificationsEvent PeerId BlockAnnouncesHandshake)
  | ConnectionLimits.

Inductive SwarmEvent : Type :=
  | Behaviour (event : BehaviorEvent)
  | ConnectionClosed (peer_id : PeerId) (num_established : N)
  | OtherSwarmEvent.

(** The calls on the swarm.  The result of a dial is only logged. *)
Inductive SwarmCall : Type :=
  | Dial (address : Multiaddr)
  | AddAddress (peer : PeerId) (address : Multiaddr)
  | GetClosestPeers (peer : PeerId).

(** [pot_sink.send] is logged too when it fails, and cannot fail: the network
    holds a receiver of its own. *)
Record Network : Type := {
  swarm : list SwarmCall;
  bootnodes : list Multiaddr;
  pot_sink : list PoTInfo;
  authorities : gset PeerId;
  fullnodes : gset PeerId;
}.
Abbreviation Net := (M Network Error).

Definition new (bootnodes : list Multiaddr) : Network :=
  {| swarm := []; bootnodes := bootnodes; pot_sink := []; authorities := ∅; fullnodes := ∅ |}.

Definition swarm_call (c : SwarmCall) : Net () :=
  modify (λ n, {| swarm := swarm n ++ [c]; bootnodes := bootnodes n; pot_sink := pot_sink n;
                  authorities := authorities n; fullnodes := fullnodes n |}).
Definition send_slot (i : PoTInfo) : Net () :=
  modify (λ n, {| swarm := swarm n; bootnodes := bootnodes n; pot_sink := pot_sink n ++ [i];
                  authorities := authorities n; fullnodes := fullnodes n |}).
Definition set_peers (auth full : gset PeerId) : Net () :=
  modify (λ n, {| swarm := swarm n; bootnodes := bootnodes n; pot_sink := pot_sink n;
                  authorities := auth; fullnodes := full |}).

Definition add_peer_role (peer : PeerId) (role : ProtocolRole) : Net () :=
  auth ← gets authorities;
  full ← gets fullnodes;
  match role with
  | FullNode => set_peers (auth ∖ {[peer]}) ({[peer]} ∪ full)
  | LightNode => mret tt
  | Authority => set_peers ({[peer]} ∪ auth) (full ∖ {[peer]})
  end.

Definition remove_peer (peer : PeerId) : Net () :=
  auth ← gets authorities;
  full ← gets fullnodes;
  set_peers (auth ∖ {[peer]}) (full ∖ {[peer]}).

(** [now] is what [Instant::now()] answers while the event is handled. *)
Definition handle_event (now : Instant) (event : SwarmEvent) : Net () :=
  match event with
  | Behaviour (Discovery (RoutablePeer _ address)) => swarm_call (Dial address)
  | Behaviour (Discovery OtherKadEvent) => mret tt
  | Behaviour (PotNotifications (ProtocolOpen peer_id role)) => add_peer_role peer_id role
  | Behaviour (PotNotifications (ProtocolClosed _)) => mret tt
  | Behaviour (PotNotifications (Notification _ message)) =>
      send_slot {| at_ := now; proof := message |}
  | Behaviour (BlockAnnounce (ProtocolOpen peer_id role)) => add_peer_role peer_id role
  | Behaviour (BlockAnnounce _) => mret tt
  | Behaviour ConnectionLimits => mret tt
  | ConnectionClosed peer_id num_established =>
      if (num_established =? 0)%N then remove_peer peer_id else mret tt
  | OtherSwarmEvent => mret tt
  end.

(** [find_map]: the first component that is a peer id. *)
Fixpoint find_map {A B} (f : A → option B) (l : list A) : option B :=
  match l with
  | [] => None
  | a :: l => match f a with Some b => Some b | None => find_map f l end
  end.

Definition extract_peer_id (addr : Multiaddr) : option PeerId := find_map as_p2p (iter addr).

Definition dial_bootnode (addr : Multiaddr) : Net () :=
  _ ← swarm_call (Dial addr);
  match extract_peer_id addr with
  | Some peer_id => swarm_call (AddAddress peer_id addr)
  | None => mret tt
  end.

(** What [tokio::select!] yields: a tick of the discovery interval, with the peer
    id drawn for it, or an event of the swarm. *)
Inductive selected : Type :=
  | Tick (random : PeerId)
  | Event (now : Instant) (event : SwarmEvent).

Definition on_selected (x : selected) : Net () :=
  match x with
  | Tick random => swarm_call (GetClosestPeers random)
  | Event now event => handle_event now event
  end.

(** [run]: the bootnodes once, then the loop on what is selected. *)
Definition run (inputs : list selected) : Net () :=
  addrs ← gets bootnodes;
  _ ← drive dial_bootnode addrs;
  drive on_selected inputs.

(** ** What a peer's role should be, read off the events *)

(** The event [x] changes what is known of a peer to the given role: an announcement as
    an authority or a full node to that role, the loss of the last connection to none.
    An announcement as a light node is no change, as in [add_peer_role]. *)
Definition role_change (x : selected) : option (PeerId * option ProtocolRole) :=
  match x with
  | Event _ (Behaviour (PotNotifications (ProtocolOpen p r)))
  | Event _ (Behaviour (BlockAnnounce (ProtocolOpen p r))) =>
      match r with LightNode => None | r => Some (p, Some r) end
  | Event _ (ConnectionClosed p 0%N) => Some (p, None)
  | _ => None
  end.

(** The role of [p] after the events, the latest first: the last authority or full-node
    role it announced since it was last fully disconnected, light-node announcements
    being skipped. *)
Fixpoint role_of (p : PeerId) (past : list selected) : option ProtocolRole :=
  match past with
  | [] => None
  | x :: past =>
      match role_change x with
      | Some (q, r) => if decide (p = q) then r else role_of p past
      | None => role_of p past
      end
  end.

Definition slot_of (x : selected) : option PoTInfo :=
  match x with
  | Event now (Behaviour (PotNotifications (Notification _ m))) =>
      Some {| at_ := now; proof := m |}
  | _ => None
  end.

Definition call_of (x : selected) : option SwarmCall :=
  match x with
  | Tick random => Some (GetClosestPeers random)
  | Event _ (Behaviour (Discovery (RoutablePeer _ address))) => Some (Dial address)
  | _ => None
  end.

Definition bootnode_calls (addr : Multiaddr) : list SwarmCall :=
  Dial addr :: option_list (flip AddAddress addr <$> extract_peer_id addr).

(** The network [past] leads to from [n]. *)
Definition network_is (boot : list Multiaddr) (past : list selected) (n : Network) : Prop :=
  swarm n = concat (bootnode_calls <$> boot) ++ omap call_of (rev past) ∧
  pot_sink n = omap slot_of (rev past) ∧
  (∀ p, p ∈ authorities n ↔ role_of p past = Some Authority) ∧
  (∀ p, p ∈ fullnodes n ↔ role_of p past = Some FullNode).

Lemma on_selected_is boot past x n :
  network_is boot past n →
  ∃ n', on_selected x n = (Ok tt, n') ∧ bootnodes n' = bootnodes n ∧
    network_is boot (x :: past) n'.
Proof.
  intros (Hs & Hp & Ha & Hf).
  assert (∀ q r, role_change x = Some (q, r) → ∀ p,
    role_of p (x :: past) = if decide (p = q) then r else role_of p past) as Hchange.
  { intros q r Hx p. cbn. by rewrite Hx. }
  destruct x as [random|now [[[p a|]|[p r|p|p m]|[p r|p|p m]|]|p k|]];
    try destruct r; try destruct k; cbn in Hchange; eexists;
    (split; [reflexivity|]); (split; [reflexivity|]); unfold network_is;
    cbn [swarm pot_sink authorities fullnodes rev]; rewrite !omap_app, ?Hs, ?Hp; cbn;
    rewrite ?app_nil_r, <-?app_assoc; split_and!; try done;
    intros q; destruct (decide _); set_solver.
Qed.

Lemma on_selected_run boot past inputs n :
  network_is boot past n →
  ∃ n', drive on_selected inputs n = (Ok tt, n') ∧ network_is boot (rev inputs ++ past) n'.
Proof.
  revert past n. induction inputs as [|x inputs IH]; intros past n Hn; [by exists n|].
  destruct (on_selected_is _ _ x _ Hn) as (n1 & Hstep & _ & Hn1).
  destruct (IH _ _ Hn1) as (n2 & Hrun & Hn2). exists n2. split.
  - by rewrite (drive_cons _ _ _ _ _ Hstep).
  - cbn. by rewrite <-app_assoc.
Qed.

Lemma dial_bootnodes addrs n :
  ∃ n', drive dial_bootnode addrs n = (Ok tt, n') ∧
    swarm n' = swarm n ++ concat (bootnode_calls <$> addrs) ∧ pot_sink n' = pot_sink n ∧
    authorities n' = authorities n ∧ fullnodes n' = fullnodes n.
Proof.
  revert n. induction addrs as [|a addrs IH]; intros n.
  { exists n. cbn. by rewrite app_nil_r. }
  assert (∃ n1, dial_bootnode a n = (Ok tt, n1) ∧ swarm n1 = swarm n ++ bootnode_calls a ∧
    pot_sink n1 = pot_sink n ∧ authorities n1 = authorities n ∧ fullnodes n1 = fullnodes n)
    as (n1 & Hd & Hs & Hp & Ha & Hf).
  { unfold dial_bootnode, bootnode_calls. destruct (extract_peer_id a) as [q|];
      (eexists; split; [reflexivity|]); cbn; by rewrite <-?app_assoc. }
  destruct (IH n1) as (n2 & Hrun & Hs2 & Hp2 & Ha2 & Hf2). exists n2.
  rewrite (drive_cons _ _ _ _ _ Hd). split_and!; [done| |congruence..].
  rewrite Hs2, Hs. cbn. by rewrite <-app_assoc.
Qed.

Lemma find_map_Some {A B} (f : A → option B) l b :
  find_map f l = Some b ↔
  ∃ l1 a l2, l = l1 ++ a :: l2 ∧ f a = Some b ∧ Forall (λ x, f x = None) l1.
Proof.
  split.
  - induction l as [|a l IH]; cbn; [done|]. destruct (f a) as [b'|] eqn:Ha.
    + intros [= ->]. by exists [], a, l.
    + intros Hb. destruct (IH Hb) as (l1 & a' & l2 & -> & ? & ?).
      exists (a :: l1), a', l2. auto.
  - intros (l1 & a & l2 & -> & Ha & Hl1). induction Hl1 as [|x l1 Hx _ IH]; cbn.
    + by rewrite Ha.
    + by rewrite Hx.
Qed.
End Network.

(** ** Properties *)
Section Properties.
Context `{!ErrorPayloads} `{!Libp2p}.

(** C20. Whatever the swarm yields, the network keeps running, and what it has done
    is a function of the events: each bootnode was dialled once, in order, and its
    address added when it names a peer; every slot notification, and nothing else,
    was forwarded, in order, with the time it was handled; and a peer counts as an
    authority or a full node exactly when that was the last of these two roles it
    announced on either protocol and it has not lost its last connection since.  A light
    node's announcement changes nothing, so a full node that comes back as a light node
    still counts as a full node. *)
Theorem network_run_refines boot inputs :
  ∃ n, run inputs (new boot) = (Ok tt, n) ∧ network_is boot (rev inputs) n.
Proof.
  destruct (dial_bootnodes boot (new boot)) as (n1 & Hd & Hs & Hp & Ha & Hf).
  destruct (on_selected_run boot [] inputs n1) as (n & Hrun & Hn).
  { unfold network_is. rewrite Hs, Hp, Ha, Hf. cbn. rewrite app_nil_r. split_and!; [done|done|..]; set_solver. }
  exists n. rewrite app_nil_r in Hn. split; [|done]. unfold run.
  erewrite bind_ok by done. by erewrite bind_ok by exact Hd.
Qed.

(** No peer has two roles: from any state where the two sets of peers are
    disjoint, every event keeps them so. *)
Theorem roles_stay_disjoint now event n o n' :
  authorities n ## fullnodes n → handle_event now event n = (o, n') →
  o = Ok tt ∧ authorities n' ## fullnodes n'.
Proof.
  intros Hd Hrun.
  destruct event as [[[p a|]|[p r|p|p m]|[p r|p|p m]|]|p k|]; try destruct r;
    try destruct k; unfold handle_event, add_peer_role, remove_peer, mbind, M_bind, gets,
      set_peers, modify, mret, M_ret, swarm_call, send_slot in Hrun; cbn in Hrun;
    injection Hrun as <- <-; (split; [done|]); cbn; set_solver.
Qed.

(** The peer a bootnode address names is the one of its first [P2p] component. *)
Theorem extract_peer_id_first addr p :
  extract_peer_id addr = Some p ↔
  ∃ before c after, iter addr = before ++ c :: after ∧ as_p2p c = Some p ∧
    Forall (λ x, as_p2p x = None) before.
Proof. apply find_map_Some. Qed.
End Properties.

(** ** Witness *)
Module P2pToy.
#[local] Instance payloads : ErrorPayloads := {|
  subxt_Error := (); JoinError := (); reqwest_Error := (); subxt_rpcs_Error := ();
  codec_Error := (); io_Error := (); toml_Error := (); SlackClientError := () |}.

(** Peers and address components are numbers; an even one is a peer id. *)
#[local] Instance libp2p : Libp2p := {|
  PeerId := nat; Multiaddr := list nat; MultiAddrProtocol := nat; iter a := a;
  as_p2p c := if Nat.even c then Some c else None; BlockAnnouncesHandshake := () |}.

Definition known : Network :=
  {| swarm := []; bootnodes := []; pot_sink := []; authorities := {[4%nat]};
     fullnodes := {[6%nat]} |}.
Definition promoted : SwarmEvent :=
  Behaviour (BlockAnnounce (ProtocolOpen (6%nat : PeerId) Authority)).
End P2pToy.

Lemma roles_stay_disjoint_witness :
  let n' := snd (handle_event (H:=P2pToy.payloads) 0%N P2pToy.promoted P2pToy.known) in
  authorities n' ## fullnodes n' ∧
  bool_decide ((6%nat : @PeerId P2pToy.libp2p) ∈ authorities n') = true.
Proof.
  intros n'. split; [|vm_compute; reflexivity].
  destruct (roles_stay_disjoint (H:=P2pToy.payloads) 0%N P2pToy.promoted P2pToy.known
    (Ok tt) n') as [_ Hd].
  - set_solver.
  - reflexivity.
  - exact Hd.
Defined.
