(* ===== verification/Slots.v ===== *)
(** * The slot monitor (alerter/src/slots.rs)

    [slot_turn] is one turn of the loop of [monitor_slots].  As for the chain
    monitor, the alerts and the variables are read off the history of what was
    received ([slot_state]), and [monitor_slots_refines] shows that the loop
    computes them. *)

From S2P Require Import Prelude Duration Errors Headers P2p EventTypes Alerts.

Local Open Scope N_scope.

Record SlotDetails : Type := { sd_proof : GossipProof; sd_duration : Duration }.

(** sp_runtime's [BoundedVec<_, ConstU32<bound>>].  The documentation of
    [force_push]: forces the insertion of the element, truncating first if
    necessary. *)
Class BoundedVec (A : Type) (bound : nat) : Type := {
  bvec : Type;
  bvec_new : bvec;
  bvec_list : bvec → list A;
  force_push : bvec → A → bvec;
}.
Arguments bvec : clear implicits.

Class BoundedVecLaws {A bound} (B : BoundedVec A bound) : Prop := {
  new_empty : bvec_list bvec_new = [];
  force_push_truncates v a :
    bvec_list (force_push v a) = take (bound - 1) (bvec_list v) ++ [a];
}.

(** [is_full]. *)
Definition is_full {A bound} `{BoundedVec A bound} (v : bvec A bound _) : bool :=
  (bound <=? length (bvec_list v))%nat.

Definition window : nat := 600.
Definition slot_timeout : Duration := Duration.from_secs 30.

Section Slots.
Context `{!ErrorPayloads} {B : BoundedVec SlotDetails window} (config : SlotsConfig).

(** The [let mut] variables of [monitor_slots], and the alerts it sent. *)
Record SlotMonitor : Type := {
  slot_timeout_fired : option Duration;
  last_instant : Instant;
  slots : bvec SlotDetails window B;
  slot_sent : list Alert;
}.
Abbreviation SM := (M SlotMonitor Error).

Definition monitor_start (now : Instant) : SlotMonitor :=
  {| slot_timeout_fired := None; last_instant := now; slots := bvec_new; slot_sent := [] |}.

Definition send_slot_alert (a : Alert) : SM () :=
  modify (λ s, {| slot_timeout_fired := slot_timeout_fired s; last_instant := last_instant s;
                  slots := slots s; slot_sent := slot_sent s ++ [a] |}).
Definition set_slot_timeout (t : option Duration) : SM () :=
  modify (λ s, {| slot_timeout_fired := t; last_instant := last_instant s;
                  slots := slots s; slot_sent := slot_sent s |}).
Definition set_last_instant (now : Instant) : SM () :=
  modify (λ s, {| slot_timeout_fired := slot_timeout_fired s; last_instant := now;
                  slots := slots s; slot_sent := slot_sent s |}).
Definition push_slot (d : SlotDetails) : SM () :=
  modify (λ s, {| slot_timeout_fired := slot_timeout_fired s; last_instant := last_instant s;
                  slots := force_push (slots s) d; slot_sent := slot_sent s |}).

(** [u64 + 1] with overflow checks. *)
Definition next_slot (n : Slot) : outcome Error Slot :=
  if n <? u64_max then Ok (n + 1) else Panic "attempt to add with overflow".

(** [.fold(Duration::default(), |acc, x| acc + x.duration)]. *)
Definition sum_durations (l : list SlotDetails) : outcome Error Duration :=
  foldl (λ acc x, a ← acc; Duration.add a (sd_duration x)) (Ok 0) l.

Definition extend (info : PoTInfo) (duration : Duration) (last_slot : SlotDetails) : SM () :=
  let slot_ := slot (proof info) in
  last_timeout ← gets slot_timeout_fired;
  _ ← set_slot_timeout None;
  _ ← match last_timeout with
      | Some timeout =>
          send_slot_alert (AlertTimekeeperRecovery {| tr_slot := slot_; tr_duration := timeout |})
      | None => mret tt
      end;
  _ ← (if Duration.gt duration (per_slot_threshold config) then
         send_slot_alert (AlertSlowSlot
           {| ss_slot := slot_; previous_slot := slot (sd_proof last_slot);
              slot_time := duration; ss_threshold := per_slot_threshold config |})
       else mret tt);
  _ ← set_last_instant (at_ info);
  _ ← push_slot {| sd_proof := proof info; sd_duration := duration |};
  slots ← gets slots;
  let length := length (bvec_list slots) in
  total ← lift (sum_durations (bvec_list slots));
  avg_slot_time ← lift (Duration.div total (N.of_nat length));
  if is_full slots && Duration.gt avg_slot_time (avg_slot_threshold config) then
    send_slot_alert (AlertAvgSlowSlots
      {| as_slot := slot_; slot_count := N.of_nat length; avg_slot_time := avg_slot_time;
         as_threshold := avg_slot_threshold config |})
  else mret tt.

Definition on_slot (info : PoTInfo) : SM () :=
  before ← gets last_instant;
  let duration := duration_since (at_ info) before in
  slots ← gets slots;
  match last (bvec_list slots) with
  | None =>
      _ ← push_slot {| sd_proof := proof info; sd_duration := duration |};
      set_last_instant (at_ info)
  | Some last_slot =>
      next ← lift (next_slot (slot (sd_proof last_slot)));
      if slot (proof info) =? next then extend info duration last_slot else mret tt
  end.

Definition on_slot_timeout : SM () :=
  fired ← gets slot_timeout_fired;
  let non_import_duration :=
    from_option (λ timeout, Duration.saturating_add timeout slot_timeout) slot_timeout fired in
  slots ← gets slots;
  _ ← match last (bvec_list slots) with
      | Some last_slot =>
          send_slot_alert (AlertTimekeeperStall
            {| ts_last_slot := slot (sd_proof last_slot); ts_duration := non_import_duration |})
      | None => mret tt
      end;
  set_slot_timeout (Some non_import_duration).

Definition slot_turn (received : timed (result RecvError PoTInfo)) : SM () :=
  match received with
  | Completed r => info ← lift (question r); on_slot info
  | Elapsed => on_slot_timeout
  end.

Definition monitor_slots (received : list (timed (result RecvError PoTInfo))) : SM () :=
  drive slot_turn received.
End Slots.
