(* ===== verification/SlotsSpec.v ===== *)
(** * What the slot monitor reports, read off the history

    [slot_state] gives the variables and the alerts of the monitor as a function
    of what it received; [slot_turn_state] shows that one turn computes them. *)

From S2P Require Import Prelude Duration Errors Headers P2p EventTypes Alerts Slots.

Local Open Scope N_scope.

(** What the monitor saw, the latest first: a slot, or 30 seconds without one. *)
Inductive slot_seen : Type :=
  | Slot_ (i : PoTInfo)
  | Quiet.

Definition slot_received (x : slot_seen) : timed (result RecvError PoTInfo) :=
  match x with Slot_ i => Completed (inr i) | Quiet => Elapsed end.

Definition number_of (i : PoTInfo) : Slot := slot (proof i).

(** [i] is the slot after the latest one of [l]. *)
Definition extends (l : list PoTInfo) (i : PoTInfo) : bool :=
  match l with j :: _ => number_of i =? number_of j + 1 | [] => false end.

(** The slots the monitor counts: the first one it receives, then each one that is
    the successor of the last counted. *)
Fixpoint accepted (past : list slot_seen) : list PoTInfo :=
  match past with
  | [] => []
  | Slot_ i :: past =>
      match accepted past with
      | [] => [i]
      | l => if extends l i then i :: l else l
      end
  | Quiet :: past => accepted past
  end.

(** The time-outs since the last slot that extended another one. *)
Fixpoint pending (past : list slot_seen) : nat :=
  match past with
  | [] => 0%nat
  | Slot_ i :: past => if extends (accepted past) i then 0%nat else pending past
  | Quiet :: past => S (pending past)
  end.

Section Spec.
Context `{!ErrorPayloads} {B : BoundedVec SlotDetails window} `{!BoundedVecLaws B}.
Context (config : SlotsConfig) (start : Instant).

(** When the latest of the counted slots was received. *)
Definition latest_instant (l : list PoTInfo) : Instant := from_option at_ start (head l).

(** The counted slots with the time each took, the oldest first. *)
Fixpoint details (l : list PoTInfo) : list SlotDetails :=
  match l with
  | [] => []
  | i :: l => details l ++ [{| sd_proof := proof i;
                               sd_duration := duration_since (at_ i) (latest_instant l) |}]
  end.

(** What the bounded vector keeps of them. *)
Definition kept (l : list SlotDetails) : list SlotDetails :=
  if (length l <=? window)%nat then l
  else take (window - 1) l ++ option_list (last l).

Definition total_time (l : list SlotDetails) : N := foldr (λ d acc, sd_duration d + acc) 0 l.

Definition average (l : list SlotDetails) : Duration :=
  total_time (kept l) `div` N.of_nat (length (kept l)).

Definition outage (past : list slot_seen) : Duration :=
  duration_times (pending past) slot_timeout.

Definition slot_recovery_alert (past : list slot_seen) (i : PoTInfo) : list Alert :=
  if (pending past =? 0)%nat then []
  else [AlertTimekeeperRecovery {| tr_slot := number_of i; tr_duration := outage past |}].

Definition slow_slot_alert (j i : PoTInfo) : list Alert :=
  let slot_time := duration_since (at_ i) (at_ j) in
  if per_slot_threshold config <? slot_time then
    [AlertSlowSlot {| ss_slot := number_of i; previous_slot := number_of j;
                      slot_time := slot_time; ss_threshold := per_slot_threshold config |}]
  else [].

Definition avg_slot_alert (l : list PoTInfo) (i : PoTInfo) : list Alert :=
  if (window <=? length l)%nat && (avg_slot_threshold config <? average (details l)) then
    [AlertAvgSlowSlots {| as_slot := number_of i; slot_count := N.of_nat window;
                          avg_slot_time := average (details l);
                          as_threshold := avg_slot_threshold config |}]
  else [].

Definition slot_alerts_for (past : list slot_seen) (x : slot_seen) : list Alert :=
  match x with
  | Slot_ i =>
      match accepted past with
      | j :: _ =>
          if extends (accepted past) i then
            slot_recovery_alert past i ++ slow_slot_alert j i ++
            avg_slot_alert (i :: accepted past) i
          else []
      | [] => []
      end
  | Quiet =>
      match accepted past with
      | j :: _ =>
          [AlertTimekeeperStall {| ts_last_slot := number_of j;
                                   ts_duration := outage (Quiet :: past) |}]
      | [] => []
      end
  end.

Fixpoint slot_alerts (past : list slot_seen) : list Alert :=
  match past with
  | [] => []
  | x :: past => slot_alerts past ++ slot_alerts_for past x
  end.

(** The monitor has the variables and has sent the alerts the history calls for. *)
Definition slot_state (past : list slot_seen) (s : SlotMonitor) : Prop :=
  slot_timeout_fired s = (if (pending past =? 0)%nat then None else Some (outage past)) ∧
  last_instant s = latest_instant (accepted past) ∧
  bvec_list (slots s) = kept (details (accepted past)) ∧
  slot_sent s = slot_alerts past.

(** Slot numbers below the largest [u64], and instants so early that 600 of the
    times between them add up to a [Duration]. *)
Definition slot_in_range (x : slot_seen) : Prop :=
  match x with
  | Slot_ i => number_of i < u64_max ∧ at_ i <= Duration.MAX `div` N.of_nat window
  | Quiet => True
  end.

Lemma accepted_in_range past i :
  Forall slot_in_range past → i ∈ accepted past →
  number_of i < u64_max ∧ at_ i <= Duration.MAX `div` N.of_nat window.
Proof.
  induction 1 as [|x past Hx _ IH]; cbn; [by intros ?%not_elem_of_nil|].
  destruct x as [k|]; [|done]. destruct (accepted past) as [|j l].
  - by intros ->%list_elem_of_singleton.
  - destruct (number_of k =? number_of j + 1); [|done].
    intros [->|Hi]%elem_of_cons; auto.
Qed.

Lemma length_details l : length (details l) = length l.
Proof. induction l as [|i l IH]; cbn; [done|]. rewrite length_app, IH. cbn. lia. Qed.

Lemma last_kept l : last (kept l) = last l.
Proof.
  unfold kept. destruct (_ <=? _)%nat eqn:Hl; [done|]. apply Nat.leb_gt in Hl.
  destruct (last_Some_ne l) as [x Hx]; [intros ->; cbn in Hl; lia|].
  rewrite Hx. change (option_list (Some x)) with [x].  by rewrite last_snoc.
Qed.

Lemma length_kept l : length (kept l) = Nat.min (length l) window.
Proof.
  unfold kept. destruct (_ <=? _)%nat eqn:Hl; [apply Nat.leb_le in Hl; lia|].
  apply Nat.leb_gt in Hl. destruct (last_Some_ne l) as [x Hx]; [intros ->; cbn in Hl; lia|].
  rewrite Hx, length_app, length_take. change (length (option_list (Some x))) with 1%nat. unfold window in *. lia.
Qed.

Lemma take_kept l : take (window - 1) (kept l) = take (window - 1) l.
Proof.
  unfold kept. destruct (_ <=? _)%nat eqn:Hl; [done|]. apply Nat.leb_gt in Hl.
  rewrite take_app_le, take_take by (rewrite length_take; lia). by rewrite Nat.min_id.
Qed.

(** [force_push] keeps [kept] up to date. *)
Lemma kept_snoc l d : take (window - 1) (kept l) ++ [d] = kept (l ++ [d]).
Proof.
  rewrite take_kept. unfold kept. rewrite last_snoc, length_app.
  change (option_list (Some d)) with [d]. cbn [length].
  destruct (_ <=? _)%nat eqn:Hl.
  - apply Nat.leb_le in Hl. rewrite take_ge by lia. done.
  - apply Nat.leb_gt in Hl. by rewrite take_app_le by lia.
Qed.

Lemma last_details l : sd_proof <$> last (details l) = proof <$> head l.
Proof. destruct l as [|i l]; cbn; [done|]. by rewrite last_snoc. Qed.

Lemma sum_durations_ok l :
  total_time l <= Duration.MAX → sum_durations l = Ok (total_time l).
Proof.
  enough (∀ acc, acc + total_time l <= Duration.MAX →
    foldl (λ (acc : outcome Error Duration) x, a ← acc; Duration.add a (sd_duration x))
      (Ok acc) l = Ok (acc + total_time l)) as Hall.
  { intros Hmax. apply (Hall 0). lia. }
  induction l as [|d l IH]; intros acc Hacc; cbn; [by rewrite N.add_0_r|].
  cbn [total_time foldr] in Hacc |- *. fold (total_time l) in Hacc |- *.
  unfold Duration.add at 2.
  destruct (N.leb_spec (acc + sd_duration d) Duration.MAX); [|lia].
  rewrite IH by lia. by rewrite N.add_assoc.
Qed.

Lemma total_time_le l m :
  (∀ d, d ∈ l → sd_duration d <= m) → total_time l <= N.of_nat (length l) * m.
Proof.
  induction l as [|d l IH]; intros Hall; [done|].
  cbn [total_time foldr length]. fold (total_time l).
  assert (sd_duration d <= m) by (apply Hall, elem_of_cons; by left).
  assert (total_time l <= N.of_nat (length l) * m)
    by (apply IH; intros x Hx; apply Hall, elem_of_cons; by right). lia.
Qed.

Lemma elem_of_kept d l : d ∈ kept l → d ∈ l.
Proof.
  unfold kept. destruct (_ <=? _)%nat; [done|]. intros [Hd|Hd]%elem_of_app.
  - apply list_elem_of_lookup in Hd as [k Hk].
    apply lookup_take_Some in Hk as [Hk _]. by eapply list_elem_of_lookup_2.
  - destruct (last l) as [x|] eqn:Hx; [|by apply not_elem_of_nil in Hd].
    apply list_elem_of_singleton in Hd as ->. rewrite last_lookup in Hx.
    by eapply list_elem_of_lookup_2.
Qed.

Lemma details_le l m :
  (∀ i, i ∈ l → at_ i <= m) → ∀ d, d ∈ details l → sd_duration d <= m.
Proof.
  induction l as [|i l IH]; cbn; intros Hl d Hd; [by apply not_elem_of_nil in Hd|].
  apply elem_of_app in Hd as [Hd| ->%list_elem_of_singleton].
  - apply IH; [|done]. intros j Hj. apply Hl, elem_of_cons. by right.
  - cbn. unfold duration_since. pose proof (Hl i). transitivity (at_ i); [lia|].
    apply Hl, elem_of_cons. by left.
Qed.

Lemma total_kept_le l :
  (∀ i, i ∈ l → at_ i <= Duration.MAX `div` N.of_nat window) →
  total_time (kept (details l)) <= Duration.MAX.
Proof.
  intros Hl. pose proof (details_le _ _ Hl) as Hd.
  etrans; [apply (total_time_le _ (Duration.MAX `div` N.of_nat window))|].
  { intros d Hk. apply Hd, elem_of_kept, Hk. }
  rewrite length_kept. etrans; [|apply (N.Div0.mul_div_le _ (N.of_nat window))].
  apply N.mul_le_mono_r. lia.
Qed.

Lemma total_time_snoc l d : total_time (l ++ [d]) = total_time l + sd_duration d.
Proof.
  induction l as [|x l IH]; cbn; [lia|]. fold (total_time (l ++ [d])) (total_time l).
  rewrite IH. lia.
Qed.

(** [extend] on every path: what it sends and the variables it leaves. *)
Lemma extend_ok info duration last_slot s l :
  bvec_list (force_push (slots s) {| sd_proof := proof info; sd_duration := duration |}) = kept l →
  l ≠ [] → total_time (kept l) <= Duration.MAX →
  extend config info duration last_slot s =
    (Ok tt, {| slot_timeout_fired := None; last_instant := at_ info;
      slots := force_push (slots s) {| sd_proof := proof info; sd_duration := duration |};
      slot_sent := slot_sent s ++
        from_option (λ t, [AlertTimekeeperRecovery {| tr_slot := number_of info;
                                                      tr_duration := t |}])
          [] (slot_timeout_fired s) ++
        (if per_slot_threshold config <? duration then
           [AlertSlowSlot {| ss_slot := number_of info;
              previous_slot := slot (sd_proof last_slot); slot_time := duration;
              ss_threshold := per_slot_threshold config |}] else []) ++
        (if (window <=? length l)%nat && (avg_slot_threshold config <? average l) then
           [AlertAvgSlowSlots {| as_slot := number_of info; slot_count := N.of_nat window;
              avg_slot_time := average l; as_threshold := avg_slot_threshold config |}]
         else []) |}).
Proof.
  intros Hl Hne Hmax. assert (kept l ≠ []) as Hk.
  { intros Hk. apply (f_equal length) in Hk. rewrite length_kept in Hk.
    destruct l; [done|]. cbn [length] in Hk. unfold window in Hk. lia. }
  unfold extend, mbind, M_bind, gets, set_slot_timeout, send_slot_alert, set_last_instant,
    push_slot, modify, lift. cbn [slots slot_timeout_fired].
  unfold is_full, Duration.gt, number_of.
  assert ((window <=? length (kept l))%nat = (window <=? length l)%nat) as Hfull.
  { rewrite length_kept. apply eq_true_iff_eq. rewrite !Nat.leb_le. lia. }
  assert (length (kept l) = window ∨ (window <=? length l)%nat = false) as Hw.
  { rewrite length_kept. destruct (Nat.leb_spec window (length l)); [left; lia|by right]. }
  destruct (slot_timeout_fired s) as [t|]; destruct (per_slot_threshold config <? duration);
    cbn -[window kept]; rewrite Hl, sum_durations_ok by done; cbn -[window kept];
    rewrite duration_div_floor by (destruct (kept l); [done|cbn; lia]);
    fold (average l); rewrite Hfull;
    destruct Hw as [Hw|Hw]; rewrite ?Hw; try (destruct (window <=? length l)%nat);
    cbn -[window kept]; rewrite ?app_nil_r, <-?app_assoc; try done;
    unfold average; rewrite ?Hw;
    destruct (avg_slot_threshold config <? _); cbn -[window kept];
    rewrite ?app_nil_r, <-?app_assoc; done.
Qed.

Lemma next_slot_ok n : n < u64_max → next_slot n = Ok (n + 1).
Proof. unfold next_slot. destruct (N.ltb_spec n u64_max); [done|lia]. Qed.

Lemma accepted_nil_kept past s :
  slot_state past s → accepted past = [] → last (bvec_list (slots s)) = None.
Proof. intros (_ & _ & -> & _) ->. done. Qed.

Lemma accepted_cons_kept past s j l :
  slot_state past s → accepted past = j :: l →
  ∃ d, last (bvec_list (slots s)) = Some d ∧ sd_proof d = proof j.
Proof.
  intros (_ & _ & -> & _) Hacc. rewrite last_kept, Hacc. cbn. rewrite last_snoc. by eexists.
Qed.

Lemma force_push_details past s i :
  slot_state past s →
  bvec_list (force_push (slots s)
    {| sd_proof := proof i; sd_duration := duration_since (at_ i) (last_instant s) |}) =
  kept (details (i :: accepted past)).
Proof.
  intros (_ & Hlast & Hslots & _). rewrite force_push_truncates, Hslots, Hlast.
  apply kept_snoc.
Qed.

Lemma details_cons_ne i l : details (i :: l) ≠ [].
Proof. cbn. by destruct (details l). Qed.

Lemma on_slot_state past i s :
  Forall slot_in_range (Slot_ i :: past) → slot_state past s →
  ∃ s', on_slot config i s = (Ok tt, s') ∧ slot_state (Slot_ i :: past) s'.
Proof.
  intros Hall Hs. pose proof Hs as (Hfired & Hlast & Hslots & Hsent).
  inversion_clear Hall as [|? ? Hi Hpast]. pose proof (force_push_details past s i Hs) as Hpush.
  unfold on_slot, mbind at 1 2, M_bind at 1 2, gets.
  destruct (accepted past) as [|j l] eqn:Hacc.
  - rewrite (accepted_nil_kept _ _ Hs Hacc). eexists. split; [reflexivity|].
    unfold slot_state, outage.
    cbn [slot_timeout_fired last_instant slots slot_sent pending accepted slot_alerts
      slot_alerts_for extends]. rewrite Hacc. cbn [extends].
    split_and!; [by rewrite Hfired|done|exact Hpush|by rewrite Hsent, app_nil_r].
  - destruct (accepted_cons_kept _ _ _ _ Hs Hacc) as (d & -> & Hd).
    destruct (accepted_in_range past j Hpast) as [Hj _]; [rewrite Hacc; set_solver|].
    unfold mbind, M_bind, lift. rewrite Hd, next_slot_ok by done. fold (number_of j).
    fold (number_of i).
    unfold slot_state, outage.
    cbn [pending accepted slot_alerts slot_alerts_for]. rewrite Hacc. cbn [extends].
    destruct (number_of i =? number_of j + 1) eqn:Hext.
    2: { exists s. cbn [app]. rewrite app_nil_r. done. }
    erewrite extend_ok; [|exact Hpush|apply details_cons_ne|].
    2: { apply total_kept_le. intros k [->|Hk]%elem_of_cons; [apply Hi|].
         apply (accepted_in_range past k Hpast). by rewrite Hacc. }
    eexists. split; [reflexivity|].
    cbn [slot_timeout_fired last_instant slots slot_sent pending accepted].
    split_and!; [done|done|done|].
    rewrite Hsent, Hlast, Hd, Hfired, length_details. unfold slot_recovery_alert, slow_slot_alert,
      avg_slot_alert, outage. f_equal. f_equal. by destruct (pending past =? 0)%nat.
Qed.

Lemma slot_timeout_state past s :
  slot_state past s →
  ∃ s', on_slot_timeout s = (Ok tt, s') ∧ slot_state (Quiet :: past) s'.
Proof.
  intros Hs. pose proof Hs as (Hfired & Hlast & Hslots & Hsent).
  assert (from_option (λ t, Duration.saturating_add t slot_timeout) slot_timeout
            (slot_timeout_fired s) = outage (Quiet :: past)) as Hout.
  { rewrite Hfired. unfold outage. cbn [pending]. destruct (pending past) as [|n]; cbn [Nat.eqb].
    - by rewrite duration_times_1.
    - cbn [from_option]. by rewrite duration_times_S. }
  unfold on_slot_timeout, mbind, M_bind, gets, set_slot_timeout, send_slot_alert, modify.
  rewrite Hout. unfold slot_state.
  cbn [accepted pending slot_alerts slot_alerts_for Nat.eqb].
  destruct (accepted past) as [|j l] eqn:Hacc.
  - rewrite (accepted_nil_kept _ _ Hs Hacc). eexists. split; [reflexivity|].
    by rewrite app_nil_r.
  - destruct (accepted_cons_kept _ _ _ _ Hs Hacc) as (d & -> & Hd).
    eexists. split; [reflexivity|]. cbn [slot_timeout_fired last_instant slots slot_sent].
    by rewrite Hsent, Hd.
Qed.

Lemma slot_run_state past :
  Forall slot_in_range past →
  ∃ s, monitor_slots config (slot_received <$> rev past) (monitor_start start) = (Ok tt, s) ∧
    slot_state past s.
Proof.
  induction past as [|x past IH]; intros Hall.
  { eexists. split; [reflexivity|]. unfold slot_state. cbn. by rewrite new_empty. }
  destruct IH as (s & Hrun & Hs); [by inversion Hall|].
  assert (∃ s', slot_turn config (slot_received x) s = (Ok tt, s') ∧ slot_state (x :: past) s')
    as (s' & Hstep & Hs').
  { destruct x as [i|]; [by apply on_slot_state|by apply slot_timeout_state]. }
  exists s'. split; [|done]. cbn [rev]. rewrite fmap_app.
  change (slot_received <$> [x]) with [slot_received x]. unfold monitor_slots in *.
  by rewrite (drive_snoc_ok _ _ _ _ _ Hrun).
Qed.
End Spec.
