(* ===== verification/SlotsProps.v ===== *)
(** * Properties of the slot monitor

    The theorems about [monitor_slots] with their witnesses, which run it on a
    bounded vector that is a list. *)

From S2P Require Import Prelude Duration Errors Headers P2p EventTypes Alerts Slots SlotsSpec.

Local Open Scope N_scope.

Section Properties.
Context `{!ErrorPayloads} {B : BoundedVec SlotDetails window} `{!BoundedVecLaws B}.
Context (config : SlotsConfig) (start : Instant).
Implicit Types (history past : list slot_seen) (s : SlotMonitor).

Lemma accepted_quiet k past : accepted (replicate k Quiet ++ past) = accepted past.
Proof. induction k; cbn; auto. Qed.

Lemma pending_quiet k past : pending (replicate k Quiet ++ past) = (k + pending past)%nat.
Proof. induction k; cbn; auto. Qed.

(** The [n]-th stall alert in a row after slot [n]. *)
Definition nth_slot_stall (j : PoTInfo) (n : nat) : Alert :=
  AlertTimekeeperStall {| ts_last_slot := number_of j;
                          ts_duration := duration_times n slot_timeout |}.

Lemma slot_alerts_quiet k past j l :
  accepted past = j :: l → pending past = 0%nat →
  slot_alerts config start (replicate k Quiet ++ past) =
    slot_alerts config start past ++ (nth_slot_stall j <$> seq 1 k).
Proof.
  intros Hacc Hp. induction k as [|k IH]; [by rewrite app_nil_r|].
  rewrite seq_S, fmap_app, app_assoc, <-IH. cbn [replicate app slot_alerts slot_alerts_for].
  rewrite accepted_quiet, Hacc. unfold outage. cbn [pending].
  by rewrite pending_quiet, Hp, Nat.add_0_r.
Qed.

Lemma slot_alerts_quiet_start k : slot_alerts config start (replicate k Quiet) = [].
Proof.
  induction k as [|k IH]; [done|]. cbn. rewrite IH.
  pose proof (accepted_quiet k []) as Ha. rewrite app_nil_r in Ha. by rewrite Ha.
Qed.

Lemma rev_history_in_range history :
  Forall slot_in_range history → Forall slot_in_range (rev history).
Proof.
  intros Hall. apply Forall_forall. intros x Hx. rewrite Forall_forall in Hall.
  by apply Hall, elem_of_rev.
Qed.

Lemma monitor_run history :
  Forall slot_in_range history →
  ∃ s, monitor_slots config (slot_received <$> history) (monitor_start start) = (Ok tt, s) ∧
    slot_state config start (rev history) s.
Proof.
  intros Hall%rev_history_in_range. pose proof (slot_run_state config start _ Hall) as Hrun.
  by rewrite rev_involutive in Hrun.
Qed.

(** C18. Within the range of the machine integers the slot monitor never stops, and
    what it keeps and sends is a function of the history: it counts the first slot
    and then each successor of the last counted one, reports each 30 seconds without
    a slot as a stall once it has counted one, and at each counted successor, in this
    order, the recovery from the silences since the previous one, a slot that took
    longer than the threshold, and, when 600 are kept, an average over the threshold.
    Slow slots and averages are reported at every counted slot that is over the
    threshold, not only when that status changes. *)
Theorem monitor_slots_refines history :
  Forall slot_in_range history →
  ∃ s, monitor_slots config (slot_received <$> history) (monitor_start start) = (Ok tt, s) ∧
    slot_state config start (rev history) s.
Proof. apply monitor_run. Qed.

Definition misses (n : Slot) (x : slot_seen) : Prop :=
  match x with Slot_ i => number_of i ≠ n | Quiet => True end.

Definition is_stall_at (n : Slot) (a : Alert) : Prop :=
  ∃ d, a = AlertTimekeeperStall {| ts_last_slot := n; ts_duration := d |}.

Definition is_quiet (x : slot_seen) : bool :=
  match x with Quiet => true | Slot_ _ => false end.

(** C24. A missed slot wedges the monitor: if the slot after the last counted one never
    arrives, every later slot is ignored, whatever its number.  The counted slots and
    the time of the last one stay as they are, and all that is sent is stall alerts
    for that slot, one for each time-out. *)
Theorem missed_slot_wedges history s d :
  last (bvec_list (slots s)) = Some d → slot (sd_proof d) < u64_max →
  Forall (misses (slot (sd_proof d) + 1)) history →
  ∃ s' stalls, monitor_slots config (slot_received <$> history) s = (Ok tt, s') ∧
    slots s' = slots s ∧ last_instant s' = last_instant s ∧
    slot_sent s' = slot_sent s ++ stalls ∧ Forall (is_stall_at (slot (sd_proof d))) stalls ∧
    length stalls = length (filter is_quiet history).
Proof.
  intros Hlast Hd. revert s Hlast. induction history as [|x history IH]; intros s Hlast Hall.
  { exists s, []. cbn. by rewrite app_nil_r. }
  inversion_clear Hall as [|? ? Hx Hrest].
  assert (∃ s1 st1, slot_turn config (slot_received x) s = (Ok tt, s1) ∧
    slots s1 = slots s ∧ last_instant s1 = last_instant s ∧ slot_sent s1 = slot_sent s ++ st1 ∧
    Forall (is_stall_at (slot (sd_proof d))) st1 ∧ length st1 = length (filter is_quiet [x]))
    as (s1 & st1 & Hstep & Hsl & Hli & Hse & Hst & Hlen).
  { destruct x as [i|]; cbn.
    - exists s, []. rewrite app_nil_r. split_and!; try done.
      unfold on_slot, mbind, M_bind, gets, lift, number_of in *. rewrite Hlast, next_slot_ok by done.
      destruct (N.eqb_spec (slot (proof i)) (slot (sd_proof d) + 1)); [done|done].
    - unfold on_slot_timeout, mbind, M_bind, gets, send_slot_alert, set_slot_timeout, modify.
      rewrite Hlast. eexists _, [_]. split_and!; [reflexivity|done..| |done].
      constructor; [by eexists|done]. }
  destruct (IH s1) as (s2 & st2 & Hrun & ? & ? & Hse2 & ? & Hlen2); [by rewrite Hsl|done|].
  exists s2, (st1 ++ st2). unfold monitor_slots in *.
  rewrite (drive_cons _ _ _ _ _ Hstep : drive _ (slot_received <$> x :: history) s = _).
  split_and!; [done|congruence..| | |].
  - by rewrite Hse2, Hse, app_assoc.
  - by apply Forall_app.
  - rewrite length_app, Hlen, Hlen2. change (x :: history) with ([x] ++ history).
    by rewrite filter_app, length_app.
Qed.

(** C25. The average is not taken over the latest 600 slots: after 600 counted slots
    the monitor keeps the first 599 it ever counted and the latest one, so the average
    it compares with the threshold is frozen but for the latest slot, however slow the
    slots between have been. *)
Theorem average_ignores_recent_slots history i l :
  Forall slot_in_range history → accepted (rev history) = i :: l →
  (window <= length l)%nat →
  let slot_time := duration_since (at_ i) (latest_instant start l) in
  let first_slots := take (window - 1) (details start l) in
  ∃ s, monitor_slots config (slot_received <$> history) (monitor_start start) = (Ok tt, s) ∧
    bvec_list (slots s) = first_slots ++ [{| sd_proof := proof i; sd_duration := slot_time |}] ∧
    average (details start (i :: l)) =
      (total_time first_slots + slot_time) `div` N.of_nat window.
Proof.
  intros Hall Hacc Hlen slot_time first_slots.
  destruct (monitor_run _ Hall) as (s & Hrun & _ & _ & Hslots & _).
  assert (kept (details start (i :: l)) =
    first_slots ++ [{| sd_proof := proof i; sd_duration := slot_time |}]) as Hkept.
  { cbn [details]. by rewrite <-kept_snoc, take_kept. }
  exists s. split_and!; [done|by rewrite Hslots, Hacc|].
  unfold average. rewrite Hkept, total_time_snoc, length_app. unfold first_slots.
  rewrite length_take, length_details. change (length [_]) with 1%nat. cbn [sd_duration].
  by replace (Nat.min (window - 1) (length l) + 1)%nat with window by (unfold window in *; lia).
Qed.

(** An outage of [k] time-outs between a counted slot and its successor sends one
    stall alert each, with 30 seconds more every time, then one recovery with the
    duration of the last of them (none when [k] is zero), before the alerts on the
    time of the slot itself. *)
Theorem timekeeper_outage_alerts history k i j l :
  Forall slot_in_range (history ++ replicate k Quiet ++ [Slot_ i]) →
  accepted (rev history) = j :: l → pending (rev history) = 0%nat →
  number_of i = number_of j + 1 →
  ∃ s1 s2, monitor_slots config (slot_received <$> history) (monitor_start start) = (Ok tt, s1) ∧
    monitor_slots config (slot_received <$> history ++ replicate k Quiet ++ [Slot_ i])
      (monitor_start start) = (Ok tt, s2) ∧
    slot_timeout_fired s2 = None ∧
    slot_sent s2 = slot_sent s1 ++ (nth_slot_stall j <$> seq 1 k) ++
      (if (k =? 0)%nat then []
       else [AlertTimekeeperRecovery {| tr_slot := number_of i;
                                        tr_duration := duration_times k slot_timeout |}]) ++
      slow_slot_alert config j i ++ avg_slot_alert config start (i :: j :: l) i.
Proof.
  intros Hall Hacc Hp Hi.
  destruct (monitor_run _ (Forall_app_1 _ _ _ Hall)) as (s1 & Hrun1 & _ & _ & _ & Hsent1).
  destruct (monitor_run _ Hall) as (s2 & Hrun2 & Hf2 & _ & _ & Hsent2).
  exists s1, s2. rewrite Hsent2, Hf2, Hsent1, !rev_app_distr, rev_replicate, <-app_assoc.
  cbn [rev app pending slot_alerts slot_alerts_for].
  rewrite accepted_quiet, Hacc, (slot_alerts_quiet _ _ _ _ Hacc Hp). cbn [extends].
  rewrite Hi, N.eqb_refl. unfold slot_recovery_alert, outage.
  rewrite pending_quiet, Hp, Nat.add_0_r, Hi. split_and!; [done..|].
  by rewrite <-!app_assoc.
Qed.

(** C40. Silence before the first slot makes a later recovery false: any number of time-outs
    before the first slot sends nothing, the first slot (in range) sends nothing either,
    and its successor sends a recovery from all that silence, which no stall alert
    preceded, and then its slow-slot alert if it is slow. *)
Theorem startup_silence_recovery k i j :
  Forall slot_in_range [Slot_ i; Slot_ j] → number_of j = number_of i + 1 →
  ∃ s1 s2, monitor_slots config (slot_received <$> replicate (S k) Quiet ++ [Slot_ i])
      (monitor_start start) = (Ok tt, s1) ∧ slot_sent s1 = [] ∧
    monitor_slots config (slot_received <$> replicate (S k) Quiet ++ [Slot_ i; Slot_ j])
      (monitor_start start) = (Ok tt, s2) ∧
    slot_sent s2 = AlertTimekeeperRecovery {| tr_slot := number_of j;
                     tr_duration := duration_times (S k) slot_timeout |} ::
                   slow_slot_alert config i j.
Proof.
  intros Hall Hj. inversion_clear Hall as [|? ? Hi Hjr].
  assert (Forall slot_in_range (replicate (S k) Quiet)) as Hq by by apply Forall_replicate.
  destruct (monitor_run (replicate (S k) Quiet ++ [Slot_ i])) as (s1 & Hrun1 & _ & _ & _ & Hs1).
  { apply Forall_app. split; [done|by constructor]. }
  destruct (monitor_run (replicate (S k) Quiet ++ [Slot_ i; Slot_ j]))
    as (s2 & Hrun2 & _ & _ & _ & Hs2).
  { apply Forall_app. split; [done|]. by constructor. }
  exists s1, s2. rewrite Hs1, Hs2, !rev_app_distr, rev_replicate.
  pose proof (accepted_quiet (S k) []) as Ha. pose proof (pending_quiet (S k) []) as Hp.
  rewrite app_nil_r in Ha, Hp.
  cbn [rev app slot_alerts slot_alerts_for accepted]. rewrite slot_alerts_quiet_start, Ha.
  cbn [accepted extends]. rewrite Hj, N.eqb_refl. split_and!; try done.
  unfold slot_recovery_alert, outage. cbn [pending]. rewrite Ha. cbn [extends].
  rewrite Hp, Nat.add_0_r, Hj. unfold avg_slot_alert.
  change (window <=? length [j; i])%nat with false. cbn. by rewrite app_nil_r.
Qed.

(** What ends the monitor: a receive error, with that error, and a counted slot
    with the largest number, after which every slot panics on the check for its
    successor. *)
Theorem monitor_slots_stops s d i :
  last (bvec_list (slots s)) = Some d → slot (sd_proof d) = u64_max →
  (∀ e, slot_turn config (Completed (inl e)) s = (Err (BroadRecvErr e), s)) ∧
  slot_turn config (Completed (inr i)) s = (Panic "attempt to add with overflow", s).
Proof.
  intros Hlast Hd. split; [done|]. cbn.
  unfold on_slot, mbind, M_bind, gets, lift. rewrite Hlast. unfold next_slot.
  by rewrite Hd.
Qed.

(** A slot that several peers gossip is counted once: a slot no later than the last
    counted one changes neither the variables nor the alerts, so the run is the one
    without it (but for the 30 seconds of the receive, which it starts again). *)
Theorem repeated_slot_is_ignored history i later j l :
  Forall slot_in_range history → accepted (rev history) = j :: l →
  number_of i <= number_of j →
  monitor_slots config (slot_received <$> history ++ Slot_ i :: later) (monitor_start start) =
  monitor_slots config (slot_received <$> history ++ later) (monitor_start start).
Proof.
  intros Hall Hacc Hi. destruct (monitor_run _ Hall) as (s & Hrun & Hs).
  assert (slot_turn config (slot_received (Slot_ i)) s = (Ok tt, s)) as Hturn.
  { destruct (accepted_cons_kept _ _ _ _ _ _ Hs Hacc) as (d & Hlast & Hd).
    destruct (accepted_in_range (rev history) j) as [Hj _];
      [by apply rev_history_in_range|rewrite Hacc; set_solver|].
    cbn. unfold on_slot, mbind, M_bind, gets, lift, number_of in *.
    rewrite Hlast, Hd, next_slot_ok by done.
    by destruct (N.eqb_spec (slot (proof i)) (slot (proof j) + 1)); [lia|]. }
  unfold monitor_slots in *. rewrite !fmap_app, !drive_app.
  unfold mbind, M_bind. rewrite Hrun. cbn [fmap list_fmap]. by apply drive_cons.
Qed.
End Properties.

(** ** Witnesses *)
Module SlotsToy.
#[local] Instance payloads : ErrorPayloads := {|
  subxt_Error := (); JoinError := (); reqwest_Error := (); subxt_rpcs_Error := ();
  codec_Error := (); io_Error := (); toml_Error := (); SlackClientError := () |}.

#[local] Instance vec : BoundedVec SlotDetails window := {|
  bvec := list SlotDetails; bvec_new := []; bvec_list v := v;
  force_push v a := take (window - 1) v ++ [a] |}.

#[local] Instance vec_laws : BoundedVecLaws vec.
Proof. by split. Qed.

Definition config : SlotsConfig :=
  {| per_slot_threshold := 1200000000; avg_slot_threshold := 1100000000 |}.
(** Slot [n], received [t] seconds after the clock's origin. *)
Definition info (n t : N) : PoTInfo :=
  {| at_ := Duration.from_secs t;
     proof := {| slot := n; seed := []; slot_iterations := 1; checkpoints := [] |} |}.
(** 600 slots, one each second, then a slot after an hour. *)
Definition long_history : list slot_seen :=
  ((λ k, Slot_ (info (N.of_nat k) (N.of_nat k))) <$> seq 1 600) ++ [Slot_ (info 601 4200)].
Lemma long_history_in_range : Forall slot_in_range long_history.
Proof.
  apply Forall_app. split; [|by repeat constructor].
  apply Forall_fmap, Forall_forall. intros k [_ Hk]%elem_of_seq. cbn.
  change (N.of_nat k < 18446744073709551615 ∧
    N.of_nat k * 1000000000 <= 30744573456182586026666666).
  lia.
Qed.
Definition counted (n t : N) : SlotDetails := {| sd_proof := proof (info n t); sd_duration := 0 |}.
Definition at_slot (n t : N) : @SlotMonitor vec :=
  {| slot_timeout_fired := None; last_instant := Duration.from_secs t;
     slots := ([counted n t] : @bvec SlotDetails window vec); slot_sent := [] |}.
End SlotsToy.

Lemma monitor_slots_refines_witness :
  ∃ s, monitor_slots (H:=SlotsToy.payloads) (B:=SlotsToy.vec) SlotsToy.config
      (slot_received <$> [Slot_ (SlotsToy.info 5 1); Quiet; Slot_ (SlotsToy.info 6 40)])
      (monitor_start 0) = (Ok tt, s) ∧
    length (slot_sent s) = 3%nat.
Proof.
  destruct (monitor_slots_refines (H:=SlotsToy.payloads) (B:=SlotsToy.vec)
    (BoundedVecLaws0:=SlotsToy.vec_laws) SlotsToy.config 0
    [Slot_ (SlotsToy.info 5 1); Quiet; Slot_ (SlotsToy.info 6 40)])
    as (s & Hrun & _ & _ & _ & Hs).
  - repeat constructor; vm_compute; try discriminate; reflexivity.
  - exists s. split; [exact Hrun|]. rewrite Hs. vm_compute. reflexivity.
Defined.

Lemma missed_slot_wedges_witness :
  ∃ s' stalls, monitor_slots (H:=SlotsToy.payloads) (B:=SlotsToy.vec) SlotsToy.config
      (slot_received <$> [Slot_ (SlotsToy.info 7 2); Quiet; Slot_ (SlotsToy.info 8 3)])
      (SlotsToy.at_slot 5 1) = (Ok tt, s') ∧
    slots s' = slots (SlotsToy.at_slot 5 1) ∧ length stalls = 1%nat ∧ slot_sent s' = stalls.
Proof.
  destruct (missed_slot_wedges (H:=SlotsToy.payloads) (B:=SlotsToy.vec) SlotsToy.config
    [Slot_ (SlotsToy.info 7 2); Quiet; Slot_ (SlotsToy.info 8 3)] (SlotsToy.at_slot 5 1)
    (SlotsToy.counted 5 1)) as (s' & stalls & Hrun & Hsl & _ & Hs & _ & Hlen).
  - reflexivity.
  - reflexivity.
  - repeat constructor; discriminate.
  - exists s', stalls. split; [exact Hrun|]. split; [exact Hsl|]. split; [exact Hlen|exact Hs].
Defined.

(** The last slot took an hour, and the average is below 7 seconds: it was the first
    time the monitor replaced one slot, and it is all it will ever replace. *)
Lemma average_ignores_recent_slots_witness :
  ∃ i l, accepted (rev SlotsToy.long_history) = i :: l ∧
    average (details 0 (i :: l)) = 6998333333.
Proof.
  destruct (accepted (rev SlotsToy.long_history)) as [|i l] eqn:Hacc;
    [vm_compute in Hacc; discriminate|].
  exists i, l. split; [reflexivity|].
  destruct (average_ignores_recent_slots (H:=SlotsToy.payloads) (B:=SlotsToy.vec)
    (BoundedVecLaws0:=SlotsToy.vec_laws) SlotsToy.config 0 SlotsToy.long_history i l)
    as (s & _ & _ & Havg).
  - exact SlotsToy.long_history_in_range.
  - exact Hacc.
  - apply (f_equal length) in Hacc.
    assert (length (accepted (rev SlotsToy.long_history)) = 601%nat) as Hlen
      by (vm_compute; reflexivity).
    rewrite Hlen in Hacc. cbn [length] in Hacc. unfold window. lia.
  - rewrite Havg. vm_compute in Hacc. injection Hacc as <- <-. vm_compute. reflexivity.
Defined.

Lemma timekeeper_outage_alerts_witness :
  ∃ s, monitor_slots (H:=SlotsToy.payloads) (B:=SlotsToy.vec) SlotsToy.config
      (slot_received <$> [Slot_ (SlotsToy.info 5 1); Slot_ (SlotsToy.info 6 2)] ++
        replicate 2 Quiet ++ [Slot_ (SlotsToy.info 7 70)]) (monitor_start 0) = (Ok tt, s) ∧
    length (slot_sent s) = 4%nat ∧ slot_timeout_fired s = None.
Proof.
  destruct (timekeeper_outage_alerts (H:=SlotsToy.payloads) (B:=SlotsToy.vec)
    (BoundedVecLaws0:=SlotsToy.vec_laws) SlotsToy.config 0
    [Slot_ (SlotsToy.info 5 1); Slot_ (SlotsToy.info 6 2)] 2 (SlotsToy.info 7 70)
    (SlotsToy.info 6 2) [SlotsToy.info 5 1]) as (s1 & s2 & Hrun1 & Hrun2 & Hf & Hs).
  - repeat constructor; vm_compute; try discriminate; reflexivity.
  - vm_compute. reflexivity.
  - vm_compute. reflexivity.
  - reflexivity.
  - exists s2. split; [exact Hrun2|]. split; [|exact Hf]. rewrite Hs.
    vm_compute in Hrun1. injection Hrun1 as <-. vm_compute. reflexivity.
Defined.

Lemma startup_silence_recovery_witness :
  ∃ s, monitor_slots (H:=SlotsToy.payloads) (B:=SlotsToy.vec) SlotsToy.config
      (slot_received <$> replicate 3 Quiet ++
        [Slot_ (SlotsToy.info 5 91); Slot_ (SlotsToy.info 6 92)]) (monitor_start 0) = (Ok tt, s) ∧
    slot_sent s = [AlertTimekeeperRecovery {| tr_slot := 6; tr_duration := Duration.from_secs 90 |}].
Proof.
  destruct (startup_silence_recovery (H:=SlotsToy.payloads) (B:=SlotsToy.vec)
    (BoundedVecLaws0:=SlotsToy.vec_laws) SlotsToy.config 0 2 (SlotsToy.info 5 91)
    (SlotsToy.info 6 92)) as (s1 & s2 & _ & _ & Hrun & Hs).
  - repeat constructor; vm_compute; try discriminate; reflexivity.
  - reflexivity.
  - exists s2. split; [exact Hrun|]. rewrite Hs. vm_compute. reflexivity.
Defined.

Lemma monitor_slots_stops_witness :
  slot_turn (H:=SlotsToy.payloads) (B:=SlotsToy.vec) SlotsToy.config
    (Completed (inr (SlotsToy.info 0 2))) (SlotsToy.at_slot u64_max 1) =
  (Panic "attempt to add with overflow", SlotsToy.at_slot u64_max 1).
Proof.
  apply (monitor_slots_stops (H:=SlotsToy.payloads) (B:=SlotsToy.vec) SlotsToy.config
    (SlotsToy.at_slot u64_max 1) (SlotsToy.counted u64_max 1)); reflexivity.
Defined.

Lemma repeated_slot_is_ignored_witness :
  monitor_slots (H:=SlotsToy.payloads) (B:=SlotsToy.vec) SlotsToy.config
    (slot_received <$> [Slot_ (SlotsToy.info 5 1)] ++
      Slot_ (SlotsToy.info 5 2) :: [Slot_ (SlotsToy.info 6 3)]) (monitor_start 0) =
  monitor_slots (H:=SlotsToy.payloads) (B:=SlotsToy.vec) SlotsToy.config
    (slot_received <$> [Slot_ (SlotsToy.info 5 1)] ++ [Slot_ (SlotsToy.info 6 3)])
    (monitor_start 0).
Proof.
  apply (repeated_slot_is_ignored (H:=SlotsToy.payloads) (B:=SlotsToy.vec)
    (BoundedVecLaws0:=SlotsToy.vec_laws) SlotsToy.config 0 _ _ _ (SlotsToy.info 5 1) []).
  - repeat constructor; vm_compute; try discriminate; reflexivity.
  - reflexivity.
  - vm_compute. discriminate.
Defined.
