(* ===== verification/Events.v ===== *)
(** * The event monitor (alerter/src/events.rs)

    [watch_events] decodes the monitored events of every broadcast block and sends
    one alert each.  Decoding is subxt's, reading the events of a block is the
    node's: both are parameters. *)

From S2P Require Import Prelude Errors Headers EventTypes Alerts.

(** The [Account] of alerter/src/main.rs. *)
Record Account : Type := { account_name : string; address : string }.

(** subxt's events of a block: [find] yields the events of one type in order, each
    decoded or an error.  [Decoder E] stands for the derived [DecodeAsType]. *)
Class EventsApi `{!ErrorPayloads} : Type := {
  Events : Type;
  Decoder : Type → Type;
  find_events : ∀ {E} `{StaticEvent E}, Decoder E → Events → list (result subxt_Error E);
  DispatchResult : Type;
}.

(** The derived decoders of the monitored event types. *)
Class EventDecoders `{EventsApi} : Type := {
  decode_BalanceTransfer : Decoder BalanceTransfer;
  decode_BalanceDeposit : Decoder BalanceDeposit;
  decode_BalanceWithdraw : Decoder BalanceWithdraw;
  decode_DomainRuntimeUpgraded : Decoder DomainRuntimeUpgraded;
  decode_DomainInstantiated : Decoder DomainInstantiated;
  decode_FraudProofProcessed : Decoder FraudProofProcessed;
  decode_OperatorSlashed : Decoder OperatorSlashed;
  decode_OperatorOffline : Decoder OperatorOffline;
  decode_Sudo : Decoder (Sudo DispatchResult);
  decode_CodeUpdated : Decoder CodeUpdated;
}.

(** [client.events().at(hash)], and [AccountId::from_str] on an SS58 address. *)
Class EventsNode `{EventsApi} (W : Type) : Type := {
  events_at : BlockHash → W → result subxt_Error Events * W;
}.
Class Ss58 : Type := { account_from_str : string → option AccountId }.

(** ** Known accounts *)
Section Accounts.
Context `{!ErrorPayloads} `{!Ss58}.

Definition account_entry (account : Account) : outcome Error (AccountId * Account) :=
  id ← expect "Must be a valid SS58 address" (account_from_str (address account));
  mret (id, account).

Fixpoint account_entries (accounts : list Account)
    : outcome Error (list (AccountId * Account)) :=
  match accounts with
  | [] => mret []
  | account :: accounts =>
      entry ← account_entry account;
      entries ← account_entries accounts;
      mret (entry :: entries)
  end.

(** The [collect] into a [BTreeMap]: a later entry replaces an earlier one. *)
Definition collect_map (entries : list (AccountId * Account)) : gmap AccountId Account :=
  foldl (λ m e, <[fst e := snd e]> m) ∅ entries.

Definition account_mapped_name (accounts : list Account)
    : outcome Error (gmap AccountId Account) :=
  entries ← account_entries accounts;
  mret (collect_map entries).
End Accounts.

(** [contains_key] followed by [get]. *)
Definition known (accounts : gmap AccountId Account) (id : option AccountId) : option Account :=
  id ≫= λ id, accounts !! id.

Definition known_account_transfer {T} `{TransferEvent T} (accounts : gmap AccountId Account)
    (event : T) : option TransferKnownAccountEvent :=
  let report direction account :=
    {| direction := direction; tk_transfer_type := transfer_type event;
       tk_name := account_name account; tk_address := address account;
       tk_amount := amount event |} in
  match known accounts (transfer_from event) with
  | Some account => Some (report Sender account)
  | None =>
      match known accounts (transfer_to event) with
      | Some account => Some (report Receiver account)
      | None => None
      end
  end.

Definition filter_known_account_transfers {T} `{TransferEvent T} (events : list T)
    (accounts : gmap AccountId Account) : list TransferKnownAccountEvent :=
  omap (known_account_transfer accounts) events.

(** [try_collect::<Vec<_>>()?]: the values, or the first error. *)
Fixpoint try_collect {E E' A} `{From E E'} (l : list (result E A)) : outcome E' (list A) :=
  match l with
  | [] => mret []
  | r :: l => a ← question r; rest ← try_collect l; mret (a :: rest)
  end.

(** ** The monitor *)
Record EventMonitor (W : Type) : Type := { ev_world : W; ev_sent : list Alert }.
Arguments ev_world {W} _.
Arguments ev_sent {W} _.

Section Monitor.
Context `{!ErrorPayloads} `{!EventsApi} `{!EventDecoders} {W : Type} {node : EventsNode W}.
Abbreviation EM := (M (EventMonitor W) Error).

(** [BlockExt::events]. *)
Definition events (block : BlockExt) : EM Events := λ s,
  let '(r, w) := events_at (be_hash block) (ev_world s) in
  (question r, {| ev_world := w; ev_sent := ev_sent s |}).

Definition send_event (e : Event) : EM () :=
  modify (λ s, {| ev_world := ev_world s; ev_sent := ev_sent s ++ [AlertEvent e] |}).

Definition as_events (E : Type) `{StaticEvent E} `{From E Event} (decoder : Decoder E)
    (block_events : Events) : outcome Error (list Event) :=
  found ← (try_collect (find_events decoder block_events) : outcome Error (list E));
  mret (map from found).

Definition known_transfers (T : Type) `{StaticEvent T} `{TransferEvent T} (decoder : Decoder T)
    (accounts : gmap AccountId Account) (block_events : Events)
    : outcome Error (list TransferKnownAccountEvent) :=
  found ← (try_collect (find_events decoder block_events) : outcome Error (list T));
  mret (filter_known_account_transfers found accounts).

(** The body of the inner loop up to the sends: the events of the block to report. *)
Definition block_events_to_report (accounts : gmap AccountId Account) (block_events : Events)
    : outcome Error (list Event) :=
  t1 ← known_transfers BalanceTransfer decode_BalanceTransfer accounts block_events;
  t2 ← known_transfers BalanceDeposit decode_BalanceDeposit accounts block_events;
  t3 ← known_transfers BalanceWithdraw decode_BalanceWithdraw accounts block_events;
  e1 ← as_events DomainRuntimeUpgraded decode_DomainRuntimeUpgraded block_events;
  e2 ← as_events DomainInstantiated decode_DomainInstantiated block_events;
  e3 ← as_events FraudProofProcessed decode_FraudProofProcessed block_events;
  e4 ← as_events OperatorSlashed decode_OperatorSlashed block_events;
  e5 ← as_events OperatorOffline decode_OperatorOffline block_events;
  e6 ← as_events (Sudo DispatchResult) decode_Sudo block_events;
  e7 ← as_events CodeUpdated decode_CodeUpdated block_events;
  mret (map from (t1 ++ t2 ++ t3) ++ e1 ++ e2 ++ e3 ++ e4 ++ e5 ++ e6 ++ e7).

Definition watch_block (accounts : gmap AccountId Account) (block : BlockExt) : EM () :=
  block_events ← events block;
  events ← lift (block_events_to_report accounts block_events);
  drive send_event events.

Definition events_turn (accounts : gmap AccountId Account)
    (received : result RecvError BlocksExt) : EM () :=
  blocks_ext ← lift (question received);
  drive (watch_block accounts) (blocks blocks_ext).

Definition watch_events `{!Ss58} (accounts : list Account)
    (received : list (result RecvError BlocksExt)) : EM () :=
  accounts ← lift (account_mapped_name accounts);
  drive (events_turn accounts) received.
End Monitor.
