(* ===== verification/EventsProps.v ===== *)
(** * Properties of the event monitor *)

From S2P Require Import Prelude Errors Headers EventTypes Alerts Events.

(** ** Known accounts *)
Section Accounts.
Context `{!ErrorPayloads} `{!Ss58}.
Implicit Types (a : Account) (id : AccountId).

Definition names (id : AccountId) (a : Account) : Prop := account_from_str (address a) = Some id.
#[global] Instance names_dec id a : Decision (names id a).
Proof. unfold names. apply _. Defined.

Definition valid_address (a : Account) : Prop := is_Some (account_from_str (address a)).

Lemma account_entries_ok accounts :
  Forall valid_address accounts →
  ∃ es, account_entries accounts = Ok es ∧
    Forall2 (λ a e, names (fst e) a ∧ snd e = a) accounts es.
Proof.
  induction 1 as [|a accounts [id Hid] _ (es & Hes & Hall)]; [by exists []|].
  exists ((id, a) :: es). cbn. unfold account_entry. rewrite Hid. cbn. rewrite Hes. cbn.
  split; [done|]. by constructor.
Qed.

Lemma account_entries_panic accounts :
  ¬ Forall valid_address accounts →
  account_entries accounts = Panic "Must be a valid SS58 address".
Proof.
  induction accounts as [|a accounts IH]; intros Hn; [by destruct Hn|]. cbn. unfold account_entry.
  destruct (account_from_str (address a)) as [id|] eqn:Hid; cbn; [|done].
  rewrite IH; [done|]. intros Hall. apply Hn. constructor; [by exists id|done].
Qed.

Lemma collect_map_lookup es accounts id :
  Forall2 (λ a e, names (fst e) a ∧ snd e = a) accounts es →
  collect_map es !! id = last (filter (names id) accounts).
Proof.
  unfold collect_map. revert accounts. induction es as [|e es IH] using rev_ind;
    intros accounts Hall; [by apply Forall2_nil_inv_r in Hall as ->|].
  apply Forall2_app_inv_r in Hall as (l1 & l2 & Hall & (a & ? & [Hn Ha] & ->%Forall2_nil_inv_r & ->)%Forall2_cons_inv_r & ->).
  rewrite foldl_snoc, filter_app. destruct (decide (fst e = id)) as [<-|Hne].
  - rewrite lookup_insert_eq, filter_cons_True by done. by rewrite filter_nil, last_snoc, Ha.
  - rewrite lookup_insert_ne, filter_cons_False by (done || unfold names in *; congruence).
    by rewrite filter_nil, app_nil_r, (IH _ Hall).
Qed.

(** The map of the known accounts: when every configured address is a valid SS58
    address, an account id is looked up as the last configured account with that
    address; otherwise the monitor panics at its start. *)
Theorem account_mapped_name_spec accounts :
  (Forall valid_address accounts →
     ∃ m, account_mapped_name accounts = Ok m ∧
       ∀ id, m !! id = last (filter (names id) accounts)) ∧
  (¬ Forall valid_address accounts →
     account_mapped_name accounts = Panic "Must be a valid SS58 address").
Proof.
  unfold account_mapped_name. split; intros Hvalid.
  - destruct (account_entries_ok _ Hvalid) as (es & -> & Hall). eexists. split; [done|].
    intros id. by apply collect_map_lookup.
  - by rewrite account_entries_panic.
Qed.

(** The report of [event] for [account]. *)
Definition report_for {T} `{TransferEvent T} (event : T) (d : TransferDirection) (a : Account)
    : TransferKnownAccountEvent :=
  {| direction := d; tk_transfer_type := transfer_type event; tk_name := account_name a;
     tk_address := address a; tk_amount := amount event |}.

Definition knows (m : gmap AccountId Account) (o : option AccountId) (a : Account) : Prop :=
  ∃ id, o = Some id ∧ m !! id = Some a.

Lemma known_Some m o a : known m o = Some a ↔ knows m o a.
Proof. unfold known, knows. apply bind_Some. Qed.

(** C21. A balance event is reported exactly when it moves funds of a known account:
    as sent when the sender is known, whoever receives it, and as received when only
    the receiver is; each event at most once, in the order of the events. *)
Theorem known_transfers_reported {T} `{TransferEvent T} (events : list T) m r :
  (r ∈ filter_known_account_transfers events m ↔
    ∃ e a, e ∈ events ∧
      ((knows m (transfer_from e) a ∧ r = report_for e Sender a) ∨
       ((∀ b, ¬ knows m (transfer_from e) b) ∧ knows m (transfer_to e) a ∧
          r = report_for e Receiver a))) ∧
  (length (filter_known_account_transfers events m) <= length events)%nat ∧
  ∀ before after, events = before ++ after →
    filter_known_account_transfers events m =
      filter_known_account_transfers before m ++ filter_known_account_transfers after m.
Proof.
  assert (∀ e, known_account_transfer m e = Some r ↔ ∃ a,
    (knows m (transfer_from e) a ∧ r = report_for e Sender a) ∨
    ((∀ b, ¬ knows m (transfer_from e) b) ∧ knows m (transfer_to e) a ∧
       r = report_for e Receiver a)) as Hone.
  { intros e. unfold known_account_transfer. fold (report_for e Sender) (report_for e Receiver).
    setoid_rewrite <-known_Some. destruct (known m (transfer_from e)) as [a|] eqn:Ha.
    - split; [intros [= <-]; exists a; by left|].
      intros (a' & [[[= ->] ->]|(Hn & _)]); [done|by destruct (Hn a)].
    - destruct (known m (transfer_to e)) as [a|] eqn:Hb.
      + split; [intros [= <-]; exists a; by right|].
        intros (a' & [[? _]|(_ & [= ->] & ->)]); done.
      + split; [done|]. intros (a' & [[? _]|(_ & ? & _)]); done. }
  unfold filter_known_account_transfers. split_and!.
  - rewrite list_elem_of_omap. setoid_rewrite Hone. naive_solver.
  - induction events as [|e events IH]; [done|].
    cbn. destruct (known_account_transfer m e); cbn; lia.
  - intros before after ->. apply omap_app.
Qed.
End Accounts.

(** ** The events of a block *)
Section Reports.
Context `{!ErrorPayloads} `{!EventsApi} `{!EventDecoders}.
Implicit Types (m : gmap AccountId Account) (evs : Events).

(** [xs] are the events of one type in the block, all decoded. *)
Definition decodes {E} `{StaticEvent E} (d : Decoder E) evs (xs : list E) : Prop :=
  find_events d evs = inr <$> xs.

Lemma try_collect_ok {E E' A} `{From E E'} (l : list (result E A)) xs :
  (try_collect l : outcome E' _) = Ok xs ↔ l = inr <$> xs.
Proof.
  revert xs. induction l as [|[e|a] l IH]; intros xs; cbn.
  - split; [by intros [= <-]|]. by destruct xs.
  - split; [done|]. by destruct xs.
  - split.
    + destruct (try_collect l) as [ys| | |] eqn:Hl; cbn; [|done..]. intros [= <-].
      cbn. f_equal. by apply IH.
    + destruct xs as [|x xs]; [done|]. intros [= -> Hl%IH]. by rewrite Hl.
Qed.

Lemma try_collect_cases {E E' A} `{From E E'} (l : list (result E A)) :
  (∃ xs, (try_collect l : outcome E' _) = Ok xs) ∨
  ∃ before e after, l = (inr <$> before) ++ inl e :: after ∧ try_collect l = Err (from e).
Proof.
  induction l as [|[e|a] l IH]; cbn; [left; by exists []|right; by exists [], e, l|].
  destruct IH as [[xs ->]|(before & e & after & -> & ->)].
  - left. by exists (a :: xs).
  - right. by exists (a :: before), e, after.
Qed.

Lemma outcome_bind_ok {E A B} (o : outcome E A) (k : A → outcome E B) b :
  (o ≫= k) = Ok b ↔ ∃ a, o = Ok a ∧ k a = Ok b.
Proof. destruct o; cbn; naive_solver. Qed.

Lemma as_events_ok {E} `{StaticEvent E} `{From E Event} (d : Decoder E) evs l :
  as_events E d evs = Ok l ↔ ∃ xs, decodes d evs xs ∧ l = from <$> xs.
Proof.
  unfold as_events, decodes. rewrite outcome_bind_ok. setoid_rewrite try_collect_ok.
  by split; intros (xs & ? & Hl); exists xs; (split; [done|]); [injection Hl as <-|subst].
Qed.

Lemma known_transfers_ok {T} `{StaticEvent T} `{TransferEvent T} (d : Decoder T) m evs l :
  known_transfers T d m evs = Ok l ↔
  ∃ xs, decodes d evs xs ∧ l = filter_known_account_transfers xs m.
Proof.
  unfold known_transfers, decodes. rewrite outcome_bind_ok. setoid_rewrite try_collect_ok.
  by split; intros (xs & ? & Hl); exists xs; (split; [done|]); [injection Hl as <-|subst].
Qed.

(** C29. What is reported of a block: when every event of the ten monitored types
    decodes, the transfers, deposits and withdrawals of known accounts, then the seven
    other types, each in the order of the block, all of them and without de-duplication
    between the types; when one of them does not decode, nothing of the block is
    reported. *)
Theorem block_report_complete m evs l :
  block_events_to_report m evs = Ok l ↔
  ∃ transfers deposits withdraws upgrades instantiated proofs slashed offline sudos updates,
    decodes decode_BalanceTransfer evs transfers ∧
    decodes decode_BalanceDeposit evs deposits ∧
    decodes decode_BalanceWithdraw evs withdraws ∧
    decodes decode_DomainRuntimeUpgraded evs upgrades ∧
    decodes decode_DomainInstantiated evs instantiated ∧
    decodes decode_FraudProofProcessed evs proofs ∧
    decodes decode_OperatorSlashed evs slashed ∧
    decodes decode_OperatorOffline evs offline ∧
    decodes decode_Sudo evs sudos ∧
    decodes decode_CodeUpdated evs updates ∧
    l = (EvTransfer <$> filter_known_account_transfers transfers m ++
                        filter_known_account_transfers deposits m ++
                        filter_known_account_transfers withdraws m) ++
        (EvDomainRuntimeUpgraded <$> upgrades) ++ (EvDomainInstantiated <$> instantiated) ++
        (EvFraudProofProcessed <$> proofs) ++ (EvOperatorSlashed <$> slashed) ++
        (EvOperatorOffline <$> offline) ++ ((λ _, EvSudo) <$> sudos) ++
        (EvCodeUpdated <$> updates).
Proof.
  unfold block_events_to_report. split.
  - intros Hl. repeat
      (apply outcome_bind_ok in Hl as (? & (? & ? & ->)%known_transfers_ok & Hl) ||
       apply outcome_bind_ok in Hl as (? & (? & ? & ->)%as_events_ok & Hl)).
    injection Hl as <-. do 10 eexists. by split_and!; [eassumption..|].
  - intros (t & d & w & u & i & f & s & o & x & c & Ht & Hd & Hw & Hu & Hi & Hf & Hs & Ho & Hx
      & Hc & ->).
    repeat match goal with
    | H : decodes ?d evs ?x |- context [known_transfers _ ?d m evs] =>
        rewrite (proj2 (known_transfers_ok d m evs _) (ex_intro _ x (conj H eq_refl))); cbn
    | H : decodes ?d evs ?x |- context [as_events _ ?d evs] =>
        rewrite (proj2 (as_events_ok d evs _) (ex_intro _ x (conj H eq_refl))); cbn
    end. done.
Qed.
End Reports.

(** ** The loop *)
Section Reads.
Context `{!ErrorPayloads} `{!EventsApi} `{!EventDecoders}.
Context {W : Type} {node : EventsNode W}.
Implicit Types (m : gmap AccountId Account) (s : EventMonitor W) (b : BlockExt).

(** What is reported of a block when the node answers [r] for its events. *)
Definition read_report m (r : result subxt_Error Events) : outcome Error (list Event) :=
  block_events ← (question r : outcome Error Events);
  block_events_to_report m block_events.

(** [o] is what is reported of [b], its events being read at some moment of the node. *)
Definition reports m b (o : outcome Error (list Event)) : Prop :=
  ∃ w, o = read_report m (fst (events_at (be_hash b) w)).

Definition alerts_of_reports (ls : list (list Event)) : list Alert := AlertEvent <$> concat ls.

Definition is_err {E A} (o : outcome E A) : Prop := ∃ e, o = Err e.
Definition is_value {E A} (o : outcome E A) : Prop := ∃ a, o = Ok a.

Lemma fallible_bind {E A B} (o : outcome E A) (k : A → outcome E B) :
  is_value o ∨ is_err o → (∀ a, is_value (k a) ∨ is_err (k a)) →
  is_value (o ≫= k) ∨ is_err (o ≫= k).
Proof. intros [[a ->]|[e ->]] Hk; [apply Hk|right; by exists e]. Qed.

Lemma fallible_collect {E A} `{From E Error} (l : list (result E A)) :
  is_value (try_collect l : outcome Error _) ∨ is_err (try_collect l : outcome Error _).
Proof.
  destruct (try_collect_cases (E':=Error) l) as [[xs ->]|(? & e & ? & _ & ->)];
    [left|right]; by eexists.
Qed.

Lemma read_report_fallible m r : is_value (read_report m r) ∨ is_err (read_report m r).
Proof.
  unfold read_report, block_events_to_report, known_transfers, as_events.
  apply fallible_bind; [destruct r; [right|left]; by eexists|]. intros e.
  repeat (apply fallible_bind;
    [apply fallible_bind; [apply fallible_collect|left; by eexists]|intros ?]).
  left. by eexists.
Qed.

Lemma send_events l s :
  drive send_event l s =
    (Ok tt, {| ev_world := ev_world s; ev_sent := ev_sent s ++ (AlertEvent <$> l) |}).
Proof.
  revert s. induction l as [|e l IH]; intros s; [by destruct s; cbn; rewrite app_nil_r|].
  erewrite drive_cons by done. rewrite IH. cbn. by rewrite <-app_assoc.
Qed.

Lemma watch_block_read m b s :
  ∃ w, match read_report m (fst (events_at (be_hash b) (ev_world s))) with
       | Ok l => watch_block m b s =
           (Ok tt, {| ev_world := w; ev_sent := ev_sent s ++ (AlertEvent <$> l) |})
       | Err e => watch_block m b s = (Err e, {| ev_world := w; ev_sent := ev_sent s |})
       | _ => False
       end.
Proof.
  exists (snd (events_at (be_hash b) (ev_world s))).
  pose proof (read_report_fallible m (fst (events_at (be_hash b) (ev_world s)))) as Hf.
  assert (events b s = (question (fst (events_at (be_hash b) (ev_world s))),
    {| ev_world := snd (events_at (be_hash b) (ev_world s)); ev_sent := ev_sent s |})) as He.
  { unfold events. by destruct (events_at _ _). }
  unfold read_report, watch_block in *.
  destruct (fst (events_at (be_hash b) (ev_world s))) as [e|block_events]; cbn in *.
  { unfold mbind, M_bind. by rewrite He. }
  destruct Hf as [[l Hl]|[e Hl]]; rewrite Hl; erewrite bind_ok by exact He.
  - m_step. by rewrite send_events.
  - unfold mbind, M_bind, lift. by rewrite Hl.
Qed.

(** Whatever the node answers: the reports of all the blocks, or of those before the
    first one with an error. *)
Lemma watch_blocks_read m bs s :
  ∃ w o ls, drive (watch_block m) bs s =
      (o, {| ev_world := w; ev_sent := ev_sent s ++ alerts_of_reports ls |}) ∧
    ((o = Ok tt ∧ Forall2 (λ b l, reports m b (Ok l)) bs ls) ∨
     (∃ before b after e, bs = before ++ b :: after ∧ reports m b (Err e) ∧ o = Err e ∧
        Forall2 (λ b l, reports m b (Ok l)) before ls)).
Proof.
  revert s. induction bs as [|b bs IH]; intros s.
  { exists (ev_world s), (Ok tt), []. cbn. rewrite app_nil_r. destruct s. split; [done|by left]. }
  destruct (watch_block_read m b s) as [w Hb].
  destruct (read_report m (fst (events_at (be_hash b) (ev_world s)))) as [l|e| |] eqn:Hrep;
    [| |done|done].
  - destruct (IH {| ev_world := w; ev_sent := ev_sent s ++ (AlertEvent <$> l) |})
      as (w' & o & ls & Hrun & Hcases).
    exists w', o, (l :: ls). rewrite (drive_cons _ _ _ _ _ Hb), Hrun. split.
    { unfold alerts_of_reports. cbn. by rewrite fmap_app, app_assoc. }
    assert (reports m b (Ok l)) by (by eexists).
    destruct Hcases as [[-> Hls]|(before & b' & after & e & -> & ? & -> & Hls)].
    + left. split; [done|by constructor].
    + right. exists (b :: before), b', after, e. by split_and!; try constructor.
  - exists w, (Err e), []. split; [|right; exists [], b, bs, e; by split_and!; try eexists].
    unfold drive at 1. fold (drive (watch_block m)). unfold mbind, M_bind. rewrite Hb.
    unfold alerts_of_reports. cbn. by rewrite app_nil_r.
Qed.

Lemma events_turns m us s :
  drive (events_turn m) (inr <$> us) s = drive (watch_block m) (concat (blocks <$> us)) s.
Proof.
  revert s. induction us as [|u us IH]; intros s; [done|].
  cbn [fmap list_fmap concat]. rewrite drive_app. cbn. unfold mbind, M_bind.
  change (events_turn m (inr u) s) with (drive (watch_block m) (blocks u) s).
  destruct (drive (watch_block m) (blocks u) s) as [[[]| | |] s']; [apply IH|done..].
Qed.

End Reads.

Section Loop.
Context `{!ErrorPayloads} `{!EventsApi} `{!EventDecoders} `{!Ss58}.
Context {W : Type} {node : EventsNode W} (evs : BlockHash → result subxt_Error Events).
(** The events of a block do not depend on when they are asked for. *)
Context (Hevs : ∀ h w, fst (events_at h w) = evs h).
Implicit Types (m : gmap AccountId Account) (s : EventMonitor W) (b : BlockExt).

(** The report of one block, or the error that ends the monitor. *)
Definition report m b : outcome Error (list Event) :=
  block_events ← (question (evs (be_hash b)) : outcome Error Events);
  block_events_to_report m block_events.

Lemma reports_report m b o : reports m b o → report m b = o.
Proof. intros [w ->]. by rewrite Hevs. Qed.

Lemma watch_blocks m bs s :
  ∃ w o ls, drive (watch_block m) bs s =
      (o, {| ev_world := w; ev_sent := ev_sent s ++ alerts_of_reports ls |}) ∧
    ((o = Ok tt ∧ Forall2 (λ b l, report m b = Ok l) bs ls) ∨
     (∃ before b after e, bs = before ++ b :: after ∧ report m b = Err e ∧ o = Err e ∧
        Forall2 (λ b l, report m b = Ok l) before ls)).
Proof.
  assert (∀ l ls, Forall2 (λ b l, reports m b (Ok l)) l ls →
    Forall2 (λ b l, report m b = Ok l) l ls) as Hall.
  { intros l ls Hl. eapply Forall2_impl; [exact Hl|]. intros ??. apply reports_report. }
  destruct (watch_blocks_read m bs s) as (w & o & ls & Hrun & Hcases).
  exists w, o, ls. split; [done|].
  destruct Hcases as [[-> Hls]|(before & b & after & e & -> & Hb & -> & Hls)]; [left; auto|right].
  exists before, b, after, e. auto using reports_report.
Qed.

(** C19. The monitor reports every block of every broadcast, in order, once, and a block
    either wholly or not at all: either it is still running, and has sent the reports
    of all the blocks, or it has ended with the error of the first block whose events
    could not be read or decoded, and has sent the reports of the blocks before it.
    The configured addresses are valid, and the node answers a block's events the same
    whenever it is asked. *)
Theorem watch_events_reports_blocks accounts m us s :
  account_mapped_name accounts = Ok m →
  let bs := concat (blocks <$> us) in
  ∃ w o ls, watch_events accounts (inr <$> us) s =
      (o, {| ev_world := w; ev_sent := ev_sent s ++ alerts_of_reports ls |}) ∧
    ((o = Ok tt ∧ Forall2 (λ b l, report m b = Ok l) bs ls) ∨
     (∃ before b after e, bs = before ++ b :: after ∧ report m b = Err e ∧ o = Err e ∧
        Forall2 (λ b l, report m b = Ok l) before ls)).
Proof.
  intros Hm bs. unfold watch_events. m_step.
  rewrite events_turns. apply watch_blocks.
Qed.
End Loop.

(** ** Witness *)
Module EventsToy.
#[local] Instance payloads : ErrorPayloads := {|
  subxt_Error := string; JoinError := (); reqwest_Error := (); subxt_rpcs_Error := ();
  codec_Error := (); io_Error := (); toml_Error := (); SlackClientError := () |}.

(** An encoded event: its pallet, its name and its fields. *)
Record raw_event : Type := { raw_pallet : string; raw_name : string; fields : list N }.

Definition find {E} `{StaticEvent E} (d : list N → option E) (l : list raw_event)
    : list (result string E) :=
  omap (λ r, if bool_decide (raw_pallet r = PALLET (E:=E)) &&
                bool_decide (raw_name r = EVENT (E:=E))
             then Some (from_option inr (inl "cannot decode event") (d (fields r)))
             else None) l.

#[local] Instance api : EventsApi := {|
  Events := list raw_event; Decoder E := list N → option E;
  find_events E _ d l := find d l; DispatchResult := () |}.

#[local] Instance decoders : EventDecoders := {|
  decode_BalanceTransfer := (λ f, match f with
    | [a; b; n] => Some {| bt_from := a; bt_to := b; bt_amount := n |} | _ => None end);
  decode_BalanceDeposit := (λ f, match f with
    | [a; n] => Some {| bd_who := a; bd_amount := n |} | _ => None end);
  decode_BalanceWithdraw := (λ f, match f with
    | [a; n] => Some {| bw_who := a; bw_amount := n |} | _ => None end);
  decode_DomainRuntimeUpgraded := (λ _, None);
  decode_DomainInstantiated := (λ _, None);
  decode_FraudProofProcessed := (λ _, None);
  decode_OperatorSlashed := (λ _, None);
  decode_OperatorOffline := (λ _, None);
  decode_Sudo := (λ _, Some {| sudo_result := tt |});
  decode_CodeUpdated := (λ _, Some mk_CodeUpdated) |}.

#[local] Instance ss58 : Ss58 := {|
  account_from_str s := if (s =? "alice")%string then Some 1%N else None |}.

(** Block 10 has a sudo call and a transfer from a known account, block 11 an event
    that does not decode, after a runtime upgrade that does. *)
Definition block_events (h : BlockHash) : result string (list raw_event) :=
  match h with
  | 10%N => inr [{| raw_pallet := "Sudo"; raw_name := "Sudid"; fields := [] |};
                 {| raw_pallet := "Balances"; raw_name := "Transfer"; fields := [1; 2; 50]%N |};
                 {| raw_pallet := "Balances"; raw_name := "Transfer"; fields := [3; 2; 50]%N |}]
  | 11%N => inr [{| raw_pallet := "System"; raw_name := "CodeUpdated"; fields := [] |};
                 {| raw_pallet := "Balances"; raw_name := "Deposit"; fields := [] |}]
  | _ => inl "no such block"
  end.
#[local] Instance node : EventsNode () := {| events_at h w := (block_events h, w) |}.

Definition alice : Account := {| account_name := "treasury"; address := "alice" |}.
Definition block (n h : N) : BlockExt :=
  {| be_number := n; be_hash := h; be_parent_hash := 0%N; be_state_root := 0%N;
     be_extrinsics_root := 0%N |}.
Definition broadcast : BlocksExt :=
  {| blocks := [block 1 10; block 2 11]; maybe_reorg_data := None |}.
Definition start : EventMonitor () := {| ev_world := tt; ev_sent := [] |}.
Definition outcome : outcome Error () * EventMonitor () :=
  watch_events (node:=node) [alice] [inr broadcast] start.
End EventsToy.

Lemma watch_events_reports_blocks_witness :
  ev_sent (snd EventsToy.outcome) =
    [AlertEvent (EvTransfer {| direction := Sender; tk_transfer_type := Transfer;
       tk_name := "treasury"; tk_address := "alice"; tk_amount := 50%N |});
     AlertEvent EvSudo] ∧
  ∃ before b after e, blocks EventsToy.broadcast = before ++ b :: after ∧
    report (H0:=EventsToy.api) (H1:=EventsToy.decoders) EventsToy.block_events
      (<[1%N := EventsToy.alice]> ∅) b = Err e ∧
    fst EventsToy.outcome = Err e.
Proof.
  destruct (watch_events_reports_blocks (H1:=EventsToy.decoders) (H2:=EventsToy.ss58)
    (node:=EventsToy.node)
    EventsToy.block_events
    (λ _ _, eq_refl) [EventsToy.alice] (<[1%N := EventsToy.alice]> ∅) [EventsToy.broadcast]
    EventsToy.start eq_refl) as (w & o & ls & Hrun & Hcases).
  change (EventsToy.outcome = (o, {| ev_world := w;
    ev_sent := ev_sent EventsToy.start ++ alerts_of_reports ls |})) in Hrun.
  split; [vm_compute; reflexivity|].
  apply (f_equal fst) in Hrun. cbn [fst] in Hrun.
  destruct Hcases as [[Ho _]|(before & b & after & e & Hbs & Hrep & Ho & _)].
  - rewrite Ho in Hrun. vm_compute in Hrun. discriminate.
  - exists before, b, after, e. split; [exact Hbs|]. split; [exact Hrep|].
    rewrite Hrun. exact Ho.
Defined.
