(* ===== verification/Storage.v ===== *)
(** * What can be read of a block (the methods of [BlockExt] in alerter/src/subspace.rs)

    Storage values, the timestamp, the slot and the extrinsics of a block, at its hash.
    The node and the SCALE decoders are parameters; the monitors do not use these reads
    yet. *)

From S2P Require Import Prelude Errors Headers EventTypes Alerts Events.

Definition Bytes : Type := list Byte.byte.

(** parity_scale_codec's [Decode]: a value off the front of the bytes. *)
Class Decode `{!ErrorPayloads} (T : Type) : Type := { decode : Bytes → result codec_Error T }.

(** [subxt::dynamic::storage(pallet, storage, args)]. *)
Record StorageQuery (Args : Type) : Type := {
  query_pallet : string;
  query_storage : string;
  query_args : Args;
}.
Arguments query_pallet {Args} _.
Arguments query_storage {Args} _.
Arguments query_args {Args} _.

(** The node: the encoded value at a storage address, and the body, of a block. *)
Class StorageNode `{!ErrorPayloads} (W : Type) : Type := {
  StorageKey : Type → Prop;
  unit_key : StorageKey ();
  storage_fetch : ∀ {Args}, StorageKey Args → BlockHash → StorageQuery Args → W →
    result subxt_Error (option Bytes) * W;
  block_body : BlockHash → W → result subxt_Error (option (list Bytes)) * W;
}.

Section Reads.
Context `{!ErrorPayloads} {W : Type} {node : StorageNode W}.
Context `{!Decode Timestamp} `{!Decode (gmap BlockNumber Slot)}.
Abbreviation R := (M W Error).

Definition read_storage {Args T} `{!Decode T} (key : StorageKey Args) (b : BlockExt)
    (pallet storage : string) (arg_data : Args) : R T := λ w,
  let query := {| query_pallet := pallet; query_storage := storage; query_args := arg_data |} in
  let '(r, w) := storage_fetch key (be_hash b) query w in
  (fetched ← question r;
   decoded ← ok_or (Storage (pallet +:+ "." +:+ storage))
     ((λ encoded, question (decode encoded)) <$> fetched);
   decoded, w).

Definition timestamp (b : BlockExt) : R Timestamp :=
  read_storage unit_key b "Timestamp" "Now" ().

Definition missing_slot (n : BlockNumber) : string :=
  "Missing slot for block: " +:+ pretty n +:+ ")".

Definition block_slot (b : BlockExt) : R Slot :=
  slots ← (read_storage unit_key b "Subspace" "BlockSlots" () : R (gmap BlockNumber Slot));
  lift (ok_or (Storage (missing_slot (be_number b))) (slots !! be_number b)).

Definition extrinsics {Ext} `{!Decode Ext} (b : BlockExt) : R (list Ext) := λ w,
  let '(r, w) := block_body (be_hash b) w in
  (fetched ← question r;
   exts ← ok_or (MissingBlockBody (be_hash b)) fetched;
   try_collect (decode <$> exts), w).

(** ** Properties *)

Definition slots_query : StorageQuery () :=
  {| query_pallet := "Subspace"; query_storage := "BlockSlots"; query_args := () |}.

(** C38. The slot of a block is the one the chain's table gives for its number, and every
    way of not finding it is an error of its own: a failed call, no table, a table
    that does not decode, a table without the block. *)
Theorem block_slot_spec b w r w' :
  storage_fetch unit_key (be_hash b) slots_query w = (r, w') →
  block_slot b w =
    (match r with
     | inl e => Err (Subxt e)
     | inr None => Err (Storage "Subspace.BlockSlots")
     | inr (Some encoded) =>
         match decode (T:=gmap BlockNumber Slot) encoded with
         | inl e => Err (Scale e)
         | inr slots =>
             match slots !! be_number b with
             | Some slot => Ok slot
             | None => Err (Storage (missing_slot (be_number b)))
             end
         end
     end, w').
Proof.
  intros Hfetch. unfold block_slot, read_storage, mbind, M_bind, lift. fold slots_query.
  rewrite Hfetch. destruct r as [e|[encoded|]]; cbn; [done| |done].
  destruct (decode encoded) as [e|slots]; cbn; [done|]. by destruct (slots !! be_number b).
Qed.

(** C39. The extrinsics of a block are decoded all, in order, or not at all: the result is
    the list of the decoded extrinsics of the body, or the error of the first one that
    does not decode; a block without a body is an error that names it. *)
Theorem extrinsics_all_or_nothing {Ext} `{!Decode Ext} b w body w' :
  block_body (be_hash b) w = (inr body, w') →
  match body with
  | None => extrinsics (Ext:=Ext) b w = (Err (MissingBlockBody (be_hash b)), w')
  | Some exts =>
      (∃ xs, extrinsics b w = (Ok xs, w') ∧ Forall2 (λ e x, decode (T:=Ext) e = inr x) exts xs) ∨
      (∃ before e after err xs, exts = before ++ e :: after ∧ decode (T:=Ext) e = inl err ∧
         extrinsics (Ext:=Ext) b w = (Err (Scale err), w') ∧
         Forall2 (λ e x, decode (T:=Ext) e = inr x) before xs)
  end.
Proof.
  intros Hbody. unfold extrinsics. rewrite Hbody. destruct body as [exts|]; [|done]. cbn.
  enough (∀ l : list Bytes,
    (∃ xs, try_collect (E':=Error) (decode (T:=Ext) <$> l) = Ok xs ∧
       Forall2 (λ e x, decode e = inr x) l xs) ∨
    (∃ before e after err xs, l = before ++ e :: after ∧ decode (T:=Ext) e = inl err ∧
       try_collect (E':=Error) (decode (T:=Ext) <$> l) = Err (Scale err) ∧
       Forall2 (λ e x, decode e = inr x) before xs)) as Hall.
  { destruct (Hall exts) as [(xs & -> & ?)|(p & e & q & err & xs & -> & ? & -> & ?)].
    - left. by exists xs.
    - right. by exists p, e, q, err, xs. }
  induction l as [|x l IH]; [left; by exists []|]. cbn.
  destruct (decode x) as [err|a] eqn:Hx; [right; by exists [], x, l, err, []|]. cbn.
  destruct IH as [(xs & -> & Hxs)|(p & e & q & err & xs & -> & He & -> & Hxs)]; cbn.
  - left. exists (a :: xs). split; [done|by constructor].
  - right. exists (x :: p), e, q, err, (a :: xs). split_and!; try done. by constructor.
Qed.
End Reads.

(** ** Witnesses *)
Module StorageToy.
#[local] Instance payloads : ErrorPayloads := {|
  subxt_Error := (); JoinError := (); reqwest_Error := (); subxt_rpcs_Error := ();
  codec_Error := string; io_Error := (); toml_Error := (); SlackClientError := () |}.
(** One byte is the slot of block 7; an extrinsic is one byte. *)
#[local] Instance decode_slots : Decode (gmap BlockNumber Slot) := {|
  decode bytes := match bytes with
    | [x] => inr {[ 7%N := Byte.to_N x ]} | _ => inl "bad length" end |}.
#[local] Instance decode_timestamp : Decode Timestamp := {| decode _ := inr 0%N |}.
#[local] Instance decode_ext : Decode Byte.byte := {|
  decode bytes := match bytes with [x] => inr x | _ => inl "bad extrinsic" end |}.
#[local] Instance node : StorageNode () := {|
  StorageKey _ := True; unit_key := I;
  storage_fetch Args _ h q w :=
    (inr (if bool_decide (query_storage q = "BlockSlots"%string) then Some [Byte.x2a] else None), w);
  block_body h w := (inr (Some [[Byte.x01]; []; [Byte.x02]]), w) |}.
Definition block (n : N) : BlockExt :=
  {| be_number := n; be_hash := 70%N; be_parent_hash := 60%N; be_state_root := 0%N;
     be_extrinsics_root := 0%N |}.
End StorageToy.
#[local] Existing Instances StorageToy.payloads StorageToy.decode_slots StorageToy.decode_ext.
#[local] Existing Instances StorageToy.node StorageToy.decode_timestamp.

Lemma block_slot_spec_witness :
  block_slot (StorageToy.block 7) tt = (Ok 42%N, tt) ∧
  fst (block_slot (StorageToy.block 8) tt) = Err (Storage "Missing slot for block: 8)").
Proof.
  split.
  - rewrite (block_slot_spec (node:=StorageToy.node) (StorageToy.block 7) tt (inr (Some [Byte.x2a])) tt eq_refl).
    vm_compute. reflexivity.
  - rewrite (block_slot_spec (node:=StorageToy.node) (StorageToy.block 8) tt (inr (Some [Byte.x2a])) tt eq_refl).
    vm_compute. reflexivity.
Defined.

Lemma extrinsics_all_or_nothing_witness :
  fst (extrinsics (Ext:=Byte.byte) (StorageToy.block 7) tt) = Err (Scale "bad extrinsic").
Proof.
  destruct (extrinsics_all_or_nothing (node:=StorageToy.node) (Ext:=Byte.byte) (StorageToy.block 7) tt
    (Some [[Byte.x01]; []; [Byte.x02]]) tt eq_refl)
    as [(xs & Hx & _)|(p & e & q & err & xs & Hs & He & Hx & _)].
  - vm_compute in Hx. discriminate.
  - rewrite Hx. cbn. destruct e as [|x [|y e]]; cbn in He; simplify_eq; reflexivity.
Defined.
