(* ===== verification/System.v ===== *)
(** * The follower and its monitors together

    The broadcasts of the chain follower are what the monitors receive.  These
    theorems compose its contract ([follows]) with the monitors' own theorems:
    what an alert says of the chain, and which blocks' events are reported.

    The theorems here are about a receiver that gets every broadcast once, in order;
    [Program] has the channel between them, on which a receiver can fall behind, and the
    other tasks. *)

From S2P Require Import Prelude Duration Errors Headers TreeRoute Follower FollowerSpec.
From S2P Require Import EventTypes Alerts StallReorg Events EventsProps Scenario.

Local Open Scope N_scope.

Section Contract.
Context `{!Substrate} (in_tree : Header → Prop).

Lemma update_last tip u tip' :
  update in_tree tip u tip' → hash_and_number <$> last (blocks u) = Some tip'.
Proof.
  intros (common & ret & ena & _ & _ & _ & Hlast & Hb & _).
  rewrite Hb, fmap_last. rewrite fmap_last in Hlast. destruct (last ena) as [hd|]; [|done].
  cbn in Hlast |- *. by injection Hlast as <-.
Qed.

(** The best block before and after each broadcast. *)
Lemma follows_updates tip us tip' :
  follows in_tree tip us tip' →
  ∀ before u after, us = before ++ u :: after →
    ∃ t t', follows in_tree tip before t ∧ update in_tree t u t' ∧
      hash_and_number <$> last (blocks u) = Some t'.
Proof.
  induction 1 as [|us u' t t' Hf IH Hu]; intros before u after Heq; [by destruct before|].
  destruct after as [|x after _] using rev_ind.
  - apply app_inj_tail in Heq as [-> ->]. exists t, t'. split_and!; [done..|by eapply update_last].
  - rewrite app_comm_cons, app_assoc in Heq. apply app_inj_tail in Heq as [-> _].
    by apply (IH before u after).
Qed.

Lemma follows_has_blocks tip us tip' :
  follows in_tree tip us tip' → Forall (λ u, blocks u ≠ []) us.
Proof.
  induction 1; [done|]. apply Forall_app. split; [done|].
  constructor; [by eapply update_blocks_ne|done].
Qed.

(** Without a reorg the broadcasts are the chain from the old best block to the new. *)
Lemma follows_extension tip us tip' :
  follows in_tree tip us tip' → Forall (λ u, maybe_reorg_data u = None) us →
  ∃ ext, chain in_tree (hn_hash tip) ext ∧ chain_tip (hn_hash tip) ext = hn_hash tip' ∧
    concat (blocks <$> us) = (λ hd, block_ext_of (header_hash hd) hd) <$> ext.
Proof.
  induction 1 as [|us u t t' Hf IH Hu]; intros Hnone; [by exists []|].
  apply Forall_app in Hnone as [Hus Hun]. inversion_clear Hun as [|? ? Hu0 _].
  destruct (IH Hus) as (ext & Hch & Htip & Hbs).
  destruct Hu as (common & ret & ena & Hret & Hrt & Hena & Hlast & Hb & _ & Hr).
  rewrite Hu0 in Hr. destruct ret as [|x ret]; [|done].
  assert (hn_hash common = hn_hash t) as Hc by done. rewrite Hc in Hena.
  exists (ext ++ ena). split_and!.
  - apply chain_app. split; [done|]. by rewrite Htip.
  - rewrite chain_tip_app, Htip. unfold chain_tip. rewrite fmap_last in Hlast.
    destruct (last ena) as [hd|]; [|done]. cbn in Hlast |- *. by injection Hlast as <-.
  - rewrite fmap_app, concat_app, Hbs, fmap_app. cbn. by rewrite app_nil_r, Hb.
Qed.
End Contract.

(** ** The follower and the chain monitor *)
Section FollowerAndWatch.
Context `{!ErrorPayloads} `{!Substrate} (in_tree : Header → Prop) `{!BlockTree in_tree}.
Context {api : TreeRouteApi} `{!TreeRouteLaws api}.
Context {W : Type} {node : NodeApi W} `{!HonestNode in_tree node}.
Context (config : StallAndReorgConfig).
Context (Hthreshold : non_block_import_threshold config <= Duration.MAX).
Implicit Types (s : Listener W) (history past : list seen).

Definition broadcast_of (x : seen) : option BlocksExt :=
  match x with Blocks u => Some u | Silence => None end.

(** A history of the monitor is the follower's broadcasts, with silences anywhere. *)
Definition broadcasts history : list BlocksExt := omap broadcast_of history.

Lemma broadcasts_rev past : broadcasts (rev past) = rev (broadcasts past).
Proof.
  induction past as [|x past IH]; [done|]. cbn. unfold broadcasts in *.
  rewrite omap_app, IH. destruct x; cbn; [done|by rewrite app_nil_r].
Qed.

Lemma has_blocks_history tip history tip' :
  follows in_tree tip (broadcasts history) tip' → Forall has_blocks history.
Proof.
  intros Hf%follows_has_blocks. induction history as [|[u|] history IH]; [done|..].
  - inversion_clear Hf. constructor; auto.
  - constructor; [done|auto].
Qed.

Lemma watch_history tip history tip' :
  follows in_tree tip (broadcasts history) tip' →
  watch config (as_received <$> history) watch_start =
    (Ok tt, watch_state config (rev history)).
Proof.
  intros Hf%has_blocks_history. by apply watch_run_history.
Qed.

Lemma last_best_broadcasts past :
  last_best past = head (broadcasts past) ≫= λ u, hash_and_number <$> last (blocks u).
Proof. induction past as [|[u|] past IH]; [done|done|exact IH]. Qed.

Lemma elem_of_alerts_of a past :
  a ∈ alerts_of config past ↔
  ∃ later x earlier, past = later ++ x :: earlier ∧ a ∈ alerts_for config earlier x.
Proof.
  induction past as [|x past IH]; cbn.
  - split; [by intros ?%not_elem_of_nil|]. by intros ([|] & ? & ? & ? & _).
  - rewrite elem_of_app, IH. split.
    + intros [(later & y & earlier & -> & Ha)|Ha].
      * by exists (x :: later), y, earlier.
      * by exists [], x, past.
    + intros ([|z later] & y & earlier & Heq & Ha); simplify_eq/=; [by right|].
      left. by exists later, y, earlier.
Qed.

Lemma reorg_in_alerts_for a past x :
  AlertReorg a ∈ alerts_for config past x ↔
  ∃ u best, x = Blocks u ∧ hash_and_number <$> last (blocks u) = Some best ∧
    AlertReorg a ∈ reorg_alert config u best.
Proof.
  destruct x as [u|]; cbn.
  - destruct (hash_and_number <$> last (blocks u)) as [best|] eqn:Hb.
    + rewrite elem_of_app. unfold recovery_alert. split.
      * intros [Ha|Ha]; [|by exists u, best].
        destruct (silences past =? 0)%nat; [by apply not_elem_of_nil in Ha|].
        by apply list_elem_of_singleton in Ha.
      * intros (u' & best' & [= <-] & Hb' & Ha). rewrite Hb in Hb'. simplify_eq. by right.
    + split; [by intros ?%not_elem_of_nil|]. intros (u' & best' & [= <-] & Hb' & _).
      by rewrite Hb in Hb'.
  - split; [|by intros (? & ? & ? & _)]. destruct (last_best past); [|by intros ?%not_elem_of_nil].
    by intros ?%list_elem_of_singleton.
Qed.

Lemma reorg_in_reorg_alert a u best :
  AlertReorg a ∈ reorg_alert config u best ↔
  ∃ d, maybe_reorg_data u = Some d ∧
    reorg_depth_threshold config <= N.of_nat (length (rd_retracted d)) ∧
    a = {| best_block := best; reorg_common_block := rd_common_block d;
           reorg_enacted := rd_enacted d; reorg_retracted := rd_retracted d |}.
Proof.
  unfold reorg_alert. destruct (maybe_reorg_data u) as [d|].
  - destruct (N.leb_spec (reorg_depth_threshold config) (N.of_nat (length (rd_retracted d)))).
    + rewrite list_elem_of_singleton. split; [intros [= ->]; by exists d|].
      by intros (d' & [= <-] & _ & ->).
    + split; [by intros ?%not_elem_of_nil|]. intros (d' & [= <-] & ? & _). lia.
  - split; [by intros ?%not_elem_of_nil|]. by intros (? & ? & _).
Qed.

Lemma history_split past u :
  (∃ later earlier, past = later ++ Blocks u :: earlier) ↔
  ∃ before after, broadcasts (rev past) = before ++ u :: after.
Proof.
  rewrite broadcasts_rev. split.
  - intros (later & earlier & ->). unfold broadcasts. rewrite omap_app. cbn.
    rewrite rev_app_distr. cbn. rewrite <-app_assoc. by eexists _, _.
  - intros (before & after & Heq). apply (f_equal (@rev BlocksExt)) in Heq.
    rewrite rev_involutive, rev_app_distr in Heq. cbn in Heq. rewrite <-app_assoc in Heq.
    cbn in Heq. generalize dependent (rev after). intros l. revert l.
    induction past as [|[v|] past IH]; intros l Heq; cbn in Heq.
    + by destruct l.
    + destruct l as [|w l]; simplify_eq/=; [by exists [], past|].
      destruct (IH l) as (later & earlier & ->); [done|]. by exists (Blocks w :: later), earlier.
    + destruct (IH l Heq) as (later & earlier & ->). by exists (Silence :: later), earlier.
Qed.

Lemma listen_follows turns fuel s o s' :
  cache_ok in_tree (header_cache s) → sink s = [] →
  listen_for_blocks turns fuel s = (o, s') →
  follows in_tree (current_best_block s) (sink s') (current_best_block s').
Proof.
  intros Hc Hsink Hrun. pose proof (wp_listen_for_blocks in_tree turns fuel s Hc) as Hwp.
  unfold wp in Hwp. rewrite Hrun in Hwp.
  assert (run_post in_tree s s') as [_ (us & Hus & Hf)] by (destruct o; apply Hwp).
  rewrite Hsink in Hus. cbn in Hus. by subst us.
Qed.

(** The chain monitor follows the follower: fed with the broadcasts of a run of
    the follower from a start state, with silences anywhere between them, it is still
    running, and the block it would name in a stall alert is the follower's best
    block, from the first broadcast on. *)
Theorem monitor_tracks_follower turns fuel s o s' history :
  cache_ok in_tree (header_cache s) → sink s = [] →
  listen_for_blocks turns fuel s = (o, s') → broadcasts history = sink s' →
  ∃ st, watch config (as_received <$> history) watch_start = (Ok tt, st) ∧
    maybe_last_best_block st =
      if is_empty (sink s') then None else Some (current_best_block s').
Proof.
  intros Hc Hsink Hrun Hh. pose proof (listen_follows _ _ _ _ _ Hc Hsink Hrun) as Hf.
  exists (watch_state config (rev history)). split.
  { eapply watch_history. by rewrite Hh. }
  cbn [watch_state maybe_last_best_block].
  rewrite last_best_broadcasts, broadcasts_rev, Hh.
  inversion Hf as [Heq|us u t1 t2 Hf' Hu Heq]; [done|].
  rewrite rev_app_distr. cbn. rewrite (update_last _ _ _ _ Hu). by destruct us.
Qed.

(** C15. Reorg alerts are exactly the deep reorgs of the chain: an alert is sent if and
    only if one of the broadcasts took the best block from one branch of the block tree
    to another ([update]) and left at least the threshold of blocks behind, and it names
    the new best block, the last common block and the blocks of both branches. *)
Theorem reorg_alerts_are_the_deep_reorgs turns fuel s o s' history :
  cache_ok in_tree (header_cache s) → sink s = [] →
  listen_for_blocks turns fuel s = (o, s') → broadcasts history = sink s' →
  ∃ st, watch config (as_received <$> history) watch_start = (Ok tt, st) ∧
    ∀ a, AlertReorg a ∈ sent st ↔
      ∃ before u after t d,
        sink s' = before ++ u :: after ∧
        follows in_tree (current_best_block s) before t ∧
        update in_tree t u (best_block a) ∧
        maybe_reorg_data u = Some d ∧
        reorg_depth_threshold config <= N.of_nat (length (rd_retracted d)) ∧
        reorg_common_block a = rd_common_block d ∧ reorg_retracted a = rd_retracted d ∧
        reorg_enacted a = rd_enacted d.
Proof.
  intros Hc Hsink Hrun Hh. pose proof (listen_follows _ _ _ _ _ Hc Hsink Hrun) as Hf.
  exists (watch_state config (rev history)). split.
  { eapply watch_history. by rewrite Hh. }
  intros a. cbn [watch_state sent]. rewrite elem_of_alerts_of. split.
  - intros (later & x & earlier & Hpast & (u & best & -> & Hb & Ha)%reorg_in_alerts_for).
    destruct (proj1 (history_split (rev history) u)) as (before & after & Hbc);
      [by exists later, earlier|]. rewrite rev_involutive, Hh in Hbc.
    destruct (follows_updates _ _ _ _ Hf _ _ _ Hbc) as (t & t' & Hbefore & Hu & Hlast).
    apply reorg_in_reorg_alert in Ha as (d & Hd & Hdepth & ->).
    exists before, u, after, t, d. rewrite Hb in Hlast. injection Hlast as ->.
    by split_and!.
  - intros (before & u & after & t & d & Hs & Hbefore & Hu & Hd & Hdepth & Hcb & Hr & He).
    destruct (proj2 (history_split (rev history) u)) as (later & earlier & Hpast).
    { exists before, after. by rewrite rev_involutive, Hh. }
    exists later, (Blocks u), earlier. split; [done|].
    apply reorg_in_alerts_for. exists u, (best_block a). split_and!; [done| |].
    + by eapply update_last.
    + apply reorg_in_reorg_alert. exists d. split_and!; [done..|]. destruct a; cbn in *. congruence.
Qed.
End FollowerAndWatch.

(** ** The follower and the event monitor *)
Section FollowerAndEvents.
Context `{!ErrorPayloads} `{!Substrate} (in_tree : Header → Prop) `{!BlockTree in_tree}.
Context {api : TreeRouteApi} `{!TreeRouteLaws api}.
Context {W : Type} {node : NodeApi W} `{!HonestNode in_tree node}.
Context `{!EventsApi} `{!EventDecoders} `{!Ss58}.
Context {V : Type} {events_node : EventsNode V} (evs : BlockHash → result subxt_Error Events).
Context (Hevs : ∀ h w, fst (events_at h w) = evs h).

(** C16. No block's events are missed or reported twice while the chain only grows: if
    the follower's run reported no reorg, the event monitor that received its broadcasts
    and is still running has sent the report of every block on the chain from the best
    block at the start to the best block at the end, once, in the order of the chain. *)
Theorem events_of_the_chain_are_reported turns fuel (s : Listener W) o s' accounts m
    (es es' : EventMonitor V) :
  cache_ok in_tree (header_cache s) → sink s = [] →
  listen_for_blocks turns fuel s = (o, s') →
  Forall (λ u, maybe_reorg_data u = None) (sink s') →
  account_mapped_name accounts = Ok m →
  watch_events accounts (inr <$> sink s') es = (Ok tt, es') →
  ∃ ext ls, chain in_tree (hn_hash (current_best_block s)) ext ∧
    chain_tip (hn_hash (current_best_block s)) ext = hn_hash (current_best_block s') ∧
    Forall2 (λ hd l, report evs m (block_ext_of (header_hash hd) hd) = Ok l) ext ls ∧
    ev_sent es' = ev_sent es ++ alerts_of_reports ls.
Proof.
  intros Hc Hsink Hrun Hnone Hm Hwatch.
  pose proof (listen_follows in_tree _ _ _ _ _ Hc Hsink Hrun) as Hf.
  destruct (follows_extension _ _ _ _ Hf Hnone) as (ext & Hch & Htip & Hbs).
  unfold watch_events in Hwatch. erewrite bind_ok in Hwatch by (unfold lift; by rewrite Hm).
  rewrite events_turns, Hbs in Hwatch.
  destruct (watch_blocks evs Hevs m
    ((λ hd : Header, block_ext_of (header_hash hd) hd) <$> ext) es) as (w & o' & ls & Hrun' & Hcases).
  rewrite Hwatch in Hrun'. injection Hrun' as <- ->.
  destruct Hcases as [[_ Hls]|(? & ? & ? & ? & _ & _ & ? & _)]; [|done].
  exists ext, ls. split_and!; [done..| |done]. by apply Forall2_fmap_l in Hls.
Qed.
End FollowerAndEvents.

(** ** Witnesses *)
Module SystemToy.
Definition config : StallAndReorgConfig :=
  {| non_block_import_threshold := Duration.from_secs 60; reorg_depth_threshold := 1 |}.
(** The run of [Scenario] as the monitor saw it: A2, a silence, then B2 and B3. *)
Definition history : list seen :=
  match sink (snd toy_run) with [u1; u2] => [Blocks u1; Silence; Blocks u2] | _ => [] end.
Definition reorg : ChainReorg :=
  {| best_block := toy_hn B3; reorg_common_block := toy_hn A1; reorg_enacted := [toy_hn B2];
     reorg_retracted := [toy_hn A2] |}.
(** The follower's first turn, which receives A2. *)
Definition one_turn : outcome Error () * Listener nat := listen_for_blocks 1 10 toy_start.

(** A node whose blocks have a sudo call each. *)
#[export] Instance api : EventsApi := {|
  Events := (); Decoder E := option E;
  find_events E s d _ :=
    if bool_decide (EVENT (E:=E) = "Sudid"%string) then option_list (inr <$> d) else [];
  DispatchResult := () |}.
#[export] Instance decoders : EventDecoders := {|
  decode_BalanceTransfer := None; decode_BalanceDeposit := None; decode_BalanceWithdraw := None;
  decode_DomainRuntimeUpgraded := None; decode_DomainInstantiated := None;
  decode_FraudProofProcessed := None; decode_OperatorSlashed := None;
  decode_OperatorOffline := None; decode_Sudo := Some {| sudo_result := tt |};
  decode_CodeUpdated := None |}.
#[export] Instance ss58 : Ss58 := {| account_from_str _ := None |}.
Definition served (h : BlockHash) : result (@subxt_Error toy_payloads) Events := inr tt.
#[export] Instance events_node : EventsNode () := {| events_at h w := (served h, w) |}.
Definition watcher : EventMonitor () := {| ev_world := tt; ev_sent := [] |}.
End SystemToy.
#[local] Existing Instances SystemToy.api SystemToy.decoders SystemToy.ss58 SystemToy.events_node.

Lemma monitor_tracks_follower_witness :
  ∃ st, watch SystemToy.config (as_received <$> SystemToy.history) watch_start = (Ok tt, st) ∧
    maybe_last_best_block st = Some (toy_hn B3).
Proof.
  destruct (monitor_tracks_follower toy_tree SystemToy.config ltac:(vm_compute; discriminate)
    3 10 toy_start (fst toy_run) (snd toy_run) SystemToy.history) as (st & Hrun & Hbest).
  - apply cache_ok_empty.
  - reflexivity.
  - apply surjective_pairing.
  - vm_compute. reflexivity.
  - exists st. split; [exact Hrun|]. rewrite Hbest. vm_compute. reflexivity.
Defined.

Lemma reorg_alerts_are_the_deep_reorgs_witness :
  ∃ before u after t, sink (snd toy_run) = before ++ u :: after ∧
    follows toy_tree (toy_hn A1) before t ∧ update toy_tree t u (toy_hn B3).
Proof.
  destruct (reorg_alerts_are_the_deep_reorgs toy_tree SystemToy.config
    ltac:(vm_compute; discriminate) 3 10 toy_start (fst toy_run) (snd toy_run)
    SystemToy.history) as (st & Hrun & Hiff).
  - apply cache_ok_empty.
  - reflexivity.
  - apply surjective_pairing.
  - vm_compute. reflexivity.
  - destruct (proj1 (Hiff SystemToy.reorg)) as (before & u & after & t & d & Hs & Hf & Hu & _).
    + vm_compute in Hrun. injection Hrun as <-. vm_compute. set_solver.
    + exists before, u, after, t. split; [exact Hs|]. split; [exact Hf|exact Hu].
Defined.

Lemma events_of_the_chain_are_reported_witness :
  ∃ es' ext ls, watch_events (node:=SystemToy.events_node) []
      (inr <$> sink (snd SystemToy.one_turn)) SystemToy.watcher = (Ok tt, es') ∧
    chain toy_tree 17 ext ∧ chain_tip 17 ext = 33 ∧ ev_sent es' = alerts_of_reports ls.
Proof.
  destruct (events_of_the_chain_are_reported toy_tree (events_node:=SystemToy.events_node)
    SystemToy.served (λ _ _, eq_refl) 1 10 toy_start (fst SystemToy.one_turn)
    (snd SystemToy.one_turn) [] ∅ SystemToy.watcher
    (snd (watch_events (node:=SystemToy.events_node) []
      (inr <$> sink (snd SystemToy.one_turn)) SystemToy.watcher)))
    as (ext & ls & Hch & Htip & _ & Hs).
  - apply cache_ok_empty.
  - reflexivity.
  - apply surjective_pairing.
  - vm_compute. repeat constructor.
  - reflexivity.
  - apply run_split. vm_compute. reflexivity.
  - eexists _, ext, ls. split; [apply run_split; vm_compute; reflexivity|].
    split; [exact Hch|]. split; [|exact Hs].
    etransitivity; [exact Htip|]. vm_compute. reflexivity.
Defined.
