(* ===== verification/Channel.v ===== *)
(** * The channels between the tasks, and a task that receives from one

    The broadcast channels of subspace.rs and p2p_network.rs ([channel(100)] of
    tokio), the alert queue of slack.rs, and what the three monitors have in common:
    each is a loop that receives from a broadcast channel and sends alerts to the
    queue.  [Monitor] is the interface they implement; the theorems about a receiving
    task are proved against it. *)

From stdpp Require Import list.
From S2P Require Import Prelude Duration Errors Headers EventTypes Alerts.

(** ** tokio's broadcast channel

    A receiver of the channel is given by how many of the values sent so far it has
    left behind.  [recv] is one poll of the future of that name: [None] is pending. *)
Class BroadcastApi : Type := {
  recv : ∀ {A}, list A → nat → option (result RecvError A) * nat;
  resubscribe : ∀ {A}, list A → nat → nat;
}.

(** [channel(100)], of subspace.rs and of p2p_network.rs. *)
Definition channel_size : nat := 100.

(** The documentation: the channel retains at least the requested number of values;
    a receiver gets each value once, in order; one that is behind by more than what is
    retained gets [Lagged] with the number of values it skipped, and continues with
    the oldest retained one; a new receiver starts behind what was sent. *)
Class BroadcastLaws (api : BroadcastApi) : Type := {
  retained : nat;
  retained_size : channel_size ≤ retained;
  recv_next {A} (vs : list A) pos v :
    length vs ≤ pos + retained → vs !! pos = Some v → recv vs pos = (Some (inr v), S pos);
  recv_pending {A} (vs : list A) pos : length vs ≤ pos → recv vs pos = (None, pos);
  recv_lagged {A} (vs : list A) pos :
    pos + retained < length vs →
    recv vs pos = (Some (inl (Lagged (N.of_nat (length vs - retained - pos)))),
                   length vs - retained);
  resubscribe_tail {A} (vs : list A) pos : resubscribe vs pos = length vs;
}.

(** The laws can hold: a channel that keeps [n] values. *)
Module Ring.
Definition ring_recv (n : nat) {A} (vs : list A) (pos : nat)
    : option (result RecvError A) * nat :=
  if decide (pos + n < length vs) then
    (Some (inl (Lagged (N.of_nat (length vs - n - pos)))), length vs - n)
  else match vs !! pos with Some v => (Some (inr v), S pos) | None => (None, pos) end.

#[local] Instance api (n : nat) : BroadcastApi :=
  {| recv A := ring_recv n; resubscribe A vs _ := length vs |}.

Lemma laws (n : nat) : channel_size ≤ n → BroadcastLaws (api n).
Proof.
  intros Hn. refine {| retained := n |}; [done|..]; cbn; unfold ring_recv; intros.
  - rewrite decide_False by lia. by simplify_option_eq.
  - rewrite decide_False by lia. by rewrite lookup_ge_None_2.
  - by rewrite decide_True.
  - done.
Defined.
End Ring.

Section Receive.
Context {api : BroadcastApi} {laws : BroadcastLaws api}.

(** The three answers a receiver that is not ahead of the channel can get. *)
Lemma recv_cases {A} (vs : list A) pos :
  pos ≤ length vs →
  (pos = length vs ∧ recv vs pos = (None, pos)) ∨
  (∃ v, vs !! pos = Some v ∧ recv vs pos = (Some (inr v), S pos)) ∨
  (∃ n, pos + retained + N.to_nat n = length vs ∧ (0 < n)%N ∧
     recv vs pos = (Some (inl (Lagged n)), length vs - retained)).
Proof.
  intros Hpos. destruct (decide (pos + retained < length vs)) as [Hlag|Hnolag].
  { right. right. exists (N.of_nat (length vs - retained - pos)).
    split_and!; [lia|lia|by apply recv_lagged]. }
  destruct (vs !! pos) as [v|] eqn:Hv.
  - right. left. exists v. split; [done|]. apply recv_next; [lia|done].
  - left. apply lookup_ge_None in Hv. split; [lia|]. by apply recv_pending.
Qed.
End Receive.

(** ** Monitors *)

(** The task an alert comes from. *)
Inductive Origin : Type := ChainMonitor | EventsMonitor | SlotsMonitor.

#[export] Instance Origin_eq : EqDecision Origin.
Proof. solve_decision. Defined.

Definition sender (a : Alert) : Origin :=
  match a with
  | AlertEvent _ => EventsMonitor
  | AlertChainStall _ | AlertChainRecovery _ | AlertReorg _ => ChainMonitor
  | AlertTimekeeperStall _ | AlertTimekeeperRecovery _ | AlertSlowSlot _
  | AlertAvgSlowSlots _ => SlotsMonitor
  end.

(** A monitor: one turn of its loop, given what its receive answered; the alerts it
    has sent; and whether its receive is under a [time::timeout]. *)
Class Monitor `{!ErrorPayloads} (A S : Type) : Type := {
  monitor_turn : timed (result RecvError A) → M S Error ();
  alerts_sent : S → list Alert;
  has_timeout : bool;
  who : Origin;
}.

(** What the program relies on: a turn only adds alerts, of the monitor's own kinds,
    and a receive error ends the monitor with it, at once. *)
Class MonitorLaws `{!ErrorPayloads} {A S} (m : Monitor A S) : Prop := {
  turn_adds r s o s' :
    monitor_turn r s = (o, s') →
    ∃ l, alerts_sent s' = alerts_sent s ++ l ∧ Forall (λ a, sender a = who) l;
  receive_error_ends e s : monitor_turn (Completed (inl e)) s = (Err (BroadRecvErr e), s);
}.

(** Why a turn was the last one. *)
Definition stopped_by {E A} (o : outcome E A) : option (abort E) :=
  match o with
  | Ok _ => None
  | Err e => Some (Failed e)
  | Panic w => Some (Panicked w)
  | Diverge => Some Diverged
  end.

(** A monitor's task: its variables, its receiver, how many of the alerts it sent are
    in the queue, and why it ended. *)
Record Task `{!ErrorPayloads} (S : Type) : Type := {
  tk_state : S;
  tk_receiver : nat;
  tk_queued : nat;
  tk_end : option (abort Error);
}.
Arguments tk_state {_ S} _.
Arguments tk_receiver {_ S} _.
Arguments tk_queued {_ S} _.
Arguments tk_end {_ S} _.

Section Task.
Context `{!ErrorPayloads} {api : BroadcastApi} {A S : Type} {m : Monitor A S}.
Implicit Types (t : Task S) (vs : list A) (hist : list (timed A)).

Definition fresh_task (s : S) (receiver : nat) : Task S :=
  {| tk_state := s; tk_receiver := receiver; tk_queued := 0; tk_end := None |}.

(** The task has handed over what it sent. *)
Definition drained t : Prop := tk_queued t = length (alerts_sent (tk_state t)).

(** The task after a turn. *)
Definition after_turn t (receiver : nat) (r : outcome Error () * S) : Task S :=
  {| tk_state := snd r; tk_receiver := receiver; tk_queued := tk_queued t;
     tk_end := stopped_by (fst r) |}.

(** A step of the task, while [vs] are the values sent on its channel so far, and the
    alerts the step puts in the queue.  Each [alert_sink.send] of a turn is a step of
    its own, so the sends of several tasks can come in any order; the next turn starts
    when they are done.  A time-out needs a receive that is pending: tokio polls the
    receive first. *)
Inductive task_step vs t : list Alert → Task S → Prop :=
  | task_receives r receiver :
      tk_end t = None → drained t → recv vs (tk_receiver t) = (Some r, receiver) →
      task_step vs t []
        (after_turn t receiver (monitor_turn (Completed r) (tk_state t)))
  | task_times_out receiver :
      tk_end t = None → drained t → has_timeout = true →
      recv vs (tk_receiver t) = (None, receiver) →
      task_step vs t [] (after_turn t receiver (monitor_turn Elapsed (tk_state t)))
  | task_sends a :
      alerts_sent (tk_state t) !! tk_queued t = Some a →
      task_step vs t [a]
        {| tk_state := tk_state t; tk_receiver := tk_receiver t;
           tk_queued := Datatypes.S (tk_queued t); tk_end := tk_end t |}.

(** ** What a task has done *)

Definition arrived (x : timed A) : timed (result RecvError A) :=
  match x with Completed a => Completed (inr a) | Elapsed => Elapsed end.

(** The values of a history. *)
Definition heard hist : list A :=
  omap (λ x, match x with Completed a => Some a | Elapsed => None end) hist.

Lemma heard_snoc hist x :
  heard (hist ++ [x]) = heard hist ++ match x with Completed a => [a] | Elapsed => [] end.
Proof. unfold heard. rewrite omap_app. by destruct x. Qed.

(** The loop on a history, from the start of the task. *)
Definition loop (start : S) hist : outcome Error () * S :=
  drive monitor_turn (arrived <$> hist) start.

Context {laws : BroadcastLaws api}.

(** The monitor fell behind: [n] values were dropped before it could receive them. *)
Definition lagged vs hist (n : N) : Prop :=
  ∃ vs', vs' `prefix_of` vs ∧ length (heard hist) + retained + N.to_nat n = length vs' ∧ (0 < n)%N.

(** The task is where the loop gets on a history whose values are the first ones that
    were sent; if it has ended, then in the last turn of such a history, or because it
    lagged behind. *)
Definition task_ran (start : S) vs t : Prop :=
  ∃ hist, heard hist `prefix_of` vs ∧
    match tk_end t with
    | None => tk_receiver t = length (heard hist) ∧ loop start hist = (Ok tt, tk_state t)
    | Some why =>
        (∃ o, loop start hist = (o, tk_state t) ∧ stopped_by o = Some why) ∨
        (loop start hist = (Ok tt, tk_state t) ∧
         ∃ n, lagged vs hist n ∧ why = Failed (BroadRecvErr (Lagged n)))
    end.

(** The alerts of the task that are in the queue are the first ones it sent. *)
Definition task_queue (queue : list Alert) t : Prop :=
  filter (λ a, sender a = who) queue = take (tk_queued t) (alerts_sent (tk_state t)) ∧
  Forall (λ a, sender a = who) (alerts_sent (tk_state t)) ∧
  tk_queued t ≤ length (alerts_sent (tk_state t)).

Lemma task_ran_more start vs vs' t :
  vs `prefix_of` vs' → task_ran start vs t → task_ran start vs' t.
Proof.
  intros Hvs (hist & Hh & Ht). exists hist. split; [by trans vs|].
  destruct (tk_end t) as [why|]; [|done].
  destruct Ht as [Ht|(Hl & n & (vs'' & Hp & Hn) & Hw)]; [by left|right].
  split; [done|]. exists n. split; [|done]. exists vs''. split; [by trans vs|done].
Qed.

Lemma loop_snoc start hist x s :
  loop start hist = (Ok tt, s) → loop start (hist ++ [x]) = monitor_turn (arrived x) s.
Proof.
  intros Hl. unfold loop. rewrite fmap_app. change (arrived <$> [x]) with [arrived x].
  by erewrite drive_snoc_ok.
Qed.

Lemma prefix_snoc_lookup {B} (l vs : list B) v :
  l `prefix_of` vs → vs !! length l = Some v → l ++ [v] `prefix_of` vs.
Proof.
  intros [k ->] Hv. rewrite lookup_app_r, Nat.sub_diag in Hv by lia.
  destruct k as [|x k]; [done|]. injection Hv as ->. exists k. by rewrite <-app_assoc.
Qed.

Context {mlaws : MonitorLaws m}.

Lemma task_step_ran start vs t out t' :
  task_ran start vs t → task_step vs t out t' → task_ran start vs t'.
Proof.
  intros (hist & Hh & Ht) Hstep. inversion Hstep as [r p He Hd Hr|p He Hd _ Hr|a Ha]; subst.
  3: { by exists hist. }
  all: rewrite He in Ht; destruct Ht as [Hpos Hl]; rewrite Hpos in Hr.
  - destruct (recv_cases vs (length (heard hist))) as [[_ Hn]|[(v & Hv & Hn)|(n & Hn & Hn0 & Hlag)]].
    + by apply prefix_length.
    + rewrite Hn in Hr. done.
    + rewrite Hn in Hr. injection Hr as <- <-. exists (hist ++ [Completed v]).
      rewrite heard_snoc, (loop_snoc _ _ _ _ Hl). cbn [arrived].
      split; [by apply prefix_snoc_lookup|]. unfold after_turn.
      destruct (monitor_turn _ _) as [[[]| | |] s']; cbn; [|left; by eexists..].
      split; [|done]. rewrite length_app. cbn. lia.
    + rewrite Hlag in Hr. injection Hr as <- <-. exists hist. split; [done|].
      unfold after_turn. rewrite receive_error_ends. cbn. right. split; [done|].
      exists n. split; [|done]. by exists vs.
  - destruct (recv_cases vs (length (heard hist))) as [[Hlen Hn]|[(v & _ & Hn)|(n & _ & _ & Hn)]].
    { by apply prefix_length. }
    2,3: by rewrite Hn in Hr.
    rewrite Hn in Hr. injection Hr as <-. exists (hist ++ [Elapsed]).
    rewrite heard_snoc, app_nil_r, (loop_snoc _ _ _ _ Hl). cbn [arrived]. split; [done|].
    unfold after_turn. destruct (monitor_turn _ _) as [[[]| | |] s']; cbn; [done|left; by eexists..].
Qed.

Lemma after_turn_queue queue t receiver r :
  task_queue queue t → task_queue queue (after_turn t receiver (monitor_turn r (tk_state t))).
Proof.
  intros (Hq & Hall & Hlen). destruct (monitor_turn r (tk_state t)) as [o s'] eqn:Hturn.
  apply turn_adds in Hturn as (l & Hs' & Hl). unfold task_queue. cbn. rewrite Hs'.
  split_and!.
  - by rewrite take_app_le.
  - by apply Forall_app.
  - rewrite length_app. lia.
Qed.

Lemma task_step_queue queue vs t out t' :
  task_queue queue t → task_step vs t out t' → task_queue (queue ++ out) t'.
Proof.
  intros Hq Hstep. inversion Hstep as [r p _ _ _|p _ _ _ _|a Ha]; subst.
  1,2: by rewrite app_nil_r; apply after_turn_queue.
  destruct Hq as (Hq & Hall & _). split_and!; cbn; [|done|by apply lookup_lt_Some in Ha].
  rewrite filter_app, Hq, (take_S_r _ _ a) by done.
  rewrite filter_cons_True; [done|]. rewrite Forall_lookup in Hall. by eapply Hall.
Qed.

(** Alerts of other tasks do not matter. *)
Lemma task_queue_other queue out t :
  Forall (λ a, sender a ≠ who) out → task_queue queue t → task_queue (queue ++ out) t.
Proof.
  intros Hout (Hq & Hrest). split; [|done]. rewrite filter_app, Hq.
  assert (filter (λ a, sender a = who) out = []) as ->; [|by rewrite app_nil_r].
  induction Hout as [|a l Ha _ IH]; [done|]. by rewrite filter_cons_False.
Qed.

Lemma task_step_senders vs t out t' queue :
  task_queue queue t → task_step vs t out t' → Forall (λ a, sender a = who) out.
Proof.
  intros (_ & Hall & _). inversion 1 as [| |a Ha]; subst; [done..|].
  constructor; [|done]. rewrite Forall_lookup in Hall. by eapply Hall.
Qed.

Lemma fresh_ran s : task_ran s [] (fresh_task s 0).
Proof. by exists []. Qed.

Lemma fresh_queue s : alerts_sent s = [] → task_queue [] (fresh_task s 0).
Proof. intros Hs. unfold task_queue. cbn. by rewrite Hs. Qed.

(** ** Catching up *)

(** Steps of the task while nothing more is sent on its channel. *)
Inductive task_steps vs : Task S → list Alert → Task S → Prop :=
  | task_steps_nil t : task_steps vs t [] t
  | task_steps_cons t out t' outs t'' :
      task_step vs t out t' → task_steps vs t' outs t'' → task_steps vs t (out ++ outs) t''.

Lemma task_steps_app vs t out t' out' t'' :
  task_steps vs t out t' → task_steps vs t' out' t'' → task_steps vs t (out ++ out') t''.
Proof.
  induction 1 as [|t out1 t1 outs t2 Hstep _ IH]; intros Hrest; [done|].
  rewrite <-app_assoc. eapply task_steps_cons; [done|auto].
Qed.

Lemma task_steps_queue queue vs t out t' :
  task_queue queue t → task_steps vs t out t' →
  task_queue (queue ++ out) t' ∧ Forall (λ a, sender a = who) out.
Proof.
  intros Hq Hsteps. revert queue Hq.
  induction Hsteps as [|t out1 t1 outs t2 Hstep _ IH]; intros queue Hq.
  - by rewrite app_nil_r.
  - destruct (IH (queue ++ out1)) as [Hq' Hall]; [by eapply task_step_queue|].
    rewrite app_assoc. split; [done|]. apply Forall_app. split; [|done].
    by apply (task_step_senders _ _ _ _ _ Hq Hstep).
Qed.

(** A task can always hand over what it has sent. *)
Lemma task_flush vs t :
  tk_queued t ≤ length (alerts_sent (tk_state t)) →
  ∃ out t', task_steps vs t out t' ∧ drained t' ∧ tk_state t' = tk_state t ∧
    tk_receiver t' = tk_receiver t ∧ tk_end t' = tk_end t.
Proof.
  remember (length (alerts_sent (tk_state t)) - tk_queued t) as k eqn:Hk.
  revert t Hk. induction k as [|k IH]; intros t Hk Hle.
  { exists [], t. split_and!; [constructor|unfold drained; lia|done..]. }
  destruct (lookup_lt_is_Some_2 (alerts_sent (tk_state t)) (tk_queued t)) as [a Ha]; [lia|].
  destruct (IH {| tk_state := tk_state t; tk_receiver := tk_receiver t;
    tk_queued := Datatypes.S (tk_queued t); tk_end := tk_end t |}) as (out & t' & Hs & Ht').
  { cbn. lia. }
  { cbn. apply lookup_lt_Some in Ha. lia. }
  exists ([a] ++ out), t'. split; [|done]. eapply task_steps_cons; [by constructor|done].
Qed.

(** A task that does not lag and whose turns succeed can receive everything. *)
Lemma task_catch_up (Inv : S → Prop) vs t :
  (∀ v s, v ∈ vs → Inv s → ∃ s', monitor_turn (Completed (inr v)) s = (Ok tt, s') ∧ Inv s') →
  tk_end t = None → tk_queued t ≤ length (alerts_sent (tk_state t)) → Inv (tk_state t) →
  tk_receiver t ≤ length vs → length vs ≤ tk_receiver t + retained →
  ∃ out t', task_steps vs t out t' ∧ drained t' ∧ tk_end t' = None ∧
    tk_receiver t' = length vs ∧ Inv (tk_state t').
Proof.
  intros Hturn. remember (length vs - tk_receiver t) as k eqn:Hk.
  revert t Hk. induction k as [|k IH]; intros t Hk He Hq Hi Hr Hlag;
    destruct (task_flush vs t Hq) as (out & t1 & Hs1 & Hd1 & Hst1 & Hr1 & He1).
  { exists out, t1. rewrite Hst1, Hr1, He1. split_and!; try done. lia. }
  destruct (lookup_lt_is_Some_2 vs (tk_receiver t1)) as [x Hx]; [lia|].
  destruct (Hturn x (tk_state t1)) as (s' & Hrun & Hi').
  { by eapply list_elem_of_lookup_2. }
  { by rewrite Hst1. }
  assert (task_step vs t1 []
    (after_turn t1 (Datatypes.S (tk_receiver t1)) (Ok tt, s'))) as Hstep.
  { rewrite <-Hrun. apply task_receives; [congruence|done|]. apply recv_next; [lia|done]. }
  destruct (IH (after_turn t1 (Datatypes.S (tk_receiver t1)) (Ok tt, s')))
    as (out2 & t2 & Hs2 & Ht2); cbn; [lia|done| |done|lia|lia|].
  { apply turn_adds in Hrun as (l & -> & _). rewrite length_app. unfold drained in Hd1. lia. }
  exists (out ++ [] ++ out2), t2. split; [|done]. eapply task_steps_app; [done|].
  by eapply task_steps_cons.
Qed.
End Task.
