(* ===== verification/Monitors.v ===== *)
(** * The three monitors as instances of [Monitor]

    Each monitor keeps the interface [Channel] states: it only adds alerts of its own
    kinds, and a receive error ends it.  [adds] is that property of a statement, and
    it is kept by the constructs statements are made of. *)

From S2P Require Import Prelude Duration Errors Headers EventTypes Alerts Channel.
From S2P Require Import StallReorg P2p Slots SlotsSpec Events.

Section Adds.
Context {S E : Type} (alerts : S → list Alert) (who : Origin).

Definition grows (s s' : S) : Prop :=
  ∃ l, alerts s' = alerts s ++ l ∧ Forall (λ a, sender a = who) l.

(** However the statement ends, it has only added alerts of [who]. *)
Definition adds {A} (f : M S E A) : Prop := ∀ s o s', f s = (o, s') → grows s s'.

Lemma grows_refl s : grows s s.
Proof. exists []. by rewrite app_nil_r. Qed.

Lemma grows_trans s1 s2 s3 : grows s1 s2 → grows s2 s3 → grows s1 s3.
Proof.
  intros (l1 & H1 & Hl1) (l2 & H2 & Hl2). exists (l1 ++ l2).
  rewrite H2, H1, app_assoc. split; [done|by apply Forall_app].
Qed.

Lemma adds_bind {A B} (f : M S E A) (k : A → M S E B) :
  adds f → (∀ a, adds (k a)) → adds (f ≫= k).
Proof.
  intros Hf Hk s o s'. unfold mbind, M_bind. destruct (f s) as [r s1] eqn:Hs.
  apply Hf in Hs. destruct r; [|by intros [= _ <-]..].
  intros Hrun%Hk. by eapply grows_trans.
Qed.

Lemma adds_lift {A} (r : outcome E A) : adds (lift r).
Proof. intros s o s' [= _ <-]. apply grows_refl. Qed.

Lemma adds_ret {A} (a : A) : adds (mret a : M S E A).
Proof. apply (adds_lift (Ok a)). Qed.

Lemma adds_gets {A} (g : S → A) : adds (gets g).
Proof. intros s o s' [= _ <-]. apply grows_refl. Qed.

Lemma adds_modify g : (∀ s, grows s (g s)) → adds (modify g).
Proof. intros Hg s o s' [= _ <-]. apply Hg. Qed.

Lemma adds_drive {I} (step : I → M S E ()) inputs :
  (∀ i, adds (step i)) → adds (drive step inputs).
Proof.
  intros Hstep. induction inputs as [|i inputs IH]; [apply adds_ret|by apply adds_bind].
Qed.

Lemma grows_quiet s s' : alerts s' = alerts s → grows s s'.
Proof. intros Hs. exists []. by rewrite Hs, app_nil_r. Qed.

Lemma grows_send s s' a : alerts s' = alerts s ++ [a] → sender a = who → grows s s'.
Proof. intros Hs Ha. exists [a]. split; [done|by constructor]. Qed.
End Adds.

Create HintDb adds discriminated.
#[export] Hint Resolve adds_bind adds_lift adds_ret adds_gets adds_drive : adds.

(** Split a statement into its parts: sends and assignments are left to [done]. *)
Ltac adds_step :=
  lazymatch goal with
  | |- adds _ _ (_ ≫= _) => apply adds_bind; [|intros ?]
  | |- adds _ _ (mret _) => apply adds_ret
  | |- adds _ _ (lift _) => apply adds_lift
  | |- adds _ _ (gets _) => apply adds_gets
  | |- adds _ _ (modify _) =>
      apply adds_modify; intros ?; (by apply grows_quiet) || (by eapply grows_send)
  | |- adds _ _ (drive _ _) => apply adds_drive; intros ?
  | |- adds _ _ (match ?x with _ => _ end) => destruct x
  end.
Ltac adds_tac := repeat adds_step.

Section Instances.
Context `{!ErrorPayloads}.

(** ** The chain monitor *)
#[export] Instance chain_monitor (config : StallAndReorgConfig) : Monitor BlocksExt Watch := {|
  monitor_turn := watch_turn config; alerts_sent := sent; has_timeout := true;
  who := ChainMonitor |}.

#[export] Instance chain_monitor_laws config : MonitorLaws (chain_monitor config).
Proof.
  split; [|done]. intros r s o s' Hrun. revert s o s' Hrun.
  change (adds sent ChainMonitor (watch_turn config r)).
  unfold watch_turn, on_blocks, on_timeout, take_timeout, at_least_one, set_timeout,
    set_last_best, send. adds_tac.
Qed.

(** ** The slot monitor *)
#[export] Instance slot_monitor {B : BoundedVec SlotDetails window} (config : SlotsConfig)
    : Monitor PoTInfo SlotMonitor := {|
  monitor_turn := slot_turn config; alerts_sent := slot_sent; has_timeout := true;
  who := SlotsMonitor |}.

#[export] Instance slot_monitor_laws {B : BoundedVec SlotDetails window} config :
  MonitorLaws (slot_monitor config).
Proof.
  split; [|done]. intros r s o s' Hrun. revert s o s' Hrun.
  change (adds slot_sent SlotsMonitor (slot_turn config r)).
  unfold slot_turn, on_slot, on_slot_timeout, extend, set_slot_timeout, send_slot_alert,
    set_last_instant, push_slot. adds_tac.
Qed.

(** ** The event monitor, whose receive has no time-out *)
Section Events.
Context `{!EventsApi} `{!EventDecoders} {V : Type} {node : EventsNode V}.

#[export] Instance event_monitor (accounts : gmap AccountId Account)
    : Monitor BlocksExt (EventMonitor V) := {|
  monitor_turn r := match r with Completed r => events_turn accounts r | Elapsed => mret tt end;
  alerts_sent := ev_sent; has_timeout := false; who := EventsMonitor |}.

#[export] Instance event_monitor_laws accounts : MonitorLaws (event_monitor accounts).
Proof.
  split; [|done]. intros r s o s' Hrun. revert s o s' Hrun.
  change (adds ev_sent EventsMonitor
    (match r with Completed r => events_turn accounts r | Elapsed => mret tt end)).
  unfold events_turn, watch_block, send_event, events. adds_tac.
  intros s o s'. destruct (events_at _ _) as [x w]. intros [= _ <-]. by apply grows_quiet.
Qed.
End Events.
End Instances.
