(* ===== verification/MdFormat.v ===== *)
(** * The markdown formatter (alerter/src/md_format.rs)

    The texts of the alerts.  How humantime prints a duration, urlencoding, hex
    digits, the display of a hash and rust_decimal's arithmetic are parameters. *)

From Stdlib Require Import Ascii.
From S2P Require Import Prelude Duration Errors Headers EventTypes Alerts.

Local Open Scope string_scope.

Class Formats : Type := {
  format_duration : Duration → string;
  urlencode : string → string;
  hex_encode : BlockHash → string;
  display_hash : BlockHash → string;
  Decimal : Type;
  decimal_from : N → option Decimal;
  decimal_div : Decimal → Decimal → option Decimal;
  display_decimal : Decimal → string;
}.

(** What rust_decimal documents: a value below 2^96 converts (a larger one panics), and
    the division of two of them by one that is not zero does not overflow. *)
Class FormatsLaws `{Formats} : Prop := {
  decimal_from_96 n : (n < 2 ^ 96)%N → is_Some (decimal_from n);
  decimal_div_ok a b x y :
    decimal_from a = Some x → decimal_from b = Some y → (1 <= b)%N → is_Some (decimal_div x y);
}.

Record FormatConfig : Type := { rpc_url : string; token_name : string; token_decimals : N }.

Definition nl : string := String "010" "".
Definition quote : string := String "034" "".

(** [{:?}] of the values that are printed so. *)
Definition debug_domain_id (d : DomainId) : string :=
  "DomainId(" +:+ pretty (domain_number d) +:+ ")".
Definition debug_direction (d : TransferDirection) : string :=
  match d with Sender => "Sender" | Receiver => "Receiver" end.
Definition debug_transfer_type (t : TransferType) : string :=
  match t with Transfer => "Transfer" | Withdraw => "Withdraw" | Deposit => "Deposit" end.
(** [{:?}] of a string without special characters. *)
Definition debug_string (s : string) : string := quote +:+ s +:+ quote.

(** [[String]::join]. *)
Fixpoint join (sep : string) (l : list string) : string :=
  match l with
  | [] => ""
  | [s] => s
  | s :: l => s +:+ sep +:+ join sep l
  end.

Definition u128_max : N := 2 ^ 128 - 1.

(** [10u128.pow(k)] with overflow checks. *)
Definition pow10_u128 {E} (k : N) : outcome E N :=
  if (10 ^ k <=? u128_max)%N then Ok (10 ^ k)%N else Panic "attempt to multiply with overflow".

Section MdFormat.
Context `{!Formats} {E : Type} (config : FormatConfig).

Definition format_hash_and_number (b : HashAndNumber) : string :=
  let link := "https://polkadot.js.org/apps/?rpc=" +:+ urlencode (rpc_url config) +:+
              "#/explorer/query/0x" +:+ hex_encode (hn_hash b) in
  "[" +:+ display_hash (hn_hash b) +:+ "](" +:+ link +:+ ") (" +:+ pretty (hn_number b) +:+ ")".

Definition format_hash_and_number_list (l : list HashAndNumber) : string :=
  join nl ((λ b, "- " +:+ format_hash_and_number b) <$> l).

Definition format_balance (balance : Balance) : outcome E string :=
  num ← expect "decimal overflow" (decimal_from balance);
  scale ← pow10_u128 (token_decimals config);
  den ← expect "decimal overflow" (decimal_from scale);
  scaled_balance ← expect "decimal division" (decimal_div num den);
  mret (display_decimal scaled_balance +:+ " " +:+ token_name config).

Definition format_transfer (t : TransferKnownAccountEvent) : outcome E string :=
  amount ← format_balance (tk_amount t);
  mret ("**Balance transfer**" +:+ nl +:+ "Direction: " +:+ debug_direction (direction t) +:+ nl +:+
        "Type: " +:+ debug_transfer_type (tk_transfer_type t) +:+ nl +:+
        "Account: " +:+ tk_name t +:+ "[" +:+ tk_address t +:+ "]" +:+ nl +:+
        "Amount:" +:+ amount).

Definition format_slashed_reason (r : SlashedReason) : string :=
  match r with
  | InvalidBundle n => "Invalid bundle at block: " +:+ pretty n
  | BadExecutionReceipt h => "Bad execution receipt: 0x" +:+ debug_string (hex_encode h)
  end.

Definition format_event (event : Event) : outcome E string :=
  match event with
  | EvTransfer transfer => format_transfer transfer
  | EvDomainRuntimeUpgraded e =>
      mret ("**Domain runtime upgraded**" +:+ nl +:+ "Runtime ID: " +:+ pretty (runtime_id e))
  | EvDomainInstantiated e =>
      mret ("**Domain instantiated**" +:+ nl +:+ "Domain ID: " +:+
            debug_domain_id (di_domain_id e))
  | EvFraudProofProcessed e =>
      let head := "**Fraud proof processed**" +:+ nl +:+ "Domain ID: " +:+
                  debug_domain_id (fp_domain_id e) in
      match new_head_receipt_number e with
      | Some n => mret (head +:+ nl +:+ "New head receipt number: " +:+ pretty n)
      | None => mret head
      end
  | EvOperatorSlashed e =>
      mret ("**Operator slashed**" +:+ nl +:+ "Operator ID: " +:+ pretty (os_operator_id e) +:+
            nl +:+ "Reason: " +:+ format_slashed_reason (reason e))
  | EvOperatorOffline e =>
      mret ("**Operator offline**" +:+ nl +:+ "Operator ID: " +:+ pretty (oo_operator_id e) +:+
            nl +:+ "Domain ID: " +:+ debug_domain_id (oo_domain_id e) +:+
            nl +:+ "Submitted bundles: " +:+ pretty (submitted_bundles e) +:+
            nl +:+ "Expected bundles: " +:+ pretty (expected_bundles (expectations e)) +:+
            nl +:+ "Min required bundles: " +:+ pretty (min_required_bundles (expectations e)))
  | EvSudo => mret "**Sudo event triggered**"
  | EvCodeUpdated _ => mret "**Runtime code updated**"
  end.

Definition format_chain_stall (a : ChainStall) : string :=
  "**Block production stalled**" +:+ nl +:+ "Last block: " +:+
  format_hash_and_number (last_block a) +:+ nl +:+
  "Time since last block: " +:+ format_duration (stall_duration a).

Definition format_chain_recovery (a : ChainRecovery) : string :=
  "**Block production resumed**" +:+ nl +:+ "Best block: " +:+
  format_hash_and_number (cr_best_block a) +:+ nl +:+
  "Resumed after: " +:+ format_duration (cr_duration a).

Definition format_reorg (a : ChainReorg) : string :=
  "**Chain reorg**" +:+ nl +:+
  "Best block: " +:+ format_hash_and_number (best_block a) +:+ nl +:+
  "Common block: " +:+ format_hash_and_number (reorg_common_block a) +:+ nl +:+
  "Retracted blocks:" +:+ nl +:+ format_hash_and_number_list (reorg_retracted a) +:+ nl +:+
  "Enacted blocks:" +:+ nl +:+ format_hash_and_number_list (reorg_enacted a) +:+ nl +:+
  "Reorg Depth: " +:+ pretty (N.of_nat (length (reorg_retracted a))).

Definition format_timekeeper_stall (a : TimekeeperStall) : string :=
  "**Timekeeper stalled**" +:+ nl +:+ "Last slot: " +:+ pretty (ts_last_slot a) +:+ nl +:+
  "Time since last block: " +:+ format_duration (ts_duration a).

Definition format_timekeeper_recovery (a : TimekeeperRecovery) : string :=
  "**Timekeeper resumed**" +:+ nl +:+ "Slot: " +:+ pretty (tr_slot a) +:+ nl +:+
  "Resumed after: " +:+ format_duration (tr_duration a).

Definition format_slow_slot (a : SlowSlot) : string :=
  "**Slow slot**" +:+ nl +:+ "Slot: " +:+ pretty (ss_slot a) +:+ nl +:+
  "Previous slot: " +:+ pretty (previous_slot a) +:+ nl +:+
  "Slot time: " +:+ format_duration (slot_time a) +:+ nl +:+
  "Threshold: " +:+ format_duration (ss_threshold a).

Definition format_avg_slow_slot (a : AvgSlowSlot) : string :=
  "**Average Slow slots**" +:+ nl +:+ "Slot: " +:+ pretty (as_slot a) +:+ nl +:+
  "Slot count: " +:+ pretty (slot_count a) +:+ nl +:+
  "Avg Slot time: " +:+ format_duration (avg_slot_time a) +:+ nl +:+
  "Threshold: " +:+ format_duration (as_threshold a).

Definition format_alert (alert : Alert) : outcome E string :=
  match alert with
  | AlertEvent event => format_event event
  | AlertChainStall a => mret (format_chain_stall a)
  | AlertChainRecovery a => mret (format_chain_recovery a)
  | AlertReorg a => mret (format_reorg a)
  | AlertTimekeeperStall a => mret (format_timekeeper_stall a)
  | AlertTimekeeperRecovery a => mret (format_timekeeper_recovery a)
  | AlertSlowSlot a => mret (format_slow_slot a)
  | AlertAvgSlowSlots a => mret (format_avg_slow_slot a)
  end.
End MdFormat.
