(* ===== verification/MdFormatProps.v ===== *)
(** * Properties of the formatter *)

From Stdlib Require Import Ascii.
From S2P Require Import Prelude Duration Errors Headers EventTypes Alerts MdFormat.

Local Open Scope string_scope.

(** ** Properties *)
Section Properties.
Context `{!Formats} {E : Type} (config : FormatConfig).

(** C32. With the token decimals of any Substrate chain (at most 28) and amounts below
    2^96, every alert is formatted: neither the power of ten nor the conversions nor the
    division of the balance panics. *)
Theorem format_alert_total `{!FormatsLaws} alert :
  (token_decimals config <= 28)%N →
  (∀ t, alert = AlertEvent (EvTransfer t) → tk_amount t < 2 ^ 96)%N →
  ∃ text, format_alert (E:=E) config alert = Ok text.
Proof.
  intros Hd Ha. destruct alert as [e| | | | | | |]; try by eexists.
  destruct e as [t| | |f| | | |]; try by eexists.
  2: cbn; destruct (new_head_receipt_number f); by eexists.
  cbn. unfold format_transfer, format_balance, pow10_u128.
  destruct (decimal_from_96 (tk_amount t) (Ha t eq_refl)) as [x Hx]. rewrite Hx. cbn.
  assert (10 ^ token_decimals config <= 10 ^ 28)%N as Hle by (apply N.pow_le_mono_r; lia).
  assert (10 ^ 28 < 2 ^ 96)%N as H96 by (vm_compute; reflexivity).
  assert (2 ^ 96 <= u128_max)%N as H128 by (vm_compute; discriminate).
  destruct (N.leb_spec (10 ^ token_decimals config) u128_max); [|lia]. cbn.
  destruct (decimal_from_96 (10 ^ token_decimals config)) as [y Hy]; [lia|]. rewrite Hy. cbn.
  destruct (decimal_div_ok _ _ _ _ Hx Hy) as [z Hz].
  { pose proof (N.pow_nonzero 10 (token_decimals config)). lia. }
  rewrite Hz. by eexists.
Qed.

(** Only the amount of a transfer can fail to be formatted. *)
Lemma format_alert_not_transfer alert :
  (∀ t, alert ≠ AlertEvent (EvTransfer t)) →
  ∃ text, format_alert (E:=E) config alert = Ok text.
Proof.
  intros Hne. destruct alert as [e| | | | | | |]; try by eexists.
  destruct e as [t| | |f| | | |]; try by eexists.
  - by destruct (Hne t).
  - cbn. destruct (new_head_receipt_number f); by eexists.
Qed.

(** C34. Only the balance of a transfer can make the formatter panic, and when the
    network's token has 39 decimals or more, every transfer alert does. *)
Theorem format_alert_panics_on_decimals :
  (∀ alert, (∀ t, alert ≠ AlertEvent (EvTransfer t)) →
     ∃ text, format_alert (E:=E) config alert = Ok text) ∧
  ((39 <= token_decimals config)%N → ∀ t, ∃ why,
     format_alert (E:=E) config (AlertEvent (EvTransfer t)) = Panic why).
Proof.
  split.
  - apply format_alert_not_transfer.
  - intros Hd t. cbn. unfold format_transfer, format_balance, pow10_u128.
    destruct (decimal_from (tk_amount t)); cbn; [|by eexists].
    assert (10 ^ 39 <= 10 ^ token_decimals config)%N as Hle by (apply N.pow_le_mono_r; lia).
    assert (u128_max < 10 ^ 39)%N as H39 by (vm_compute; reflexivity).
    destruct (N.leb_spec (10 ^ token_decimals config) u128_max); [lia|]. by eexists.
Qed.
End Properties.

(** ** Witnesses *)
Module FormatToy.
#[local] Instance formats : Formats := {|
  format_duration d := pretty d; urlencode s := "url"; hex_encode h := pretty h;
  display_hash h := pretty h; Decimal := N;
  decimal_from n := if (n <? 2 ^ 96)%N then Some n else None;
  decimal_div a b := if (b =? 0)%N then None else Some (a / b)%N;
  display_decimal d := pretty d |}.
#[local] Instance laws : FormatsLaws.
Proof.
  split.
  - intros n Hn. cbn. apply N.ltb_lt in Hn. rewrite Hn. by eexists.
  - intros a b x y _ Hy Hb. cbn in *. destruct (b <? 2 ^ 96)%N; [|done]. injection Hy as <-.
    destruct (N.eqb_spec b 0); [lia|by eexists].
Qed.
Definition config : FormatConfig :=
  {| rpc_url := "wss://rpc"; token_name := "AI3"; token_decimals := 18%N |}.
Definition transfer : TransferKnownAccountEvent :=
  {| direction := Sender; tk_transfer_type := Transfer; tk_name := "treasury";
     tk_address := "alice"; tk_amount := (5 * 10 ^ 18)%N |}.
End FormatToy.

Lemma format_alert_total_witness :
  ∃ text, format_alert (H:=FormatToy.formats) (E:=()) FormatToy.config
    (AlertEvent (EvTransfer FormatToy.transfer)) = Ok text.
Proof.
  apply (format_alert_total (H:=FormatToy.formats) FormatToy.config (H0:=FormatToy.laws)).
  - vm_compute. discriminate.
  - intros t Ht. injection Ht as <-. vm_compute. reflexivity.
Defined.
