(* ===== verification/ReorgText.v ===== *)
(** * Reading a reorg alert back from its text

    [format_reorg] puts two blocks and two lists of blocks into one message.  The reader
    below takes the message apart again: the number of a block and its hash, which it
    takes from the link because the displayed hash is abbreviated.  What the formatter
    writes, the reader reads, so nothing of a reorg is lost in its message. *)

From Stdlib Require Import Ascii.
From S2P Require Import Prelude Duration Errors Headers EventTypes Alerts MdFormat.

Local Open Scope string_scope.
Local Open Scope list_scope.

(** ** Taking a string apart *)
Definition newline : ascii := "010"%char.

(** The character does not occur in the string. *)
Fixpoint free (c : ascii) (s : string) : Prop :=
  match s with "" => True | String x s => x ≠ c ∧ free c s end.

(** [[str]::split('\n')]. *)
Fixpoint lines (s : string) : list string :=
  match s with
  | "" => [""]
  | String c s =>
      if decide (c = newline) then "" :: lines s
      else match lines s with [] => [String c ""] | l :: ls => String c l :: ls end
  end.

(** What stands before and after the first [c]. *)
Fixpoint split_at (c : ascii) (s : string) : option (string * string) :=
  match s with
  | "" => None
  | String x s =>
      if decide (x = c) then Some ("", s)
      else '(before, after) ← split_at c s; Some (String x before, after)
  end.

Fixpoint after_prefix (p s : string) : option string :=
  match p, s with
  | "", _ => Some s
  | String x p, String y s => if decide (x = y) then after_prefix p s else None
  | _, _ => None
  end.

Lemma append_assoc s1 s2 s3 : (s1 +:+ s2) +:+ s3 = s1 +:+ s2 +:+ s3.
Proof.
  induction s1 as [|x s1 IH]; [done|].
  change (String x ((s1 +:+ s2) +:+ s3) = String x (s1 +:+ s2 +:+ s3)). by rewrite IH.
Qed.

Lemma free_app c s1 s2 : free c (s1 +:+ s2) ↔ free c s1 ∧ free c s2.
Proof.
  induction s1 as [|x s1 IH]; [cbn; tauto|].
  change (free c (String x s1 +:+ s2)) with (x ≠ c ∧ free c (s1 +:+ s2)).
  rewrite IH. cbn. tauto.
Qed.

Lemma lines_last s : free newline s → lines s = [s].
Proof.
  induction s as [|c s IH]; cbn; [done|]. intros [Hc Hs]. rewrite decide_False by done.
  by rewrite IH.
Qed.

Lemma lines_app s1 s2 : free newline s1 → lines (s1 +:+ nl +:+ s2) = s1 :: lines s2.
Proof.
  induction s1 as [|c s1 IH]; [done|]. intros [Hc Hs].
  change (String c s1 +:+ nl +:+ s2) with (String c (s1 +:+ nl +:+ s2)).
  cbn [lines]. by rewrite decide_False, IH.
Qed.

(** A line made of a label and a value. *)
Lemma lines_label label s rest :
  free newline label → free newline s →
  lines (label +:+ s +:+ nl +:+ rest) = (label +:+ s) :: lines rest.
Proof. intros. rewrite <-append_assoc. apply lines_app. by apply free_app. Qed.

(** [join] writes one line for each string, and an empty line for none. *)
Lemma lines_join l rest :
  Forall (free newline) l →
  lines (join nl l +:+ nl +:+ rest) = (match l with [] => [""] | _ => l end) ++ lines rest.
Proof.
  destruct l as [|s l]; [done|]. intros Hall. revert s Hall.
  induction l as [|s' l IH]; intros s Hall; apply Forall_cons in Hall as [Hs Hl].
  - by apply (lines_app s).
  - change (join nl (s :: s' :: l)) with (s +:+ nl +:+ join nl (s' :: l)).
    rewrite !append_assoc, lines_app by done. by rewrite IH.
Qed.

Lemma split_at_app c s1 s2 : free c s1 → split_at c (s1 +:+ String c s2) = Some (s1, s2).
Proof.
  induction s1 as [|x s1 IH]; [|intros [Hx Hs]].
  { intros _. change (split_at c (String c s2) = Some (EmptyString, s2)). cbn [split_at].
    by rewrite decide_True. }
  change (String x s1 +:+ String c s2) with (String x (s1 +:+ String c s2)).
  cbn [split_at]. by rewrite decide_False, IH.
Qed.

Lemma after_prefix_app p s : after_prefix p (p +:+ s) = Some s.
Proof.
  induction p as [|x p IH]; [by destruct s|].
  change (String x p +:+ s) with (String x (p +:+ s)). cbn [after_prefix]. by rewrite decide_True.
Qed.

(** ** Decimal numbers *)
Definition digit (c : ascii) : option N :=
  let n := (N_of_ascii c - 48)%N in
  if decide (48 <= N_of_ascii c ∧ n <= 9)%N then Some n else None.

Fixpoint read_digits (acc : N) (s : string) : option N :=
  match s with
  | "" => Some acc
  | String c s => d ← digit c; read_digits (10 * acc + d) s
  end.

Definition read_number (s : string) : option N :=
  match s with "" => None | s => read_digits 0 s end.

Lemma digit_pretty x : (x < 10)%N → digit (pretty_N_char x) = Some x.
Proof.
  intros Hx. assert (x = 0 ∨ x = 1 ∨ x = 2 ∨ x = 3 ∨ x = 4 ∨ x = 5 ∨ x = 6 ∨ x = 7 ∨ x = 8 ∨
    x = 9)%N as Hcases by lia.
  by destruct Hcases as [->|[->|[->|[->|[->|[->|[->|[->|[->| ->]]]]]]]]].
Qed.

Lemma read_digits_go x s : read_digits 0 (pretty_N_go x s) = read_digits x s.
Proof.
  revert s. induction (N.lt_wf_0 x) as [x _ IH]. intros s.
  destruct (decide (x = 0%N)) as [->|Hx]; [by rewrite pretty_N_go_0|].
  rewrite pretty_N_go_step by lia. rewrite IH by (apply N.div_lt; lia).
  cbn [read_digits]. rewrite digit_pretty by (apply N.mod_lt; lia). cbn.
  f_equal. symmetry. apply N.div_mod. lia.
Qed.

Lemma pretty_go_not_empty x s : s ≠ "" → pretty_N_go x s ≠ "".
Proof.
  revert s. induction (N.lt_wf_0 x) as [x _ IH]. intros s Hs.
  destruct (decide (x = 0%N)) as [->|Hx]; [by rewrite pretty_N_go_0|].
  rewrite pretty_N_go_step by lia. apply IH; [apply N.div_lt; lia|done].
Qed.

(** What [pretty] writes is read back. *)
Lemma read_number_pretty (n : N) : read_number (pretty n) = Some n.
Proof.
  unfold pretty, pretty_N. destruct (decide (n = 0%N)) as [->|Hn]; [done|].
  assert (pretty_N_go n "" ≠ "") as Hne.
  { rewrite pretty_N_go_step by lia. by apply pretty_go_not_empty. }
  pose proof (read_digits_go n "") as Hread. cbn [read_digits] in Hread.
  unfold read_number. by destruct (pretty_N_go n "").
Qed.

Lemma pretty_go_free c x s :
  (∀ d, pretty_N_char d ≠ c) → free c s → free c (pretty_N_go x s).
Proof.
  intros Hc. revert s. induction (N.lt_wf_0 x) as [x _ IH]. intros s Hs.
  destruct (decide (x = 0%N)) as [->|Hx]; [by rewrite pretty_N_go_0|].
  rewrite pretty_N_go_step by lia. by apply IH; [apply N.div_lt; lia|].
Qed.

Lemma pretty_free c (n : N) : (∀ d, pretty_N_char d ≠ c) → c ≠ "0"%char → free c (pretty n).
Proof.
  intros Hc H0. unfold pretty, pretty_N. destruct (decide (n = 0%N)); [done|].
  by apply pretty_go_free.
Qed.

(** ** The reader of a reorg alert *)

(** What the reader relies on: the hash in the link is the hex encoding of all its bytes,
    and neither it, the displayed hash nor the encoded URL has a character that ends the
    part of the message it stands in. *)
Class ReadableFormats `{Formats} : Type := {
  hex_decode : string → option BlockHash;
  hex_decode_encode h : hex_decode (hex_encode h) = Some h;
  hex_free h : free newline (hex_encode h) ∧ free ")" (hex_encode h);
  display_free h : free newline (display_hash h) ∧ free "#" (display_hash h);
  urlencode_free s : free newline (urlencode s) ∧ free "#" (urlencode s);
}.

Section Reader.
Context `{!Formats} `{!ReadableFormats}.

Definition read_block (s : string) : option HashAndNumber :=
  '(_, s) ← split_at "#" s;
  s ← after_prefix "/explorer/query/0x" s;
  '(hex, s) ← split_at ")" s;
  s ← after_prefix " (" s;
  '(num, _) ← split_at ")" s;
  hash ← hex_decode hex;
  number ← read_number num;
  Some {| hn_number := number; hn_hash := hash |}.

Definition read_labelled (label line : string) : option HashAndNumber :=
  s ← after_prefix label line; read_block s.

(** The items of a list, up to the first line that is not one. *)
Fixpoint read_items (ls : list string) : option (list HashAndNumber * list string) :=
  match ls with
  | [] => Some ([], [])
  | l :: rest =>
      match after_prefix "- " l with
      | Some s => b ← read_block s; '(bs, rest) ← read_items rest; Some (b :: bs, rest)
      | None => Some ([], ls)
      end
  end.

(** A list without items is an empty line. *)
Definition read_list (ls : list string) : option (list HashAndNumber * list string) :=
  match ls with "" :: rest => Some ([], rest) | _ => read_items ls end.

Definition expect_line (line : string) (ls : list string) : option (list string) :=
  match ls with l :: rest => if decide (l = line) then Some rest else None | [] => None end.

Definition read_reorg (text : string) : option ChainReorg :=
  ls ← expect_line "**Chain reorg**" (lines text);
  match ls with
  | best :: common :: ls =>
      best ← read_labelled "Best block: " best;
      common ← read_labelled "Common block: " common;
      ls ← expect_line "Retracted blocks:" ls;
      '(retracted, ls) ← read_list ls;
      ls ← expect_line "Enacted blocks:" ls;
      '(enacted, ls) ← read_list ls;
      ls ← expect_line ("Reorg Depth: " +:+ pretty (N.of_nat (length retracted))) ls;
      if decide (ls = []) then
        Some {| best_block := best; reorg_common_block := common;
                reorg_enacted := enacted; reorg_retracted := retracted |}
      else None
  | _ => None
  end.

(** ** What is written is read back *)
Context (config : FormatConfig).

Lemma pretty_N_char_digit d c : pretty_N_char d = c → c = "0"%char ∨ is_Some (digit c).
Proof. intros <-. unfold pretty_N_char. repeat case_match; by right; vm_compute; eexists. Qed.

Lemma number_free c n : digit c = None → free c (pretty (n : N)).
Proof.
  intros Hc. apply pretty_free.
  - intros d Hd. apply pretty_N_char_digit in Hd as [->|[x Hx]]; [done|congruence].
  - by intros ->.
Qed.

Lemma block_free_newline b : free newline (format_hash_and_number config b).
Proof.
  unfold format_hash_and_number. rewrite !free_app.
  destruct (hex_free (hn_hash b)), (display_free (hn_hash b)), (urlencode_free (rpc_url config)).
  repeat split; try done. by apply number_free.
Qed.

Lemma read_block_format b : read_block (format_hash_and_number config b) = Some b.
Proof.
  destruct b as [n h]. unfold read_block, format_hash_and_number. cbn [hn_hash hn_number].
  set (before := "[" +:+ display_hash h +:+ "](" +:+ "https://polkadot.js.org/apps/?rpc=" +:+
    urlencode (rpc_url config)).
  set (tail := "/explorer/query/0x" +:+ hex_encode h +:+ String ")" (" (" +:+ pretty n +:+ ")")).
  assert ("[" +:+ display_hash h +:+ "](" +:+ ("https://polkadot.js.org/apps/?rpc=" +:+
    urlencode (rpc_url config) +:+ "#/explorer/query/0x" +:+ hex_encode h) +:+ ") (" +:+
    pretty n +:+ ")" = before +:+ String "#" tail) as ->.
  { unfold before, tail. by rewrite !append_assoc. }
  destruct (hex_free h), (display_free h), (urlencode_free (rpc_url config)).
  rewrite split_at_app by (unfold before; rewrite !free_app; by repeat split).
  cbn [mbind option_bind]. unfold tail. rewrite after_prefix_app. cbn [mbind option_bind].
  rewrite split_at_app by done. cbn [mbind option_bind].
  rewrite after_prefix_app. cbn [mbind option_bind].
  rewrite (split_at_app ")" (pretty n) "") by (by apply number_free). cbn [mbind option_bind].
  by rewrite hex_decode_encode, read_number_pretty.
Qed.

Lemma read_labelled_format label b :
  read_labelled label (label +:+ format_hash_and_number config b) = Some b.
Proof. unfold read_labelled. rewrite after_prefix_app. apply read_block_format. Qed.

Definition item (b : HashAndNumber) : string := "- " +:+ format_hash_and_number config b.

Lemma read_items_format bs l rest :
  after_prefix "- " l = None → read_items ((item <$> bs) ++ l :: rest) = Some (bs, l :: rest).
Proof.
  intros Hl. induction bs as [|b bs IH]; cbn [fmap list_fmap app read_items]; [by rewrite Hl|].
  unfold item at 1. rewrite after_prefix_app, read_block_format. cbn [mbind option_bind].
  by rewrite IH.
Qed.

Lemma read_list_format bs l rest :
  after_prefix "- " l = None →
  read_list ((match item <$> bs with [] => [""] | _ => item <$> bs end) ++ l :: rest) =
    Some (bs, l :: rest).
Proof.
  intros Hl. destruct bs as [|b bs]; [done|]. by apply (read_items_format (b :: bs)).
Qed.

Lemma lines_list bs rest :
  lines (format_hash_and_number_list config bs +:+ nl +:+ rest) =
    (match item <$> bs with [] => [""] | _ => item <$> bs end) ++ lines rest.
Proof.
  apply lines_join, Forall_fmap, Forall_forall. intros b _. unfold compose, item.
  apply free_app. split; [done|apply block_free_newline].
Qed.

(** C36. Nothing of a reorg is lost in its message: reading the text of a reorg alert gives
    back the alert, the best and the common block and all the retracted and enacted ones
    in their order, each with its number and its whole hash. *)
Theorem reorg_text_reads_back (r : ChainReorg) : read_reorg (format_reorg config r) = Some r.
Proof.
  destruct r as [best common enacted retracted]. unfold format_reorg, read_reorg.
  cbn [best_block reorg_common_block reorg_enacted reorg_retracted].
  rewrite (lines_app "**Chain reorg**") by done.
  rewrite (lines_label "Best block: ") by (done || apply block_free_newline).
  rewrite (lines_label "Common block: ") by (done || apply block_free_newline).
  rewrite (lines_app "Retracted blocks:") by done. rewrite lines_list.
  rewrite (lines_app "Enacted blocks:") by done. rewrite lines_list.
  rewrite lines_last by (apply free_app; split; [done|by apply number_free]).
  cbn [expect_line]. rewrite decide_True by done. cbn [mbind option_bind].
  rewrite !read_labelled_format. cbn [mbind option_bind expect_line].
  rewrite decide_True by done. cbn [mbind option_bind].
  rewrite read_list_format by done. cbn [mbind option_bind expect_line].
  rewrite decide_True by done. cbn [mbind option_bind].
  rewrite read_list_format by done. cbn [mbind option_bind expect_line].
  by rewrite !decide_True by done.
Qed.
End Reader.

(** ** Witness: a reorg of depth two without enacted blocks *)
Module ReorgTextToy.
#[local] Instance formats : Formats := {|
  format_duration d := pretty d; urlencode s := "wss%3A%2F%2Frpc"; hex_encode h := pretty h;
  display_hash h := "0x12…34"; Decimal := N; decimal_from n := Some n;
  decimal_div a b := Some (a / b)%N; display_decimal d := pretty d |}.
#[local] Instance readable : ReadableFormats.
Proof.
  refine {| hex_decode := read_number |}.
  - apply read_number_pretty.
  - intros h. by split; apply number_free.
  - intros h. by repeat split.
  - intros s. by repeat split.
Defined.
Definition config : FormatConfig :=
  {| rpc_url := "wss://rpc"; token_name := "AI3"; token_decimals := 18%N |}.
Definition block (n h : N) : HashAndNumber := {| hn_number := n; hn_hash := h |}.
Definition reorg : ChainReorg :=
  {| best_block := block 5 50; reorg_common_block := block 5 50;
     reorg_enacted := []; reorg_retracted := [block 7 70; block 6 60] |}.
End ReorgTextToy.

Lemma reorg_text_reads_back_witness :
  read_reorg (H0:=ReorgTextToy.readable) (format_reorg (H:=ReorgTextToy.formats)
    ReorgTextToy.config ReorgTextToy.reorg) = Some ReorgTextToy.reorg ∧
  length (lines (format_reorg (H:=ReorgTextToy.formats)
    ReorgTextToy.config ReorgTextToy.reorg)) = 9.
Proof.
  split; [|vm_compute; reflexivity].
  apply (reorg_text_reads_back (H:=ReorgTextToy.formats) (H0:=ReorgTextToy.readable)).
Defined.
