(* ===== verification/Slack.v ===== *)
(** * The Slack alerter (alerter/src/slack.rs)

    Loading the secret, and the loop that posts each alert.  The file system and the
    Slack client are parameters. *)

From Stdlib Require Import Ascii.
From S2P Require Import Prelude Duration Errors Headers EventTypes Alerts MdFormat.

Local Open Scope N_scope.

(** A Rust [char] is its code point; the text of the secret is a list of them. *)
Definition char : Type := N.

(** [char::is_whitespace]: the Unicode property [White_Space]. *)
Definition is_whitespace (c : char) : bool :=
  ((9 <=? c) && (c <=? 13)) || (c =? 32) || (c =? 133) || (c =? 160) || (c =? 5760) ||
  ((8192 <=? c) && (c <=? 8202)) || (c =? 8232) || (c =? 8233) || (c =? 8239) ||
  (c =? 8287) || (c =? 12288).

Fixpoint trim_start (s : list char) : list char :=
  match s with
  | c :: rest => if is_whitespace c then trim_start rest else s
  | [] => []
  end.

(** [str::trim]. *)
Definition trim (s : list char) : list char := rev (trim_start (rev (trim_start s))).

Class FileSystem `{!ErrorPayloads} : Type := {
  metadata_mode : string → result io_Error N;
  read_to_string : string → result io_Error (list char);
}.

Record SlackSecret : Type := { token_value : list char; team_id : string }.

(** The zeroize crate's [String::zeroize]. *)
Class ZeroizeApi : Type := { zeroize_string : list char → list char }.

(** [Zeroize] of a secret, and its [Drop]: the token is wiped, the team id is not. *)
Definition zeroize `{!ZeroizeApi} (s : SlackSecret) : SlackSecret :=
  {| token_value := zeroize_string (token_value s); team_id := team_id s |}.
Definition drop_secret `{!ZeroizeApi} (s : SlackSecret) : SlackSecret := zeroize s.

Record SlackConfig : Type := {
  slack_team_id : string;
  slack_bot_name : string;
  slack_bot_icon : string;
  slack_channel_name : string;
  slack_secret_path : string;
}.

Definition USER_READ_ONLY : N := 256.   (* 0o400 *)
Definition USER_READ_WRITE : N := 384.  (* 0o600 *)
Definition PERMISSION_BITS : N := 511.  (* 0o777 *)

Definition permissions_ok (secret_perms : N) : bool :=
  (N.land secret_perms PERMISSION_BITS =? USER_READ_ONLY) ||
  (N.land secret_perms PERMISSION_BITS =? USER_READ_WRITE).

Definition permissions_message (path : string) (secret_perms : N) : string :=
  path +:+ " must be readable only by the user running this process (256 or 384), but it is "
  +:+ pretty secret_perms.

Section Secret.
Context `{!ErrorPayloads} {fs : FileSystem}.

(** [SlackSecret::new], on Unix. *)
Definition secret_new (path team_id : string) : outcome Error SlackSecret :=
  secret_perms ← question (metadata_mode path);
  if permissions_ok secret_perms then
    contents ← question (read_to_string path);
    let secret := trim contents in
    match secret with
    | [] => Err (Config "Slack Secret cannot be empty")
    | _ => mret {| token_value := secret; team_id := team_id |}
    end
  else Panic (permissions_message path secret_perms).

(** [strip_prefix("#").unwrap_or(..)]. *)
Definition strip_hash (s : string) : string :=
  match s with
  | String c rest => if decide (c = "035"%char) then rest else s
  | EmptyString => s
  end.

Definition channel_of (name : string) : string := "#" +:+ strip_hash name.

Record SlackAlerter : Type := {
  bot_name : string;
  bot_icon : string;
  channel_name : string;
  secret : SlackSecret;
}.

Definition alerter_new (config : SlackConfig) : outcome Error SlackAlerter :=
  secret ← secret_new (slack_secret_path config) (slack_team_id config);
  mret {| bot_name := slack_bot_name config; bot_icon := slack_bot_icon config;
          channel_name := channel_of (slack_channel_name config); secret := secret |}.
End Secret.

(** ** Posting *)
Record PostRequest : Type := {
  channel : string;
  markdown : string;
  icon_emoji : string;
  username : string;
  unfurl_links : bool;
}.

Class SlackApi `{!ErrorPayloads} (W : Type) : Type := {
  hyper_connector : W → result io_Error () * W;
  auth_test : SlackSecret → W → result SlackClientError () * W;
  chat_post_message : PostRequest → W → result SlackClientError () * W;
}.

Definition CARGO_PKG_VERSION : string := "1.1.1".

Record Poster (W : Type) : Type := { slack_world : W; posts : list PostRequest }.
Arguments slack_world {W} _.
Arguments posts {W} _.

Section Run.
Context `{!ErrorPayloads} `{!Formats} {W : Type} {slack : SlackApi W}.
Context (alerter : SlackAlerter) (format_config : FormatConfig).
Abbreviation P := (M (Poster W) Error).

Definition slack_call {A} (f : W → A * W) : P A := λ s,
  let '(a, w) := f (slack_world s) in (Ok a, {| slack_world := w; posts := posts s |}).

Definition request_for (text : string) : PostRequest :=
  {| channel := channel_name alerter; markdown := text; icon_emoji := bot_icon alerter;
     username := bot_name alerter +:+ "(" +:+ CARGO_PKG_VERSION +:+ ")";
     unfurl_links := false |}.

(** [posts] are the requests made, in order: one that Slack refuses is only logged, and is
    recorded like one that it accepts. *)
Definition post (request : PostRequest) : P () :=
  _ ← slack_call (chat_post_message request);
  modify (λ s, {| slack_world := slack_world s; posts := posts s ++ [request] |}).

(** One turn of the loop: [None] is a closed stream. *)
Definition slack_turn (received : option Alert) : P () :=
  match received with
  | None => throw (App "Slack stream closed")
  | Some alert =>
      text ← lift (format_alert format_config alert);
      post (request_for text)
  end.

(** [run] up to its loop. *)
Definition slack_open : P () :=
  connector ← slack_call hyper_connector;
  _ ← lift (question connector);
  session ← slack_call (auth_test (secret alerter));
  lift (question session).

Definition slack_run (received : list (option Alert)) : P () :=
  _ ← slack_open;
  drive slack_turn received.

Lemma slack_call_run {A} (f : W → A * W) a w s :
  f (slack_world s) = (a, w) →
  slack_call f s = (Ok a, {| slack_world := w; posts := posts s |}).
Proof. unfold slack_call. by intros ->. Qed.

Lemma post_run request r w s :
  chat_post_message request (slack_world s) = (r, w) →
  post request s = (Ok tt, {| slack_world := w; posts := posts s ++ [request] |}).
Proof. intros Hpost. unfold post. by erewrite bind_ok by (by apply slack_call_run). Qed.

Lemma slack_open_run s w1 w2 :
  hyper_connector (slack_world s) = (inr tt, w1) →
  auth_test (secret alerter) w1 = (inr tt, w2) →
  slack_open s = (Ok tt, {| slack_world := w2; posts := posts s |}).
Proof.
  intros Hc Ha. unfold slack_open, mbind, M_bind, slack_call, lift. rewrite Hc. cbn.
  by rewrite Ha.
Qed.
End Run.

#[export] Hint Resolve slack_open_run slack_call_run post_run : alerter_run.
