(* ===== verification/SlackProps.v ===== *)
(** * Properties of the Slack alerter *)

From Stdlib Require Import Ascii.
From S2P Require Import Prelude Duration Errors Headers EventTypes Alerts MdFormat Slack.

Local Open Scope N_scope.

(** ** The secret *)
Definition whitespace (s : list char) : Prop := Forall (λ c, is_whitespace c = true) s.

(** [t] neither starts nor ends with whitespace. *)
Definition tight (t : list char) : Prop :=
  (∀ c, head t = Some c → is_whitespace c = false) ∧
  (∀ c, last t = Some c → is_whitespace c = false).

Lemma trim_start_spec s :
  ∃ pre, s = pre ++ trim_start s ∧ whitespace pre ∧
    ∀ c, head (trim_start s) = Some c → is_whitespace c = false.
Proof.
  induction s as [|c s (pre & Hs & Hpre & Hhd)]; cbn.
  - exists []. split_and!; [done|constructor|done].
  - destruct (is_whitespace c) eqn:Hc.
    + exists (c :: pre). cbn. rewrite <-Hs. split_and!; [done|by constructor|done].
    + exists []. split_and!; [done|constructor|]. cbn. by intros ? [= <-].
Qed.

Lemma head_rev {A} (l : list A) : head (rev l) = last l.
Proof.
  destruct l as [|x l _] using rev_ind; [done|]. by rewrite rev_app_distr, last_snoc.
Qed.

Lemma trim_decomposes s :
  ∃ pre post, s = pre ++ trim s ++ post ∧ whitespace pre ∧ whitespace post ∧ tight (trim s).
Proof.
  destruct (trim_start_spec s) as (pre & Hs & Hpre & Hhd).
  destruct (trim_start_spec (rev (trim_start s))) as (post & Hr & Hpost & Hl).
  assert (trim_start s = trim s ++ rev post) as Ht.
  { unfold trim. apply (f_equal (@rev char)) in Hr.
    by rewrite rev_involutive, rev_app_distr in Hr. }
  exists pre, (rev post). split_and!.
  - by rewrite <-Ht.
  - done.
  - apply Forall_forall. intros c Hc. unfold whitespace in Hpost. rewrite Forall_forall in Hpost.
    by apply Hpost, elem_of_rev.
  - split; intros c Hc.
    + apply Hhd. rewrite Ht. by destruct (trim s).
    + apply Hl. unfold trim in Hc. by rewrite <-head_rev, rev_involutive in Hc.
Qed.

Lemma whitespace_prefix pre t pre' t' :
  whitespace pre → whitespace pre' → pre ++ t = pre' ++ t' →
  (∀ c, head t = Some c → is_whitespace c = false) →
  (∀ c, head t' = Some c → is_whitespace c = false) → t = t'.
Proof.
  intros Hpre. revert pre'. induction Hpre as [|c pre Hc _ IH]; intros pre' Hpre' Heq Ht Ht'.
  - destruct Hpre' as [|c pre' Hc _]; [done|]. cbn in Heq. subst t. by rewrite Ht in Hc.
  - destruct Hpre' as [|c' pre' Hc' Hpre']; cbn in Heq.
    + subst t'. by rewrite Ht' in Hc.
    + injection Heq as -> Heq. by eapply IH.
Qed.

(** [trim] removes all the whitespace around the secret and nothing else: the
    result is the only part of the text, between two runs of whitespace, that neither
    starts nor ends with whitespace, unless the text is whitespace throughout, when it
    is empty. *)
Theorem trim_removes_surrounding_whitespace s :
  (∃ pre post, s = pre ++ trim s ++ post ∧ whitespace pre ∧ whitespace post) ∧
  tight (trim s) ∧
  (∀ pre t post, s = pre ++ t ++ post → whitespace pre → whitespace post →
     t ≠ [] → tight t → t = trim s) ∧
  (trim s = [] ↔ whitespace s).
Proof.
  destruct (trim_decomposes s) as (pre & post & Hs & Hpre & Hpost & Ht).
  split_and!; [by exists pre, post|done| |].
  - intros pre' t post' Hs' Hpre' Hpost' Hne [Hh Hl]. unfold trim.
    destruct (trim_start_spec s) as (p & Hp & Hpw & Hhd).
    assert (trim_start s = t ++ post') as ->.
    { eapply (whitespace_prefix p _ pre'); [done..|congruence|done|].
      intros c Hc. apply Hh. by destruct t. }
    rewrite rev_app_distr.
    destruct (trim_start_spec (rev post' ++ rev t)) as (q & Hq & Hqw & Hqh).
    assert (trim_start (rev post' ++ rev t) = rev t) as ->; [|by rewrite rev_involutive].
    eapply (whitespace_prefix q _ (rev post')); [done| |congruence|done|].
    + apply Forall_forall. intros c Hc. unfold whitespace in Hpost'.
      rewrite Forall_forall in Hpost'. by apply Hpost', elem_of_rev.
    + intros c Hc. apply Hl. by rewrite head_rev in Hc.
  - split.
    + intros He. rewrite He in Hs. rewrite Hs. by apply Forall_app.
    + intros Hw. destruct Ht as [Hh _]. destruct (trim s) as [|c t]; [done|].
      rewrite Hs in Hw. apply Forall_app in Hw as [_ [Hc _]%Forall_cons].
      by rewrite (Hh c eq_refl) in Hc.
Qed.

(** Readable by its owner, and by nobody else, and not executable by anyone. *)
Definition private_mode (mode : N) : Prop :=
  N.testbit mode 8 = true ∧ ∀ i, i < 7 → N.testbit mode i = false.

Lemma land_bits mode m :
  m < 512 →
  N.land mode PERMISSION_BITS = m ↔ ∀ i, i < 9 → N.testbit mode i = N.testbit m i.
Proof.
  intros Hm. assert (∀ i, N.testbit PERMISSION_BITS i = (i <? 9)) as Hones.
  { intros i. change PERMISSION_BITS with (N.ones 9).
    destruct (N.ltb_spec i 9); [by apply N.ones_spec_low|by apply N.ones_spec_high]. }
  split.
  - intros <- i Hi. rewrite N.land_spec, Hones. apply N.ltb_lt in Hi. rewrite Hi.
    by rewrite andb_true_r.
  - intros Hbits. apply N.bits_inj. intros i. rewrite N.land_spec, Hones.
    destruct (N.ltb_spec i 9) as [Hi|Hi]; [by rewrite andb_true_r, Hbits|].
    rewrite andb_false_r. symmetry. destruct (N.eq_dec m 0) as [->|Hm0]; [by rewrite N.bits_0|].
    apply N.bits_above_log2. apply N.log2_lt_pow2; [lia|].
    apply (N.lt_le_trans _ (2 ^ 9)); [done|]. by apply N.pow_le_mono_r.
Qed.

Lemma below_9 (P : N → Prop) :
  P 0 → P 1 → P 2 → P 3 → P 4 → P 5 → P 6 → P 7 → P 8 → ∀ i, i < 9 → P i.
Proof.
  intros. assert (i = 0 ∨ i = 1 ∨ i = 2 ∨ i = 3 ∨ i = 4 ∨ i = 5 ∨ i = 6 ∨ i = 7 ∨ i = 8)
    as Hi by lia.
  repeat destruct Hi as [->|Hi]; by try subst i.
Qed.

Lemma permissions_ok_private mode : permissions_ok mode = true ↔ private_mode mode.
Proof.
  unfold permissions_ok, private_mode. rewrite orb_true_iff, !N.eqb_eq.
  rewrite !land_bits by (vm_compute; reflexivity). split.
  - intros H. split; [by destruct H as [H|H]; rewrite H|].
    assert (∀ i, i < 9 → i < 7 →
      N.testbit USER_READ_ONLY i = false ∧ N.testbit USER_READ_WRITE i = false) as Hlow.
    { apply (below_9 (λ i, i < 7 → N.testbit USER_READ_ONLY i = false ∧
        N.testbit USER_READ_WRITE i = false)); intros; try done; lia. }
    intros i Hi. destruct (Hlow i ltac:(lia) Hi).
    destruct H as [H|H]; by rewrite H by lia.
  - intros [H8 Hlow]. destruct (N.testbit mode 7) eqn:H7; [right|left].
    + apply (below_9 (λ i, N.testbit mode i = N.testbit USER_READ_WRITE i));
        rewrite ?H7, ?H8, ?Hlow by lia; done.
    + apply (below_9 (λ i, N.testbit mode i = N.testbit USER_READ_ONLY i));
        rewrite ?H7, ?H8, ?Hlow by lia; done.
Qed.

Section Secret.
Context `{!ErrorPayloads} {fs : FileSystem}.

(** C31. A secret is loaded exactly when its file is private to the user (readable by
    the owner, not executable, with no permission for anyone else), can be read, and
    holds more than whitespace; a file with other permissions stops the program before
    it is read. *)
Theorem secret_loaded_from_private_file path team :
  (∀ s, secret_new path team = Ok s ↔
     ∃ mode contents, metadata_mode path = inr mode ∧ private_mode mode ∧
       read_to_string path = inr contents ∧ trim contents ≠ [] ∧
       s = {| token_value := trim contents; team_id := team |}) ∧
  (∀ mode, metadata_mode path = inr mode → ¬ private_mode mode →
     secret_new path team = Panic (permissions_message path mode)).
Proof.
  unfold secret_new. split.
  - intros s. destruct (metadata_mode path) as [e|mode]; cbn; [split; [done|naive_solver]|].
    pose proof (permissions_ok_private mode) as Hp. destruct (permissions_ok mode).
    + destruct (read_to_string path) as [e|contents]; cbn; [split; [done|naive_solver]|].
      destruct (trim contents) as [|c t] eqn:Ht; split.
      * done.
      * intros (? & ? & _ & _ & [= <-] & Hne & _). congruence.
      * intros [= <-]. exists mode, contents. rewrite Ht. split_and!; try done. by apply Hp.
      * intros (? & ? & _ & _ & [= <-] & _ & ->). by rewrite Ht.
    + split; [done|]. intros (? & ? & [= <-] & Hpriv & _). by apply Hp in Hpriv.
  - intros mode -> Hn. cbn. destruct (permissions_ok mode) eqn:Hok; [|done].
    by apply permissions_ok_private in Hok.
Qed.

Lemma alerter_new_channel config a :
  alerter_new config = Ok a → channel_name a = channel_of (slack_channel_name config).
Proof. unfold alerter_new. by destruct (secret_new _ _); intros [= <-]. Qed.

Lemma channel_of_hash name : channel_of ("#" +:+ name) = "#" +:+ name.
Proof. done. Qed.
End Secret.

Section Run.
Context `{!ErrorPayloads} `{!Formats} {W : Type} {slack : SlackApi W}.
Context (alerter : SlackAlerter) (format_config : FormatConfig).

Lemma slack_turns alerts texts (s : Poster W) :
  Forall2 (λ a t, format_alert (E:=Error) format_config a = Ok t) alerts texts →
  ∃ w, drive (slack_turn alerter format_config) (Some <$> alerts) s =
    (Ok tt, {| slack_world := w; posts := posts s ++ (request_for alerter <$> texts) |}).
Proof.
  intros Hall. revert s. induction Hall as [|a t alerts texts Ha _ IH]; intros s.
  { exists (slack_world s). destruct s. cbn. by rewrite app_nil_r. }
  destruct (chat_post_message (request_for alerter t) (slack_world s)) as [r w] eqn:Hpost.
  destruct (IH {| slack_world := w; posts := posts s ++ [request_for alerter t] |})
    as (w' & Hrun).
  exists w'. cbn [fmap list_fmap]. erewrite drive_cons; [rewrite Hrun; cbn; by rewrite <-app_assoc|].
  unfold slack_turn. m_step. by eapply post_run.
Qed.

(** Once connected, the alerter posts every alert it receives, once, in order, to
    its channel, and goes on whatever Slack answers; it ends only when the stream is
    closed. *)
Theorem slack_posts_every_alert alerts texts (s : Poster W) w1 w2 :
  hyper_connector (slack_world s) = (inr tt, w1) →
  auth_test (secret alerter) w1 = (inr tt, w2) →
  Forall2 (λ a t, format_alert (E:=Error) format_config a = Ok t) alerts texts →
  ∃ w, slack_run alerter format_config (Some <$> alerts) s =
      (Ok tt, {| slack_world := w; posts := posts s ++ (request_for alerter <$> texts) |}) ∧
    slack_run alerter format_config ((Some <$> alerts) ++ [None]) s =
      (Err (App "Slack stream closed"),
       {| slack_world := w; posts := posts s ++ (request_for alerter <$> texts) |}).
Proof.
  intros Hc Ha Hall.
  destruct (slack_turns alerts texts {| slack_world := w2; posts := posts s |} Hall) as (w & Hrun).
  assert (∀ l, slack_run alerter format_config l s =
    drive (slack_turn alerter format_config) l {| slack_world := w2; posts := posts s |}) as Hs.
  { intros l. unfold slack_run. by erewrite bind_ok by (by eapply slack_open_run). }
  exists w. rewrite !Hs. split; [done|]. by rewrite (drive_snoc_ok _ _ _ _ _ Hrun).
Qed.
End Run.

(** ** Witness *)
Module SlackToy.
#[local] Instance payloads : ErrorPayloads := {|
  subxt_Error := (); JoinError := (); reqwest_Error := (); subxt_rpcs_Error := ();
  codec_Error := (); io_Error := (); toml_Error := (); SlackClientError := () |}.
#[local] Instance formats : Formats := {|
  format_duration d := pretty d; urlencode s := s; hex_encode h := pretty h;
  display_hash h := pretty h; Decimal := N; decimal_from n := Some n;
  decimal_div a b := Some (a / b); display_decimal d := pretty d |}.
(** Every other post is refused. *)
#[local] Instance api : SlackApi nat := {|
  hyper_connector w := (inr tt, w); auth_test _ w := (inr tt, w);
  chat_post_message _ w := (if Nat.even w then inr tt else inl tt, S w) |}.
Definition alerter : SlackAlerter :=
  {| bot_name := "alerts"; bot_icon := "robot_face"; channel_name := "#chain";
     secret := {| token_value := [120]; team_id := "T" |} |}.
Definition config : FormatConfig :=
  {| rpc_url := "wss://rpc"; token_name := "AI3"; token_decimals := 18 |}.
Definition alerts : list Alert := [AlertEvent EvSudo; AlertEvent (EvCodeUpdated mk_CodeUpdated)].
End SlackToy.

Lemma slack_posts_every_alert_witness :
  ∃ w, slack_run (H:=SlackToy.payloads) (H0:=SlackToy.formats) (slack:=SlackToy.api)
      SlackToy.alerter SlackToy.config (Some <$> SlackToy.alerts)
      {| slack_world := 0%nat; posts := [] |} =
    (Ok tt, {| slack_world := w; posts := request_for SlackToy.alerter <$>
      ["**Sudo event triggered**"; "**Runtime code updated**"]%string |}).
Proof.
  destruct (slack_posts_every_alert (H:=SlackToy.payloads) (H0:=SlackToy.formats)
    (slack:=SlackToy.api) SlackToy.alerter SlackToy.config SlackToy.alerts
    ["**Sudo event triggered**"; "**Runtime code updated**"]%string
    {| slack_world := 0%nat; posts := [] |} 0%nat 0%nat) as (w & Hrun & _).
  - reflexivity.
  - reflexivity.
  - repeat constructor.
  - exists w. exact Hrun.
Defined.
