(* ===== verification/Cli.v ===== *)
(** * The command line (alerter/src/cli.rs)

    The options the [Parser] derives declare, and the configuration made from their
    values.  Splitting the command line into options is clap's, reading a duration is
    humantime's: both are parameters with the behaviour they document. *)

From Stdlib Require Import Ascii.
From S2P Require Import Prelude Duration Errors Headers EventTypes Alerts MdFormat Slack.

Local Open Scope N_scope.

(** ** The declared options *)

(** [#[arg(long, required = .., default_value = ..)]]; a field that is neither required
    nor an [Option] and has no default does not occur. *)
Record Opt : Type := { long : string; required : bool; default_value : option string }.

Definition opt_required (name : string) : Opt :=
  {| long := name; required := true; default_value := None |}.
Definition opt_default (name value : string) : Opt :=
  {| long := name; required := false; default_value := Some value |}.
Definition opt_optional (name : string) : Opt :=
  {| long := name; required := false; default_value := None |}.

Definition uptimekuma_options : list Opt :=
  [opt_optional "uptimekuma-url"; opt_default "uptimekuma-interval" "60s"].
Definition stall_and_reorg_options : list Opt :=
  [opt_default "non-block-import-threshold" "60s"; opt_default "reorg-depth-threshold" "6"].
Definition slack_options : list Opt :=
  [opt_default "slack-team-id" "T03LJ85UR5G"; opt_required "slack-bot-name";
   opt_default "slack-bot-icon" "robot_face"; opt_required "slack-channel-name";
   opt_default "slack-secret-path" "/slack-secret"].
Definition slots_options : list Opt :=
  [opt_default "per-slot-threshold" "1.2s"; opt_default "avg-slot-threshold" "1.1s"].

Definition options : list Opt :=
  [opt_required "rpc-url"; opt_default "network-config-path" "/networks.toml"] ++
  uptimekuma_options ++ stall_and_reorg_options ++ slack_options ++ slots_options.

(** ** The configuration *)
Record UptimekumaConfig : Type := {
  uptimekuma_url : option string;
  uptimekuma_interval : Duration;
}.

Record Config : Type := {
  cfg_rpc_url : string;
  network_config_path : string;
  uptimekuma : UptimekumaConfig;
  stall_and_reorg : StallAndReorgConfig;
  slack : SlackConfig;
  cfg_slots : SlotsConfig;
}.

(** clap: the value given for each option on the command line, or its refusal. *)
Class Clap : Type := {
  clap_Error : Type;
  get_matches : list Opt → list string → result clap_Error (gmap string string);
  given : list string → gmap string string;
  invalid_value : string → string → clap_Error;
}.

(** For options with different names: an accepted command line gives only declared options and every required one; an
    option that is not given has its default. *)
Class ClapLaws `{Clap} : Prop := {
  matches_value opts args m o :
    NoDup (long <$> opts) → get_matches opts args = inr m → o ∈ opts →
    m !! long o = match given args !! long o with Some v => Some v | None => default_value o end;
  matches_required opts args m o :
    get_matches opts args = inr m → o ∈ opts → required o = true →
    is_Some (given args !! long o);
  matches_declared opts args m name :
    get_matches opts args = inr m → is_Some (given args !! name) → ∃ o, o ∈ opts ∧ long o = name;
}.

(** humantime's [Duration::from_str]. *)
Class Humantime : Type := { parse_duration : string → option Duration }.
Class HumantimeLaws `{Humantime} : Prop := {
  parse_duration_max s d : parse_duration s = Some d → d <= Duration.MAX;
  parse_60s : parse_duration "60s" = Some (Duration.from_secs 60);
  parse_1_2s : parse_duration "1.2s" = Some 1200000000;
  parse_1_1s : parse_duration "1.1s" = Some 1100000000;
}.

(** [str::parse::<usize>], on a 64-bit target: digits after an optional plus sign, of a
    value below 2^64. *)
Definition digit (c : ascii) : option N :=
  let n := N_of_ascii c in if (48 <=? n) && (n <=? 57) then Some (n - 48) else None.

Fixpoint parse_digits (acc : N) (s : string) : option N :=
  match s with
  | EmptyString => Some acc
  | String c s =>
      d ← digit c;
      if 10 * acc + d <=? u64_max then parse_digits (10 * acc + d) s else None
  end.

Definition parse_usize (s : string) : option N :=
  match s with
  | EmptyString => None
  | String c rest =>
      if decide (c = "+"%char) then
        match rest with EmptyString => None | _ => parse_digits 0 rest end
      else parse_digits 0 s
  end.

Section Parse.
Context `{!Clap} `{!Humantime}.
Abbreviation O := (outcome clap_Error).

(** The value of an option as a string; clap has made sure there is one. *)
Definition value_of (m : gmap string string) (name : string) : O string :=
  expect "option has a value" (m !! name).

Definition parsed {A} (parse : string → option A) (m : gmap string string) (name : string) : O A :=
  v ← value_of m name;
  match parse v with Some a => Ok a | None => Err (invalid_value name v) end.

Definition parse_uptimekuma (m : gmap string string) : O UptimekumaConfig :=
  interval ← parsed parse_duration m "uptimekuma-interval";
  mret {| uptimekuma_url := m !! "uptimekuma-url"; uptimekuma_interval := interval |}.

Definition parse_stall_and_reorg (m : gmap string string) : O StallAndReorgConfig :=
  threshold ← parsed parse_duration m "non-block-import-threshold";
  depth ← parsed parse_usize m "reorg-depth-threshold";
  mret {| non_block_import_threshold := threshold; reorg_depth_threshold := depth |}.

Definition parse_slack (m : gmap string string) : O SlackConfig :=
  team ← value_of m "slack-team-id";
  name ← value_of m "slack-bot-name";
  icon ← value_of m "slack-bot-icon";
  channel ← value_of m "slack-channel-name";
  path ← value_of m "slack-secret-path";
  mret {| slack_team_id := team; slack_bot_name := name; slack_bot_icon := icon;
          slack_channel_name := channel; slack_secret_path := path |}.

Definition parse_slots (m : gmap string string) : O SlotsConfig :=
  per_slot ← parsed parse_duration m "per-slot-threshold";
  avg_slot ← parsed parse_duration m "avg-slot-threshold";
  mret {| per_slot_threshold := per_slot; avg_slot_threshold := avg_slot |}.

(** [Config::parse()], which exits with clap's message on an error. *)
Definition parse (args : list string) : O Config :=
  m ← (match get_matches options args with inl e => Err e | inr m => Ok m end : O _);
  rpc_url ← value_of m "rpc-url";
  path ← value_of m "network-config-path";
  uptimekuma ← parse_uptimekuma m;
  stall_and_reorg ← parse_stall_and_reorg m;
  slack ← parse_slack m;
  slots ← parse_slots m;
  mret {| cfg_rpc_url := rpc_url; network_config_path := path; uptimekuma := uptimekuma;
          stall_and_reorg := stall_and_reorg; slack := slack; cfg_slots := slots |}.
End Parse.

(** ** What parsing guarantees *)
Section Properties.
Context `{!Clap} `{!Humantime} `{!ClapLaws} `{!HumantimeLaws}.

(** An option that is required or has a default has a value. *)
Definition settled (o : Opt) : Prop := required o = true ∨ is_Some (default_value o).

Lemma options_distinct : NoDup (long <$> options).
Proof. by apply (bool_decide_unpack _). Qed.

Lemma settled_value args m o :
  get_matches options args = inr m → o ∈ options → settled o → is_Some (m !! long o).
Proof.
  intros Hm Ho Hs. rewrite (matches_value _ _ _ _ options_distinct Hm Ho).
  destruct Hs as [Hr|Hd]; [|by destruct (given args !! long o)].
  by destruct (matches_required _ _ _ _ Hm Ho Hr) as [v ->].
Qed.

Lemma value_of_settled args m o :
  get_matches options args = inr m → o ∈ options → settled o →
  ∃ v, value_of m (long o) = Ok v ∧ m !! long o = Some v.
Proof.
  intros Hm Ho Hs. destruct (settled_value args m o Hm Ho Hs) as [v Hv].
  exists v. unfold value_of. by rewrite Hv.
Qed.

Lemma parse_digits_max acc s n : acc <= u64_max → parse_digits acc s = Some n → n <= u64_max.
Proof.
  revert acc. induction s as [|c s IH]; intros acc Hacc; cbn; [by intros [= <-]|].
  destruct (digit c) as [d|]; cbn; [|done].
  destruct (N.leb_spec (10 * acc + d) u64_max); [by apply IH|done].
Qed.

Lemma parse_usize_max s n : parse_usize s = Some n → n <= u64_max.
Proof.
  unfold parse_usize. destruct s as [|c s]; [done|].
  destruct (decide _); [destruct s; [done|]|]; by apply parse_digits_max.
Qed.

(** A parsed configuration holds values of the types the code gives them. *)
Record config_ok (c : Config) : Prop := {
  ok_interval : uptimekuma_interval (uptimekuma c) <= Duration.MAX;
  ok_import : non_block_import_threshold (stall_and_reorg c) <= Duration.MAX;
  ok_depth : reorg_depth_threshold (stall_and_reorg c) <= u64_max;
  ok_per_slot : per_slot_threshold (cfg_slots c) <= Duration.MAX;
  ok_avg_slot : avg_slot_threshold (cfg_slots c) <= Duration.MAX;
}.

Lemma parsed_settled {A} (f : string → option A) args m o :
  get_matches options args = inr m → o ∈ options → settled o →
  (∃ v a, m !! long o = Some v ∧ f v = Some a ∧ parsed f m (long o) = Ok a) ∨
  (∃ e, parsed f m (long o) = Err e).
Proof.
  intros Hm Ho Hs. destruct (value_of_settled args m o Hm Ho Hs) as (v & Hv & Hl).
  unfold parsed. rewrite Hv. cbn. destruct (f v) as [a|] eqn:Hf; [left|right]; by repeat eexists.
Qed.

(** The declared options, as read by [parse]. *)
Ltac declared :=
  lazymatch goal with
  | |- _ ∈ options =>
      cbv [options uptimekuma_options stall_and_reorg_options slack_options slots_options app];
      repeat (apply elem_of_cons; first [left; reflexivity|right])
  | |- settled _ => unfold settled; cbn; eauto
  | |- _ => vm_compute; reflexivity
  end.
Ltac read_string Hm o :=
  let v := fresh "v" in let Hv := fresh "Hv" in let Hl := fresh "Hl" in
  destruct (value_of_settled _ _ o Hm ltac:(declared) ltac:(declared)) as (v & Hv & Hl);
  cbn [long opt_required opt_default] in Hv, Hl; rewrite Hv; clear Hv; cbn [mbind outcome_bind].
Ltac read_parsed Hm f o :=
  let Hv := fresh "Hv" in
  destruct (parsed_settled f _ _ o Hm ltac:(declared) ltac:(declared))
    as [(? & ? & ? & ? & Hv)|(? & Hv)];
  cbn [long opt_required opt_default] in *; rewrite Hv; clear Hv; cbn [mbind outcome_bind].

Lemma required_given args m name v :
  get_matches options args = inr m → opt_required name ∈ options → m !! name = Some v →
  given args !! name = Some v.
Proof.
  intros Hm Ho Hv. pose proof (matches_value _ _ _ _ options_distinct Hm Ho) as Hval. cbn in Hval.
  rewrite Hv in Hval. by destruct (given args !! name); simplify_eq.
Qed.

Lemma parse_cases args :
  (∃ e, parse args = Err e) ∨
  ∃ c, parse args = Ok c ∧ config_ok c ∧
    given args !! "rpc-url" = Some (cfg_rpc_url c) ∧
    given args !! "slack-bot-name" = Some (slack_bot_name (slack c)) ∧
    given args !! "slack-channel-name" = Some (slack_channel_name (slack c)).
Proof.
  unfold parse, parse_uptimekuma, parse_stall_and_reorg, parse_slack, parse_slots.
  destruct (get_matches options args) as [e|m] eqn:Hm; [left; by exists e|].
  cbn [mbind outcome_bind].
  read_string Hm (opt_required "rpc-url").
  read_string Hm (opt_default "network-config-path" "/networks.toml").
  read_parsed Hm parse_duration (opt_default "uptimekuma-interval" "60s"); [|left; by eexists].
  read_parsed Hm parse_duration (opt_default "non-block-import-threshold" "60s");
    [|left; by eexists].
  read_parsed Hm parse_usize (opt_default "reorg-depth-threshold" "6"); [|left; by eexists].
  read_string Hm (opt_default "slack-team-id" "T03LJ85UR5G").
  read_string Hm (opt_required "slack-bot-name").
  read_string Hm (opt_default "slack-bot-icon" "robot_face").
  read_string Hm (opt_required "slack-channel-name").
  read_string Hm (opt_default "slack-secret-path" "/slack-secret").
  read_parsed Hm parse_duration (opt_default "per-slot-threshold" "1.2s"); [|left; by eexists].
  read_parsed Hm parse_duration (opt_default "avg-slot-threshold" "1.1s"); [|left; by eexists].
  right. eexists. split; [reflexivity|]. split.
  - split; cbn; eauto using parse_duration_max, parse_usize_max.
  - cbn. split_and!; eapply required_given; done || declared.
Qed.

Lemma parse_ok args c : parse args = Ok c → config_ok c.
Proof.
  intros Hp. destruct (parse_cases args) as [[e He]|(c' & Hc & Hok & _)]; congruence.
Qed.

(** C10. A configuration that is accepted is well typed: parsing a command line never panics;
    it fails with clap's error, or gives the node's URL, the bot's name and its channel
    exactly as they stand on the command line, which must have them, and thresholds and
    intervals that are [Duration]s and a [usize], as the monitors assume. *)
Theorem parse_well_typed args :
  (∃ e, parse args = Err e) ∨
  ∃ c, parse args = Ok c ∧ config_ok c ∧
    given args !! "rpc-url" = Some (cfg_rpc_url c) ∧
    given args !! "slack-bot-name" = Some (slack_bot_name (slack c)) ∧
    given args !! "slack-channel-name" = Some (slack_channel_name (slack c)).
Proof. apply parse_cases. Qed.

(** The defaults: a command line that only gives the required options is accepted with a
    push interval and a stall threshold of a minute, a reorg depth of 6, slot thresholds
    of 1.2 and 1.1 seconds, and no uptime pushes. *)
Theorem parse_defaults args url bot chan :
  (∃ m, get_matches options args = inr m) →
  given args = {[ "rpc-url" := url; "slack-bot-name" := bot; "slack-channel-name" := chan ]} →
  parse args = Ok {|
    cfg_rpc_url := url; network_config_path := "/networks.toml";
    uptimekuma := {| uptimekuma_url := None; uptimekuma_interval := Duration.from_secs 60 |};
    stall_and_reorg :=
      {| non_block_import_threshold := Duration.from_secs 60; reorg_depth_threshold := 6 |};
    slack := {| slack_team_id := "T03LJ85UR5G"; slack_bot_name := bot;
                slack_bot_icon := "robot_face"; slack_channel_name := chan;
                slack_secret_path := "/slack-secret" |};
    cfg_slots := {| per_slot_threshold := 1200000000; avg_slot_threshold := 1100000000 |} |}.
Proof.
  intros [m Hm] Hg. unfold parse. rewrite Hm.
  pose proof (λ o Ho, matches_value _ _ _ o options_distinct Hm Ho) as Hval. rewrite Hg in Hval.
  assert (∀ o v, o ∈ options → match ({[ "rpc-url" := url; "slack-bot-name" := bot;
      "slack-channel-name" := chan ]} : gmap string string) !! long o with
      Some v => Some v | None => default_value o end = v → m !! long o = v) as Hread
    by (intros o v Ho <-; by apply Hval).
  assert (m !! "rpc-url" = Some url ∧ m !! "slack-bot-name" = Some bot ∧
    m !! "slack-channel-name" = Some chan ∧ m !! "uptimekuma-url" = None) as (Hu & Hb & Hc & Hk).
  { split_and!; [apply (Hread (opt_required _))|apply (Hread (opt_required _))|
      apply (Hread (opt_required _))|apply (Hread (opt_optional _))]; declared. }
  assert (∀ name v, opt_default name v ∈ options → ({[ "rpc-url" := url;
      "slack-bot-name" := bot; "slack-channel-name" := chan ]} : gmap string string) !! name = None →
    m !! name = Some v) as Hd.
  { intros name v Ho Hn. apply (Hread (opt_default name v) (Some v) Ho). cbn. by rewrite Hn. }
  unfold parse_uptimekuma, parse_stall_and_reorg, parse_slack, parse_slots, parsed, value_of.
  cbn [mbind outcome_bind]. rewrite Hu, Hb, Hc, Hk.
  rewrite (Hd "network-config-path" "/networks.toml"), (Hd "uptimekuma-interval" "60s"),
    (Hd "non-block-import-threshold" "60s"), (Hd "reorg-depth-threshold" "6"),
    (Hd "slack-team-id" "T03LJ85UR5G"), (Hd "slack-bot-icon" "robot_face"),
    (Hd "slack-secret-path" "/slack-secret"), (Hd "per-slot-threshold" "1.2s"),
    (Hd "avg-slot-threshold" "1.1s")
    by declared.
  cbn [expect mbind outcome_bind]. by rewrite parse_60s, parse_1_2s, parse_1_1s.
Qed.
(** An option that is not declared is refused; the command line of README.md ([--name],
    [--icon], [--node-rpc-url], [--production] and so on) has only such options. *)
Theorem undeclared_option_refused args name :
  is_Some (given args !! name) → Forall (λ o, long o ≠ name) options → ∃ e, parse args = Err e.
Proof.
  intros Hg Hall. unfold parse. destruct (get_matches options args) as [e|m] eqn:Hm; [by exists e|].
  destruct (matches_declared _ _ _ _ Hm Hg) as (o & Ho & Hn).
  rewrite Forall_forall in Hall. by apply Hall in Ho.
Qed.

Lemma readme_options_undeclared :
  Forall (λ name, Forall (λ o, long o ≠ name) options)
    ["name"; "icon"; "node-rpc-url"; "uptime-kuma-url"; "production"; "slack"; "alert-limit";
     "test-startup"].
Proof. by apply (bool_decide_unpack _). Qed.
End Properties.

(** ** Witnesses *)
Module CliToy.
(** An option's name and value are two arguments in a row. *)
Fixpoint pairs (args : list string) : list (string * string) :=
  match args with
  | name :: value :: args => (name, value) :: pairs args
  | _ => []
  end.
Definition toy_given (args : list string) : gmap string string := list_to_map (pairs args).
Definition accepted (opts : list Opt) (g : gmap string string) : bool :=
  forallb (λ o, negb (required o) || bool_decide (is_Some (g !! long o))) opts &&
  forallb (λ kv, bool_decide (kv.1 ∈ (long <$> opts))) (map_to_list g).
Definition toy_matches (opts : list Opt) (g : gmap string string) : gmap string string :=
  g ∪ list_to_map (omap (λ o, pair (long o) <$> default_value o) opts).

#[local] Instance clap : Clap := {|
  clap_Error := string;
  get_matches opts args :=
    if accepted opts (toy_given args) then inr (toy_matches opts (toy_given args)) else inl "usage";
  given := toy_given; invalid_value name v := name |}.

Lemma default_lookup opts o :
  NoDup (long <$> opts) → o ∈ opts →
  (list_to_map (omap (λ o, pair (long o) <$> default_value o) opts) : gmap string string) !! long o
    = default_value o.
Proof.
  induction opts as [|x opts IH]; cbn; [by intros _ ?%not_elem_of_nil|].
  intros [Hx Hnd]%NoDup_cons [->|Ho]%elem_of_cons.
  - destruct (default_value x) as [v|]; cbn; [by rewrite lookup_insert_eq|].
    apply not_elem_of_list_to_map. intros (kv & Hkv & Hin)%list_elem_of_fmap.
    apply list_elem_of_omap in Hin as (y & Hy & Hkv'). apply Hx.
    destruct (default_value y); simplify_eq/=. rewrite Hkv. by apply list_elem_of_fmap_2.
  - destruct (default_value x) as [v|]; cbn; [|by apply IH].
    rewrite lookup_insert_ne; [by apply IH|]. intros Heq. apply Hx. rewrite Heq.
    by apply list_elem_of_fmap_2.
Qed.

#[local] Instance laws : ClapLaws.
Proof.
  assert (∀ opts g, accepted opts g = true →
    (∀ o, o ∈ opts → required o = true → is_Some (g !! long o)) ∧
    (∀ name, is_Some (g !! name) → name ∈ (long <$> opts))) as Hacc.
  { intros opts g [Hr Hd]%andb_true_iff. rewrite forallb_forall in Hr, Hd. split.
    - intros o Ho Hreq. apply list_elem_of_In, Hr in Ho. rewrite Hreq in Ho.
      by apply bool_decide_eq_true in Ho.
    - intros name [v Hv]. apply elem_of_map_to_list, list_elem_of_In, Hd in Hv.
      by apply bool_decide_eq_true in Hv. }
  split; cbn; intros opts args m x; destruct (accepted opts (toy_given args)) eqn:Ha; try done;
    apply Hacc in Ha as [Hr Hd].
  - intros Hnd [= <-] Ho. unfold toy_matches. rewrite lookup_union, default_lookup by done.
    by destruct (toy_given args !! long x), (default_value x).
  - intros [= <-] Ho Hreq. by apply Hr.
  - intros [= <-] (o & -> & Ho)%Hd%list_elem_of_fmap. by exists o.
Qed.

#[local] Instance humantime : Humantime := {|
  parse_duration s :=
    if decide (s = "60s"%string) then Some (Duration.from_secs 60)
    else if decide (s = "1.2s"%string) then Some 1200000000
    else if decide (s = "1.1s"%string) then Some 1100000000 else None |}.
#[local] Instance humantime_laws : HumantimeLaws.
Proof.
  split; [|done..]. intros s d. cbn. repeat case_decide; intros [= <-]; by vm_compute.
Qed.

Definition args : list string :=
  ["rpc-url"; "wss://rpc"; "slack-bot-name"; "alerts"; "slack-channel-name"; "#chain"].
End CliToy.
#[local] Existing Instances CliToy.clap CliToy.laws CliToy.humantime CliToy.humantime_laws.

Lemma parse_defaults_witness :
  from_option (λ c, reorg_depth_threshold (stall_and_reorg c)) 0
    (match parse CliToy.args with Ok c => Some c | _ => None end) = 6.
Proof.
  rewrite (parse_defaults CliToy.args "wss://rpc" "alerts" "#chain").
  - reflexivity.
  - assert (CliToy.accepted options (CliToy.toy_given CliToy.args) = true) as Ha
      by (vm_compute; reflexivity).
    cbn [get_matches CliToy.clap]. rewrite Ha. by eexists.
  - vm_compute. reflexivity.
Defined.

Lemma undeclared_option_refused_witness :
  ∃ e, parse ["node-rpc-url"; "wss://rpc.mainnet.autonomys.xyz/ws"] = Err e.
Proof.
  apply (undeclared_option_refused _ "node-rpc-url").
  - vm_compute. by eexists.
  - apply (bool_decide_unpack _). vm_compute. exact I.
Defined.

Lemma parse_well_typed_witness :
  ∃ c, parse CliToy.args = Ok c ∧ config_ok c ∧
    given CliToy.args !! "rpc-url" = Some (cfg_rpc_url c).
Proof.
  destruct (parse_well_typed CliToy.args) as [[e He]|(c & Hc & Hok & Hu & _)].
  - vm_compute in He. discriminate.
  - exists c. split; [exact Hc|]. split; [exact Hok|exact Hu].
Defined.
