(* ===== verification/Main.v ===== *)
(** * The network's details and configuration, and the uptime pusher
    ([Subspace::network_details] of alerter/src/subspace.rs, alerter/src/main.rs,
    alerter/src/uptime.rs)

    What the program learns about its network before it starts the monitors, and the
    task that pushes the uptime status.  JSON values, TOML and HTTP belong to other
    crates. *)

From S2P Require Import Prelude Duration Errors Headers Follower P2p Events.

Local Open Scope N_scope.

(** ** [Subspace::network_details] *)
Class ChainInfo `{!ErrorPayloads} (W : Type) : Type := {
  Value : Type;
  as_u64 : Value → option N;
  as_str : Value → option string;
  system_chain : W → result subxt_rpcs_Error string * W;
  system_properties : W → result subxt_rpcs_Error (gmap string Value) * W;
}.
Arguments Value {_} _ {_}.

Record NetworkDetails : Type := {
  name : string;
  ss58_format : N;
  token_symbol : string;
  nd_token_decimals : N;
  genesis_hash : BlockHash;
}.

(** The casts [as u16] and [as u8]. *)
Definition cast_u16 (n : N) : N := n `mod` 2 ^ 16.
Definition cast_u8 (n : N) : N := n `mod` 2 ^ 8.

Section Details.
Context `{!ErrorPayloads} `{!Substrate} {W : Type} {node : NodeApi W} {info : ChainInfo W}.

Definition rpc_call {A} (f : W → result subxt_rpcs_Error A * W) : M W Error A := λ w,
  let '(r, w) := f w in (question r, w).

Definition details_of (name : string) (properties : gmap string (Value W))
    (genesis_hash : BlockHash) : outcome Error NetworkDetails :=
  ss58_format ← ok_or (Config "Failed to get Ss58Format")
    (v ← properties !! "ss58Format"; n ← as_u64 v; Some (cast_u16 n));
  token_symbol ← ok_or (Config "Failed to get Token Symbol")
    (v ← properties !! "tokenSymbol"; as_str v);
  token_decimals ← ok_or (Config "Failed to get Token Symbol")
    (v ← properties !! "tokenDecimals"; as_u64 v);
  mret {| name := name; ss58_format := ss58_format; token_symbol := token_symbol;
          nd_token_decimals := cast_u8 token_decimals; genesis_hash := genesis_hash |}.

Definition network_details : M W Error NetworkDetails :=
  name ← rpc_call system_chain;
  system_properties ← rpc_call system_properties;
  genesis ← rpc_call (chain_get_block_hash (Some 0));
  genesis_hash ← lift (expect "Block hash always exists" genesis);
  lift (details_of name system_properties genesis_hash).

Lemma rpc_call_run {A} (f : W → result subxt_rpcs_Error A * W) a w w' :
  f w = (inr a, w') → rpc_call f w = (Ok a, w').
Proof. unfold rpc_call. by intros ->. Qed.
End Details.

#[export] Hint Resolve rpc_call_run : alerter_run.

(** ** The configuration of the network *)
Record NetworkConfig `{Libp2p} : Type := {
  accounts : list Account;
  nc_bootnodes : list Multiaddr;
}.

Record NetworksConfig `{Libp2p} : Type := { networks : gmap string NetworkConfig }.

Class ConfigFiles `{!ErrorPayloads} `{!Libp2p} : Type := {
  config_text : string → result io_Error string;
  from_toml : string → result toml_Error NetworksConfig;
}.

Section Configuration.
Context `{!ErrorPayloads} `{!Libp2p} {files : ConfigFiles}.

Definition load_networks_config (path : string) : outcome Error NetworksConfig :=
  config ← question (config_text path);
  question (from_toml config).

(** [networks.get(&name).cloned().ok_or(..)?]. *)
Definition network_config (path name : string) : outcome Error NetworkConfig :=
  networks_config ← load_networks_config path;
  ok_or (Config ("Missing network config: " +:+ name)) (networks networks_config !! name).
End Configuration.

(** [if let Some(update) = join_set.join_next().await { update??; }]: the program ends
    with the first of its tasks that does. *)
Definition end_of_main `{!ErrorPayloads} (first : option (result JoinError (result Error ())))
    : outcome Error () :=
  match first with
  | Some update => ended ← question update; question ended
  | None => mret tt
  end.

(** ** The uptime pusher *)
Class Http `{!ErrorPayloads} (W : Type) : Type := {
  http_get : string → W → result reqwest_Error N * W;
}.

Record Pusher (W : Type) : Type := { http_world : W; pushed : list string }.
Arguments http_world {W} _.
Arguments pushed {W} _.

Section Uptime.
Context `{!ErrorPayloads} {W : Type} {http : Http W} (url : string) (every : Duration).

Definition formatted_url : string :=
  url +:+ "?status=up&msg=Ok&ping=" +:+ pretty (Duration.as_millis every).

(** One tick: the response's status is only logged. *)
Definition push_turn : M (Pusher W) Error () := λ s,
  let '(res, w) := http_get formatted_url (http_world s) in
  (_ ← question res; mret tt, {| http_world := w; pushed := pushed s ++ [formatted_url] |}).

Definition push_uptime_status (ticks : nat) : M (Pusher W) Error () :=
  drive (λ _, push_turn) (replicate ticks ()).
End Uptime.

(** ** Properties *)
Section Properties.
Context `{!ErrorPayloads} `{!Substrate} {W : Type} {node : NodeApi W} {info : ChainInfo W}.

(** C33. What is learned of the network: with the three calls answered, the details are
    read off the properties, or the first property that is missing or has another type
    is an error; the token decimals and the address format are cut to 8 and 16 bits, so
    larger values are not refused but taken modulo 2^8 and 2^16. *)
Theorem network_details_spec w nm w1 props w2 genesis w3 :
  system_chain w = (inr nm, w1) → system_properties w1 = (inr props, w2) →
  chain_get_block_hash (Some 0) w2 = (inr (Some genesis), w3) →
  network_details w =
    (match props !! "ss58Format" ≫= as_u64, props !! "tokenSymbol" ≫= as_str,
           props !! "tokenDecimals" ≫= as_u64 with
     | None, _, _ => Err (Config "Failed to get Ss58Format")
     | _, None, _ | _, _, None => Err (Config "Failed to get Token Symbol")
     | Some ss58, Some symbol, Some decimals =>
         Ok {| name := nm; ss58_format := ss58 `mod` 2 ^ 16; token_symbol := symbol;
               nd_token_decimals := decimals `mod` 2 ^ 8; genesis_hash := genesis |}
     end, w3).
Proof.
  intros Hname Hprops Hgen. unfold network_details.
  m_step. m_step. m_step. m_step.
  unfold lift, details_of. f_equal.
  destruct (props !! "ss58Format") as [v|]; cbn; [|done]. destruct (as_u64 v); cbn; [|done].
  destruct (props !! "tokenSymbol") as [v'|]; cbn; [|done]. destruct (as_str v'); cbn; [|done].
  destruct (props !! "tokenDecimals") as [v''|]; cbn; [|done]. by destruct (as_u64 v'').
Qed.
End Properties.

Section UptimeProperties.
Context `{!ErrorPayloads} {W : Type} {http : Http W} (url : string) (every : Duration).

(** An uptime push that cannot be sent is fatal: after any number of pushes, one
    failed request ends the task with [Error::Reqwest], and with it, when it is the
    first task to end, the program. *)
Theorem failed_push_is_fatal ticks more s s1 err w :
  push_uptime_status url every ticks s = (Ok tt, s1) →
  http_get (formatted_url url every) (http_world s1) = (inl err, w) →
  ∃ s2, push_uptime_status url every (ticks + S more) s = (Err (Reqwest err), s2) ∧
    pushed s2 = pushed s1 ++ [formatted_url url every] ∧
    end_of_main (Some (inr (inl (Reqwest err)))) = Err (Reqwest err).
Proof.
  intros Hrun Hget. exists {| http_world := w; pushed := pushed s1 ++ [formatted_url url every] |}.
  split_and!; [|done|done]. unfold push_uptime_status in *.
  rewrite replicate_add, drive_app, (bind_ok _ _ _ _ _ Hrun). cbn.
  unfold mbind, M_bind, push_turn. by rewrite Hget.
Qed.
End UptimeProperties.

(** ** Witnesses *)
Module MainToy.
#[local] Instance payloads : ErrorPayloads := {|
  subxt_Error := (); JoinError := (); reqwest_Error := string; subxt_rpcs_Error := ();
  codec_Error := (); io_Error := (); toml_Error := (); SlackClientError := () |}.
#[local] Instance substrate : Substrate := {|
  SubxtDigest := (); Digest := (); digest_encode _ := []; digest_decode _ := Some tt;
  header_hash hd := number hd |}.
#[local] Instance node : NodeApi () := {|
  chain_get_block_hash n w := (inr n, w); chain_get_header h w := (inr None, w);
  subscribe_all w := (inr tt, w); sub_next w := (None, w) |}.
(** A network whose token has 300 decimals. *)
Definition properties : gmap string (N + string) :=
  list_to_map [("ss58Format"%string, inl 6094); ("tokenSymbol"%string, inr "AI3"%string);
               ("tokenDecimals"%string, inl 300)].
#[local] Instance info : ChainInfo () := {|
  Value := N + string;
  as_u64 v := match v with inl n => Some n | inr _ => None end;
  as_str v := match v with inr s => Some s | inl _ => None end;
  system_chain w := (inr "mainnet"%string, w); system_properties w := (inr properties, w) |}.
(** A server that answers twice and is then unreachable. *)
#[local] Instance http : Http nat := {|
  http_get _ w := (if (w <? 2)%nat then inr 200 else inl "unreachable"%string, S w) |}.
Definition pusher : Pusher nat := {| http_world := 0%nat; pushed := [] |}.
End MainToy.

Lemma network_details_spec_witness :
  network_details (node:=MainToy.node) (info:=MainToy.info) tt =
    (Ok {| name := "mainnet"; ss58_format := 6094; token_symbol := "AI3";
           nd_token_decimals := 44; genesis_hash := 0 |}, tt).
Proof.
  rewrite (network_details_spec (node:=MainToy.node) (info:=MainToy.info) tt "mainnet" tt
    MainToy.properties tt 0 tt eq_refl eq_refl eq_refl).
  vm_compute. reflexivity.
Defined.

Lemma failed_push_is_fatal_witness :
  ∃ s2, push_uptime_status (http:=MainToy.http) "http://kuma" (Duration.from_secs 60) (2 + 4)
      MainToy.pusher =
    (Err (Reqwest ("unreachable" : @reqwest_Error MainToy.payloads)), s2) ∧
    length (pushed s2) = 3%nat.
Proof.
  destruct (failed_push_is_fatal (http:=MainToy.http) "http://kuma" (Duration.from_secs 60) 2 3
    MainToy.pusher (snd (push_uptime_status (http:=MainToy.http) "http://kuma"
      (Duration.from_secs 60) 2 MainToy.pusher))
    ("unreachable" : @reqwest_Error MainToy.payloads) 3%nat) as (s2 & Hrun & Hs & _).
  - vm_compute. reflexivity.
  - vm_compute. reflexivity.
  - exists s2. split; [exact Hrun|]. rewrite Hs. vm_compute. reflexivity.
Defined.
