(* ===== verification/Program.v ===== *)
(** * The whole program (alerter/src/main.rs)

    The tasks that [main] spawns, side by side: a state holds every task's variables,
    the channels between them and what [main] returned, and [step] is one task taking
    one turn, in any order the runtime may choose.  The values sent on a channel so far
    are kept in the sender's state ([sink] of the follower, [pot_sink] of the network),
    the alerts sent on the unbounded queue in [pr_queue]; receivers are positions.

    Each task's calls to the outside are functions of a world of its own. *)

From S2P Require Import Prelude Duration Errors Headers TreeRoute Follower EventTypes Alerts.
From S2P Require Import StallReorg P2p Slots Events MdFormat Slack Main Channel Monitors.

(** What [main] has worked out before it spawns the monitors. *)
Record Settings `{!Libp2p} : Type := {
  st_stall : StallAndReorgConfig;
  st_slots : SlotsConfig;
  st_accounts : list Account;
  st_bootnodes : list Multiaddr;
  st_alerter : SlackAlerter;
  st_format : FormatConfig;
  st_uptime : option (string * Duration);
}.

(** The panic of a task, as tokio's [JoinError]. *)
Class Joins `{!ErrorPayloads} : Type := { join_error : string → JoinError }.

(** What joining a task that stopped answers; [Diverged] is no end. *)
Definition joined `{!ErrorPayloads} `{!Joins} (why : abort Error)
    : option (result JoinError (result Error ())) :=
  match why with
  | Failed e => Some (inr (inl e))
  | Panicked w => Some (inl (join_error w))
  | Diverged => None
  end.

Section Tasks.
Context `{!ErrorPayloads} `{!Substrate} `{!Formats} {tree : TreeRouteApi}.
Context {W : Type} {node : NodeApi W} {U : Type} {slack : SlackApi U} {X : Type} {http : Http X}.

(** ** The follower's task: [listen_for_all_blocks]

    A turn connects, or is one turn of the loop of [listen_for_blocks]; after an
    [Error::Rpc] of the loop the next turn connects again.  [fuel] bounds the searches
    of one turn. *)
Record FollowerTask : Type := {
  fl_listener : Listener W;
  fl_listening : bool;
  fl_end : option (abort Error);
}.

Definition follower_turn (fuel : nat) (f : FollowerTask) : FollowerTask :=
  if fl_listening f then
    match listen_turn fuel (fl_listener f) with
    | (Err (Rpc _), s) => {| fl_listener := s; fl_listening := false; fl_end := None |}
    | (o, s) => {| fl_listener := s; fl_listening := true; fl_end := stopped_by o |}
    end
  else
    let '(o, s) := connect fuel (fl_listener f) in
    {| fl_listener := s; fl_listening := is_ok o; fl_end := stopped_by o |}.

(** ** The Slack task: [SlackAlerter::run]

    Its receiver is the alerter's own, which also holds a sender: the queue is never
    closed, and a send on it neither fails nor waits. *)
Record SlackTask : Type := {
  sl_poster : Poster U;
  sl_open : bool;
  sl_received : nat;
  sl_end : option (abort Error);
}.

Definition slack_opens (alerter : SlackAlerter) (sl : SlackTask) : SlackTask :=
  let '(o, s) := slack_open alerter (sl_poster sl) in
  {| sl_poster := s; sl_open := is_ok o; sl_received := sl_received sl; sl_end := stopped_by o |}.

Definition slack_receives (alerter : SlackAlerter) (cfg : FormatConfig) (a : Alert)
    (sl : SlackTask) : SlackTask :=
  let '(o, s) := slack_turn alerter cfg (Some a) (sl_poster sl) in
  {| sl_poster := s; sl_open := true; sl_received := S (sl_received sl);
     sl_end := stopped_by o |}.

Inductive slack_step (st_alerter : SlackAlerter) (cfg : FormatConfig) (queue : list Alert)
    (sl : SlackTask) : SlackTask → Prop :=
  | slack_step_opens :
      sl_end sl = None → sl_open sl = false →
      slack_step st_alerter cfg queue sl (slack_opens st_alerter sl)
  | slack_step_receives a :
      sl_end sl = None → sl_open sl = true → queue !! sl_received sl = Some a →
      slack_step st_alerter cfg queue sl (slack_receives st_alerter cfg a sl).

(** ** The uptime task: [push_uptime_status] *)
Record UptimeTask : Type := { up_pusher : Pusher X; up_end : option (abort Error) }.

Definition uptime_turn (url : string) (every : Duration) (u : UptimeTask) : UptimeTask :=
  let '(o, s) := push_turn url every (up_pusher u) in
  {| up_pusher := s; up_end := stopped_by o |}.
End Tasks.
Arguments FollowerTask {_ _} W.
Arguments SlackTask {_} U.
Arguments UptimeTask {_} X.

Section Program.
Context `{!ErrorPayloads} `{!Joins} `{!Substrate} `{!Formats} {tree : TreeRouteApi}.
Context `{!Libp2p} {B : BoundedVec SlotDetails window} {channels : BroadcastApi}.
Context `{!EventsApi} `{!EventDecoders} `{!Ss58}.
Context {W : Type} {node : NodeApi W} {V : Type} {events_node : EventsNode V}.
Context {U : Type} {slack : SlackApi U} {X : Type} {http : Http X}.

Record Program : Type := {
  pr_follower : FollowerTask W;
  pr_chain : Task Watch;
  pr_events : Task (EventMonitor V);
  pr_slots : Task SlotMonitor;
  pr_network : Network;
  pr_queue : list Alert;
  pr_slack : SlackTask U;
  pr_uptime : UptimeTask X;
  pr_end : option (outcome Error ());
}.

(** What was broadcast so far, and the slots forwarded so far. *)
Definition broadcast_blocks (p : Program) : list BlocksExt := sink (fl_listener (pr_follower p)).
Definition forwarded_slots (p : Program) : list PoTInfo := pot_sink (pr_network p).

Definition set_follower (f : FollowerTask W) (p : Program) : Program :=
  {| pr_follower := f; pr_chain := pr_chain p; pr_events := pr_events p;
     pr_slots := pr_slots p; pr_network := pr_network p; pr_queue := pr_queue p;
     pr_slack := pr_slack p; pr_uptime := pr_uptime p; pr_end := pr_end p |}.
Definition set_chain (t : Task Watch) (sent : list Alert) (p : Program) : Program :=
  {| pr_follower := pr_follower p; pr_chain := t; pr_events := pr_events p;
     pr_slots := pr_slots p; pr_network := pr_network p; pr_queue := pr_queue p ++ sent;
     pr_slack := pr_slack p; pr_uptime := pr_uptime p; pr_end := pr_end p |}.
Definition set_events (t : Task (EventMonitor V)) (sent : list Alert) (p : Program) : Program :=
  {| pr_follower := pr_follower p; pr_chain := pr_chain p; pr_events := t;
     pr_slots := pr_slots p; pr_network := pr_network p; pr_queue := pr_queue p ++ sent;
     pr_slack := pr_slack p; pr_uptime := pr_uptime p; pr_end := pr_end p |}.
Definition set_slots (t : Task SlotMonitor) (sent : list Alert) (p : Program) : Program :=
  {| pr_follower := pr_follower p; pr_chain := pr_chain p; pr_events := pr_events p;
     pr_slots := t; pr_network := pr_network p; pr_queue := pr_queue p ++ sent;
     pr_slack := pr_slack p; pr_uptime := pr_uptime p; pr_end := pr_end p |}.
Definition set_network (n : Network) (p : Program) : Program :=
  {| pr_follower := pr_follower p; pr_chain := pr_chain p; pr_events := pr_events p;
     pr_slots := pr_slots p; pr_network := n; pr_queue := pr_queue p;
     pr_slack := pr_slack p; pr_uptime := pr_uptime p; pr_end := pr_end p |}.
Definition set_slack (s : SlackTask U) (p : Program) : Program :=
  {| pr_follower := pr_follower p; pr_chain := pr_chain p; pr_events := pr_events p;
     pr_slots := pr_slots p; pr_network := pr_network p; pr_queue := pr_queue p;
     pr_slack := s; pr_uptime := pr_uptime p; pr_end := pr_end p |}.
Definition set_uptime (u : UptimeTask X) (p : Program) : Program :=
  {| pr_follower := pr_follower p; pr_chain := pr_chain p; pr_events := pr_events p;
     pr_slots := pr_slots p; pr_network := pr_network p; pr_queue := pr_queue p;
     pr_slack := pr_slack p; pr_uptime := u; pr_end := pr_end p |}.
Definition set_end (o : outcome Error ()) (p : Program) : Program :=
  {| pr_follower := pr_follower p; pr_chain := pr_chain p; pr_events := pr_events p;
     pr_slots := pr_slots p; pr_network := pr_network p; pr_queue := pr_queue p;
     pr_slack := pr_slack p; pr_uptime := pr_uptime p; pr_end := Some o |}.

Context (st : Settings) (fuel : nat).

(** The map the event monitor works with, when it has got so far. *)
Definition known_accounts : gmap AccountId Account :=
  match account_mapped_name (st_accounts st) with Ok m => m | _ => ∅ end.

(** A task has ended, with the given answer to a join.  The runtime updater is subxt's
    and may end at any time with any result; the network's task never ends. *)
Inductive task_ended (p : Program) : result JoinError (result Error ()) → Prop :=
  | follower_ended why r :
      fl_end (pr_follower p) = Some why → joined why = Some r → task_ended p r
  | chain_ended why r :
      tk_end (pr_chain p) = Some why → drained (m:=chain_monitor (st_stall st)) (pr_chain p) →
      joined why = Some r → task_ended p r
  | events_ended why r :
      tk_end (pr_events p) = Some why → drained (m:=event_monitor known_accounts) (pr_events p) →
      joined why = Some r → task_ended p r
  | slots_ended why r :
      tk_end (pr_slots p) = Some why → drained (m:=slot_monitor (st_slots st)) (pr_slots p) →
      joined why = Some r → task_ended p r
  | slack_ended why r :
      sl_end (pr_slack p) = Some why → joined why = Some r → task_ended p r
  | uptime_ended why r :
      up_end (pr_uptime p) = Some why → joined why = Some r → task_ended p r
  | updater_ended (r : result subxt_Error ()) :
      task_ended p (inr (match r with inl e => inl (from e) | inr u => inr u end)).

Inductive step (p : Program) : Program → Prop :=
  | step_follower :
      pr_end p = None → fl_end (pr_follower p) = None →
      fl_end (follower_turn fuel (pr_follower p)) ≠ Some Diverged →
      step p (set_follower (follower_turn fuel (pr_follower p)) p)
  | step_chain sent t :
      pr_end p = None →
      task_step (m:=chain_monitor (st_stall st)) (broadcast_blocks p) (pr_chain p) sent t →
      step p (set_chain t sent p)
  | step_events sent t :
      pr_end p = None →
      task_step (m:=event_monitor known_accounts) (broadcast_blocks p) (pr_events p) sent t →
      step p (set_events t sent p)
  | step_slots sent t :
      pr_end p = None →
      task_step (m:=slot_monitor (st_slots st)) (forwarded_slots p) (pr_slots p) sent t →
      step p (set_slots t sent p)
  | step_network x n :
      pr_end p = None → on_selected x (pr_network p) = (Ok tt, n) →
      step p (set_network n p)
  | step_slack s :
      pr_end p = None →
      slack_step (st_alerter st) (st_format st) (pr_queue p) (pr_slack p) s →
      step p (set_slack s p)
  | step_uptime url every :
      pr_end p = None → st_uptime st = Some (url, every) → up_end (pr_uptime p) = None →
      step p (set_uptime (uptime_turn url every (pr_uptime p)) p)
  | step_join r :
      pr_end p = None → task_ended p r → step p (set_end (end_of_main (Some r)) p).

(** The tasks as they are spawned: nothing was sent yet, [chain_pos], [events_pos] and
    [slots_pos] are the receivers they were given.  The event monitor first maps the
    accounts, which may panic; the network first dials its bootnodes. *)
Definition first_listener (w : W) : Listener W :=
  {| world := w; header_cache := empty_cache; sink := [];
     current_best_block := {| hn_number := 0%N; hn_hash := 0%N |} |}.

Definition spawned (chain_pos events_pos slots_pos : nat) (w : W) (v : V) (u : U) (x : X)
    (now : Instant) : Program :=
  {| pr_follower :=
       {| fl_listener := first_listener w; fl_listening := false; fl_end := None |};
     pr_chain := fresh_task watch_start chain_pos;
     pr_events :=
       {| tk_state := {| ev_world := v; ev_sent := [] |}; tk_receiver := events_pos;
          tk_queued := 0;
          tk_end := stopped_by (account_mapped_name (st_accounts st)) |};
     pr_slots := fresh_task (monitor_start now) slots_pos;
     pr_network := snd (drive dial_bootnode (st_bootnodes st) (new (st_bootnodes st)));
     pr_queue := [];
     pr_slack :=
       {| sl_poster := {| slack_world := u; posts := [] |}; sl_open := false;
          sl_received := 0; sl_end := None |};
     pr_uptime := {| up_pusher := {| http_world := x; pushed := [] |}; up_end := None |};
     pr_end := None |}.
End Program.
