(* ===== verification/FollowerLoop.v ===== *)
(** * The follower's task is its loop

    In [Program] the follower takes one turn at a time ([follower_turn]); the code runs
    [listen_for_all_blocks], whose loop is inside a loop.  The two agree. *)

From S2P Require Import Prelude Duration Errors Headers TreeRoute Follower FollowerSpec.
From S2P Require Import FollowerProgress Scenario EventTypes Alerts StallReorg P2p Slots Events.
From S2P Require Import MdFormat Slack Main Channel Monitors Program.

Local Open Scope nat_scope.

#[local] Arguments follower_turn : simpl never.
#[local] Arguments connect : simpl never.
#[local] Arguments listen_for_all_blocks : simpl nomatch.

Section Loop.
Context `{!ErrorPayloads} `{!Substrate} {tree : TreeRouteApi}.
Context {W : Type} {node : NodeApi W} (fuel : nat).
Implicit Types (s : Listener W) (f : FollowerTask W).

(** Turns until the task ends. *)
Fixpoint follower_turns (n : nat) (f : FollowerTask W) : FollowerTask W :=
  match n with
  | O => f
  | S n =>
      match fl_end f with
      | Some _ => f
      | None => follower_turns n (follower_turn fuel f)
      end
  end.

Definition connecting s : FollowerTask W :=
  {| fl_listener := s; fl_listening := false; fl_end := None |}.
Definition listening s : FollowerTask W :=
  {| fl_listener := s; fl_listening := true; fl_end := None |}.

(** A connection from its loop on: what [listen_for_all_blocks] does after [connect]. *)
Definition connection (turns : nat) (more : list nat) : M (Listener W) Error () :=
  res ← catch (listen_for_blocks turns fuel);
  match res with
  | Err (Rpc _) => listen_for_all_blocks fuel more
  | res => lift res
  end.

Lemma follower_turns_end n f : fl_end f ≠ None → follower_turns n f = f.
Proof. destruct n; cbn; [done|]. by destruct (fl_end f). Qed.

Lemma follower_turns_add n k f : follower_turns (n + k) f = follower_turns k (follower_turns n f).
Proof.
  revert f. induction n as [|n IH]; intros f; [done|]. cbn.
  destruct (fl_end f) eqn:He; [|apply IH]. by rewrite follower_turns_end by (by rewrite He).
Qed.

Lemma listen_S turns s o s1 :
  listen_turn fuel s = (o, s1) →
  listen_for_blocks (S turns) fuel s =
    match o with Ok _ => listen_for_blocks turns fuel s1 | o => (o, s1) end.
Proof.
  intros Hrun. unfold listen_for_blocks. cbn. unfold mbind, M_bind. rewrite Hrun.
  by destruct o as [[]| | |].
Qed.

(** The state of the task that [o] leaves, when the loop of one connection ends with it. *)
Definition task_of (o : outcome Error ()) s : FollowerTask W :=
  match o with
  | Err (Rpc _) => connecting s
  | o => {| fl_listener := s; fl_listening := true; fl_end := stopped_by o |}
  end.

Lemma follower_turn_listening s o s1 :
  listen_turn fuel s = (o, s1) → follower_turn fuel (listening s) = task_of o s1.
Proof. intros Hrun. unfold follower_turn. cbn. by rewrite Hrun. Qed.

Lemma listen_turns turns s o s1 :
  listen_for_blocks turns fuel s = (o, s1) →
  ∃ n, follower_turns n (listening s) = task_of o s1.
Proof.
  revert s. induction turns as [|turns IH]; intros s.
  - intros [= <- <-]. by exists 0.
  - destruct (listen_turn fuel s) as [o1 s2] eqn:Hturn. rewrite (listen_S _ _ _ _ Hturn).
    pose proof (follower_turn_listening _ _ _ Hturn) as Hf.
    destruct o1 as [[]|e|w|]; [|intros [= <- <-]; exists 1; cbn; by rewrite Hf..].
    intros (n & Hn)%IH. exists (S n). cbn. by rewrite Hf.
Qed.

Lemma follower_turn_connecting s o s1 :
  connect fuel s = (o, s1) →
  follower_turn fuel (connecting s) =
    {| fl_listener := s1; fl_listening := is_ok o; fl_end := stopped_by o |}.
Proof. intros Hrun. unfold follower_turn. cbn. by rewrite Hrun. Qed.

Lemma loop_turns connections s o s' :
  listen_for_all_blocks fuel connections s = (o, s') → o ≠ Diverge →
  ∃ n, let f := follower_turns n (connecting s) in
    fl_listener f = s' ∧ fl_end f = stopped_by o.
Proof.
  revert s. induction connections as [|turns more IH]; intros s; [by intros [= <- _]|].
  cbn [listen_for_all_blocks]. unfold mbind at 1, M_bind at 1.
  destruct (connect fuel s) as [c s1] eqn:Hc. apply follower_turn_connecting in Hc.
  destruct c as [[]|e|w|]; try (by intros [= <- <-] _; exists 1; cbn; rewrite Hc).
  unfold mbind, M_bind, catch. destruct (listen_for_blocks turns fuel s1) as [r s2] eqn:Hl.
  apply listen_turns in Hl as (n & Hn).
  assert (∀ k, follower_turns (S (n + k)) (connecting s) = follower_turns k (task_of r s2))
    as Hrest.
  { intros k. cbn. rewrite Hc. cbn. change {| fl_listener := s1; fl_listening := true;
      fl_end := None |} with (listening s1). by rewrite follower_turns_add, Hn. }
  destruct r as [[]|e|w|]; [| |by intros [= <- <-] _; exists (S (n + 0)); rewrite Hrest|by intros [= <- <-]].
  - intros [= <- <-] _. exists (S (n + 0)). by rewrite Hrest.
  - destruct e as [| | | |e| | | | | | | | | |];
      try (by intros [= <- <-] _; exists (S (n + 0)); rewrite Hrest).
    intros Hrun Ho. destruct (IH _ Hrun Ho) as (k & Hk). exists (S (n + k)). by rewrite Hrest.
Qed.

Lemma connection_S turns more s o s1 :
  listen_turn fuel s = (o, s1) →
  connection (S turns) more s =
    match o with
    | Ok _ => connection turns more s1
    | Err (Rpc _) => listen_for_all_blocks fuel more s1
    | o => (o, s1)
    end.
Proof.
  intros Hrun. unfold connection, mbind, M_bind, catch. rewrite (listen_S _ _ _ _ Hrun).
  by destruct o as [[]|[]| |].
Qed.

(** The code from a state of the task on: the loop of a connection, or connecting. *)
Definition rest_of f (o : outcome Error ()) s' : Prop :=
  if fl_listening f then ∃ turns more, connection turns more (fl_listener f) = (o, s')
  else ∃ connections, listen_for_all_blocks fuel connections (fl_listener f) = (o, s').

Lemma turns_loop n why f :
  fl_end f = None → fl_end (follower_turns n f) = Some why → why ≠ Diverged →
  ∃ o, stopped_by o = Some why ∧ rest_of f o (fl_listener (follower_turns n f)).
Proof.
  revert f. induction n as [|n IH]; intros f Hf; [cbn; by rewrite Hf|]. cbn. rewrite Hf.
  intros Hend Hwhy. destruct f as [s l e]. cbn in Hf. subst e. destruct l; unfold rest_of;
    cbn [fl_listening fl_listener].
  - destruct (listen_turn fuel s) as [o1 s1] eqn:Hturn.
    pose proof (follower_turn_listening _ _ _ Hturn) as Hft. unfold listening in Hft.
    rewrite Hft in *. clear Hft.
    assert (fl_end (task_of o1 s1) ≠ None → ∃ o, stopped_by o = Some why ∧
      ∃ turns more, connection turns more s = (o, fl_listener (follower_turns n (task_of o1 s1))))
      as Hstop.
    { intros Hne. rewrite follower_turns_end in * by done. exists o1.
      destruct o1 as [[]|[]|w|]; try done; (split; [exact Hend|]); exists 1, [];
        by rewrite (connection_S _ _ _ _ _ Hturn). }
    destruct o1 as [[]|[]|w|]; try (by apply Hstop).
    + destruct (IH (listening s1)) as (o & Ho & turns & more & Hrun); [done..|].
      exists o. split; [done|]. exists (S turns), more. by rewrite (connection_S _ _ _ _ _ Hturn).
    + destruct (IH (connecting s1)) as (o & Ho & more & Hrun); [done..|].
      exists o. split; [done|]. exists 1, more. by rewrite (connection_S _ _ _ _ _ Hturn).
  - destruct (connect fuel s) as [c s1] eqn:Hc.
    pose proof (follower_turn_connecting _ _ _ Hc) as Hft. unfold connecting in Hft.
    rewrite Hft in *. clear Hft. destruct c as [[]|e|w|]; cbn [is_ok stopped_by] in *.
    2-4: rewrite follower_turns_end in * by done; cbn in Hend |- *; injection Hend as <-;
      (eexists; split; [|exists [1]; cbn [listen_for_all_blocks]; unfold mbind at 1, M_bind at 1;
        rewrite Hc; reflexivity]); done.
    destruct (IH (listening s1)) as (o & Ho & turns & more & Hrun); [done..|].
    exists o. split; [done|]. exists (turns :: more). cbn [listen_for_all_blocks].
    erewrite bind_ok by exact Hc. exact Hrun.
Qed.

(** The follower's task, one turn at a time, is the code's two nested loops: a run of
    [listen_for_all_blocks] that does not exhaust its fuel leaves the listener, and ends
    or not, as some number of turns does; and when the turns end the task, some run of
    the loops ends so, with the same listener. *)
Theorem follower_turns_are_the_loop s :
  (∀ connections o s', listen_for_all_blocks fuel connections s = (o, s') → o ≠ Diverge →
     ∃ n, fl_listener (follower_turns n (connecting s)) = s' ∧
       fl_end (follower_turns n (connecting s)) = stopped_by o) ∧
  (∀ n why, fl_end (follower_turns n (connecting s)) = Some why → why ≠ Diverged →
     ∃ connections o,
       listen_for_all_blocks fuel connections s =
         (o, fl_listener (follower_turns n (connecting s))) ∧
       stopped_by o = Some why).
Proof.
  split; [intros connections o s'; apply loop_turns|]. intros n why Hend Hwhy.
  destruct (turns_loop n why (connecting s)) as (o & Ho & connections & Hrun); [done..|].
  by exists connections, o.
Qed.
End Loop.
