(* ===== verification/ProgramSpec.v ===== *)
(** * Invariants of the whole program

    What every reachable state of [Program] satisfies, proved step by step: the queue
    and the posts ([queue_ok]), the follower with the two monitors of its broadcasts
    ([blocks_ok]), and the network with the slot monitor ([slots_ok]).  A step of the
    program is a step of one component, which the component's own lemmas cover. *)

From stdpp Require Import relations.
From S2P Require Import Prelude Duration Errors Headers TreeRoute Follower FollowerSpec.
From S2P Require Import FollowerProgress EventTypes Alerts StallReorg P2p Slots SlotsSpec Events.
From S2P Require Import MdFormat Slack Main Channel Monitors Program.

(** ** The follower's task *)
Section FollowerTask.
Context `{!ErrorPayloads} `{!Substrate} (in_tree : Header → Prop) `{!BlockTree in_tree}.
Context {tree : TreeRouteApi} `{!TreeRouteLaws tree}.
Context {W : Type} {node : NodeApi W} `{!HonestNode in_tree node}.
Implicit Types (s : Listener W) (f : FollowerTask W).

(** A broadcast that takes the best block of some moment to that of the next. *)
Definition genuine (u : BlocksExt) : Prop := ∃ tip tip', update in_tree tip u tip'.

Definition listener_ok s : Prop :=
  cache_ok in_tree (header_cache s) ∧ Forall genuine (sink s).

Lemma connect_ok fuel s o s' :
  cache_ok in_tree (header_cache s) → connect fuel s = (o, s') →
  cache_ok in_tree (header_cache s') ∧ sink s' = sink s ∧ ∀ w, stopped_by o ≠ Some (Panicked w).
Proof.
  intros Hc Hrun.
  assert (wp (connect fuel) (λ _ s', cache_ok in_tree (header_cache s') ∧ sink s' = sink s)
    (λ b s', cache_ok in_tree (header_cache s') ∧ sink s' = sink s ∧ ∀ w, b ≠ Panicked w) s)
    as Hwp.
  { unfold connect. wp_step. apply wp_call. intros r w _. wp_step. wp_step; [|done].
    intros _ _. wp_step. eapply wp_mono; [by apply (wp_load in_tree)|..].
    - intros best s1 ((Hs & _ & Hc1) & _). by wp_step.
    - by intros b s1 [(Hs & _ & Hc1) Hb]. }
  unfold wp in Hwp. rewrite Hrun in Hwp. destruct o; cbn; naive_solver.
Qed.

Lemma listen_turn_ok fuel s o s' :
  listener_ok s → listen_turn fuel s = (o, s') →
  listener_ok s' ∧ sink s `prefix_of` sink s' ∧ ∀ w, stopped_by o ≠ Some (Panicked w).
Proof.
  intros [Hc Hg] Hrun. pose proof (wp_listen_turn in_tree fuel s Hc) as Hwp.
  unfold wp in Hwp. rewrite Hrun in Hwp.
  assert (turn_post in_tree s s' ∧ ∀ w, stopped_by o ≠ Some (Panicked w))
    as [[Hc' [[Hs _]|(u & Hs & Hu & _)]] Hw] by (destruct o; naive_solver);
    unfold listener_ok; rewrite Hs; split_and!; try done.
  - apply Forall_app. split; [done|]. constructor; [|done]. by eexists _, _.
  - by exists [u].
Qed.

Lemma follower_turn_ok fuel f :
  listener_ok (fl_listener f) → fl_end f = None →
  let f' := follower_turn fuel f in
  listener_ok (fl_listener f') ∧ sink (fl_listener f) `prefix_of` sink (fl_listener f') ∧
  ∀ w, fl_end f' ≠ Some (Panicked w).
Proof.
  intros Hok Hend. unfold follower_turn. destruct (fl_listening f); cbn zeta.
  - destruct (listen_turn fuel (fl_listener f)) as [o s'] eqn:Hrun.
    apply listen_turn_ok in Hrun as (Hok' & Hs & Hw); [|done].
    by destruct o as [|[]| |].
  - destruct (connect fuel (fl_listener f)) as [o s'] eqn:Hrun. destruct Hok as [Hc Hg].
    apply connect_ok in Hrun as (Hc' & Hs & Hw); [|done].
    cbn. unfold listener_ok. by rewrite Hs.
Qed.
End FollowerTask.

(** ** The Slack task *)
Section SlackTask.
Context `{!ErrorPayloads} `{!Formats} {U : Type} {slack : SlackApi U}.
Context (alerter : SlackAlerter) (cfg : FormatConfig).
Implicit Types (sl : SlackTask U).

(** The text of an alert. *)
Definition formats (a : Alert) (text : string) : Prop := format_alert (E:=Error) cfg a = Ok text.

Definition posted sl : list PostRequest := posts (sl_poster sl).

(** The posts are those of the first alerts of the queue, and until the task ends, of
    all the alerts it has received. *)
Definition slack_ran (queue : list Alert) sl : Prop :=
  (∃ texts, posted sl = request_for alerter <$> texts ∧
     Forall2 formats (take (length (posted sl)) queue) texts) ∧
  (sl_end sl = None → sl_received sl = length (posted sl)).

Lemma slack_ran_more queue out sl : slack_ran queue sl → slack_ran (queue ++ out) sl.
Proof.
  intros [(texts & Hp & Hall) Hr]. split; [|done]. exists texts. split; [done|].
  apply Forall2_length in Hall as Hlen. rewrite take_app_le; [done|].
  rewrite length_take in Hlen. rewrite Hp, length_fmap in *. lia.
Qed.

Lemma slack_step_ran queue sl sl' :
  slack_ran queue sl → slack_step alerter cfg queue sl sl' → slack_ran queue sl'.
Proof.
  intros [(texts & Hp & Hall) Hr] Hstep. inversion Hstep as [He Ho|a He Ho Ha]; subst.
  - unfold slack_opens. destruct (slack_open alerter (sl_poster sl)) as [o s] eqn:Hrun.
    assert (posts s = posted sl) as Hs.
    { unfold slack_open, mbind, M_bind, slack_call, lift, posted in *.
      destruct (hyper_connector _) as [[] w], (auth_test _ _) as [[] w'];
        cbn in Hrun; by injection Hrun as _ <-. }
    unfold slack_ran, posted. cbn [sl_poster sl_received sl_end]. rewrite Hs.
    split; [by exists texts|auto].
  - unfold slack_receives, slack_turn, mbind, M_bind, lift.
    destruct (format_alert cfg a) as [text|e|w|] eqn:Hf; cbn;
      [|split; [by exists texts|done]..].
    rewrite Hr in Ha by done.
    destruct (chat_post_message (request_for alerter text) (slack_world (sl_poster sl)))
      as [r w] eqn:Hpost.
    rewrite (post_run _ _ _ _ Hpost). unfold slack_ran, posted. cbn.
    fold (posted sl). split; [|rewrite length_app, Hr by done; cbn; lia].
    exists (texts ++ [text]). rewrite Hp, fmap_app. split; [done|].
    rewrite <-Hp. rewrite length_app, Nat.add_comm. cbn. rewrite (take_S_r _ _ a) by done.
    apply Forall2_app; [done|]. by constructor.
Qed.
End SlackTask.

Section Invariants.
Context `{!ErrorPayloads} `{!Joins} `{!Substrate} `{!Formats} {tree : TreeRouteApi}.
Context `{!Libp2p} {B : BoundedVec SlotDetails window} {channels : BroadcastApi}.
Context `{!EventsApi} `{!EventDecoders} `{!Ss58}.
Context {W : Type} {node : NodeApi W} {V : Type} {events_node : EventsNode V}.
Context {U : Type} {slack : SlackApi U} {X : Type} {http : Http X}.
Context (st : Settings) (fuel : nat).
Abbreviation P := (@Program _ _ _ B W V U X).
Implicit Types p : P.

Definition reachable p p' : Prop := rtc (step st fuel) p p'.

Lemma reachable_trans p1 p2 p3 : reachable p1 p2 → reachable p2 p3 → reachable p1 p3.
Proof. unfold reachable. by intros ? ?; trans p2. Qed.

(** ** The queue and the posts *)
Record queue_ok p : Prop := {
  ok_chain_queue : task_queue (m:=chain_monitor (st_stall st)) (pr_queue p) (pr_chain p);
  ok_events_queue : task_queue (m:=event_monitor (known_accounts st)) (pr_queue p) (pr_events p);
  ok_slots_queue : task_queue (m:=slot_monitor (st_slots st)) (pr_queue p) (pr_slots p);
  ok_slack : slack_ran (st_alerter st) (st_format st) (pr_queue p) (pr_slack p);
}.

Lemma step_queue_ok p p' : queue_ok p → step st fuel p p' → queue_ok p'.
Proof.
  intros [Hc He Hs Hsl] Hstep.
  inversion Hstep as [| sent t _ Ht | sent t _ Ht | sent t _ Ht | | s _ Ht | |]; subst;
    try done; split; cbn; try done;
    try (by apply slack_ran_more); try (by eapply task_step_queue); try (by eapply slack_step_ran);
    (apply task_queue_other; [|done]).
  all: eapply Forall_impl; [eapply task_step_senders; [|exact Ht]; done|].
  all: by intros a Ha; rewrite Ha.
Qed.

Lemma spawned_queue_ok a b c w v u x now : queue_ok (spawned st a b c w v u x now).
Proof. split; try apply fresh_queue; try done. split; [|done]. by exists []. Qed.

Lemma reachable_queue_ok p p' : queue_ok p → reachable p p' → queue_ok p'.
Proof. intros Hp. induction 1; eauto using step_queue_ok. Qed.
(** ** The network and the slot monitor *)
Context {laws : BroadcastLaws channels}.

Definition slots_ok (now : Instant) p : Prop :=
  (∃ past, network_is (st_bootnodes st) past (pr_network p)) ∧
  task_ran (m:=slot_monitor (st_slots st)) (monitor_start now) (forwarded_slots p) (pr_slots p).

Lemma network_is_step boot past x n n' :
  network_is boot past n → on_selected x n = (Ok tt, n') →
  network_is boot (x :: past) n' ∧ pot_sink n `prefix_of` pot_sink n'.
Proof.
  intros Hn Hrun. destruct (on_selected_is _ _ x _ Hn) as (n1 & Hrun1 & _ & Hn1).
  rewrite Hrun in Hrun1. injection Hrun1 as <-. split; [done|].
  destruct Hn as (_ & -> & _), Hn1 as (_ & -> & _). cbn. rewrite omap_app.
  by apply prefix_app_r.
Qed.

Lemma step_slots_ok now p p' : slots_ok now p → step st fuel p p' → slots_ok now p'.
Proof.
  intros [(past & Hn) Ht] Hstep.
  inversion Hstep as [| | | sent t _ Hs | x n _ Hx | | |]; subst; unfold slots_ok; cbn;
    try (by split; [exists past|exact Ht]).
  - split; [by exists past|]. by eapply task_step_ran.
  - destruct (network_is_step _ _ _ _ _ Hn Hx) as [Hn' Hp]. split; [by eexists|].
    by eapply task_ran_more.
Qed.

Lemma spawned_slots_ok a b w v u x now : slots_ok now (spawned st a b 0 w v u x now).
Proof.
  unfold slots_ok, forwarded_slots. cbn.
  destruct (dial_bootnodes (st_bootnodes st) (new (st_bootnodes st)))
    as (n & -> & Hs & Hp & Ha & Hf). cbn. rewrite Hp. split; [|by exists []].
  exists []. split_and!; [by rewrite Hs, app_nil_r|done|..]; intros q; rewrite ?Ha, ?Hf; set_solver.
Qed.

Lemma reachable_slots_ok now p p' : slots_ok now p → reachable p p' → slots_ok now p'.
Proof. intros Hp. induction 1; eauto using step_slots_ok. Qed.

(** ** The follower and the monitors of its broadcasts *)
Context (in_tree : Header → Prop) `{!BlockTree in_tree} `{!TreeRouteLaws tree}.
Context `{!HonestNode in_tree node}.

Record blocks_ok (v : V) p : Prop := {
  ok_listener : listener_ok in_tree (fl_listener (pr_follower p));
  ok_follower_end : ∀ w, fl_end (pr_follower p) ≠ Some (Panicked w);
  ok_chain : task_ran (m:=chain_monitor (st_stall st)) watch_start (broadcast_blocks p) (pr_chain p);
  ok_events m : account_mapped_name (st_accounts st) = Ok m →
    task_ran (m:=event_monitor m) {| ev_world := v; ev_sent := [] |} (broadcast_blocks p)
      (pr_events p);
}.

Lemma step_blocks_ok v p p' : blocks_ok v p → step st fuel p p' → blocks_ok v p'.
Proof.
  intros [Hl Hw Hc He] Hstep.
  inversion Hstep as [_ Hend _| sent t _ Ht | sent t _ Ht | | | | |]; subst; try done.
  - destruct (follower_turn_ok in_tree fuel (pr_follower p)) as (Hl' & Hs & Hw'); [done..|].
    split; cbn; [done|done|by eapply task_ran_more|].
    intros m Hm. eapply task_ran_more; [exact Hs|by apply He].
  - split; cbn; try done. by eapply task_step_ran.
  - split; cbn; try done. intros m Hm. specialize (He m Hm).
    unfold known_accounts in Ht. rewrite Hm in Ht. by eapply task_step_ran.
Qed.

Lemma spawned_blocks_ok c w v u x now : blocks_ok v (spawned st 0 0 c w v u x now).
Proof.
  split; cbn; try done.
  - split; [apply cache_ok_empty|done].
  - by exists [].
  - intros m ->. cbn. by exists [].
Qed.

Lemma reachable_blocks_ok v p p' : blocks_ok v p → reachable p p' → blocks_ok v p'.
Proof. intros Hp. induction 1; eauto using step_blocks_ok. Qed.
End Invariants.
