(* ===== verification/Schedule.v ===== *)
(** * Running the whole program

    [step] says what the program may do; [run_actions] does it: a schedule names the
    tasks to run, in order, and every state it leads to is reachable
    ([run_actions_reachable]).  With it concrete runs can be evaluated. *)

From stdpp Require Import relations.
From S2P Require Import Prelude Duration Errors Headers TreeRoute Follower EventTypes Alerts.
From S2P Require Import StallReorg P2p Slots Events MdFormat Slack Main Channel Monitors.
From S2P Require Import Program ProgramSpec.

Local Open Scope nat_scope.

(** What a monitor's task may do. *)
Inductive task_action : Type := Receives | TimesOut | Sends.

Section Task.
Context `{!ErrorPayloads} {api : BroadcastApi} {A S : Type} {m : Monitor A S}.

Definition task_ready (t : Task S) : bool :=
  match tk_end t with
  | None => tk_queued t =? length (alerts_sent (tk_state t))
  | Some _ => false
  end.

Definition task_does (act : task_action) (vs : list A) (t : Task S)
    : option (list Alert * Task S) :=
  match act with
  | Sends =>
      a ← alerts_sent (tk_state t) !! tk_queued t;
      Some ([a], {| tk_state := tk_state t; tk_receiver := tk_receiver t;
                    tk_queued := Datatypes.S (tk_queued t); tk_end := tk_end t |})
  | Receives =>
      if task_ready t then
        match recv vs (tk_receiver t) with
        | (Some r, q) => Some ([], after_turn t q (monitor_turn (Completed r) (tk_state t)))
        | (None, _) => None
        end
      else None
  | TimesOut =>
      if task_ready t && has_timeout then
        match recv vs (tk_receiver t) with
        | (None, q) => Some ([], after_turn t q (monitor_turn Elapsed (tk_state t)))
        | (Some _, _) => None
        end
      else None
  end.

Lemma task_ready_spec t : task_ready t = true → tk_end t = None ∧ drained t.
Proof. unfold task_ready. destruct (tk_end t); [done|]. by intros ?%Nat.eqb_eq. Qed.

Lemma task_does_step act vs t out t' :
  task_does act vs t = Some (out, t') → task_step vs t out t'.
Proof.
  destruct act; cbn.
  - destruct (task_ready t) eqn:Hr; [|done]. apply task_ready_spec in Hr as [? ?].
    destruct (recv vs (tk_receiver t)) as [[r|] q] eqn:Hrecv; [|done].
    intros [= <- <-]. by constructor.
  - destruct (task_ready t) eqn:Hr; [|done]. apply task_ready_spec in Hr as [? ?].
    destruct has_timeout eqn:?; [|done].
    destruct (recv vs (tk_receiver t)) as [[r|] q] eqn:Hrecv; [done|].
    intros [= <- <-]. by constructor.
  - destruct (alerts_sent (tk_state t) !! tk_queued t) as [a|] eqn:Ha; [|done].
    intros [= <- <-]. by constructor.
Qed.
End Task.

Section Schedule.
Context `{!ErrorPayloads} `{!Joins} `{!Substrate} `{!Formats} {tree : TreeRouteApi}.
Context `{!Libp2p} {B : BoundedVec SlotDetails window} {channels : BroadcastApi}.
Context `{!EventsApi} `{!EventDecoders} `{!Ss58}.
Context {W : Type} {node : NodeApi W} {V : Type} {events_node : EventsNode V}.
Context {U : Type} {slack : SlackApi U} {X : Type} {http : Http X}.
Context (st : Settings) (fuel : nat).
Abbreviation P := (@Program _ _ _ B W V U X).
Implicit Types p : P.

Inductive action : Type :=
  | FollowerGoes
  | ChainDoes (act : task_action)
  | EventsDoes (act : task_action)
  | SlotsDoes (act : task_action)
  | NetworkSelects (s : selected)
  | SlackGoes
  | UptimeTicks.

Definition slack_goes (queue : list Alert) (sl : SlackTask U) : option (SlackTask U) :=
  match sl_end sl with
  | Some _ => None
  | None =>
      if sl_open sl then
        a ← queue !! sl_received sl; Some (slack_receives (st_alerter st) (st_format st) a sl)
      else Some (slack_opens (st_alerter st) sl)
  end.

Definition follower_goes (f : FollowerTask W) : option (FollowerTask W) :=
  match fl_end f with
  | Some _ => None
  | None =>
      let f' := follower_turn fuel f in
      match fl_end f' with Some Diverged => None | _ => Some f' end
  end.

Definition act (a : action) (p : P) : option P :=
  match pr_end p with
  | Some _ => None
  | None =>
      match a with
      | FollowerGoes => f ← follower_goes (pr_follower p); Some (set_follower f p)
      | ChainDoes d =>
          '(out, t) ← task_does (m:=chain_monitor (st_stall st)) d (broadcast_blocks p) (pr_chain p);
          Some (set_chain t out p)
      | EventsDoes d =>
          '(out, t) ← task_does (m:=event_monitor (known_accounts st)) d (broadcast_blocks p)
            (pr_events p);
          Some (set_events t out p)
      | SlotsDoes d =>
          '(out, t) ← task_does (m:=slot_monitor (st_slots st)) d (forwarded_slots p) (pr_slots p);
          Some (set_slots t out p)
      | NetworkSelects s =>
          match on_selected s (pr_network p) with
          | (Ok _, n) => Some (set_network n p)
          | _ => None
          end
      | SlackGoes => sl ← slack_goes (pr_queue p) (pr_slack p); Some (set_slack sl p)
      | UptimeTicks =>
          match st_uptime st, up_end (pr_uptime p) with
          | Some (url, every), None => Some (set_uptime (uptime_turn url every (pr_uptime p)) p)
          | _, _ => None
          end
      end
  end.

Fixpoint run_actions (l : list action) (p : P) : option P :=
  match l with
  | [] => Some p
  | a :: l => p' ← act a p; run_actions l p'
  end.

Lemma slack_goes_step queue sl sl' :
  slack_goes queue sl = Some sl' → slack_step (st_alerter st) (st_format st) queue sl sl'.
Proof.
  unfold slack_goes. destruct (sl_end sl) eqn:He; [done|]. destruct (sl_open sl) eqn:Ho.
  - destruct (queue !! sl_received sl) as [a|] eqn:Ha; [|done]. intros [= <-].
    by apply slack_step_receives.
  - intros [= <-]. by apply slack_step_opens.
Qed.

Lemma act_step a p p' : act a p = Some p' → step st fuel p p'.
Proof.
  unfold act. destruct (pr_end p) eqn:He; [done|].
  destruct a as [|d|d|d|s| |].
  - unfold follower_goes. destruct (fl_end (pr_follower p)) eqn:Hf; [done|]. cbn zeta.
    destruct (fl_end (follower_turn fuel (pr_follower p))) as [[]|] eqn:Hf'; try done;
      intros [= <-]; apply step_follower; congruence.
  - destruct (task_does _ _ _) as [[out t]|] eqn:Ht; [|done]. intros [= <-].
    apply step_chain; [done|]. by eapply task_does_step.
  - destruct (task_does _ _ _) as [[out t]|] eqn:Ht; [|done]. intros [= <-].
    apply step_events; [done|]. by eapply task_does_step.
  - destruct (task_does _ _ _) as [[out t]|] eqn:Ht; [|done]. intros [= <-].
    apply step_slots; [done|]. by eapply task_does_step.
  - destruct (on_selected s (pr_network p)) as [[[]| | |] n] eqn:Hs; try done. intros [= <-].
    by eapply step_network.
  - destruct (slack_goes _ _) as [sl|] eqn:Hs; [|done]. intros [= <-].
    apply step_slack; [done|]. by apply slack_goes_step.
  - destruct (st_uptime st) as [[url every]|] eqn:Hu; [|done].
    destruct (up_end (pr_uptime p)) eqn:Hup; [done|]. intros [= <-].
    by apply step_uptime.
Qed.

Lemma run_actions_reachable l p p' : run_actions l p = Some p' → reachable st fuel p p'.
Proof.
  revert p. induction l as [|a l IH]; intros p; cbn; [intros [= <-]; apply rtc_refl|].
  destruct (act a p) as [p1|] eqn:Ha; [|done]. intros Hrun.
  eapply rtc_l; [by eapply act_step|by apply IH].
Qed.
End Schedule.
