(* ===== verification/ProgramToy.v ===== *)
(** * A run of the whole program

    The small chain of [Scenario], whose follower broadcasts a block and then a reorg of
    depth one, together with monitors, a network that hears of two slots and a Slack that
    takes every post: instances of every parameter of the program, and the state a
    schedule leads to.  The theorems about reachable states are evaluated on it. *)

From S2P Require Import Prelude Duration Errors Headers TreeRoute Follower FollowerSpec.
From S2P Require Import Scenario EventTypes Alerts StallReorg P2p Slots SlotsSpec SlotsProps.
From S2P Require Import Events EventsProps System MdFormat Slack Main Channel Monitors.
From S2P Require Import Program ProgramSpec Schedule.

Module Toy.
#[export] Existing Instances SystemToy.api SystemToy.decoders SystemToy.ss58 SystemToy.events_node.
#[export] Instance joins : Joins := {| join_error w := w |}.
#[export] Instance formats : Formats := {|
  format_duration d := pretty d; urlencode s := s; hex_encode h := pretty h;
  display_hash h := pretty h; Decimal := N; decimal_from n := Some n;
  decimal_div a b := Some (a / b)%N; display_decimal d := pretty d |}.
#[export] Instance libp2p : Libp2p := {|
  PeerId := nat; Multiaddr := list nat; MultiAddrProtocol := nat; iter a := a;
  as_p2p c := Some c; BlockAnnouncesHandshake := () |}.
#[export] Instance vec : BoundedVec SlotDetails window := SlotsToy.vec.
#[export] Instance vec_laws : BoundedVecLaws vec := SlotsToy.vec_laws.
#[export] Instance channels : BroadcastApi := Ring.api 128.
#[export] Instance laws : BroadcastLaws channels := Ring.laws 128 ltac:(unfold channel_size; lia).
#[export] Instance slack : SlackApi nat := {|
  hyper_connector w := (inr tt, w); auth_test _ w := (inr tt, w);
  chat_post_message _ w := (inr tt, S w) |}.
#[export] Instance http : Http () := {| http_get _ w := (inr 200%N, w) |}.

Definition settings : Settings := {|
  st_stall := SystemToy.config; st_slots := SlotsToy.config; st_accounts := [];
  st_bootnodes := [[1]];
  st_alerter := {| bot_name := "alerts"; bot_icon := "robot_face"; channel_name := "#chain";
                   secret := {| token_value := [120%N]; team_id := "T" |} |};
  st_format := {| rpc_url := "wss://rpc"; token_name := "AI3"; token_decimals := 18%N |};
  st_uptime := Some ("http://kuma", Duration.from_secs 60) |}.

Definition Prog : Type := @Program _ _ _ vec nat () nat ().

Definition start : Prog :=
  spawned (W:=nat) (V:=()) (U:=nat) (X:=()) settings 0 0 0 0 tt 0 tt 0%N.

(** A slot heard [t] seconds after the clock's origin. *)
Definition heard_slot (n t : N) : action :=
  NetworkSelects (Event (Duration.from_secs t)
    (Behaviour (PotNotifications (Notification 1
      {| slot := n; seed := []; slot_iterations := 1; checkpoints := [] |})))).

(** The follower broadcasts A2 and then the reorg to B3, which reaches Slack, with
    the event of A2 and a slow slot between. *)
Definition schedule : list action :=
  [FollowerGoes; SlackGoes; FollowerGoes; UptimeTicks; ChainDoes Receives;
   heard_slot 7 1; SlotsDoes Receives; EventsDoes Receives; FollowerGoes; FollowerGoes;
   ChainDoes Receives; heard_slot 8 9; SlotsDoes Receives; EventsDoes Sends; ChainDoes Sends;
   SlotsDoes Sends; SlackGoes; SlackGoes; SlackGoes].

(** The part of it up to the second broadcast's reception. *)
Definition half : list action := take 14 schedule.

Definition state_after (l : list action) : Prog :=
  from_option id start (run_actions settings 10 l start).

Lemma state_after_reached l :
  is_Some (run_actions settings 10 l start) → reachable settings 10 start (state_after l).
Proof.
  intros [p Hp]. unfold state_after. rewrite Hp. by eapply run_actions_reachable.
Qed.

Definition finished : Prog := state_after schedule.
Definition halfway : Prog := state_after half.
End Toy.
Export (hints) Toy.
Import Toy.
