(* ===== verification/LagToy.v ===== *)
(** * A chain without an end

    A linear chain with a block at every height, and a node that announces its blocks
    one after the other.  On it the follower can broadcast more than the channel of the
    monitors retains, so that a monitor that does not receive lags behind. *)

From S2P Require Import Prelude Duration Errors Headers TreeRoute Follower FollowerSpec.
From S2P Require Import Scenario EventTypes Alerts StallReorg P2p Slots SlotsSpec SlotsProps.
From S2P Require Import Events EventsProps System MdFormat Slack Main Channel Monitors.
From S2P Require Import Program ProgramSpec Schedule ProgramToy.

Local Open Scope N_scope.

Module Endless.
(** The block at height [n], with hash [16 * n + 1]. *)
Definition at_height (n : N) : HeaderOf () :=
  toy_header n 0 (if n =? 0 then 0 else 16 * (n - 1) + 1).

Definition in_chain (hd : Header) : Prop := ∃ n, hd = at_height n.

#[export] Instance chain_tree : BlockTree in_chain.
Proof.
  split; intros a b [n ->] [k ->]; unfold at_height; cbn [header_hash toy_substrate];
    cbn [number state_root toy_header parent_hash].
  - intros Hh. assert (n = k) as -> by lia. done.
  - destruct (N.eqb_spec n 0); lia.
Qed.

Definition find_block (h : BlockHash) : option Header :=
  if h mod 16 =? 1 then Some (at_height (h / 16)) else None.

#[export] Instance node : NodeApi nat := {|
  chain_get_block_hash n w := (inr ((λ n, 16 * n + 1) <$> n), w);
  chain_get_header h w := (inr (h ≫= find_block), w);
  subscribe_all w := (inr tt, w);
  sub_next w := (Some (inr (toy_block (at_height (N.of_nat w)))), S w) |}.

Lemma find_block_spec h hd : find_block h = Some hd → in_chain hd ∧ header_hash hd = h.
Proof.
  unfold find_block. destruct (N.eqb_spec (h mod 16) 1) as [Hm|]; [|done]. intros [= <-].
  split; [by eexists|]. cbn [header_hash toy_substrate]. unfold at_height.
  cbn [number state_root toy_header]. pose proof (N.div_mod h 16). lia.
Qed.

#[export] Instance honest : HonestNode in_chain node.
Proof.
  split.
  - intros w b w' [= <- _]. eexists. split_and!; [apply toy_convert|by eexists|done].
  - intros w h sh w' [= Hsh _]. cbn in Hsh. apply find_block_spec in Hsh as [? ?].
    exists sh. split_and!; [apply toy_convert|done..].
  - intros w n h w' hd [= <- _] [k ->] Hh. cbn [header_hash toy_substrate] in Hh.
    unfold at_height in *. cbn [number state_root toy_header] in *. lia.
Qed.

(** Channels that retain exactly what they are asked to. *)
Definition channels : BroadcastApi := Ring.api 100.
Definition channel_laws : BroadcastLaws channels := Ring.laws 100 ltac:(unfold channel_size; lia).

Definition start : Toy.Prog :=
  spawned (W:=nat) (V:=()) (U:=nat) (X:=()) Toy.settings 0%nat 0%nat 0%nat 0%nat tt 0%nat tt 0.

Definition run (l : list action) : Toy.Prog :=
  from_option id start (run_actions (node:=node) (channels:=channels) Toy.settings 10 l start).

Lemma run_reached l :
  is_Some (run_actions (node:=node) (channels:=channels) Toy.settings 10 l start) →
  reachable (node:=node) (channels:=channels) Toy.settings 10 start (run l).
Proof. intros [p Hp]. unfold run. rewrite Hp. by eapply run_actions_reachable. Qed.

(** The follower connects and broadcasts 101 blocks, none of which the chain monitor
    receives; then the chain monitor receives. *)
Definition too_far : list action := replicate 102 FollowerGoes.
Definition lagging : Toy.Prog := run too_far.
Definition ended : Toy.Prog := run (too_far ++ [ChainDoes Receives]).

Example lagging_runs :
  is_Some (run_actions (node:=node) (channels:=channels) Toy.settings 10
    (too_far ++ [ChainDoes Receives]) start) ∧
  is_Some (run_actions (node:=node) (channels:=channels) Toy.settings 10 too_far start) ∧
  length (broadcast_blocks lagging) = 101%nat ∧
  tk_end (pr_chain lagging) = None ∧
  tk_end (pr_chain ended) = Some (Failed (BroadRecvErr (Lagged 1))).
Proof. vm_compute. split_and!; by try eexists. Qed.
End Endless.
