(* ===== verification/ProgramProps.v ===== *)
(** * Properties of the whole program

    Whatever order the runtime runs the tasks in, the alerts posted to Slack are the
    ones the chain and the network call for.  Each theorem is about every state that
    can be reached from the one [main] leaves the tasks in. *)

From stdpp Require Import relations.
From S2P Require Import Prelude Duration Errors Headers TreeRoute Follower FollowerSpec.
From S2P Require Import EventTypes Alerts StallReorg P2p Slots SlotsSpec SlotsProps.
From S2P Require Import Events EventsProps System MdFormat Slack SlackProps Main.
From S2P Require Import Channel Monitors Program ProgramSpec Scenario Schedule ProgramToy.
From S2P Require Import LagToy.

Local Open Scope nat_scope.

(** ** What the chain monitor's alerts say of the broadcasts *)
Section Reorgs.
Context `{!ErrorPayloads} (config : StallAndReorgConfig).

Definition seen_of (x : timed BlocksExt) : seen :=
  match x with Completed u => Blocks u | Elapsed => Silence end.

(** The reorg a broadcast calls for an alert of. *)
Definition deep_reorg (u : BlocksExt) : option ChainReorg :=
  best ← hash_and_number <$> last (blocks u);
  d ← maybe_reorg_data u;
  if (reorg_depth_threshold config <=? N.of_nat (length (rd_retracted d)))%N then
    Some {| best_block := best; reorg_common_block := rd_common_block d;
            reorg_enacted := rd_enacted d; reorg_retracted := rd_retracted d |}
  else None.

Definition reorg_of (a : Alert) : option ChainReorg :=
  match a with AlertReorg r => Some r | _ => None end.

Lemma reorgs_of_alert past x :
  omap reorg_of (alerts_for config past x) = omap deep_reorg (option_list (broadcast_of x)).
Proof.
  destruct x as [u|]; cbn; [|by destruct (last_best past)].
  unfold deep_reorg. destruct (hash_and_number <$> last (blocks u)) as [b|]; cbn; [|done].
  rewrite omap_app. unfold recovery_alert, reorg_alert.
  destruct (silences past =? 0), (maybe_reorg_data u) as [d|]; cbn; try done;
    by destruct (_ <=? _)%N.
Qed.

Lemma reorgs_of_alerts past :
  omap reorg_of (alerts_of config past) = omap deep_reorg (rev (broadcasts past)).
Proof.
  induction past as [|x past IH]; [done|]. cbn [alerts_of]. rewrite omap_app, IH, reorgs_of_alert.
  rewrite <-omap_app. f_equal. destruct x; cbn; [done|by rewrite app_nil_r].
Qed.

Lemma reorgs_of_chain (l : list Alert) :
  omap reorg_of (filter (λ a, sender a = ChainMonitor) l) = omap reorg_of l.
Proof.
  induction l as [|a l IH]; [done|]. rewrite filter_cons.
  destruct (decide _) as [Ha|Ha]; cbn; rewrite IH; [done|]. by destruct a.
Qed.

Lemma broadcasts_seen hist : broadcasts (seen_of <$> hist) = heard hist.
Proof. induction hist as [|[u|] hist IH]; [done|..]; cbn; [by f_equal|done]. Qed.

Lemma loop_watch hist :
  loop (m:=chain_monitor config) watch_start hist =
    watch config (as_received <$> (seen_of <$> hist)) watch_start.
Proof.
  unfold loop, watch. rewrite <-list_fmap_compose.
  assert (arrived <$> hist = as_received ∘ seen_of <$> hist) as ->; [|done].
  apply list_fmap_ext. by intros ? [].
Qed.
End Reorgs.

Lemma omap_prefix {A B} (f : A → option B) (l l' : list A) :
  l `prefix_of` l' → omap f l `prefix_of` omap f l'.
Proof. intros [k ->]. rewrite omap_app. by apply prefix_app_r. Qed.

Lemma filter_prefix {A} (Q : A → Prop) `{!∀ x, Decision (Q x)} (l l' : list A) :
  l `prefix_of` l' → filter Q l `prefix_of` filter Q l'.
Proof. intros [k ->]. rewrite filter_app. by apply prefix_app_r. Qed.

Lemma take_prefix {A} n (l : list A) : take n l `prefix_of` l.
Proof. exists (drop n l). by rewrite take_drop. Qed.

Section Properties.
Context `{!ErrorPayloads} `{!Joins} `{!Substrate} `{!Formats} {tree : TreeRouteApi}.
Context `{!Libp2p} {B : BoundedVec SlotDetails window} {channels : BroadcastApi}.
Context `{!EventsApi} `{!EventDecoders} `{!Ss58}.
Context {W : Type} {node : NodeApi W} {V : Type} {events_node : EventsNode V}.
Context {U : Type} {slack : SlackApi U} {X : Type} {http : Http X}.
Context {laws : BroadcastLaws channels}.
Context (st : Settings) (fuel : nat) (w : W) (v : V) (u : U) (x : X) (now : Instant).
Abbreviation P := (@Program _ _ _ B W V U X).
Implicit Types p : P.

(** The program as [main] starts it, each receiver subscribed before anything is sent. *)
Definition start : P := spawned st 0 0 0 w v u x now.
Definition reached p : Prop := reachable st fuel start p.

(** The alerts that were posted: the queue is received in order, and what is received
    is posted unless formatting it panics, which ends the task. *)
Definition posted_alerts p : list Alert := take (length (posted (pr_slack p))) (pr_queue p).

(** Every alert in the queue has been posted, and the Slack task goes on. *)
Definition posted_all p : Prop :=
  sl_end (pr_slack p) = None ∧ sl_received (pr_slack p) = length (pr_queue p).

Lemma reached_queue p : reached p → queue_ok st p.
Proof. apply reachable_queue_ok, spawned_queue_ok. Qed.

Lemma posted_all_alerts p : reached p → posted_all p → posted_alerts p = pr_queue p.
Proof.
  intros Hp [He Hr]. destruct (ok_slack _ _ (reached_queue p Hp)) as [_ Hs].
  unfold posted_alerts. rewrite <-Hs, Hr by done. apply firstn_all.
Qed.

(** What one monitor's task has in the queue and among the posts. *)
Lemma posted_of_task {A S} {m : Monitor A S} p (t : Task S) :
  task_queue (pr_queue p) t →
  filter (λ a, sender a = who) (posted_alerts p) `prefix_of` alerts_sent (tk_state t) ∧
  (posted_alerts p = pr_queue p → drained t →
     filter (λ a, sender a = who) (posted_alerts p) = alerts_sent (tk_state t)).
Proof.
  intros (Hq & _ & _). split.
  - trans (filter (λ a, sender a = who) (pr_queue p)).
    + apply filter_prefix, take_prefix.
    + rewrite Hq. apply take_prefix.
  - intros -> Hd. rewrite Hq, Hd. apply firstn_all.
Qed.

(** C2. No alert is lost, invented, duplicated or reordered on its way to Slack, however
    the tasks interleave: what was posted (the requests made to Slack, whose refusal of
    one is only logged) is, one request per alert, the texts of a
    first part of the queue; of the alerts posted those of each monitor are the first
    ones that monitor sent, in its order; and once the monitors have handed over what
    they sent and the Slack task has received it all, they are all of them. *)
Theorem posts_are_the_monitors_alerts p :
  reached p →
  let from k := filter (λ a, sender a = k) (posted_alerts p) in
  (∃ texts, posted (pr_slack p) = request_for (st_alerter st) <$> texts ∧
     Forall2 (formats (st_format st)) (posted_alerts p) texts) ∧
  from ChainMonitor `prefix_of` sent (tk_state (pr_chain p)) ∧
  from EventsMonitor `prefix_of` ev_sent (tk_state (pr_events p)) ∧
  from SlotsMonitor `prefix_of` slot_sent (tk_state (pr_slots p)) ∧
  (posted_all p →
   drained (m:=chain_monitor (st_stall st)) (pr_chain p) →
   drained (m:=event_monitor (known_accounts st)) (pr_events p) →
   drained (m:=slot_monitor (st_slots st)) (pr_slots p) →
   from ChainMonitor = sent (tk_state (pr_chain p)) ∧
   from EventsMonitor = ev_sent (tk_state (pr_events p)) ∧
   from SlotsMonitor = slot_sent (tk_state (pr_slots p))).
Proof.
  intros Hp from. destruct (reached_queue p Hp) as [Hc He Hs [Ht _]].
  apply posted_of_task in Hc as [Hc Hc'], He as [He He'], Hs as [Hs Hs'].
  split_and!; [exact Ht|exact Hc|exact He|exact Hs|].
  intros Hall%posted_all_alerts Hdc Hde Hds; [|done].
  split_and!; [by apply Hc'|by apply He'|by apply Hs'].
Qed.
(** ** The follower, the chain monitor and Slack *)
Section Chain.
Context (in_tree : Header → Prop) `{!BlockTree in_tree} `{!TreeRouteLaws tree}.
Context `{!HonestNode in_tree node}.
Context (Hthreshold : (non_block_import_threshold (st_stall st) <= Duration.MAX)%N).

Lemma reached_blocks p : reached p → blocks_ok st in_tree v p.
Proof. apply reachable_blocks_ok; [done..|apply spawned_blocks_ok]. Qed.

Lemma genuine_has_blocks us hist :
  Forall (genuine in_tree) us → broadcasts hist `prefix_of` us → Forall has_blocks hist.
Proof.
  intros Hg [k ->]. apply Forall_app_1 in Hg.
  induction hist as [|[b|] hist IH]; [done|..].
  - inversion_clear Hg as [|? ? (tip & tip' & Hu%update_blocks_ne) Hg']. constructor; auto.
  - constructor; [done|auto].
Qed.

(** Where the chain monitor is: its variables and alerts are those of a history made of
    the first broadcasts, and it has ended only if it lagged behind. *)
Lemma chain_task p :
  reached p →
  ∃ hist, broadcasts hist `prefix_of` broadcast_blocks p ∧
    tk_state (pr_chain p) = watch_state (st_stall st) (rev hist) ∧
    match tk_end (pr_chain p) with
    | None => tk_receiver (pr_chain p) = length (broadcasts hist)
    | Some why => ∃ n vs, why = Failed (BroadRecvErr (Lagged n)) ∧ (0 < n)%N ∧
        vs `prefix_of` broadcast_blocks p ∧
        length (broadcasts hist) + retained + N.to_nat n = length vs
    end.
Proof.
  intros [[_ Hg] _ (hist & Hh & Ht) _]%reached_blocks. exists (seen_of <$> hist).
  rewrite broadcasts_seen. split; [done|].
  assert (loop (m:=chain_monitor (st_stall st)) watch_start hist =
    (Ok tt, watch_state (st_stall st) (rev (seen_of <$> hist)))) as Hl.
  { rewrite loop_watch. apply watch_run_history; [done|].
    apply (genuine_has_blocks _ _ Hg). by rewrite broadcasts_seen. }
  rewrite Hl in Ht. destruct (tk_end (pr_chain p)) as [why|].
  - destruct Ht as [(o & [= <- Hs] & Hw)|([= Hs] & n & (vs & Hvs & Hn & Hpos) & ->)]; [done|].
    split; [done|]. by exists n, vs.
  - by destruct Ht as [Hpos [= Hs]].
Qed.

(** The chain monitor and Slack have caught up with the follower. *)
Definition chain_caught_up p : Prop :=
  tk_end (pr_chain p) = None ∧ tk_receiver (pr_chain p) = length (broadcast_blocks p) ∧
  drained (m:=chain_monitor (st_stall st)) (pr_chain p) ∧ posted_all p.

Lemma sent_reorgs p hist :
  tk_state (pr_chain p) = watch_state (st_stall st) (rev hist) →
  omap reorg_of (sent (tk_state (pr_chain p))) = omap (deep_reorg (st_stall st)) (broadcasts hist).
Proof.
  intros ->. cbn [sent watch_state].
  by rewrite reorgs_of_alerts, broadcasts_rev, rev_involutive.
Qed.

(** The chain monitor's alerts posted are the first of those a history of broadcasts and
    silences calls for. *)
Lemma posted_chain_alerts p :
  reached p →
  ∃ hist, broadcasts hist `prefix_of` broadcast_blocks p ∧
    filter (λ a, sender a = ChainMonitor) (posted_alerts p) `prefix_of`
      alerts_of (st_stall st) (rev hist).
Proof.
  intros Hp. destruct (chain_task p Hp) as (hist & Hh & Hs & _). exists hist. split; [done|].
  destruct (posted_of_task p _ (ok_chain_queue _ _ (reached_queue p Hp))) as [Hpre _].
  change (alerts_sent (tk_state (pr_chain p))) with (sent (tk_state (pr_chain p))) in Hpre.
  by rewrite Hs in Hpre.
Qed.

(** The reorgs posted to Slack are the deep reorgs of the broadcasts. *)
Lemma posted_reorgs p :
  reached p →
  omap reorg_of (posted_alerts p) `prefix_of`
    omap (deep_reorg (st_stall st)) (broadcast_blocks p) ∧
  (chain_caught_up p →
   omap reorg_of (posted_alerts p) = omap (deep_reorg (st_stall st)) (broadcast_blocks p)).
Proof.
  intros Hp. destruct (chain_task p Hp) as (hist & Hh & Hs & Hend).
  destruct (posted_of_task p _ (ok_chain_queue _ _ (reached_queue p Hp))) as [Hpre Hall].
  change (alerts_sent (tk_state (pr_chain p))) with (sent (tk_state (pr_chain p))) in Hpre, Hall.
  rewrite <-(reorgs_of_chain (posted_alerts p)). split.
  - trans (omap (deep_reorg (st_stall st)) (broadcasts hist)); [|by apply omap_prefix].
    rewrite <-(sent_reorgs p hist) by done. by apply omap_prefix.
  - intros (He & Hr & Hd & Hpa). rewrite He in Hend.
    change (who) with ChainMonitor in Hall.
    rewrite Hall, (sent_reorgs p hist) by auto using posted_all_alerts. f_equal.
    apply prefix_length_eq; [done|lia].
Qed.

(** C7. The chain monitor ends only by falling behind, and it does end then.  With an
    honest node and a configured threshold that is a [Duration], whatever happens it
    never panics and never finds its channel closed.  If it has ended, it was with
    [Lagged(n)] after [n] broadcasts it had not received had been dropped from the
    channel, which keeps at least 100 of them, and its last best block is that of the
    last broadcast it received.  And a monitor that is behind by more broadcasts than
    the channel retains (a number that is at least 100) ends so at its next receive,
    which is a way for the program to end. *)
Theorem chain_monitor_ends_only_by_lag p :
  reached p →
  (∀ why, tk_end (pr_chain p) = Some why →
     ∃ n received, why = Failed (BroadRecvErr (Lagged n)) ∧ (0 < n)%N ∧
       received `prefix_of` broadcast_blocks p ∧
       length received + channel_size + N.to_nat n ≤ length (broadcast_blocks p) ∧
       maybe_last_best_block (tk_state (pr_chain p)) =
         last received ≫= λ u, hash_and_number <$> last (blocks u)) ∧
  (tk_end (pr_chain p) = None → drained (m:=chain_monitor (st_stall st)) (pr_chain p) →
   tk_receiver (pr_chain p) + retained < length (broadcast_blocks p) →
   ∀ out t, task_step (m:=chain_monitor (st_stall st)) (broadcast_blocks p) (pr_chain p) out t →
     ∃ n, tk_end t = Some (Failed (BroadRecvErr (Lagged n))) ∧
       tk_receiver (pr_chain p) + retained + N.to_nat n = length (broadcast_blocks p) ∧
       task_ended st (set_chain t out p) (inr (inl (BroadRecvErr (Lagged n))))).
Proof.
  intros Hp. destruct (chain_task p Hp) as (hist & Hh & Hs & Hend). split.
  - intros why Hw. rewrite Hw in Hend.
    destruct Hend as (n & vs & -> & Hn & Hvs & Hlen). exists n, (broadcasts hist).
    split_and!; [done..| |].
    + apply prefix_length in Hvs. pose proof retained_size. lia.
    + rewrite Hs. cbn. by rewrite last_best_broadcasts, broadcasts_rev, head_rev.
  - intros He Hd Hlag out t Hstep.
    assert (recv (broadcast_blocks p) (tk_receiver (pr_chain p)) =
      (Some (inl (Lagged (N.of_nat (length (broadcast_blocks p) - retained -
         tk_receiver (pr_chain p))))), length (broadcast_blocks p) - retained)) as Hr
      by (by apply recv_lagged).
    inversion Hstep as [r q _ _ Hr'|q _ _ _ Hr'|a Ha]; subst.
    + rewrite Hr in Hr'. injection Hr' as <- <-. eexists. split; [reflexivity|].
      split; [lia|]. eapply chain_ended; [reflexivity|done|done].
    + by rewrite Hr in Hr'.
    + apply lookup_lt_Some in Ha. unfold drained in Hd. cbn in Hd, Ha. lia.
Qed.
End Chain.

(** ** The follower, the event monitor and Slack *)
Section Events.
Context (in_tree : Header → Prop) `{!BlockTree in_tree} `{!TreeRouteLaws tree}.
Context `{!HonestNode in_tree node}.
Implicit Types m : gmap AccountId Account.

Lemma loop_events m hist (s : EventMonitor V) :
  loop (m:=event_monitor m) s hist = drive (events_turn m) (inr <$> heard hist) s.
Proof.
  unfold loop. revert s. induction hist as [|[us|] hist IH]; intros s; [done|..].
  - cbn. unfold mbind, M_bind. destruct (events_turn m (inr us) s) as [[[]| | |] s']; auto.
  - apply IH.
Qed.

(** The blocks of the broadcasts, in order. *)
Definition broadcast_block_list p : list BlockExt := concat (blocks <$> broadcast_blocks p).

Lemma blocks_prefix (us us' : list BlocksExt) :
  us `prefix_of` us' → concat (blocks <$> us) `prefix_of` concat (blocks <$> us').
Proof. intros [k ->]. rewrite fmap_app, concat_app. by apply prefix_app_r. Qed.

(** Where the event monitor is: it has reported the first [bs] of the broadcast blocks,
    and has ended only because the events of the next one could not be read or because
    it lagged behind. *)
Lemma events_task m p :
  account_mapped_name (st_accounts st) = Ok m → reached p →
  ∃ bs ls, bs `prefix_of` broadcast_block_list p ∧
    Forall2 (λ b l, reports m b (Ok l)) bs ls ∧
    ev_sent (tk_state (pr_events p)) = alerts_of_reports ls ∧
    match tk_end (pr_events p) with
    | None => bs = concat (blocks <$> take (tk_receiver (pr_events p)) (broadcast_blocks p))
    | Some why =>
        (∃ b e, bs ++ [b] `prefix_of` broadcast_block_list p ∧ reports m b (Err e) ∧
           why = Failed e) ∨
        (∃ n, why = Failed (BroadRecvErr (Lagged n)) ∧ (0 < n)%N ∧
           retained < length (broadcast_blocks p))
    end.
Proof.
  intros Haccounts Hp. destruct (ok_events _ _ _ _ (reached_blocks in_tree p Hp) m Haccounts)
    as (hist & Hh & Ht). rewrite loop_events, events_turns in Ht.
  destruct (watch_blocks_read m (concat (blocks <$> heard hist))
    {| ev_world := v; ev_sent := [] |}) as (w' & o' & ls & Hrun & Hcases).
  rewrite Hrun in Ht. apply blocks_prefix in Hh as Hb.
  destruct Hcases as [[-> Hls]|(before & b & after & e & Hsplit & Hrep & -> & Hls)].
  - exists (concat (blocks <$> heard hist)), ls.
    destruct (tk_end (pr_events p)) as [why|].
    + destruct Ht as [(o & [= <- Hs] & Hw)|([= Hs] & n & (vs & Hvs & Hn & Hpos) & ->)]; [done|].
      rewrite <-Hs. split_and!; [done..|]. right. exists n. split_and!; [done..|].
      apply prefix_length in Hvs. lia.
    + destruct Ht as [Hpos [= Hs]]. rewrite <-Hs. split_and!; [done..|].
      rewrite Hpos. destruct Hh as [k Hk]. by rewrite Hk, take_app_length.
  - exists before, ls. rewrite Hsplit in Hb.
    destruct (tk_end (pr_events p)) as [why|]; [|by destruct Ht].
    destruct Ht as [(o & [= <- Hs] & Hw)|[[=] _]]. injection Hw as <-. rewrite <-Hs.
    assert (before ++ [b] `prefix_of` broadcast_block_list p) as Hpre.
    { trans (before ++ b :: after); [|done]. exists after. by rewrite <-app_assoc. }
    split_and!; [|done|done|left; by exists b, e].
    trans (before ++ [b]); [by apply prefix_app_r|done].
Qed.

(** When an address does not parse the event monitor's task has panicked at once and
    sends nothing. *)
Lemma events_task_invalid p :
  ¬ Forall valid_address (st_accounts st) → reached p → pr_events p = pr_events start.
Proof.
  intros Hinv Hp. pose proof (proj2 (account_mapped_name_spec (st_accounts st)) Hinv) as Hm.
  apply (rtc_ind_r (R:=step st fuel) (λ p, pr_events p = pr_events start) start);
    [done| |exact Hp].
  intros p1 p2 _ Hstep He. destruct Hstep as [| |sent t _ Ht| | | | |]; try done.
  rewrite He in Ht. cbn in Ht. rewrite Hm in Ht. by inversion Ht.
Qed.

(** C4. The event alerts posted are the events of the broadcast blocks, or, when a
    configured account has an invalid address, there are none.  With an honest node:
    - if every configured address is a valid SS58 address, the event alerts posted are,
      in order, a first part of what the reports of the first broadcast blocks hold,
      each block read once at some moment, and all of it, of every broadcast block,
      once the event monitor and Slack have caught up; the monitor ends only at a block
      whose events could not be read, with that error, or by falling behind;
    - otherwise the event monitor has panicked at its start and no event alert is ever
      posted. *)
Theorem posted_events_are_the_blocks_events p :
  reached p →
  let event_alerts := filter (λ a, sender a = EventsMonitor) (posted_alerts p) in
  (Forall valid_address (st_accounts st) →
   ∃ m bs ls, account_mapped_name (st_accounts st) = Ok m ∧
    bs `prefix_of` broadcast_block_list p ∧
    Forall2 (λ b l, reports m b (Ok l)) bs ls ∧
    event_alerts `prefix_of` alerts_of_reports ls ∧
    (tk_end (pr_events p) = None → tk_receiver (pr_events p) = length (broadcast_blocks p) →
     drained (m:=event_monitor (known_accounts st)) (pr_events p) → posted_all p →
     bs = broadcast_block_list p ∧ event_alerts = alerts_of_reports ls) ∧
    (∀ why, tk_end (pr_events p) = Some why →
       (∃ b e, bs ++ [b] `prefix_of` broadcast_block_list p ∧ reports m b (Err e) ∧
          why = Failed e) ∨
       (∃ n, why = Failed (BroadRecvErr (Lagged n)) ∧ (0 < n)%N ∧
          channel_size < length (broadcast_blocks p)))) ∧
  (¬ Forall valid_address (st_accounts st) →
   event_alerts = [] ∧
   tk_end (pr_events p) = Some (Panicked "Must be a valid SS58 address")).
Proof.
  intros Hp event_alerts.
  destruct (posted_of_task p _ (ok_events_queue _ _ (reached_queue p Hp))) as [Hpre Hall].
  change (alerts_sent (tk_state (pr_events p))) with (ev_sent (tk_state (pr_events p))) in Hpre, Hall.
  change (filter _ (posted_alerts p)) with event_alerts in Hpre, Hall.
  clearbody event_alerts.
  split; intros Haddr.
  - destruct (proj1 (account_mapped_name_spec _) Haddr) as (m & Hm & _).
    destruct (events_task m p Hm Hp) as (bs & ls & Hbs & Hls & Hs & Hend).
    rewrite Hs in Hpre, Hall. exists m, bs, ls.
    split_and!; [done|done|done|exact Hpre|..].
    + intros He Hr Hd Hpa. rewrite He, Hr in Hend. split.
      * rewrite Hend. unfold broadcast_block_list. by rewrite firstn_all.
      * apply Hall; [by apply posted_all_alerts|done].
    + intros why Hw. rewrite Hw in Hend. destruct Hend as [?|(n & ? & ? & ?)]; [by left|right].
      exists n. split_and!; [done..|]. pose proof retained_size. lia.
  - pose proof (events_task_invalid p Haddr Hp) as He. rewrite He in Hpre |- *. split.
    + destruct Hpre as [k Hk]. symmetry in Hk. by apply app_eq_nil in Hk as [-> _].
    + cbn. by rewrite (proj2 (account_mapped_name_spec _) Haddr).
Qed.
End Events.

(** ** The network, the slot monitor and Slack *)
Section Slots.
Context `{!BoundedVecLaws B}.

Definition slot_seen_of (i : timed PoTInfo) : slot_seen :=
  match i with Completed i => Slot_ i | Elapsed => Quiet end.

Lemma loop_slots hist :
  loop (m:=slot_monitor (st_slots st)) (monitor_start now) hist =
    monitor_slots (st_slots st) (slot_received <$> (slot_seen_of <$> hist)) (monitor_start now).
Proof.
  unfold loop, monitor_slots. rewrite <-list_fmap_compose.
  assert (arrived <$> hist = slot_received ∘ slot_seen_of <$> hist) as ->; [|done].
  apply list_fmap_ext. by intros ? [].
Qed.

Lemma seen_in_range hist l :
  Forall (λ i, slot_in_range (Slot_ i)) l → heard hist `prefix_of` l →
  Forall slot_in_range (slot_seen_of <$> hist).
Proof.
  intros Hl [k ->]. apply Forall_app_1 in Hl.
  induction hist as [|[i|] hist IH]; [done|..].
  - inversion_clear Hl. constructor; auto.
  - constructor; [done|auto].
Qed.

(** Where the slot monitor is. *)
Lemma slots_task p :
  reached p → Forall (λ i, slot_in_range (Slot_ i)) (forwarded_slots p) →
  ∃ hist, heard hist `prefix_of` forwarded_slots p ∧
    slot_state (st_slots st) now (rev (slot_seen_of <$> hist)) (tk_state (pr_slots p)) ∧
    match tk_end (pr_slots p) with
    | None => tk_receiver (pr_slots p) = length (heard hist)
    | Some why => ∃ n, why = Failed (BroadRecvErr (Lagged n)) ∧ (0 < n)%N ∧
        length (heard hist) + channel_size + N.to_nat n ≤ length (forwarded_slots p)
    end.
Proof.
  intros Hp Hin.
  destruct (reachable_slots_ok st fuel now start p (spawned_slots_ok _ _ _ _ _ _ _ _) Hp)
    as [_ (hist & Hh & Ht)].
  exists hist. split; [done|].
  destruct (monitor_run (st_slots st) now (slot_seen_of <$> hist)) as (s & Hrun & Hs).
  { by eapply seen_in_range. }
  rewrite <-loop_slots in Hrun. rewrite Hrun in Ht.
  assert (tk_state (pr_slots p) = s) as Hst.
  { destruct (tk_end (pr_slots p)); [|by destruct Ht as [_ [=]]].
    destruct Ht as [(o & [=] & _)|[[=] _]]; done. }
  rewrite Hst in *. split; [done|].
  destruct (tk_end (pr_slots p)) as [why|]; [|apply Ht].
  destruct Ht as [(o & [= <-] & Hw)|(_ & n & (vs & Hvs & Hlen & Hn) & ->)]; [done|].
  exists n. split_and!; [done..|]. apply prefix_length in Hvs. pose proof retained_size. lia.
Qed.

(** C5. The timekeeper alerts posted are those the slots heard on the network call for,
    provided that the slots heard so far are in range: each slot number is below the
    largest u64, and each was heard within a 600th of the largest [Duration] of the
    clock's origin, so that 600 slot times can be added.  Then the network has handled some events and forwarded their slots, the slot
    monitor has the variables that follow from the first of these slots with some
    time-outs between them, the alerts posted are, in order, the first of those they call
    for, and the monitor ends only by falling behind.  Without the proviso it may panic:
    a peer can send the largest slot ([SlotsProps.monitor_slots_stops]). *)
Theorem slot_alerts_follow_the_network p :
  reached p → Forall (λ i, slot_in_range (Slot_ i)) (forwarded_slots p) →
  ∃ events history,
    network_is (st_bootnodes st) (rev events) (pr_network p) ∧
    heard history `prefix_of` omap slot_of events ∧
    slot_state (st_slots st) now (rev (slot_seen_of <$> history)) (tk_state (pr_slots p)) ∧
    filter (λ a, sender a = SlotsMonitor) (posted_alerts p) `prefix_of`
      slot_alerts (st_slots st) now (rev (slot_seen_of <$> history)) ∧
    match tk_end (pr_slots p) with
    | None => tk_receiver (pr_slots p) = length (heard history)
    | Some why => ∃ n, why = Failed (BroadRecvErr (Lagged n)) ∧ (0 < n)%N ∧
        length (heard history) + channel_size + N.to_nat n ≤ length (forwarded_slots p)
    end.
Proof.
  intros Hp Hin. destruct (slots_task p Hp Hin) as (hist & Hh & Hs & Hend).
  destruct (reachable_slots_ok st fuel now start p (spawned_slots_ok _ _ _ _ _ _ _ _) Hp)
    as [(past & Hnet) _].
  exists (rev past), hist. rewrite rev_involutive. split; [done|].
  assert (forwarded_slots p = omap slot_of (rev past)) as Hfw by apply Hnet.
  split_and!; [by rewrite <-Hfw|done| |done].
  destruct Hs as (_ & _ & _ & <-).
  apply (posted_of_task p _ (ok_slots_queue _ _ (reached_queue p Hp))).
Qed.
End Slots.
End Properties.

(** ** Witnesses *)
Import Toy.

Lemma posts_are_the_monitors_alerts_witness :
  length (posted (pr_slack finished)) = 3 ∧
  filter (λ a, sender a = ChainMonitor) (posted_alerts finished) =
    sent (tk_state (pr_chain finished)) ∧
  filter (λ a, sender a = SlotsMonitor) (posted_alerts finished) =
    slot_sent (tk_state (pr_slots finished)).
Proof.
  split; [vm_compute; reflexivity|].
  destruct (posts_are_the_monitors_alerts settings 10 0 tt 0 tt 0%N finished)
    as (_ & _ & _ & _ & Hall).
  - apply state_after_reached. vm_compute. by eexists.
  - destruct Hall as (Hc & _ & Hs); [by vm_compute..|]. split; [exact Hc|exact Hs].
Defined.

(** On the endless chain: the monitor that is 101 broadcasts behind ends at its next
    receive, and the one that has ended did so by lagging. *)
Lemma chain_monitor_ends_only_by_lag_witness :
  (tk_end (pr_chain Endless.lagging) = None ∧
   length (broadcast_blocks Endless.lagging) = 101 ∧
   ∃ n, tk_end (pr_chain Endless.ended) = Some (Failed (BroadRecvErr (Lagged n))) ∧
     100 + N.to_nat n = 101) ∧
  ∃ n received, tk_end (pr_chain Endless.ended) = Some (Failed (BroadRecvErr (Lagged n))) ∧
    (0 < n)%N ∧ received `prefix_of` broadcast_blocks Endless.ended ∧
    length received + 100 + N.to_nat n ≤ 101.
Proof.
  destruct Endless.lagging_runs as (Hends & Hruns & Hlen & Hgoes & Hended).
  apply Endless.run_reached in Hruns, Hends.
  pose proof (chain_monitor_ends_only_by_lag (node:=Endless.node) (channels:=Endless.channels)
    (laws:=Endless.channel_laws) settings 10 0 tt 0 tt 0%N Endless.in_chain
    (BlockTree0:=Endless.chain_tree) (HonestNode0:=Endless.honest)
    ltac:(vm_compute; discriminate)) as Hlags.
  split.
  - split; [exact Hgoes|]. split; [exact Hlen|].
    destruct (proj2 (Hlags Endless.lagging Hruns) Hgoes ltac:(vm_compute; reflexivity)
      ltac:(rewrite Hlen; vm_compute; lia) [] (pr_chain Endless.ended)) as (n & Hn & Heq & _).
    + apply (task_does_step (api:=Endless.channels) Receives). vm_compute. reflexivity.
    + exists n. split; [exact Hn|]. rewrite Hlen in Heq. exact Heq.
  - destruct (proj1 (Hlags Endless.ended Hends) _ Hended) as (n & received & Hn & Hpos & Hrec & Hl & _).
    exists n, received. split; [rewrite Hended; f_equal; exact Hn|].
    split; [exact Hpos|]. split; [exact Hrec|].
    assert (length (broadcast_blocks Endless.ended) = 101) as Hlen' by (vm_compute; reflexivity).
    rewrite Hlen' in Hl. exact Hl.
Defined.

(** With no account configured every address is valid; with one that does not parse the
    monitor has panicked from the start. *)
Definition badly_configured : Settings := {|
  st_stall := st_stall settings; st_slots := st_slots settings;
  st_accounts := [{| account_name := "treasury"; address := "nonsense" |}];
  st_bootnodes := st_bootnodes settings; st_alerter := st_alerter settings;
  st_format := st_format settings; st_uptime := None |}.

Lemma posted_events_are_the_blocks_events_witness :
  (tk_end (pr_events (spawned badly_configured 0 0 0 0 tt 0 tt 0%N : Prog)) =
     Some (Panicked "Must be a valid SS58 address")) ∧
  ∃ bs ls, bs `prefix_of` broadcast_block_list finished ∧
    filter (λ a, sender a = EventsMonitor) (posted_alerts finished) = [AlertEvent EvSudo] ∧
    [AlertEvent EvSudo] `prefix_of` alerts_of_reports ls.
Proof.
  split.
  { destruct (posted_events_are_the_blocks_events (events_node:=SystemToy.events_node)
      badly_configured 10 0 tt 0 tt 0%N toy_tree (spawned badly_configured 0 0 0 0 tt 0 tt 0%N))
      as [_ Hinvalid].
    - constructor.
    - apply Hinvalid. intros Hall. inversion_clear Hall as [|a l [id Hid] _]. discriminate. }
  destruct (posted_events_are_the_blocks_events (events_node:=SystemToy.events_node) settings 10 0 tt 0 tt 0%N toy_tree
    finished) as [Hvalid _].
  - apply state_after_reached. vm_compute. by eexists.
  - destruct (Hvalid ltac:(constructor)) as (m & bs & ls & _ & Hbs & _ & Hf & _).
    exists bs, ls. split; [exact Hbs|].
    assert (filter (λ a, sender a = EventsMonitor) (posted_alerts finished) = [AlertEvent EvSudo])
      as Hv by (vm_compute; reflexivity).
    split; [exact Hv|]. rewrite <-Hv. exact Hf.
Defined.

Lemma slot_alerts_follow_the_network_witness :
  ∃ events history,
    network_is [[1]] (rev events) (pr_network finished) ∧
    length (filter (λ a, sender a = SlotsMonitor) (posted_alerts finished)) = 1 ∧
    filter (λ a, sender a = SlotsMonitor) (posted_alerts finished) `prefix_of`
      slot_alerts SlotsToy.config 0%N (rev (slot_seen_of <$> history)).
Proof.
  destruct (slot_alerts_follow_the_network settings 10 0 tt 0 tt 0%N finished)
    as (events & history & Hn & _ & _ & Hf & _).
  - apply state_after_reached. vm_compute. by eexists.
  - assert (forwarded_slots finished = [SlotsToy.info 7 1; SlotsToy.info 8 9]) as ->
      by (vm_compute; reflexivity).
    repeat constructor; vm_compute; discriminate.
  - exists events, history. split; [exact Hn|]. split; [vm_compute; reflexivity|exact Hf].
Defined.
