(* ===== verification/ProgramLive.v ===== *)
(** * The program can always catch up

    From every reachable state in which nothing has ended and no monitor has fallen too
    far behind, the tasks can be run so that every alert called for so far is posted:
    the channels do not block, and no interleaving leads to a state where an alert can
    no longer be delivered. *)

From stdpp Require Import relations.
From S2P Require Import Prelude Duration Errors Headers TreeRoute Follower FollowerSpec.
From S2P Require Import EventTypes Alerts StallReorg P2p Slots SlotsSpec Events System.
From S2P Require Import MdFormat MdFormatProps Slack Main Channel Monitors Program ProgramSpec.
From S2P Require Import Scenario SlotsProps Schedule ProgramToy ProgramProps.

Local Open Scope nat_scope.

Section Live.
Context `{!ErrorPayloads} `{!Joins} `{!Substrate} `{!Formats} {tree : TreeRouteApi}.
Context `{!Libp2p} {B : BoundedVec SlotDetails window} {channels : BroadcastApi}.
Context `{!EventsApi} `{!EventDecoders} `{!Ss58}.
Context {W : Type} {node : NodeApi W} {V : Type} {events_node : EventsNode V}.
Context {U : Type} {slack : SlackApi U} {X : Type} {http : Http X}.
Context {laws : BroadcastLaws channels}.
Context (st : Settings) (fuel : nat).
Abbreviation P := (@Program _ _ _ B W V U X).
Implicit Types p : P.
Abbreviation reachable := (reachable st fuel).

Lemma chain_steps p out t :
  pr_end p = None →
  task_steps (m:=chain_monitor (st_stall st)) (broadcast_blocks p) (pr_chain p) out t →
  reachable p (set_chain t out p).
Proof.
  intros He Hs. remember (pr_chain p) as t0 eqn:Ht. remember (broadcast_blocks p) as vs eqn:Hvs.
  revert p He Ht Hvs. induction Hs as [t|t out t1 outs t2 Hstep _ IH]; intros p He -> ->.
  - assert (set_chain (pr_chain p) [] p = p) as ->; [|apply rtc_refl].
    unfold set_chain. rewrite app_nil_r. by destruct p.
  - eapply rtc_l; [by apply step_chain|].
    assert (set_chain t2 (out ++ outs) p = set_chain t2 outs (set_chain t1 out p)) as ->.
    { unfold set_chain. cbn. by rewrite app_assoc. }
    by apply IH.
Qed.

Lemma slots_steps p out t :
  pr_end p = None →
  task_steps (m:=slot_monitor (st_slots st)) (forwarded_slots p) (pr_slots p) out t →
  reachable p (set_slots t out p).
Proof.
  intros He Hs. remember (pr_slots p) as t0 eqn:Ht. remember (forwarded_slots p) as vs eqn:Hvs.
  revert p He Ht Hvs. induction Hs as [t|t out t1 outs t2 Hstep _ IH]; intros p He -> ->.
  - assert (set_slots (pr_slots p) [] p = p) as ->; [|apply rtc_refl].
    unfold set_slots. rewrite app_nil_r. by destruct p.
  - eapply rtc_l; [by apply step_slots|].
    assert (set_slots t2 (out ++ outs) p = set_slots t2 outs (set_slots t1 out p)) as ->.
    { unfold set_slots. cbn. by rewrite app_assoc. }
    by apply IH.
Qed.

(** The Slack task posts what is left of the queue. *)
Lemma slack_catches_up p :
  pr_end p = None → sl_end (pr_slack p) = None → sl_open (pr_slack p) = true →
  sl_received (pr_slack p) ≤ length (pr_queue p) →
  Forall (λ a, ∃ text, formats (st_format st) a text) (pr_queue p) →
  ∃ sl, reachable p (set_slack sl p) ∧ sl_end sl = None ∧
    sl_received sl = length (pr_queue p).
Proof.
  remember (length (pr_queue p) - sl_received (pr_slack p)) as k eqn:Hk. revert p Hk.
  induction k as [|k IH]; intros p Hk He Hse Hso Hle Hall.
  { exists (pr_slack p). split; [|split; [done|lia]].
    assert (set_slack (pr_slack p) p = p) as ->; [by destruct p|apply rtc_refl]. }
  destruct (lookup_lt_is_Some_2 (pr_queue p) (sl_received (pr_slack p))) as [a Ha]; [lia|].
  pose proof (proj1 (Forall_lookup _ _) Hall _ _ Ha) as [text Htext].
  set (sl1 := slack_receives (st_alerter st) (st_format st) a (pr_slack p)).
  assert (sl_end sl1 = None ∧ sl_open sl1 = true ∧
    sl_received sl1 = S (sl_received (pr_slack p))) as (He1 & Ho1 & Hr1).
  { subst sl1. unfold slack_receives, slack_turn, mbind, M_bind, lift.
    unfold formats in Htext. rewrite Htext.
    destruct (chat_post_message (request_for (st_alerter st) text)
      (slack_world (sl_poster (pr_slack p)))) as [r w] eqn:Hpost.
    by rewrite (post_run _ _ _ _ Hpost). }
  destruct (IH (set_slack sl1 p)) as (sl & Hreach & Hsl); cbn; [rewrite Hr1; lia|done..| |done|].
  { rewrite Hr1. lia. }
  exists sl. split; [|done]. eapply rtc_l; [|exact Hreach].
  apply step_slack; [done|]. by apply slack_step_receives.
Qed.

Lemma not_events_format a :
  sender a ≠ EventsMonitor → ∃ text, formats (st_format st) a text.
Proof. intros Ha. apply format_alert_not_transfer. by intros t ->. Qed.

Lemma monitor_alerts_format out k :
  k ≠ EventsMonitor → Forall (λ a, sender a = k) out →
  Forall (λ a, ∃ text, formats (st_format st) a text) out.
Proof.
  intros Hk Hout. eapply Forall_impl; [exact Hout|]. intros a Ha.
  apply not_events_format. by rewrite Ha.
Qed.

Context (w : W) (v : V) (u : U) (x : X) (now : Instant).
Context (in_tree : Header → Prop) `{!BlockTree in_tree} `{!TreeRouteLaws tree}.
Context `{!HonestNode in_tree node} `{!BoundedVecLaws B}.
Context (Hthreshold : (non_block_import_threshold (st_stall st) <= Duration.MAX)%N).

Lemma chain_catches_up p :
  reached st fuel w v u x now p → pr_end p = None → tk_end (pr_chain p) = None →
  length (broadcast_blocks p) ≤ tk_receiver (pr_chain p) + channel_size →
  ∃ out t, reachable p (set_chain t out p) ∧ tk_end t = None ∧
    drained (m:=chain_monitor (st_stall st)) t ∧
    tk_receiver t = length (broadcast_blocks p) ∧ Forall (λ a, sender a = ChainMonitor) out.
Proof.
  intros Hp He Hte Hlag.
  destruct (chain_task st fuel w v u x now in_tree Hthreshold p Hp) as (hist & Hh & Hs & Hend).
  rewrite Hte in Hend. pose proof (ok_chain_queue _ _ (reached_queue _ _ _ _ _ _ _ p Hp)) as Hq.
  destruct (task_catch_up (m:=chain_monitor (st_stall st))
    (λ s, ∃ past, s = watch_state (st_stall st) past) (broadcast_blocks p) (pr_chain p))
    as (out & t & Hsteps & Hd & Het & Hr & _).
  - intros b s Hb (past & ->). exists (watch_state (st_stall st) (Blocks b :: past)).
    split; [|by eexists]. apply (watch_turn_state (st_stall st) past (Blocks b)); [done|].
    pose proof (ok_listener _ _ _ _ (reached_blocks _ _ _ _ _ _ _ in_tree p Hp)) as [_ Hg].
    rewrite Forall_forall in Hg. destruct (Hg b Hb) as (tip & tip' & Hu).
    by eapply update_blocks_ne.
  - done.
  - apply Hq.
  - by eexists.
  - rewrite Hend. by apply prefix_length.
  - pose proof (retained_size (BroadcastLaws:=laws)). lia.
  - exists out, t. split_and!; [by apply chain_steps|done..|].
    by destruct (task_steps_queue _ _ _ _ _ Hq Hsteps).
Qed.

Lemma slots_catch_up p :
  reached st fuel w v u x now p → pr_end p = None → tk_end (pr_slots p) = None →
  Forall (λ i, slot_in_range (Slot_ i)) (forwarded_slots p) →
  length (forwarded_slots p) ≤ tk_receiver (pr_slots p) + channel_size →
  ∃ out t, reachable p (set_slots t out p) ∧ tk_end t = None ∧
    drained (m:=slot_monitor (st_slots st)) t ∧
    tk_receiver t = length (forwarded_slots p) ∧ Forall (λ a, sender a = SlotsMonitor) out.
Proof.
  intros Hp He Hte Hin Hlag.
  destruct (slots_task st fuel w v u x now p Hp Hin) as (hist & Hh & Hs & Hend).
  rewrite Hte in Hend. pose proof (ok_slots_queue _ _ (reached_queue _ _ _ _ _ _ _ p Hp)) as Hq.
  destruct (task_catch_up (m:=slot_monitor (st_slots st))
    (λ s, ∃ past, Forall slot_in_range past ∧ slot_state (st_slots st) now past s)
    (forwarded_slots p) (pr_slots p)) as (out & t & Hsteps & Hd & Het & Hr & _).
  - intros i s Hi (past & Hpast & Hst). rewrite Forall_forall in Hin.
    destruct (on_slot_state (st_slots st) now past i s) as (s' & Hrun & Hs'); auto.
    exists s'. split; [done|]. exists (Slot_ i :: past). split; [|done]. constructor; auto.
  - done.
  - apply Hq.
  - eexists. split; [|exact Hs]. apply Forall_rev. by eapply seen_in_range.
  - rewrite Hend. by apply prefix_length.
  - pose proof (retained_size (BroadcastLaws:=laws)). lia.
  - exists out, t. split_and!; [by apply slots_steps|done..|].
    by destruct (task_steps_queue _ _ _ _ _ Hq Hsteps).
Qed.
(** C3. Every deep reorg and every timekeeper alert can still be posted.  Take a node that is
    honest, a configured threshold that is a [Duration], and a reachable state in which:
    - the program has not ended, and neither have the chain monitor, the slot monitor and
      the Slack task;
    - Slack's session is open, that is, [auth_test] has succeeded;
    - neither monitor is more than the 100 values of its channel behind;
    - the slots heard so far are in range; and
    - every alert already in the queue can be formatted (a transfer alert of a token with
      39 decimals cannot, C34).
    Then there is a way to go on, without anything new coming in, to a state in which both
    monitors have received all that was sent to them and a request was made to Slack for
    every alert in the queue; the reorgs posted are then those of all the broadcasts and
    the timekeeper alerts all those the slot monitor called for. *)
Theorem alerts_can_be_posted p :
  reached st fuel w v u x now p → pr_end p = None →
  tk_end (pr_chain p) = None → tk_end (pr_slots p) = None →
  sl_end (pr_slack p) = None → sl_open (pr_slack p) = true →
  length (broadcast_blocks p) ≤ tk_receiver (pr_chain p) + channel_size →
  length (forwarded_slots p) ≤ tk_receiver (pr_slots p) + channel_size →
  Forall (λ i, slot_in_range (Slot_ i)) (forwarded_slots p) →
  Forall (λ a, ∃ text, formats (st_format st) a text) (pr_queue p) →
  ∃ p', reachable p p' ∧ pr_follower p' = pr_follower p ∧ pr_network p' = pr_network p ∧
    chain_caught_up st p' ∧ tk_receiver (pr_slots p') = length (forwarded_slots p) ∧
    omap reorg_of (posted_alerts p') = omap (deep_reorg (st_stall st)) (broadcast_blocks p) ∧
    filter (λ a, sender a = SlotsMonitor) (posted_alerts p') = slot_sent (tk_state (pr_slots p')).
Proof.
  intros Hp He Htc Hts Hse Hso Hlc Hls Hin Hfmt.
  destruct (chain_catches_up p) as (out & t & Hr1 & Het & Hdt & Hrt & Hout); [done..|].
  set (p1 := set_chain t out p) in *.
  assert (reached st fuel w v u x now p1) as Hp1 by (by eapply reachable_trans).
  destruct (slots_catch_up p1) as (out2 & t2 & Hr2 & Het2 & Hdt2 & Hrt2 & Hout2); [done..|].
  set (p2 := set_slots t2 out2 p1) in *.
  assert (reached st fuel w v u x now p2) as Hp2 by (by eapply reachable_trans).
  destruct (ok_slack _ _ (reached_queue _ _ _ _ _ _ _ p2 Hp2)) as [(texts & Hpo & Hall) Hrec].
  destruct (slack_catches_up p2) as (sl & Hr3 & Hsle & Hslr); [done..| | |].
  { rewrite Hrec by done. rewrite Hpo, length_fmap, <-(Forall2_length _ _ _ Hall).
    rewrite length_take. lia. }
  { cbn. apply Forall_app. split; [apply Forall_app; split; [done|]|];
      [by apply (monitor_alerts_format _ ChainMonitor)|by apply (monitor_alerts_format _ SlotsMonitor)]. }
  set (p3 := set_slack sl p2) in *.
  assert (reached st fuel w v u x now p3) as Hp3 by (by eapply reachable_trans).
  assert (posted_all p3) as Hpa by done.
  exists p3. split; [eauto using reachable_trans|].
  assert (chain_caught_up st p3) as Hc by done.
  split_and!; [done..| |].
  - by apply (posted_reorgs st fuel w v u x now in_tree Hthreshold p3 Hp3).
  - apply (posted_of_task p3 _ (ok_slots_queue _ _ (reached_queue _ _ _ _ _ _ _ p3 Hp3)));
      [by apply (posted_all_alerts st fuel w v u x now)|done].
Qed.
End Live.

(** ** Witness: halfway through the schedule of [ProgramToy] the reorg was broadcast, and
    neither handed over nor posted. *)
Import Toy.

Lemma alerts_can_be_posted_witness :
  length (posted_alerts halfway) = 0 ∧
  ∃ p', reachable settings 10 halfway p' ∧
    omap reorg_of (posted_alerts p') = [SystemToy.reorg].
Proof.
  split; [vm_compute; reflexivity|].
  destruct (alerts_can_be_posted settings 10 0 tt 0 tt 0%N toy_tree
    ltac:(vm_compute; discriminate) halfway) as (p' & Hp' & _ & _ & _ & _ & Hr & _).
  - apply state_after_reached. vm_compute. by eexists.
  - vm_compute. reflexivity.
  - vm_compute. reflexivity.
  - vm_compute. reflexivity.
  - vm_compute. reflexivity.
  - vm_compute. reflexivity.
  - vm_compute. lia.
  - vm_compute. lia.
  - assert (forwarded_slots halfway = [SlotsToy.info 7 1; SlotsToy.info 8 9]) as ->
      by (vm_compute; reflexivity).
    repeat constructor; vm_compute; discriminate.
  - assert (pr_queue halfway = [AlertEvent EvSudo]) as -> by (vm_compute; reflexivity).
    constructor; [|constructor]. by eexists.
  - exists p'. split; [exact Hp'|]. rewrite Hr. vm_compute. reflexivity.
Defined.
