(* ===== verification/ProgramEnd.v ===== *)
(** * Why the program ends

    [main] returns with the first task that ends.  In the program as a whole most of the
    ways a task could end cannot happen; what is left is listed here. *)

From stdpp Require Import relations.
From S2P Require Import Prelude Duration Errors Headers TreeRoute Follower FollowerSpec.
From S2P Require Import EventTypes Alerts StallReorg P2p Slots SlotsSpec SlotsProps.
From S2P Require Import Events EventsProps System MdFormat Slack SlackProps Main.
From S2P Require Import Channel Monitors Program ProgramSpec Scenario Schedule ProgramToy ProgramProps.

Local Open Scope nat_scope.

Section End_.
Context `{!ErrorPayloads} `{!Joins} `{!Substrate} `{!Formats} {tree : TreeRouteApi}.
Context `{!Libp2p} {B : BoundedVec SlotDetails window} {channels : BroadcastApi}.
Context `{!EventsApi} `{!EventDecoders} `{!Ss58}.
Context {W : Type} {node : NodeApi W} {V : Type} {events_node : EventsNode V}.
Context {U : Type} {slack : SlackApi U} {X : Type} {http : Http X}.
Context {laws : BroadcastLaws channels}.
Context (st : Settings) (fuel : nat) (w : W) (v : V) (u : U) (x : X) (now : Instant).
Abbreviation P := (@Program _ _ _ B W V U X).
Implicit Types p : P.

(** [main] has returned what joining a task that had ended gave. *)
Definition end_ok p : Prop :=
  ∀ o, pr_end p = Some o → ∃ r, task_ended st p r ∧ o = end_of_main (Some r).

Lemma step_end_ok p p' : step st fuel p p' → end_ok p'.
Proof.
  intros Hstep o Ho. inversion Hstep as [He| | | | | | |r He Hr]; subst; cbn in Ho; try congruence.
  injection Ho as <-. exists r. split; [|done].
  inversion Hr; subst; [eapply follower_ended|eapply chain_ended|eapply events_ended|
    eapply slots_ended|eapply slack_ended|eapply uptime_ended|apply updater_ended]; done.
Qed.

Lemma reached_end_ok p : reached st fuel w v u x now p → end_ok p.
Proof.
  intros Hp. assert (start st w v u x now = p ∨ ∃ p0, step st fuel p0 p) as [<-|(p0 & Hs)].
  { destruct (rtc_inv_r (R:=step st fuel) (start st w v u x now) p Hp) as [Heq|(p0 & _ & Hs)]; [by left|right; by exists p0]. }
  - intros o Ho. done.
  - by eapply step_end_ok.
Qed.

Context (in_tree : Header → Prop) `{!BlockTree in_tree} `{!TreeRouteLaws tree}.
Context `{!HonestNode in_tree node} `{!BoundedVecLaws B}.
Context (Hthreshold : (non_block_import_threshold (st_stall st) <= Duration.MAX)%N).
Context (evs : BlockHash → result subxt_Error Events).
Context (Hevs : ∀ h w, fst (events_at h w) = evs h).
Context (m : gmap AccountId Account) (Haccounts : account_mapped_name (st_accounts st) = Ok m).

(** C6. What can end the program: with a node that tells the truth, valid addresses of the
    known accounts and slots within range, [main] returns only because the follower got
    an error from the node, a monitor fell behind by more than its channel keeps, the
    events of a broadcast block could not be read, the Slack or the uptime task ended,
    or subxt's updater did; the follower and the three monitors never panic. *)
Theorem program_ends_for_a_reason p o :
  reached st fuel w v u x now p → pr_end p = Some o →
  Forall (λ i, slot_in_range (Slot_ i)) (forwarded_slots p) →
  (∃ e, fl_end (pr_follower p) = Some (Failed e) ∧ o = Err e) ∨
  (∃ n, (0 < n)%N ∧ o = Err (BroadRecvErr (Lagged n)) ∧
     channel_size < Nat.max (length (broadcast_blocks p)) (length (forwarded_slots p))) ∨
  (∃ b e, b ∈ broadcast_block_list p ∧ report evs m b = Err e ∧ o = Err e) ∨
  (∃ why r, (sl_end (pr_slack p) = Some why ∨ up_end (pr_uptime p) = Some why) ∧
     joined why = Some r ∧ o = end_of_main (Some r)) ∨
  (∃ r : result subxt_Error (), o = match r with inl e => Err (Subxt e) | inr _ => Ok tt end).
Proof.
  intros Hp Ho Hin. destruct (reached_end_ok p Hp o Ho) as (r & Hr & ->).
  pose proof (retained_size (BroadcastLaws:=laws)) as Hsize.
  destruct Hr as [why r Hw Hj|why r Hw _ Hj|why r Hw _ Hj|why r Hw _ Hj|why r Hw Hj|why r Hw Hj|r].
  - left. pose proof (ok_follower_end _ _ _ _ (reached_blocks _ _ _ _ _ _ _ in_tree p Hp)) as Hf.
    destruct why as [e|msg|]; [|by destruct (Hf msg)|done]. injection Hj as <-.
    by exists e.
  - right. left. destruct (chain_task _ _ _ _ _ _ _ in_tree Hthreshold p Hp) as (hist & _ & _ & Hend).
    rewrite Hw in Hend. destruct Hend as (n & vs & -> & Hn & Hvs & Hlen).
    injection Hj as <-. exists n. split_and!; [done..|]. apply prefix_length in Hvs. lia.
  - destruct (events_task _ _ _ _ _ _ _ in_tree m p Haccounts Hp)
      as (bs & ls & _ & _ & _ & Hend). rewrite Hw in Hend.
    destruct Hend as [(b & e & Hb & Hrep & ->)|(n & -> & Hn & Hlen)]; injection Hj as <-.
    + right. right. left. exists b, e.
      split_and!; [|by apply reports_report|done]. destruct Hb as [k ->]. set_solver.
    + right. left. exists n. split_and!; [done..|lia].
  - right. left. destruct (slots_task _ _ _ _ _ _ _ p Hp Hin) as (hist & _ & _ & Hend).
    rewrite Hw in Hend. destruct Hend as (n & -> & Hn & Hlen).
    injection Hj as <-. exists n. split_and!; [done..|]. lia.
  - do 3 right. left. exists why, r. auto.
  - do 3 right. left. exists why, r. auto.
  - do 4 right. exists r. by destruct r as [|[]].
Qed.
End End_.

(** ** Witness: after the schedule of [ProgramToy] the node's subscription ends, which ends
    the follower and the program. *)
Import Toy.
Definition cut_off : Prog := state_after (schedule ++ [FollowerGoes]).

Lemma cut_off_reached :
  reached settings 10 0 tt 0 tt 0%N (set_end (Err MissingBlock) cut_off).
Proof.
  apply (reachable_trans _ _ _ cut_off).
  - apply state_after_reached. vm_compute. by eexists.
  - apply rtc_once. apply (step_join settings 10 cut_off (inr (inl MissingBlock))).
    + vm_compute. reflexivity.
    + apply (follower_ended settings cut_off (Failed MissingBlock)); vm_compute; reflexivity.
Qed.

Lemma program_ends_for_a_reason_witness :
  ∃ p : Prog, reached settings 10 0 tt 0 tt 0%N p ∧ pr_end p = Some (Err MissingBlock) ∧
    ((∃ e, fl_end (pr_follower p) = Some (Failed e) ∧ (Err MissingBlock : outcome Error ()) = Err e) ∨
     length (posts (sl_poster (pr_slack p))) = 0).
Proof.
  exists (set_end (Err MissingBlock) cut_off).
  split; [exact cut_off_reached|]. split; [reflexivity|].
  destruct (program_ends_for_a_reason (events_node:=SystemToy.events_node) settings 10 0 tt 0 tt 0%N
    toy_tree ltac:(vm_compute; discriminate) SystemToy.served (λ _ _, eq_refl) ∅ eq_refl
    (set_end (Err MissingBlock) cut_off) (Err MissingBlock))
    as [H|[(n & _ & Hn & _)|[(b & e & _ & Hr & Hn)|[(why & r & [Hw|Hw] & _)|(r & Hr)]]]].
  - exact cut_off_reached.
  - reflexivity.
  - assert (forwarded_slots (set_end (Err MissingBlock) cut_off) =
      [SlotsToy.info 7 1; SlotsToy.info 8 9]) as -> by (vm_compute; reflexivity).
    repeat constructor; vm_compute; discriminate.
  - left. exact H.
  - discriminate.
  - injection Hn as <-. vm_compute in Hr. discriminate.
  - vm_compute in Hw. discriminate.
  - vm_compute in Hw. discriminate.
  - destruct r; discriminate.
Defined.
