(* ===== verification/Startup.v ===== *)
(** * Start-up (alerter/src/main.rs, with [Subspace::new_from_url], [Network::new] and
    [build_swarm] of alerter/src/subspace.rs and alerter/src/p2p_network.rs)

    [main] up to the point where it waits for its tasks: the clients, the configuration,
    the channels, and the tasks in the order they are spawned.  A task may run from the
    moment it is spawned, while [main] goes on; what it has sent by then is an oracle's
    answer, of which only this is assumed: a task that was not spawned has sent nothing. *)

From stdpp Require Import relations.
From S2P Require Import Prelude Duration Errors Headers TreeRoute Follower EventTypes Alerts.
From S2P Require Import StallReorg P2p Slots Events MdFormat Slack Cli Main Channel Monitors.
From S2P Require Import Program ProgramSpec ProgramProps.

Local Open Scope nat_scope.

(** ** The swarm's configuration *)
Definition POT_PROTOCOL : string := "/subspace/subspace-proof-of-time/1".

(** What [build_swarm] sets, in libp2p's terms. *)
Record SwarmConfig : Type := {
  pot_protocol : string;
  block_announce_genesis : BlockHash;
  record_ttl : Duration;
  provider_ttl : Duration;
  query_timeout : Duration;
  discovery_id : string;
  max_established : N;
  max_established_incoming : N;
  max_established_outgoing : N;
  idle_connection_timeout : Duration;
}.

(** libp2p's fallible steps; the noise and yamux transports and the behaviour constructor
    are said to be infallible by the code's [expect]s. *)
Class SwarmApi `{!ErrorPayloads} `{!Libp2p} (W : Type) : Type := {
  with_tcp : W → option () * W;
  with_dns : W → result io_Error () * W;
  with_behaviour : SwarmConfig → W → option () * W;
  parse_multiaddr : string → option Multiaddr;
  listen_on : Multiaddr → W → option () * W;
}.

(** The clients' constructors: subxt's reconnecting RPC client, whose errors are wrapped
    into [subxt_rpcs::Error::Client], and its online client. *)
Class Clients `{!ErrorPayloads} (W : Type) : Type := {
  ClientError : Type;
  Client : ClientError → subxt_rpcs_Error;
  rpc_build : string → W → result ClientError () * W;
  client_from_url : string → W → result subxt_Error () * W;
}.

(** ** The tasks, as they are spawned *)
Inductive Job : Type :=
  | UpdaterJob
  | UptimeJob (url : string) (every : Duration)
  | ChainJob (stream : nat) (config : StallAndReorgConfig)
  | EventsJob (stream : nat) (accounts : list Account)
  | SlotsJob (stream : nat) (config : SlotsConfig)
  | SlackJob (alerter : SlackAlerter) (format_config : FormatConfig)
  | FollowerJob
  | NetworkJob.

(** What the spawned tasks have sent on the channels when [main] subscribes. *)
Class Sending : Type := {
  blocks_sent : list Job → list BlocksExt;
  slots_sent : list Job → list PoTInfo;
}.
Class SendingLaws `{Sending} : Prop := {
  blocks_by_follower jobs : FollowerJob ∉ jobs → blocks_sent jobs = [];
  slots_by_network jobs : NetworkJob ∉ jobs → slots_sent jobs = [];
}.

Record MainState (W : Type) : Type := {
  ms_world : W;
  default_ss58 : option N;
  ms_jobs : list Job;
}.
Arguments ms_world {W} _.
Arguments default_ss58 {W} _.
Arguments ms_jobs {W} _.

Section Startup.
Context `{!ErrorPayloads} `{!Substrate} `{!Formats} `{!Libp2p} {channels : BroadcastApi}.
Context {W : Type} {node : NodeApi W} {info : ChainInfo W} {files : ConfigFiles}.
Context {fs : FileSystem} {swarm_api : SwarmApi W} {clients : Clients W} {sending : Sending}.
Abbreviation MM := (M (MainState W) Error).

Definition on_world {A} (m : M W Error A) : MM A :=
  zoom ms_world (λ w s, {| ms_world := w; default_ss58 := default_ss58 s; ms_jobs := ms_jobs s |}) m.

Definition set_default_ss58_version (format : N) : MM () :=
  modify (λ s, {| ms_world := ms_world s; default_ss58 := Some format; ms_jobs := ms_jobs s |}).

Definition spawn (j : Job) : MM () :=
  modify (λ s, {| ms_world := ms_world s; default_ss58 := default_ss58 s;
                  ms_jobs := ms_jobs s ++ [j] |}).

(** ** [Subspace] *)

(** The part of [Subspace] and [Network] that matters to the others: the receiver they
    hold of their own channel, which keeps it open. *)
Record Subspace : Type := { stream : nat }.

Definition new_from_url (url : string) : M W Error Subspace := λ w,
  let '(rpc, w) := rpc_build url w in
  match rpc with
  | inl err => (Err (Rpc (Client err)), w)
  | inr _ =>
      let '(client, w) := client_from_url url w in
      (_ ← question client; mret {| stream := 0 |}, w)
  end.

(** [self.stream.resubscribe()]. *)
Definition blocks_stream (subspace : Subspace) : MM nat :=
  jobs ← gets ms_jobs;
  mret (resubscribe (blocks_sent jobs) (stream subspace)).

(** ** [Network::new] *)
Definition swarm_config (genesis_hash : BlockHash) : SwarmConfig :=
  {| pot_protocol := POT_PROTOCOL; block_announce_genesis := genesis_hash;
     record_ttl := Duration.from_secs (60 * 30); provider_ttl := Duration.from_secs (60 * 30);
     query_timeout := Duration.from_secs (5 * 60); discovery_id := hex_encode genesis_hash;
     max_established := 500; max_established_incoming := 500; max_established_outgoing := 500;
     idle_connection_timeout := Duration.from_secs u64_max |}.

Definition infallible {A} (msg : string) (f : W → option A * W) : M W Error A := λ w,
  let '(r, w) := f w in (expect msg r, w).

Definition build_swarm (genesis_hash : BlockHash) : M W Error () :=
  _ ← infallible "infallible tcp transport" with_tcp;
  _ ← (λ w, let '(r, w) := with_dns w in (question r, w)) : M W Error ();
  _ ← infallible "infallible behavior construction" (with_behaviour (swarm_config genesis_hash));
  addr ← lift (expect "Valid listen address; qed" (parse_multiaddr "/ip4/0.0.0.0/tcp/0"));
  infallible "Valid listen address; qed" (listen_on addr).

Record NetworkHandle : Type := { pot_receiver : nat; handle_bootnodes : list Multiaddr }.

Definition network_new (bootnodes : list Multiaddr) (genesis_hash : BlockHash)
    : M W Error NetworkHandle :=
  _ ← build_swarm genesis_hash;
  mret {| pot_receiver := 0; handle_bootnodes := bootnodes |}.

Definition pot_stream (network : NetworkHandle) : MM nat :=
  jobs ← gets ms_jobs;
  mret (resubscribe (slots_sent jobs) (pot_receiver network)).

(** ** [main], up to waiting for its tasks *)
Definition main (cli : Config) : MM Settings :=
  subspace ← on_world (new_from_url (cfg_rpc_url cli));
  network_details ← on_world network_details;
  _ ← set_default_ss58_version (ss58_format network_details);
  network_config ← lift (network_config (network_config_path cli) (name network_details));
  network ← on_world (network_new (nc_bootnodes network_config) (genesis_hash network_details));
  _ ← spawn UpdaterJob;
  alerter ← lift (alerter_new (slack cli));
  let uptime := (λ url, (url, uptimekuma_interval (uptimekuma cli))) <$>
    uptimekuma_url (uptimekuma cli) in
  _ ← match uptime with Some (url, every) => spawn (UptimeJob url every) | None => mret tt end;
  chain_stream ← blocks_stream subspace;
  _ ← spawn (ChainJob chain_stream (stall_and_reorg cli));
  events_stream ← blocks_stream subspace;
  _ ← spawn (EventsJob events_stream (accounts network_config));
  slots_stream ← pot_stream network;
  _ ← spawn (SlotsJob slots_stream (cfg_slots cli));
  let format_config := {| rpc_url := cfg_rpc_url cli; token_name := token_symbol network_details;
    token_decimals := nd_token_decimals network_details |} in
  _ ← spawn (SlackJob alerter format_config);
  _ ← spawn FollowerJob;
  _ ← spawn NetworkJob;
  mret {| st_stall := stall_and_reorg cli; st_slots := cfg_slots cli;
          st_accounts := accounts network_config; st_bootnodes := handle_bootnodes network;
          st_alerter := alerter; st_format := format_config; st_uptime := uptime |}.
End Startup.

(** ** What [main] has started when it waits *)
Section Launch.
Context `{!ErrorPayloads} `{!Joins} `{!Substrate} `{!Formats} {tree : TreeRouteApi}.
Context `{!Libp2p} {B : BoundedVec SlotDetails window} {channels : BroadcastApi}.
Context `{!EventsApi} `{!EventDecoders} `{!Ss58}.
Context {W : Type} {node : NodeApi W} {V : Type} {events_node : EventsNode V}.
Context {U : Type} {slack_api : SlackApi U} {X : Type} {http : Http X}.
Context {info : ChainInfo W} {files : ConfigFiles} {fs : FileSystem} {swarm_api : SwarmApi W}.
Context {clients : Clients W} {sending : Sending}.
Abbreviation P := (@Program _ _ _ B W V U X).

Definition chain_receiver (j : Job) : option nat :=
  match j with ChainJob r _ => Some r | _ => None end.
Definition events_receiver (j : Job) : option nat :=
  match j with EventsJob r _ => Some r | _ => None end.
Definition slots_receiver (j : Job) : option nat :=
  match j with SlotsJob r _ => Some r | _ => None end.

(** The program with the receivers the spawned monitors were given. *)
Definition launch (st : Settings) (jobs : list Job) (w : W) (v : V) (u : U) (x : X)
    (now : Instant) : option P :=
  chain_pos ← find_map chain_receiver jobs;
  events_pos ← find_map events_receiver jobs;
  slots_pos ← find_map slots_receiver jobs;
  Some (spawned st chain_pos events_pos slots_pos w v u x now).

(** The jobs of a program with these settings, all receivers at the start. *)
Definition uptime_jobs (st : Settings) : list Job :=
  match st_uptime st with Some (url, every) => [UptimeJob url every] | None => [] end.

Definition all_jobs (st : Settings) : list Job :=
  [UpdaterJob] ++ uptime_jobs st ++
  [ChainJob 0 (st_stall st); EventsJob 0 (st_accounts st); SlotsJob 0 (st_slots st);
   SlackJob (st_alerter st) (st_format st); FollowerJob; NetworkJob].

Definition set_ms_world (w : W) (s : MainState W) : MainState W :=
  {| ms_world := w; default_ss58 := default_ss58 s; ms_jobs := ms_jobs s |}.

Lemma wp_on_world {A} (m : M W Error A) Q (Y : abort Error → MainState W → Prop) s :
  (∀ a w, m (ms_world s) = (Ok a, w) → Q a (set_ms_world w s)) →
  (∀ b w, Y b (set_ms_world w s)) → wp (on_world m) Q Y s.
Proof.
  intros HQ HY. apply wp_zoom. unfold wp.
  destruct (m (ms_world s)) as [[] w]; [by apply HQ|apply HY..].
Qed.

Lemma wp_lift_any {A S E} (o : outcome E A) Q (Y : abort E → S → Prop) s :
  (∀ a, o = Ok a → Q a s) → (∀ b, Y b s) → wp (lift o) Q Y s.
Proof. intros HQ HY. apply wp_lift; auto. Qed.

Context {laws : BroadcastLaws channels} `{!SendingLaws}.

(** What the settings are made of: the command line, the details of the network that the
    node at its URL answers, the configuration found under the network's name in its
    file, and the Slack secret of its file; the details also set the address format. *)
Definition configured (cli : Config) (s : MainState W) (st : Settings) (s' : MainState W) : Prop :=
  ∃ subspace w1 details w2 config network,
    new_from_url (cfg_rpc_url cli) (ms_world s) = (Ok subspace, w1) ∧
    network_details w1 = (Ok details, w2) ∧
    network_config (network_config_path cli) (name details) = Ok config ∧
    network_new (nc_bootnodes config) (genesis_hash details) w2 = (Ok network, ms_world s') ∧
    default_ss58 s' = Some (ss58_format details) ∧
    alerter_new (slack cli) = Ok (st_alerter st) ∧
    st = {| st_stall := stall_and_reorg cli;
            st_slots := cfg_slots cli;
            st_accounts := accounts config;
            st_bootnodes := nc_bootnodes config;
            st_alerter := st_alerter st;
            st_format := {| rpc_url := cfg_rpc_url cli; token_name := token_symbol details;
                            token_decimals := nd_token_decimals details |};
            st_uptime := (λ url, (url, uptimekuma_interval (uptimekuma cli))) <$>
                           uptimekuma_url (uptimekuma cli) |}.

Lemma configured_stall cli s st s' : configured cli s st s' → st_stall st = stall_and_reorg cli.
Proof. by intros (? & ? & ? & ? & ? & ? & _ & _ & _ & _ & _ & _ & ->). Qed.

Lemma configured_alerter cli s st s' :
  configured cli s st s' → alerter_new (slack cli) = Ok (st_alerter st).
Proof. by intros (? & ? & ? & ? & ? & ? & _ & _ & _ & _ & _ & Ha & _). Qed.

Lemma network_new_bootnodes boot genesis w network w' :
  network_new boot genesis w = (Ok network, w') → handle_bootnodes network = boot.
Proof.
  unfold network_new, mbind, M_bind. destruct (build_swarm genesis w) as [[] w1]; [|done..].
  by intros [= <- _].
Qed.

Lemma wp_main cli s :
  ms_jobs s = [] →
  wp (main cli) (λ st s', ms_jobs s' = all_jobs st ∧ configured cli s st s')
    (λ _ s', ms_jobs s' = [] ∨ ms_jobs s' = [UpdaterJob]) s.
Proof.
  intros Hs. unfold main, set_default_ss58_version, spawn, blocks_stream, pot_stream.
  wp_step. apply wp_on_world; [|by left]. intros sub w1 Hsub.
  wp_step. apply wp_on_world; [|by left]. intros det w2 Hdet. wp_step. wp_step.
  wp_step. apply wp_lift_any; [|by left]. intros cfg Hcfg.
  wp_step. apply wp_on_world; [|by left]. intros net w3 Hnet. wp_step. wp_step.
  wp_step. apply wp_lift_any; [|intros b; right; cbn; by rewrite Hs]. intros alerter Halerter.
  cbn zeta. wp_step. pose proof (network_new_bootnodes _ _ _ _ _ Hnet) as Hboot.
  assert (∀ (j : Job) jobs, j ∉ jobs → j ≠ UpdaterJob → j ∉ jobs ++ [UpdaterJob]) as Hnew
    by set_solver.
  unfold all_jobs, uptime_jobs.
  destruct (uptimekuma_url (uptimekuma cli)) as [url|] eqn:Hurl;
    cbn [fmap option_fmap option_map];
    repeat wp_step; cbn [ms_jobs set_ms_world]; rewrite Hs; cbn [app];
    rewrite !resubscribe_tail, !blocks_by_follower, slots_by_network by set_solver;
    cbn [length st_uptime st_stall st_slots st_accounts st_alerter st_format]; (split; [done|]);
    exists sub, w1, det, w2, cfg, net; rewrite Hurl, Hboot; by split_and!.
Qed.

Lemma launch_all_jobs st jobs w v u x now :
  jobs = all_jobs st → launch st jobs w v u x now = Some (start st w v u x now).
Proof.
  intros ->. unfold launch, all_jobs, uptime_jobs. by destruct (st_uptime st) as [[url every]|].
Qed.

(** C8. Start-up is faithful to its configuration and misses no broadcast: whenever [main]
    gets as far as waiting for its tasks, it has spawned each of them once, with exactly
    the settings that the command line, the node's answers, the configuration file and
    the secret call for ([configured]); and although the tasks may run while it goes on,
    it has subscribed the monitors before the follower and the network can send, so the
    program is in the state every other theorem starts from. *)
Theorem main_launches_the_start cli s st s' v u x now :
  ms_jobs s = [] → main cli s = (Ok st, s') →
  configured cli s st s' ∧ ms_jobs s' = all_jobs st ∧
  launch st (ms_jobs s') (ms_world s') v u x now = Some (start st (ms_world s') v u x now).
Proof.
  intros Hs Hrun. destruct (wp_run _ _ _ _ _ _ (wp_main cli s Hs) Hrun) as (Hj & Hcfg).
  split_and!; [done|done|by apply launch_all_jobs].
Qed.

(** C37. Start-up fails before anything is monitored: if a client, the network's details or
    configuration, the swarm or the Slack secret cannot be had, [main] ends with no
    monitor, no follower and no Slack task spawned, only, in the case of the secret,
    the runtime updater. *)
Theorem failed_startup_spawns_no_monitor cli s o s' :
  ms_jobs s = [] → main cli s = (o, s') → stopped_by o ≠ None →
  ms_jobs s' = [] ∨ ms_jobs s' = [UpdaterJob].
Proof.
  intros Hs Hrun Ho. pose proof (wp_main cli s Hs) as Hwp. unfold wp in Hwp.
  rewrite Hrun in Hwp. by destruct o.
Qed.
End Launch.
