(* ===== verification/EndToEnd.v ===== *)
(** * From the command line to Slack

    The theorems about start-up and about the running program, composed, and a start-up
    of the run of [ProgramToy]. *)

From stdpp Require Import relations.
From S2P Require Import Prelude Duration Errors Headers TreeRoute Follower FollowerSpec.
From S2P Require Import EventTypes Alerts StallReorg P2p Slots SlotsProps Events EventsProps System.
From S2P Require Import MdFormat Slack SlackProps Cli Main Channel Monitors.
From S2P Require Import Program ProgramSpec Scenario Schedule ProgramToy ProgramProps Startup.

Local Open Scope nat_scope.

Section EndToEnd.
Context `{!ErrorPayloads} `{!Joins} `{!Substrate} `{!Formats} {tree : TreeRouteApi}.
Context `{!Libp2p} {B : BoundedVec SlotDetails window} {channels : BroadcastApi}.
Context `{!EventsApi} `{!EventDecoders} `{!Ss58}.
Context {W : Type} {node : NodeApi W} {V : Type} {events_node : EventsNode V}.
Context {U : Type} {slack_api : SlackApi U} {X : Type} {http : Http X}.
Context {info : ChainInfo W} {files : ConfigFiles} {fs : FileSystem} {swarm_api : SwarmApi W}.
Context {clients : Clients W} {sending : Sending} `{!SendingLaws}.
Context `{!Clap} `{!Humantime} `{!ClapLaws} `{!HumantimeLaws} {laws : BroadcastLaws channels}.
Context (in_tree : Header → Prop) `{!BlockTree in_tree} `{!TreeRouteLaws tree}.
Context `{!HonestNode in_tree node}.

(** C1. The alerts the operator asked for reach Slack.  Take any command line that is
    accepted, any start-up that gets as far as waiting for the tasks, any way the tasks
    then run: what has been posted to the channel of the command line is, in order, the
    texts of the first alerts in the queue; the chain alerts among them are, in order,
    the first of the stalls, recoveries and reorgs that the first broadcasts, with some
    silences between them, call for; the reorg alerts are those of a first part of the
    follower's broadcasts, each of which is a step of the best block along the block
    tree, that retract at least the depth of the command line; and once the chain
    monitor and Slack have caught up, those of all of them.  What is posted are the
    requests made; that Slack refuses one is only logged. *)
Theorem command_line_to_slack args cli s st s' v u x now fuel (p p' : Program) :
  parse args = Ok cli → ms_jobs s = [] → main cli s = (Ok st, s') →
  launch st (ms_jobs s') (ms_world s') v u x now = Some p → reachable st fuel p p' →
  (∃ texts, posted (pr_slack p') = request_for (st_alerter st) <$> texts ∧
     Forall2 (formats (st_format st)) (posted_alerts p') texts) ∧
  Forall (λ r, channel r = channel_of (slack_channel_name (slack cli))) (posted (pr_slack p')) ∧
  Forall (genuine in_tree) (broadcast_blocks p') ∧
  (∃ history, broadcasts history `prefix_of` broadcast_blocks p' ∧
     filter (λ a, sender a = ChainMonitor) (posted_alerts p') `prefix_of`
       alerts_of (stall_and_reorg cli) (rev history)) ∧
  omap reorg_of (posted_alerts p') `prefix_of`
    omap (deep_reorg (stall_and_reorg cli)) (broadcast_blocks p') ∧
  (chain_caught_up st p' →
   omap reorg_of (posted_alerts p') =
     omap (deep_reorg (stall_and_reorg cli)) (broadcast_blocks p')).
Proof.
  intros Hparse Hs Hmain Hlaunch Hreach.
  destruct (wp_run _ _ _ _ _ _ (wp_main cli s Hs) Hmain) as (Hj & Hcfg).
  pose proof (configured_stall _ _ _ _ Hcfg) as Hst.
  pose proof (configured_alerter _ _ _ _ Hcfg) as Ha.
  rewrite (launch_all_jobs _ _ _ _ _ _ _ Hj) in Hlaunch. injection Hlaunch as <-.
  assert (reached st fuel (ms_world s') v u x now p') as Hp by exact Hreach.
  assert ((non_block_import_threshold (st_stall st) <= Duration.MAX)%N) as Hmax.
  { rewrite Hst. by apply (parse_ok args cli Hparse). }
  destruct (ok_slack _ _ (reached_queue _ _ _ _ _ _ _ p' Hp)) as [(texts & Hpo & Hf) _].
  split_and!; [by exists texts| | | | |].
  - rewrite Hpo. apply Forall_fmap, Forall_forall. intros t _. cbn.
    by apply alerter_new_channel.
  - apply (ok_listener _ _ _ _ (reached_blocks _ _ _ _ _ _ _ in_tree p' Hp)).
  - rewrite <-Hst. by apply (posted_chain_alerts st fuel (ms_world s') v u x now in_tree).
  - rewrite <-Hst. by apply (posted_reorgs st fuel (ms_world s') v u x now in_tree).
  - rewrite <-Hst. by apply (posted_reorgs st fuel (ms_world s') v u x now in_tree).
Qed.
End EndToEnd.

(** ** Witnesses: the start-up of [ProgramToy]'s run *)
Module StartupToy.
#[export] Existing Instances CliToy.clap CliToy.laws CliToy.humantime CliToy.humantime_laws.
(** The node also knows its network's properties. *)
#[export] Instance info : ChainInfo nat := {|
  Value := N + string;
  as_u64 v := match v with inl n => Some n | inr _ => None end;
  as_str v := match v with inr s => Some s | inl _ => None end;
  system_chain w := (inr "mainnet", w);
  system_properties w := (inr (list_to_map [("ss58Format", inl 6094%N);
    ("tokenSymbol", inr "AI3"); ("tokenDecimals", inl 18%N)]), w) |}.
Definition mainnet : NetworkConfig := {| accounts := []; nc_bootnodes := [[1]] |}.
#[export] Instance files : ConfigFiles := {|
  config_text _ := inr "[networks.mainnet]";
  from_toml _ := inr {| networks := {[ "mainnet" := mainnet ]} |} |}.
(** A secret file of mode 0600; the one of the second user is readable by everyone. *)
#[export] Instance fs : FileSystem := {|
  metadata_mode path := inr (if (path =? "/slack-secret")%string then 384%N else 420%N);
  read_to_string _ := inr [120%N; 10%N] |}.
#[export] Instance swarm_api : SwarmApi nat := {|
  with_tcp w := (Some tt, w); with_dns w := (inr tt, w); with_behaviour _ w := (Some tt, w);
  parse_multiaddr _ := Some [4; 0]; listen_on _ w := (Some tt, w) |}.
#[export] Instance clients : Clients nat := {|
  ClientError := string; Client e := e; rpc_build _ w := (inr tt, w);
  client_from_url _ w := (inr tt, w) |}.

(** Tasks that send as soon as they are spawned. *)
Definition is_follower (j : Job) : bool := match j with FollowerJob => true | _ => false end.
Definition is_network (j : Job) : bool := match j with NetworkJob => true | _ => false end.
#[export] Instance sending : Sending := {|
  blocks_sent jobs :=
    if existsb is_follower jobs then [{| blocks := []; maybe_reorg_data := None |}] else [];
  slots_sent jobs := if existsb is_network jobs then [SlotsToy.info 7 1] else [] |}.
#[export] Instance sending_laws : SendingLaws.
Proof.
  split; intros jobs Hj; cbn; destruct (existsb _ _) eqn:Hb; try done; exfalso; apply Hj;
    apply existsb_exists in Hb as (j & Hin & Hj'); apply list_elem_of_In in Hin; by destruct j.
Qed.

Definition args : list string :=
  CliToy.args ++ ["reorg-depth-threshold"; "1"; "uptimekuma-url"; "http://kuma"].
Definition cli : Config := {|
  cfg_rpc_url := "wss://rpc"; network_config_path := "/networks.toml";
  uptimekuma := {| uptimekuma_url := Some "http://kuma"; uptimekuma_interval := Duration.from_secs 60 |};
  stall_and_reorg :=
    {| non_block_import_threshold := Duration.from_secs 60; reorg_depth_threshold := 1%N |};
  slack := {| slack_team_id := "T03LJ85UR5G"; slack_bot_name := "alerts";
              slack_bot_icon := "robot_face"; slack_channel_name := "#chain";
              slack_secret_path := "/slack-secret" |};
  cfg_slots := {| per_slot_threshold := 1200000000%N; avg_slot_threshold := 1100000000%N |} |}.
Definition first : MainState nat := {| ms_world := 0; default_ss58 := None; ms_jobs := [] |}.
Definition started : outcome Error Settings * MainState nat := main cli first.
Definition st : Settings := match fst started with Ok st => st | _ => Toy.settings end.

Lemma parsed : parse args = Ok cli.
Proof. vm_compute. reflexivity. Qed.
Lemma started_ok : main cli first = (Ok st, snd started).
Proof. vm_compute. reflexivity. Qed.

(** A secret that others can read. *)
Definition exposed : Config := {|
  cfg_rpc_url := "wss://rpc"; network_config_path := "/networks.toml";
  uptimekuma := uptimekuma cli; stall_and_reorg := stall_and_reorg cli;
  slack := {| slack_team_id := "T03LJ85UR5G"; slack_bot_name := "alerts";
              slack_bot_icon := "robot_face"; slack_channel_name := "#chain";
              slack_secret_path := "/tmp/secret" |};
  cfg_slots := cfg_slots cli |}.
End StartupToy.
Import Toy StartupToy.

Lemma main_launches_the_start_witness :
  configured cli first StartupToy.st (snd started) ∧
  ms_jobs (snd started) = all_jobs StartupToy.st ∧ length (all_jobs StartupToy.st) = 8 ∧
  st_uptime StartupToy.st = Some ("http://kuma", Duration.from_secs 60) ∧
  st_bootnodes StartupToy.st = [[1]] ∧ token_name (st_format StartupToy.st) = "AI3".
Proof.
  destruct (main_launches_the_start (B:=vec) (V:=()) (U:=nat) (X:=()) cli first StartupToy.st
    (snd started) tt 0 tt 0%N eq_refl started_ok) as (Hcfg & Hjobs & _).
  split; [exact Hcfg|]. split; [exact Hjobs|]. split_and!; vm_compute; reflexivity.
Defined.

Lemma failed_startup_spawns_no_monitor_witness :
  is_ok (fst (main exposed first)) = false ∧
  (ms_jobs (snd (main exposed first)) = [] ∨ ms_jobs (snd (main exposed first)) = [UpdaterJob]).
Proof.
  split; [vm_compute; reflexivity|].
  apply (failed_startup_spawns_no_monitor exposed first (fst (main exposed first))).
  - reflexivity.
  - apply surjective_pairing.
  - vm_compute. discriminate.
Defined.

Lemma command_line_to_slack_witness :
  ∃ p p' : Prog, launch StartupToy.st (ms_jobs (snd started)) 0 tt 0 tt 0%N = Some p ∧
    reachable StartupToy.st 10 p p' ∧ posted (pr_slack p') ≠ [] ∧
    Forall (λ r, channel r = "#chain") (posted (pr_slack p')).
Proof.
  set (p := ProgramProps.start StartupToy.st 0 tt 0 tt 0%N : Prog).
  set (p' := from_option id p (run_actions StartupToy.st 10 Toy.schedule p)).
  assert (launch StartupToy.st (ms_jobs (snd started)) 0 tt 0 tt 0%N = Some p) as Hl
    by (vm_compute; reflexivity).
  assert (reachable StartupToy.st 10 p p') as Hr.
  { apply (run_actions_reachable StartupToy.st 10 Toy.schedule). vm_compute. reflexivity. }
  exists p, p'. split; [exact Hl|]. split; [exact Hr|]. split; [vm_compute; discriminate|].
  apply (command_line_to_slack toy_tree args cli first StartupToy.st (snd started) tt 0 tt 0%N
    10 p p' parsed eq_refl started_ok Hl Hr).
Defined.
